(* ===== verification/_CoqProject ===== *)
-Q . S2P
Prelude.v
LargeNumbers.v
LargeNumbers512.v
Paging.v
Frames.v
FrameOwners.v
Memory.v
SyscallDriver.v
BitFields.v
Bitmap.v
Signals.v
Process.v
Interrupts.v
Scheduler.v
Apic.v
AcpiHandler.v
PciIds.v
Pci.v
AhciDma.v
AhciPort.v
AhciRead.v
AhciStart.v
AcpiScheme.v
LargeFloat.v
Support.v
Locks.v
MemConc.v
SchemeConc.v
Hmfs.v
Hmfsprogs.v
Drm.v
Xhci.v
Boot.v
Runner.v
