(* ===== verification/Prelude.v ===== *)
(** * CryptOS kernel: verification library

    CryptOS is a kernel in Rust for x86_64 (src/src).  It boots with a memory map
    and the offset of a window through which all physical memory is visible, sets
    up a frame allocator, page mappings and a heap, finds its devices through ACPI
    and PCI, gives them interrupt vectors, starts the AHCI and XHCI drivers, draws its
    canvases to the framebuffer and schedules processes from an inter-processor
    interrupt.  User programs reach it through driver system calls and through schemes,
    of which the ACPI scheme is the only one.  Beside the kernel the repository has a
    runner, which builds and starts the disk image on the host, and the beginnings of a
    tool for the HMFS file system.  This library models that code as executable
    functions and proves what its components do.

    ** How code is modelled

    A function of the kernel is a Rocq function with the same name (prefixed by its
    type where names clash).  Cargo.toml turns overflow checks and debug
    assertions on and aborts on a panic, so a call has one of three outcomes
    ([outcome], Prelude): it returns, it panics, or it never returns ([Hang]: a
    loop that is not left, a lock that is not released, or a callee of type [!]).
    Integers are [Z] kept at their width by the checked operators [uadd], [usub],
    [umul], [ushl], .. and the wrapping ones ([wrap], [overflowing_add], ..).
    Statics and [&mut] parameters become explicit state: [KMem] for the memory
    globals and their locks, [IntState] for the interrupt tables, [SchedState] for
    the scheduler, [PciState] for the PCI subsystem, [AhciState] for the disk
    driver, [SchemeState] for the scheme, [Store] for the reference-counted objects of
    the file system, [Kernel] for the whole boot.  A lock is a flag of the state; locking
    a held lock is [Hang].  A panic ends a sequential run; what it leaves for other
    processors is part of MemConc and SchemeConc, where only the code that panicked stops
    and keeps the guards it has not dropped.  Where the claim is about several processors or threads (Locks,
    MemConc, SchemeConc), the operations are also steps on a state that has all of them,
    their interleavings are explicit, and theorems relate the runs of these steps to the
    sequential operations.

    Code that is not the kernel's is a type class with the operations the kernel
    calls, and a second class with their documented behaviour, which the theorems
    assume; each has an instance, so every assumption is satisfiable and every
    definition runs:
    - [X86Paging], [X86PagingLaws] (Paging): addresses, pages and frames of the
      x86_64 crate;
    - [PageMapper], [PageMapperLaws] (Memory): its page tables;
    - [BitField], [BitFieldLaws] (BitFields): the bit_field crate;
    - [RedoxAbi] (SyscallDriver), [SignalAbi] (Signals), [SchemeAbi] (AcpiScheme):
      the numbers of the syscall crate, and for the scheme also the size of the tables
      and where the linker put them;
    - [IdtIndexing], [IdtIndexingLaws] (Interrupts): which entries of the x86_64
      crate's descriptor table can be indexed;
    - classes for the pcics, acpi, aml and x2apic crates and the machine (Apic,
      AcpiHandler, Pci);
    - [HbaDevice] (AhciPort), [XhciHw] (Xhci): the disk and the USB controller,
      arbitrary, known by what reading and writing their registers answers;
    - [Gdt.GdtCrate] (Boot): the descriptor table of the x86_64 crate;
    - [AcpiTablesEnv], [BootEnv], [ShutdownEnv] (Boot): the tables the acpi crate finds,
      what the boot loader leaves, and the power-off package;
    - [Alloc] (Locks), [PhysBox.Global] (Support): the heap; [PortSpace] (Support): ports;
    - [HmfsEnv], [HmfsEnvLaws] (Hmfs): the hash map and SHA-3; [PngImage] (Drm): the image decoder;
    - [Host] (Runner): commands, files and the terminal of the host.

    ** Files

    - Prelude: outcomes, machine integers, little-endian bytes, bit lemmas,
      automation.
    - LargeNumbers, LargeNumbers512: [u256] and [u512] of common/large_numbers.rs,
      as pairs of limbs with the number they denote ([u256_val], [u512_val]).
    - Paging, Frames: the frame allocator of cralloc/frames.rs over the bootloader's
      memory map; [usable_addrs] is the list of frames it walks through.
    - FrameOwners: the frames its clients hold, beside the allocator.
    - Memory: [map_page!] and [unmap_page!] (common/macros.rs), [addralloc] and
      [XhciMapper] (common/mod.rs), [heap_init] (cralloc/mod.rs).
    - SyscallDriver: arch/x86_64/syscall/driver.rs.
    - BitFields, Bitmap: the bitmap of drivers/pci_impl.rs.
    - Signals, Process: process/signal.rs and process/mod.rs; the body of
      [Process::run] is a generator, split at its yield points.
    - Interrupts, Scheduler: arch/x86_64/interrupts.rs, the descriptor table and
      the allocation of vectors, then the scheduler and the exception handlers.
    - Apic, AcpiHandler: drivers/apic_impl.rs and drivers/acpi_impl.rs.
    - PciIds, Pci: the rest of drivers/pci_impl.rs, from identifiers to [pci_init].
    - AhciDma, AhciPort: drivers/ahci/mod.rs, first DMA requests and the structures
      of a command, then ports, slots and the driver's start; AhciRead: a read from end
      to end, with the controller's side of it; AhciStart: the start of a port.
    - AcpiScheme: scheme/acpi.rs.
    - LargeFloat: the floating-point conversions of common/large_numbers.rs.
    - Support: [int_like!] (common/macros.rs), the port instructions, the public wrappers
      of the ACPI handler, [PhysBox] (cralloc/mod.rs).
    - Locks: drivers/ahci/util/sync.rs ([Sync]), the sequence lock of common/mod.rs
      ([SeqLock]) and common/atomic_cell.rs ([AtomicCell]).
    - MemConc: [map_page!], [unmap_page!] and [allocate_frame] under the [IrqLock]s of
      common/mod.rs, on several processors with interrupts.
    - SchemeConc: the calls of scheme/acpi.rs from several threads.
    - Hmfs: fs/hmfs.rs, a tree of shared nodes; Hmfsprogs: hmfsprogs/src/main.rs.
    - Drm: drm/mod.rs, drm/avx_accel.rs and drm/cryptk.rs.
    - Xhci: drivers/xhci/mod.rs and mass_storage.rs.
    - Boot: main.rs, with arch/x86_64/exceptions.rs ([Gdt]), the logger of common/mod.rs
      and the tables and shutdown of drivers/acpi_impl.rs.
    - Runner: runner/src/main.rs.

    ** What is proved

    - Numbers: addition, subtraction, comparison, bitwise operators and byte
      encodings agree with arithmetic on the denoted number; multiplication and
      division panic on all operands; comparison with primitive integers is wrong
      below 2^128; conversion to floats is to the nearest one and exact up to 24 or 53
      bits.
    - Frames: successive allocations are distinct usable aligned frames; what
      freeing and allocating ranges really do; clients that free in reverse order never
      share a frame, and a range over a gap in memory breaks that.
    - Memory: a mapping is never replaced; [heap_init] backs each heap page by its own
      frame; [addralloc] takes exactly the frames its type needs and maps each of them;
      [XhciMapper] maps what it promises, except the last page of an unaligned range and
      the first page on unmapping.  On several processors the operations are atomic, also
      across panics, but asking for a lock that is taken ends the processor.
    - System calls: [iopl] is right, [physalloc] and [physmap] never succeed, and
      [physfree] takes its count for an address.
    - Bitmap, signals, processes: per-operation behaviour, round trips, the life of a
      process from its [main] to its exit, and that [Process::create] never returns.
    - Interrupts and scheduling: vectors are handed out once, handlers registered
      later are not loaded, an exception signals the current process unless that process
      caused it, in which case nothing returns, what a page fault maps, and that the
      scheduler never gets beyond its second tick.
    - Devices: the ACPI handler maps one page too high; the scan represents each
      kind of device found; MSI-X entries get distinct free vectors.
    - Disk: a request's buffers cover its bytes chunk by chunk, commands are laid out
      as the controller expects, slots run out and then requests spin; a read leaves the
      disk's bytes in the caller's buffer, except that buffers overlap in adjacent
      frames and that sectors from 2^24 to 2^28 are taken modulo 2^24; starting a port
      leaves it ready for reads.
    - USB: start-up makes the register writes of the specification's sequence with a
      frame of its own per buffer, and hangs as soon as a port is enabled; every block
      is classified by its type number.
    - Scheme: reads return the listing in order, and for the tables bytes of the kernel
      stack; descriptors live from open to close; calls
      from several threads are linearizable, and a read of the shutdown pipe blocks them.
    - Locks: the mutex excludes and restores the interrupt flag, but an interrupt inside
      a [lock] section can stop everyone; the sequence lock deadlocks on its first use;
      the cell's compare-exchange never swaps; [AtomicPid] is a register of identifiers.
    - File system: no entry can be added and no root can be made; hashing returns
      when the pointers lead down, and never for a directory with an entry that leads
      back to it.
    - Graphics: a canvas taken from a framebuffer and merged back is the framebuffer;
      drawing sets exactly the points drawn; what blending computes and where it panics.
    - Boot: which missing tables end it, that the picture is stable after the first turn
      of the rendering loop, that the descriptor table is exactly full, what a panic does.
    - Runner: it never installs anything, and only --write starts sudo.

    ** Bounds and fuel

    Loops whose number of iterations is known from their arguments carry a fuel
    computed from them and theorems show it is enough ([page_loop], [dma_alloc_loop],
    [protected_loop], the bitmap scans).  Loops that wait for a device, a debugger or
    another processor ([spin_while], [wait_done], [request_loop], [wait_hc],
    [breakpoint]), recursions through pointers ([kind_hash]) and endless ones ([render], [panic_handler]) take the fuel as an
    argument: a theorem that such a call returns names a fuel that suffices, one that it
    does not return holds for every fuel, one about an endless loop for every number of
    turns.  Theorems about mapped memory assume addresses below 2^45 or 2^47, so that
    sums stay canonical.

    ** What is not modelled

    The text of log messages, of the screen and of the runner's output; loading
    descriptor tables, CPU registers and port instructions beyond the state they leave
    (the vector unit's control register is taken to allow [xgetbv]); the order of
    relaxed atomics (steps are sequentially consistent); the widget structs of
    drm/cryptk.rs, which have no operations; [Pixelx16::new] and [from_array], and
    [root_entry_bytes], which return pointers that are leaked or dead; [get_mapper] and
    [get_falloc], which read statics that nothing sets; hardware flags the code
    declares and never uses; the crates named above; interrupts that cannot be masked
    (MemConc).  The FIS, PRDT entries and command
    headers of AHCI are kept by address in separate maps, since the code never reads one
    as the other, and apart from the bytes the controller stores: that the data of a read
    does not land on the command tables is part of what AhciRead assumes of the transfers.
    The scheduler and the exception handlers run on one core: the locks that code below
    them or on other cores holds are part of their state, and do not change meanwhile.

    ** Next

    A refinement of the whole boot, from the memory map to the first scheduled process,
    to one abstract machine; the interleavings of several cores in [task_sched], in the
    manner of MemConc. *)

From stdpp Require Export base tactics option list numbers strings gmap.
From Stdlib Require Export ZArith Lia.

#[export] Set Default Goal Selector "!".

(** ** Outcomes of kernel code

    The kernel is built with [panic = "abort"], [debug-assertions = true] and
    [overflow-checks = true] in every profile (Cargo.toml), so arithmetic
    overflow, an index out of bounds and a failed [unwrap] all end in the panic handler,
    which never returns.
    [Hang] is the outcome of a loop that is never left, of a lock that is never
    released, and of a call that does not return ([-> !]). *)

Inductive panic_info : Type :=
  | POverflow            (* arithmetic overflow with overflow-checks *)
  | PBounds              (* slice, array or map index out of bounds *)
  | PUnwrap              (* unwrap/expect on None or Err *)
  | PAssert              (* assert!, debug_assert!, unreachable!, todo! *)
  | PMsg (s : string).   (* panic!("...") *)

Inductive outcome (A : Type) : Type :=
  | Ret (a : A)
  | Panic (p : panic_info)
  | Hang.
Arguments Ret {A} a.
Arguments Panic {A} p.
Arguments Hang {A}.

#[export] Instance panic_info_eq_dec : EqDecision panic_info.
Proof. solve_decision. Defined.

#[export] Instance outcome_eq_dec `{EqDecision A} : EqDecision (outcome A).
Proof. solve_decision. Defined.

#[export] Instance outcome_ret : MRet outcome := @Ret.

#[export] Instance outcome_bind : MBind outcome := λ A B f m,
  match m with
  | Ret a => f a
  | Panic p => Panic p
  | Hang => Hang
  end.

#[export] Instance outcome_fmap : FMap outcome := λ A B f m,
  match m with
  | Ret a => Ret (f a)
  | Panic p => Panic p
  | Hang => Hang
  end.

(** [Option::unwrap]/[expect]. *)
Definition unwrap {A} (o : option A) : outcome A :=
  match o with Some a => Ret a | None => Panic PUnwrap end.

(** [assert!]/[debug_assert!]. *)
Definition rassert (b : bool) : outcome unit :=
  if b then Ret tt else Panic PAssert.

(** Index into a [Vec], slice or array: out of bounds panics. *)
Definition index {A} (l : list A) (i : Z) : outcome A :=
  if (0 <=? i)%Z then
    match l !! Z.to_nat i with Some a => Ret a | None => Panic PBounds end
  else Panic PBounds.

(** Assignment to an indexed place: out of bounds panics. *)
Definition index_set {A} (l : list A) (i : Z) (x : A) : outcome (list A) :=
  if ((0 <=? i) && (i <? Z.of_nat (length l)))%Z
  then Ret (<[Z.to_nat i := x]> l)
  else Panic PBounds.

(** [for x in xs { acc = f(acc, x) }] where the body may panic. *)
Fixpoint foldO {S A} (f : S → A → outcome S) (xs : list A) (s : S) : outcome S :=
  match xs with
  | [] => Ret s
  | x :: xs => s' ← f s x; foldO f xs s'
  end.

(** An equation whose left-hand side runs to its right-hand side. *)
Ltac vm_refl := match goal with |- _ = ?b => vm_cast_no_check (@eq_refl _ b) end.

(** ** Machine integers

    A [w]-bit unsigned integer is a [Z] in [0, 2^w). *)

Declare Scope mach_scope.
Delimit Scope mach_scope with mach.

Definition wrap (w x : Z) : Z := (x mod 2 ^ w)%Z.
Definition is_uN (w x : Z) : Prop := (0 <= x < 2 ^ w)%Z.
Definition uN_max (w : Z) : Z := (2 ^ w - 1)%Z.

(** Sign-reinterpretation of a wrapped value ([as iN]). *)
Definition swrap (w x : Z) : Z :=
  (let y := x mod 2 ^ w in if y <? 2 ^ (w - 1) then y else y - 2 ^ w)%Z.

(** Overflow-checked operators. *)
Definition uadd (w a b : Z) : outcome Z :=
  (if a + b <? 2 ^ w then Ret (a + b) else Panic POverflow)%Z.
Definition usub (a b : Z) : outcome Z :=
  (if b <=? a then Ret (a - b) else Panic POverflow)%Z.
Definition umul (w a b : Z) : outcome Z :=
  (if a * b <? 2 ^ w then Ret (a * b) else Panic POverflow)%Z.
(** [a << s]: the shift amount is checked, the bits shifted out are dropped. *)
Definition ushl (w a s : Z) : outcome Z :=
  (if (0 <=? s) && (s <? w) then Ret (wrap w (Z.shiftl a s)) else Panic POverflow)%Z.
Definition ushr (w a s : Z) : outcome Z :=
  (if (0 <=? s) && (s <? w) then Ret (Z.shiftr a s) else Panic POverflow)%Z.
Definition udiv (a b : Z) : outcome Z :=
  (if b =? 0 then Panic POverflow else Ret (a / b))%Z.

(** [overflowing_add] and friends: the wrapped result and the overflow flag. *)
Definition overflowing_add (w a b : Z) : Z * bool :=
  (wrap w (a + b), 2 ^ w <=? a + b)%Z.
Definition overflowing_sub (w a b : Z) : Z * bool :=
  (wrap w (a - b), a <? b)%Z.
Definition overflowing_mul (w a b : Z) : Z * bool :=
  (wrap w (a * b), 2 ^ w <=? a * b)%Z.
(** [checked_sub] and [saturating_add]. *)
Definition checked_sub (a b : Z) : option Z :=
  (if b <=? a then Some (a - b) else None)%Z.
Definition saturating_add (w a b : Z) : Z := Z.min (a + b) (uN_max w).

(** Bitwise complement of a [w]-bit integer. *)
Definition unot (w a : Z) : Z := (2 ^ w - 1 - a)%Z.

(** [to_le_bytes]/[from_be_bytes]: bytes are [Z] in [0, 256). *)
Fixpoint to_le_bytes (n : nat) (x : Z) : list Z :=
  match n with
  | O => []
  | S n => (x mod 256)%Z :: to_le_bytes n (x / 256)%Z
  end.
Fixpoint from_le_bytes (bs : list Z) : Z :=
  match bs with
  | [] => 0
  | b :: bs => b + 256 * from_le_bytes bs
  end%Z.
Definition to_be_bytes (n : nat) (x : Z) : list Z := reverse (to_le_bytes n x).
Definition from_be_bytes (bs : list Z) : Z := from_le_bytes (reverse bs).

Notation "x +! y" := (uadd 64 x y) (at level 50, left associativity) : mach_scope.
Notation "x -! y" := (usub x y) (at level 50, left associativity) : mach_scope.
Notation "x *! y" := (umul 64 x y) (at level 40, left associativity) : mach_scope.

#[global] Arguments wrap : simpl never.
#[global] Arguments swrap : simpl never.
#[global] Arguments uadd : simpl never.
#[global] Arguments usub : simpl never.
#[global] Arguments umul : simpl never.
#[global] Arguments ushl : simpl never.
#[global] Arguments ushr : simpl never.
#[global] Arguments udiv : simpl never.
#[global] Arguments overflowing_add : simpl never.
#[global] Arguments overflowing_sub : simpl never.
#[global] Arguments overflowing_mul : simpl never.
#[global] Arguments index : simpl never.
#[global] Arguments index_set : simpl never.

(** ** Shared automation *)

Create HintDb mach discriminated.
Create Rewrite HintDb mach.

Ltac z_bool :=
  repeat match goal with
  | H : (_ <? _)%Z = true |- _ => apply Z.ltb_lt in H
  | H : (_ <? _)%Z = false |- _ => apply Z.ltb_ge in H
  | H : (_ <=? _)%Z = true |- _ => apply Z.leb_le in H
  | H : (_ <=? _)%Z = false |- _ => apply Z.leb_gt in H
  | H : (_ =? _)%Z = true |- _ => apply Z.eqb_eq in H
  | H : (_ =? _)%Z = false |- _ => apply Z.eqb_neq in H
  | H : (_ && _) = true |- _ => apply andb_true_iff in H as [? ?]
  | H : (_ || _) = false |- _ => apply orb_false_iff in H as [? ?]
  end.

(** Case on every boolean comparison of the goal. *)
Ltac z_cases :=
  repeat match goal with
  | |- context [(?a <? ?b)%Z] => destruct (Z.ltb_spec a b)
  | |- context [(?a <=? ?b)%Z] => destruct (Z.leb_spec a b)
  | |- context [(?a =? ?b)%Z] => destruct (Z.eqb_spec a b)
  end.

(** Turn [div]/[mod] into their defining equations and call [lia]. *)
Ltac zdm := Z.to_euclidean_division_equations; nia.

Lemma pow2_pos (w : Z) : (0 <= w → 0 < 2 ^ w)%Z.
Proof. intros. by apply Z.pow_pos_nonneg. Qed.

Lemma wrap_range (w x : Z) : (0 <= w)%Z → is_uN w (wrap w x).
Proof. intros. apply Z.mod_pos_bound. by apply pow2_pos. Qed.

Lemma wrap_small (w x : Z) : is_uN w x → wrap w x = x.
Proof. intros. by apply Z.mod_small. Qed.

Lemma uadd_ret (w a b : Z) : (a + b < 2 ^ w)%Z → uadd w a b = Ret (a + b)%Z.
Proof. unfold uadd. intros. z_cases; [done|lia]. Qed.
Lemma uadd_panic (w a b : Z) : (2 ^ w <= a + b)%Z → uadd w a b = Panic POverflow.
Proof. unfold uadd. intros. z_cases; [lia|done]. Qed.
Lemma usub_ret (a b : Z) : (b <= a)%Z → usub a b = Ret (a - b)%Z.
Proof. unfold usub. intros. z_cases; [done|lia]. Qed.
Lemma usub_panic (a b : Z) : (a < b)%Z → usub a b = Panic POverflow.
Proof. unfold usub. intros. z_cases; [lia|done]. Qed.
Lemma uadd_inv (w a b c : Z) : uadd w a b = Ret c → c = (a + b)%Z ∧ (a + b < 2 ^ w)%Z.
Proof. unfold uadd. z_cases; [by intros [= <-]|done]. Qed.
Lemma usub_inv (a b c : Z) : usub a b = Ret c → c = (a - b)%Z ∧ (b <= a)%Z.
Proof. unfold usub. z_cases; [by intros [= <-]|done]. Qed.
Lemma umul_ret (w a b : Z) : (a * b < 2 ^ w)%Z → umul w a b = Ret (a * b)%Z.
Proof. unfold umul. intros. z_cases; [done|lia]. Qed.

Lemma ushl_ret w a s : (0 <= s < w)%Z → ushl w a s = Ret (wrap w (Z.shiftl a s)).
Proof. intros. unfold ushl. z_cases; simpl; try done; lia. Qed.
Lemma ushl_over w a s : (w <= s)%Z → ushl w a s = Panic POverflow.
Proof. intros. unfold ushl. z_cases; simpl; try done; lia. Qed.
Lemma ushr_ret w a s : (0 <= s < w)%Z → ushr w a s = Ret (Z.shiftr a s).
Proof. intros. unfold ushr. z_cases; simpl; try done; lia. Qed.

Lemma index_ret {A} (l : list A) (i : Z) (x : A) :
  (0 <= i)%Z → l !! Z.to_nat i = Some x → index l i = Ret x.
Proof. unfold index. intros ? ->. z_cases; [done|lia]. Qed.
Lemma index_panic {A} (l : list A) (i : Z) :
  (Z.of_nat (length l) <= i)%Z → index l i = Panic PBounds.
Proof.
  unfold index. intros. z_cases; [|done].
  rewrite lookup_ge_None_2; [done|lia].
Qed.
Lemma index_set_ret {A} (l : list A) (i : Z) (x : A) :
  (0 <= i < Z.of_nat (length l))%Z →
  index_set l i x = Ret (<[Z.to_nat i := x]> l).
Proof. unfold index_set. intros. z_cases; simpl; [done|lia..]. Qed.

Lemma foldO_app {S A} (f : S → A → outcome S) xs ys s :
  foldO f (xs ++ ys) s = s' ← foldO f xs s; foldO f ys s'.
Proof.
  revert s. induction xs as [|x xs IH]; intros s; simpl; [done|].
  destruct (f s x); simpl; [apply IH|done..].
Qed.

Lemma index_set_inv {A} (l : list A) (i : Z) (x : A) l' :
  index_set l i x = Ret l' → (0 <= i < Z.of_nat (length l))%Z ∧ l' = <[Z.to_nat i := x]> l.
Proof. unfold index_set. z_cases; simpl; intros [=]; done. Qed.

(** A sequence that returns: each part did. *)
Lemma bind_ret_inv {A B} (m : outcome A) (f : A → outcome B) b :
  (m ≫= f) = Ret b → ∃ a, m = Ret a ∧ f a = Ret b.
Proof. destruct m; simpl; [eauto|done..]. Qed.

(** A loop body that may panic but never hangs, and keeps [I]. *)
Lemma foldO_inv {S A} (f : S → A → outcome S) (I : S → Prop) :
  (∀ s x s', I s → f s x = Ret s' → I s') → ∀ xs s s', I s → foldO f xs s = Ret s' → I s'.
Proof.
  intros Hf xs. induction xs as [|x xs IH]; intros s s' Hs; simpl.
  - by intros [= <-].
  - intros (s1 & H1 & H2)%bind_ret_inv. eauto.
Qed.
Lemma foldO_no_hang {S A} (f : S → A → outcome S) xs s :
  (∀ s x, f s x ≠ Hang) → foldO f xs s ≠ Hang.
Proof.
  intros Hf. revert s. induction xs as [|x xs IH]; intros s; simpl; [done|].
  specialize (Hf s x). destruct (f s x); simpl; [apply IH|done..].
Qed.

#[export] Hint Rewrite @index_ret @index_set_ret uadd_ret usub_ret umul_ret
  ushl_ret ushr_ret
  using (simpl; lia) : mach.

Lemma length_to_le_bytes n x : length (to_le_bytes n x) = n.
Proof. revert x. induction n; intros; simpl; [done|]. by rewrite IHn. Qed.

Lemma to_le_bytes_bytes n x : Forall (is_uN 8) (to_le_bytes n x).
Proof.
  revert x. induction n; intros; simpl; constructor; [|done].
  unfold is_uN. apply Z.mod_pos_bound. lia.
Qed.

(** Reading back little-endian bytes truncates to the number of bytes. *)
Lemma from_to_le_bytes n x :
  (0 <= x)%Z → from_le_bytes (to_le_bytes n x) = (x mod 256 ^ Z.of_nat n)%Z.
Proof.
  revert x. induction n as [|n IH]; intros x Hx.
  - by rewrite Z.mod_1_r.
  - cbn [to_le_bytes from_le_bytes]. rewrite IH by (apply Z.div_pos; lia).
    rewrite Nat2Z.inj_succ, Z.pow_succ_r by lia.
    rewrite (Z.rem_mul_r x 256) by (lia || apply Z.pow_nonzero; lia). lia.
Qed.

Lemma from_le_bytes_app bs cs :
  from_le_bytes (bs ++ cs) =
  (from_le_bytes bs + 256 ^ Z.of_nat (length bs) * from_le_bytes cs)%Z.
Proof.
  induction bs as [|b bs IH]; [simpl; lia|].
  cbn [app from_le_bytes length]. rewrite IH, Nat2Z.inj_succ, Z.pow_succ_r by lia. lia.
Qed.

Lemma from_le_bytes_range bs :
  Forall (is_uN 8) bs →
  (0 <= from_le_bytes bs < 256 ^ Z.of_nat (length bs))%Z.
Proof.
  unfold is_uN. induction 1 as [|b bs Hb _ IH]; [simpl; lia|].
  cbn [from_le_bytes length]. rewrite Nat2Z.inj_succ, Z.pow_succ_r by lia.
  change (2 ^ 8)%Z with 256%Z in Hb. lia.
Qed.

(** Every byte string is the encoding of the number it denotes. *)
Lemma to_from_le_bytes bs :
  Forall (is_uN 8) bs → to_le_bytes (length bs) (from_le_bytes bs) = bs.
Proof.
  unfold is_uN. change (2 ^ 8)%Z with 256%Z.
  induction 1 as [|b bs Hb _ IH]; [done|]. cbn [from_le_bytes length to_le_bytes].
  rewrite (Z.mul_comm 256), Z.mod_add, Z.mod_small, Z.div_add, Z.div_small by lia.
  by rewrite Z.add_0_l, IH.
Qed.

(** ** Bits of a two-limb number *)

Lemma testbit_limbs (n a b i : Z) :
  (0 <= n → 0 <= i → 0 <= a < 2 ^ n →
   Z.testbit (a + 2 ^ n * b) i = if i <? n then Z.testbit a i else Z.testbit b (i - n))%Z.
Proof.
  intros Hn Hi Ha. z_cases.
  - rewrite <- (Z.mod_pow2_bits_low _ n) by lia.
    by rewrite Z.mul_comm, Z.mod_add, Z.mod_small by (lia || apply Z.pow_nonzero; lia).
  - replace i with (i - n + n)%Z at 1 by lia. rewrite <- Z.div_pow2_bits by lia.
    rewrite Z.mul_comm, Z.div_add, Z.div_small by (lia || apply Z.pow_nonzero; lia).
    by rewrite Z.add_0_l.
Qed.

(** A bitwise operator acts limb by limb. *)
Lemma bitop_limbs (op : Z → Z → Z) (f : bool → bool → bool) (n a b c d : Z) :
  (∀ x y i, 0 <= i → Z.testbit (op x y) i = f (Z.testbit x i) (Z.testbit y i))%Z →
  (0 <= n → 0 <= a < 2 ^ n → 0 <= c < 2 ^ n → 0 <= op a c < 2 ^ n →
   op (a + 2 ^ n * b) (c + 2 ^ n * d) = op a c + 2 ^ n * op b d)%Z.
Proof.
  intros Hop Hn Ha Hc Hac. apply Z.bits_inj'. intros i Hi.
  rewrite Hop, !testbit_limbs, !Hop by lia.
  z_cases; [done|]. by rewrite Hop by lia.
Qed.

Lemma testbit_high (n x i : Z) :
  (0 <= x < 2 ^ n → n <= i → Z.testbit x i = false)%Z.
Proof.
  intros Hx Hi. destruct (decide (x = 0)%Z) as [->|]; [apply Z.bits_0|].
  assert (0 <= n)%Z by (destruct (decide (0 <= n)%Z); [done|];
    rewrite Z.pow_neg_r in Hx by lia; lia).
  apply Z.bits_above_log2; [lia|]. apply Z.log2_lt_pow2; [lia|].
  apply Z.lt_le_trans with (2 ^ n)%Z; [lia|]. apply Z.pow_le_mono_r; lia.
Qed.

(** Non-negative numbers with no bit at or above [n] are below [2^n]. *)
Lemma bits_below (n x : Z) :
  (0 <= n → 0 <= x → (∀ i, n <= i → Z.testbit x i = false) → x < 2 ^ n)%Z.
Proof.
  intros Hn Hx Hb. destruct (decide (x = 0)%Z) as [->|]; [apply pow2_pos; lia|].
  apply Z.log2_lt_pow2; [lia|]. destruct (decide (Z.log2 x < n)%Z); [done|].
  specialize (Hb (Z.log2 x) ltac:(lia)). rewrite Z.bit_log2 in Hb by lia. done.
Qed.

Lemma land_uN n a b : (0 <= n)%Z → is_uN n a → is_uN n b → is_uN n (Z.land a b).
Proof.
  intros Hn Ha Hb. split; [apply Z.land_nonneg; unfold is_uN in *; lia|].
  apply bits_below; [done|apply Z.land_nonneg; unfold is_uN in *; lia|].
  intros. by rewrite Z.land_spec, (testbit_high n a) by done.
Qed.
Lemma lor_uN n a b : (0 <= n)%Z → is_uN n a → is_uN n b → is_uN n (Z.lor a b).
Proof.
  intros Hn Ha Hb. split; [apply Z.lor_nonneg; unfold is_uN in *; lia|].
  apply bits_below; [done|apply Z.lor_nonneg; unfold is_uN in *; lia|].
  intros. by rewrite Z.lor_spec, (testbit_high n a), (testbit_high n b) by done.
Qed.
Lemma lxor_uN n a b : (0 <= n)%Z → is_uN n a → is_uN n b → is_uN n (Z.lxor a b).
Proof.
  intros Hn Ha Hb.
  assert (0 <= Z.lxor a b)%Z by (apply Z.lxor_nonneg; unfold is_uN in *; lia).
  split; [done|]. apply bits_below; [done..|].
  intros. by rewrite Z.lxor_spec, (testbit_high n a), (testbit_high n b) by done.
Qed.
Lemma unot_uN n a : is_uN n a → is_uN n (unot n a).
Proof. unfold is_uN, unot. lia. Qed.

Lemma unot_testbit n a i :
  (0 <= i < n)%Z → is_uN n a → Z.testbit (unot n a) i = negb (Z.testbit a i).
Proof.
  intros Hi Ha. unfold is_uN, unot in *.
  replace (2 ^ n - 1 - a)%Z with (Z.lnot a mod 2 ^ n)%Z.
  - by rewrite Z.mod_pow2_bits_low, Z.lnot_spec by lia.
  - unfold Z.lnot. symmetry. apply (Z.mod_unique _ _ (-1)); lia.
Qed.

(** The bits of a mask of two adjacent bits. *)
Lemma testbit_mask3 s i :
  (0 <= s → 0 <= i → Z.testbit (Z.shiftl 3 s) i = ((i =? s) || (i =? s + 1)))%Z.
Proof.
  intros Hs Hi. rewrite Z.shiftl_spec by lia. z_cases; simpl; try lia.
  - by replace (i - s)%Z with 0%Z by lia.
  - by replace (i - s)%Z with 1%Z by lia.
  - destruct (decide (i < s)%Z); [by rewrite Z.testbit_neg_r by lia|].
    apply (testbit_high 2); lia.
Qed.

#[export] Hint Resolve land_uN lor_uN lxor_uN unot_uN : mach.
