(* ===== verification/LargeNumbers.v ===== *)
(** * The 256-bit integer of src/common/large_numbers.rs

    [u256] is a pair of [u128] limbs, least significant first.  Every loop of
    the source runs over the two limb indices and indexes the limb arrays, so
    each operation is written in the [outcome] monad: an index past the second
    limb or a shift amount past 127 is a panic.  [u256_val] is the number a
    value denotes. *)

From S2P Require Import Prelude.

Local Open Scope Z_scope.

(** ** Two-element arrays, [[T; 2]] *)

Record arr2 (A : Type) : Type := Arr2 { a0 : A; a1 : A }.
Arguments Arr2 {A} _ _.
Arguments a0 {A} _.
Arguments a1 {A} _.

Definition aget {A} (a : arr2 A) (i : nat) : outcome A :=
  match i with
  | 0%nat => Ret (a0 a)
  | 1%nat => Ret (a1 a)
  | _ => Panic PBounds
  end.

Definition aset {A} (a : arr2 A) (i : nat) (x : A) : outcome (arr2 A) :=
  match i with
  | 0%nat => Ret (Arr2 x (a1 a))
  | 1%nat => Ret (Arr2 (a0 a) x)
  | _ => Panic PBounds
  end.

(** [for i in 0..2] and [for i in (0..2).rev()]. *)
Definition up2 : list nat := [0%nat; 1%nat].
Definition down2 : list nat := [1%nat; 0%nat].

(** ** The type and its constructors *)

Definition u256 : Type := arr2 Z.

Definition u256_new (a b : Z) : u256 := Arr2 a b.

Definition u256_to_le_bytes (self : u256) : list Z :=
  to_le_bytes 16 (a0 self) ++ to_le_bytes 16 (a1 self).

(** The other primitive integer types that the conversions range over. *)
Inductive prim : Type :=
  | U8 | U16 | U32 | U64 | U128 | Usize
  | I8 | I16 | I32 | I64 | I128 | Isize.

#[export] Instance prim_eq_dec : EqDecision prim.
Proof. solve_decision. Defined.

Definition prim_bits (t : prim) : Z :=
  match t with
  | U8 | I8 => 8 | U16 | I16 => 16 | U32 | I32 => 32
  | U64 | I64 | Usize | Isize => 64 | U128 | I128 => 128
  end.

Definition prim_signed (t : prim) : bool :=
  match t with U8 | U16 | U32 | U64 | U128 | Usize => false | _ => true end.

(** The values of a primitive type. *)
Definition prim_ok (t : prim) (v : Z) : Prop :=
  if prim_signed t
  then - 2 ^ (prim_bits t - 1) <= v < 2 ^ (prim_bits t - 1)
  else 0 <= v < 2 ^ prim_bits t.

(** [v as t]. *)
Definition as_prim (t : prim) (v : Z) : Z :=
  if prim_signed t then swrap (prim_bits t) v else wrap (prim_bits t) v.

(** [impl From<t> for u256]: [Self([value as u128, 0])]. *)
Definition u256_from (t : prim) (value : Z) : u256 := Arr2 (as_prim U128 value) 0.
Definition u256_from_u128 (value : Z) : u256 := Arr2 value 0.
Definition u256_from_bool (value : bool) : u256 := Arr2 (if value then 1 else 0) 0.

(** [impl From<u256> for t]: [value.0[0] as t]. *)
Definition u256_into (t : prim) (value : u256) : Z := as_prim t (a0 value).
Definition u256_into_bool (value : u256) : bool := negb (a0 value =? 0).
(** [value.0[0] as u8 as char]. *)
Definition u256_into_char (value : u256) : Z := as_prim U8 (a0 value).
Definition u256_into_bytes (value : u256) : list Z :=
  to_le_bytes 16 (a0 value) ++ to_le_bytes 16 (a1 value).

(** ** Arithmetic *)

(** The body of the addition loop: one limb sum with the incoming carry. *)
Definition u256_add_step (self rhs : u256) (st : u256 * Z) (i : nat) : outcome (u256 * Z) :=
  let '(out, carry) := st in
  a ← aget self i; b ← aget rhs i;
  let '(sum, overflow) := overflowing_add 128 a b in
  let '(sum, overflow2) := overflowing_add 128 sum carry in
  let carry := if overflow || overflow2 then 1 else 0 in
  out ← aset out i sum;
  Ret (out, carry).

Definition u256_overflowing_add (self rhs : u256) : outcome (u256 * bool) :=
  '(out, carry) ← foldO (u256_add_step self rhs) up2 (Arr2 0 0, 0);
  Ret (out, negb (carry =? 0)).

Definition u256_sub_step (self rhs : u256) (st : u256 * Z) (i : nat) : outcome (u256 * Z) :=
  let '(out, carry) := st in
  a ← aget self i; b ← aget rhs i;
  let '(sum, overflow) := overflowing_sub 128 a b in
  let '(sum, overflow2) := overflowing_sub 128 sum carry in
  let carry := if overflow || overflow2 then 1 else 0 in
  out ← aset out i sum;
  Ret (out, carry).

Definition u256_overflowing_sub (self rhs : u256) : outcome (u256 * bool) :=
  '(out, carry) ← foldO (u256_sub_step self rhs) up2 (Arr2 0 0, 0);
  Ret (out, negb (carry =? 0)).

(** [Add] and [Sub] repeat the loops and drop the flag. *)
Definition u256_add (self rhs : u256) : outcome u256 :=
  '(out, _) ← foldO (u256_add_step self rhs) up2 (Arr2 0 0, 0); Ret out.
Definition u256_sub (self rhs : u256) : outcome u256 :=
  '(out, _) ← foldO (u256_sub_step self rhs) up2 (Arr2 0 0, 0); Ret out.

(** The inner body of the multiplication loop, at limb indices [i] and [j]. *)
Definition u256_mul_step (self rhs : u256) (i : nat) (st : u256 * Z) (j : nat)
    : outcome (u256 * Z) :=
  let '(out, carry) := st in
  a ← aget self i; b ← aget rhs j;
  let '(sum, overflow) := overflowing_mul 128 a b in
  o ← aget out (i + j);
  let '(sum, overflow2) := overflowing_add 128 sum o in
  let '(sum, overflow3) := overflowing_add 128 sum carry in
  let carry := if overflow || overflow2 || overflow3 then 1 else 0 in
  out ← aset out (i + j) sum;
  Ret (out, carry).

Definition u256_mul_loop (self rhs : u256) : outcome u256 :=
  foldO (λ out i, '(out, _) ← foldO (u256_mul_step self rhs i) up2 (out, 0); Ret out)
    up2 (Arr2 0 0).

Definition u256_overflowing_mul (self rhs : u256) : outcome (u256 * bool) :=
  out ← u256_mul_loop self rhs; Ret (out, false).
Definition u256_mul (self rhs : u256) : outcome u256 := u256_mul_loop self rhs.

(** ** Shifts: each limb is shifted by the corresponding limb of [rhs] *)

Definition u256_shl (self rhs : u256) : outcome u256 :=
  foldO (λ out i, a ← aget self i; s ← aget rhs i; x ← ushl 128 a s; aset out i x)
    up2 (Arr2 0 0).
Definition u256_shr (self rhs : u256) : outcome u256 :=
  foldO (λ out i, a ← aget self i; s ← aget rhs i; x ← ushr 128 a s; aset out i x)
    up2 (Arr2 0 0).
Definition u256_shl_u128 (self : u256) (rhs : Z) : outcome u256 :=
  u256_shl self (u256_from_u128 rhs).
Definition u256_shr_u128 (self : u256) (rhs : Z) : outcome u256 :=
  u256_shr self (u256_from_u128 rhs).

(** ** Division: the inner body at indices [i] and [j], over [out] and [carry] *)

Definition u256_div_step (remainder rhs : u256) (i : nat) (st : u256 * Z) (j : nat)
    : outcome (u256 * Z) :=
  let '(out, carry) := st in
  r ← aget remainder j;
  c ← u256_shl_u128 (u256_from_u128 carry) 128;
  let '(sum, overflow) := overflowing_add 128 r (u256_into U128 c) in
  b ← aget rhs i;
  let '(sum, overflow2) := overflowing_mul 128 sum b in
  o ← aget out (i + j);
  let '(sum, overflow3) := overflowing_add 128 sum o in
  let carry := if overflow || overflow2 || overflow3 then 1 else 0 in
  out ← aset out (i + j) sum;
  Ret (out, carry).

(** The outer loop; the result is the pair of [out] and [remainder]. *)
Definition u256_div_loop (self rhs : u256) : outcome (u256 * u256) :=
  foldO (λ '(out, remainder) i,
      '(out, carry) ← foldO (u256_div_step remainder rhs i) down2 (out, 0);
      remainder ← aset remainder i carry;
      Ret (out, remainder))
    down2 (Arr2 0 0, self).

Definition u256_overflowing_div (self rhs : u256) : outcome (u256 * bool) :=
  '(_, remainder) ← u256_div_loop self rhs; Ret (remainder, false).
Definition u256_div (self rhs : u256) : outcome u256 :=
  '(out, _) ← u256_div_loop self rhs; Ret out.
Definition u256_rem (self rhs : u256) : outcome u256 :=
  '(_, remainder) ← u256_div_loop self rhs; Ret remainder.

(** ** Bitwise operators *)

Definition u256_bitand (self rhs : u256) : outcome u256 :=
  foldO (λ out i, a ← aget self i; b ← aget rhs i; aset out i (Z.land a b)) up2 (Arr2 0 0).
Definition u256_bitor (self rhs : u256) : outcome u256 :=
  foldO (λ out i, a ← aget self i; b ← aget rhs i; aset out i (Z.lor a b)) up2 (Arr2 0 0).
Definition u256_bitxor (self rhs : u256) : outcome u256 :=
  foldO (λ out i, a ← aget self i; b ← aget rhs i; aset out i (Z.lxor a b)) up2 (Arr2 0 0).
Definition u256_not (self : u256) : outcome u256 :=
  foldO (λ out i, a ← aget self i; aset out i (unot 128 a)) up2 (Arr2 0 0).
Definition u256_neg (self : u256) : outcome u256 :=
  out ← foldO (λ out i, a ← aget self i; aset out i (unot 128 a)) up2 (Arr2 0 0);
  u256_add out (u256_from_u128 1).

(** The assigning forms: the new value of [self]. *)
Definition u256_add_assign (self rhs : u256) : outcome u256 := u256_add self rhs.
Definition u256_sub_assign (self rhs : u256) : outcome u256 := u256_sub self rhs.
Definition u256_mul_assign (self rhs : u256) : outcome u256 := u256_mul self rhs.
Definition u256_div_assign (self rhs : u256) : outcome u256 := u256_div self rhs.
Definition u256_rem_assign (self rhs : u256) : outcome u256 := u256_rem self rhs.
Definition u256_bitand_assign (self rhs : u256) : outcome u256 := u256_bitand self rhs.
Definition u256_bitor_assign (self rhs : u256) : outcome u256 := u256_bitor self rhs.
Definition u256_bitxor_assign (self rhs : u256) : outcome u256 := u256_bitxor self rhs.
Definition u256_shl_assign (self rhs : u256) : outcome u256 := u256_shl self rhs.
Definition u256_shr_assign (self rhs : u256) : outcome u256 := u256_shr self rhs.

(** The binary operators of the type, for the [u128] right-hand sides and the
    assigning forms that the source derives from them. *)
Inductive binop : Type :=
  | OpAdd | OpSub | OpMul | OpDiv | OpRem | OpAnd | OpOr | OpXor | OpShl | OpShr.

Definition u256_op (o : binop) : u256 → u256 → outcome u256 :=
  match o with
  | OpAdd => u256_add | OpSub => u256_sub | OpMul => u256_mul
  | OpDiv => u256_div | OpRem => u256_rem
  | OpAnd => u256_bitand | OpOr => u256_bitor | OpXor => u256_bitxor
  | OpShl => u256_shl | OpShr => u256_shr
  end.

(** [impl Op<u128> for u256]: [self op Self::from(rhs)]; the [OpAssign] forms
    store the same result in [self]. *)
Definition u256_op_u128 (o : binop) (self : u256) (rhs : Z) : outcome u256 :=
  u256_op o self (u256_from_u128 rhs).

(** [impl Index<u256> for u256]: [&self.0[index.0[0] as usize]]. *)
Definition u256_index (self ix : u256) : outcome Z :=
  match as_prim Usize (a0 ix) with
  | 0 => Ret (a0 self)
  | 1 => Ret (a1 self)
  | _ => Panic PBounds
  end.
Definition u256_index_set (self ix : u256) (x : Z) : outcome u256 :=
  match as_prim Usize (a0 ix) with
  | 0 => Ret (Arr2 x (a1 self))
  | 1 => Ret (Arr2 (a0 self) x)
  | _ => Panic PBounds
  end.

(** ** Comparisons *)

Definition u256_eq (self other : u256) : bool :=
  (a0 self =? a0 other) && (a1 self =? a1 other).

(** [impl PartialEq<t> for u256]. *)
Definition u256_eq_prim (self : u256) (t : prim) (other : Z) : bool :=
  (a0 self =? as_prim U128 other) && (a1 self =? 0).

Definition u256_partial_cmp (self other : u256) : option comparison :=
  if a1 self >? a1 other then Some Gt
  else if a1 self <? a1 other then Some Lt
  else if a0 self >? a0 other then Some Gt
  else if a0 self <? a0 other then Some Lt
  else Some Eq.

(** [impl PartialOrd<t> for u256] for the unsigned [t]; the second test is
    [self.0[1] == 0]. *)
Definition u256_partial_cmp_prim (self : u256) (t : prim) (other : Z) : option comparison :=
  if a1 self >? 0 then Some Gt
  else if a1 self =? 0 then Some Lt
  else if a0 self >? as_prim U128 other then Some Gt
  else if a0 self <? as_prim U128 other then Some Lt
  else Some Eq.

Definition u256_cmp (self other : u256) : comparison :=
  if a1 self >? a1 other then Gt
  else if a1 self <? a1 other then Lt
  else if a0 self >? a0 other then Gt
  else if a0 self <? a0 other then Lt
  else Eq.

(** ** Formatting: the high limb's digits followed by the low limb's *)

Inductive radix : Type := Decimal | LowerHex | UpperHex | Binary | Octal.

Definition radix_base (r : radix) : Z :=
  match r with Decimal => 10 | LowerHex | UpperHex => 16 | Binary => 2 | Octal => 8 end.

Definition digit_char (r : radix) (d : Z) : Ascii.ascii :=
  if d <? 10 then Ascii.ascii_of_nat (48 + Z.to_nat d)
  else match r with
       | UpperHex => Ascii.ascii_of_nat (55 + Z.to_nat d)
       | _ => Ascii.ascii_of_nat (87 + Z.to_nat d)
       end.

(** Digits of a limb, most significant first, pushed in front of [acc]; a limb
    has at most 128 digits in any radix. *)
Fixpoint limb_digits (fuel : nat) (r : radix) (x : Z) (acc : string) : string :=
  match fuel with
  | O => acc
  | S fuel =>
      let acc := String (digit_char r (x mod radix_base r)) acc in
      if x <? radix_base r then acc else limb_digits fuel r (x / radix_base r) acc
  end.

Definition limb_fmt (r : radix) (x : Z) : string := limb_digits 128 r x EmptyString.

(** [write!(f, "{}{}", self.0[1], self.0[0])] and its radix variants. *)
Definition u256_fmt (r : radix) (self : u256) : string :=
  (limb_fmt r (a1 self) +:+ limb_fmt r (a0 self))%string.
(** [Debug] prints the same digits as the debug form of a [String]. *)
Definition u256_fmt_debug (self : u256) : string :=
  let q := String (Ascii.ascii_of_nat 34) EmptyString in
  (q +:+ (limb_fmt Decimal (a1 self) +:+ limb_fmt Decimal (a0 self)) +:+ q)%string.

#[global] Arguments u256_overflowing_add : simpl never.
#[global] Arguments u256_overflowing_sub : simpl never.
#[global] Arguments u256_overflowing_mul : simpl never.

(** ** Values and well-formedness *)

Definition u256_wf (x : u256) : Prop := is_uN 128 (a0 x) ∧ is_uN 128 (a1 x).
Definition u256_val (x : u256) : Z := a0 x + 2 ^ 128 * a1 x.

Lemma u256_val_range x : u256_wf x → is_uN 256 (u256_val x).
Proof. unfold u256_wf, is_uN, u256_val. lia. Qed.

Lemma u256_val_inj x y : u256_wf x → u256_wf y → u256_val x = u256_val y → x = y.
Proof.
  destruct x as [x0 x1], y as [y0 y1]. unfold u256_wf, is_uN, u256_val; simpl.
  intros. assert (x1 = y1) by lia. subst. f_equal. lia.
Qed.

Lemma u256_from_u128_wf v : is_uN 128 v → u256_wf (u256_from_u128 v).
Proof. split; [done|]. unfold is_uN. simpl. lia. Qed.

Lemma u256_from_u128_val v : u256_val (u256_from_u128 v) = v.
Proof. unfold u256_val; simpl. lia. Qed.

#[export] Hint Resolve u256_val_range u256_from_u128_wf : mach.

(** One wrapped limb addition: the flag is the carry out. *)
Lemma limb_add_spec a b c :
  is_uN 128 a → is_uN 128 b → 0 <= c <= 1 →
  let '(s, o) := overflowing_add 128 a b in
  let '(s', o') := overflowing_add 128 s c in
  is_uN 128 s' ∧ a + b + c = s' + 2 ^ 128 * (if o || o' then 1 else 0).
Proof.
  unfold overflowing_add, is_uN, wrap. intros Ha Hb Hc.
  split; [apply Z.mod_pos_bound; lia|].
  z_cases; simpl; Z.to_euclidean_division_equations; lia.
Qed.

Lemma limb_sub_spec a b c :
  is_uN 128 a → is_uN 128 b → 0 <= c <= 1 →
  let '(s, o) := overflowing_sub 128 a b in
  let '(s', o') := overflowing_sub 128 s c in
  is_uN 128 s' ∧ a - b - c = s' - 2 ^ 128 * (if o || o' then 1 else 0).
Proof.
  unfold overflowing_sub, is_uN, wrap. intros Ha Hb Hc.
  split; [apply Z.mod_pos_bound; lia|].
  z_cases; simpl; Z.to_euclidean_division_equations; lia.
Qed.

(** The addition loop computes the sum with its carry out of the top limb. *)
Lemma u256_add_loop_spec x y :
  u256_wf x → u256_wf y →
  ∃ z c, foldO (u256_add_step x y) up2 (Arr2 0 0, 0) = Ret (z, c)
       ∧ u256_wf z ∧ 0 <= c <= 1
       ∧ u256_val x + u256_val y = u256_val z + 2 ^ 256 * c.
Proof.
  intros [Hx0 Hx1] [Hy0 Hy1].
  pose proof (limb_add_spec (a0 x) (a0 y) 0 Hx0 Hy0 ltac:(lia)) as H0.
  unfold up2, u256_add_step; cbn.
  destruct (overflowing_add 128 (a0 x) (a0 y)) as [s0 o0].
  destruct (overflowing_add 128 s0 0) as [s0' o0']; cbn. destruct H0 as [Hs0 E0].
  set (c0 := if o0 || o0' then 1 else 0) in *.
  assert (0 <= c0 <= 1) as Hc0 by (unfold c0; destruct (o0 || o0'); lia).
  pose proof (limb_add_spec (a1 x) (a1 y) c0 Hx1 Hy1 Hc0) as H1.
  destruct (overflowing_add 128 (a1 x) (a1 y)) as [s1 o1].
  destruct (overflowing_add 128 s1 c0) as [s1' o1']; cbn. destruct H1 as [Hs1 E1].
  set (c1 := if o1 || o1' then 1 else 0) in *.
  eexists _, c1. split; [done|]. unfold u256_wf, u256_val; simpl.
  repeat split; try apply Hs0; try apply Hs1; unfold c1; destruct (o1 || o1'); lia.
Qed.

Lemma u256_sub_loop_spec x y :
  u256_wf x → u256_wf y →
  ∃ z c, foldO (u256_sub_step x y) up2 (Arr2 0 0, 0) = Ret (z, c)
       ∧ u256_wf z ∧ 0 <= c <= 1
       ∧ u256_val x - u256_val y = u256_val z - 2 ^ 256 * c.
Proof.
  intros [Hx0 Hx1] [Hy0 Hy1].
  pose proof (limb_sub_spec (a0 x) (a0 y) 0 Hx0 Hy0 ltac:(lia)) as H0.
  unfold up2, u256_sub_step; cbn.
  destruct (overflowing_sub 128 (a0 x) (a0 y)) as [s0 o0].
  destruct (overflowing_sub 128 s0 0) as [s0' o0']; cbn. destruct H0 as [Hs0 E0].
  set (c0 := if o0 || o0' then 1 else 0) in *.
  assert (0 <= c0 <= 1) as Hc0 by (unfold c0; destruct (o0 || o0'); lia).
  pose proof (limb_sub_spec (a1 x) (a1 y) c0 Hx1 Hy1 Hc0) as H1.
  destruct (overflowing_sub 128 (a1 x) (a1 y)) as [s1 o1].
  destruct (overflowing_sub 128 s1 c0) as [s1' o1']; cbn. destruct H1 as [Hs1 E1].
  set (c1 := if o1 || o1' then 1 else 0) in *.
  eexists _, c1. split; [done|]. unfold u256_wf, u256_val; simpl.
  repeat split; try apply Hs0; try apply Hs1; unfold c1; destruct (o1 || o1'); lia.
Qed.

(** Quotient and remainder facts shared by the wide operations. *)
Lemma carry_mod (n s z c : Z) :
  0 <= z < n → s = z + n * c → z = s mod n.
Proof. intros Hz ->. by rewrite Z.mul_comm, Z.mod_add, Z.mod_small by lia. Qed.

Lemma carry_flag (n s z c : Z) :
  0 <= z < n → 0 <= c <= 1 → s = z + n * c → negb (c =? 0) = (n <=? s).
Proof. intros. z_cases; simpl; try done; nia. Qed.

Lemma borrow_flag (n s t z c : Z) :
  0 <= z < n → 0 <= c <= 1 → s - t = z - n * c → negb (c =? 0) = (s <? t).
Proof. intros. z_cases; simpl; try done; nia. Qed.

Lemma u256_overflowing_add_spec x y :
  u256_wf x → u256_wf y →
  ∃ z, u256_overflowing_add x y = Ret (z, 2 ^ 256 <=? u256_val x + u256_val y)
     ∧ u256_wf z ∧ u256_val z = (u256_val x + u256_val y) mod 2 ^ 256.
Proof.
  intros Hx Hy. destruct (u256_add_loop_spec x y Hx Hy) as (z & c & E & Hz & Hc & Ev).
  pose proof (u256_val_range z Hz). exists z. unfold u256_overflowing_add. rewrite E; simpl.
  rewrite (carry_flag (2 ^ 256) _ _ _ H Hc Ev). repeat split; try apply Hz.
  by apply (carry_mod _ _ _ c).
Qed.

Lemma u256_overflowing_sub_spec x y :
  u256_wf x → u256_wf y →
  ∃ z, u256_overflowing_sub x y = Ret (z, u256_val x <? u256_val y)
     ∧ u256_wf z ∧ u256_val z = (u256_val x - u256_val y) mod 2 ^ 256.
Proof.
  intros Hx Hy. destruct (u256_sub_loop_spec x y Hx Hy) as (z & c & E & Hz & Hc & Ev).
  pose proof (u256_val_range z Hz). exists z. unfold u256_overflowing_sub. rewrite E; simpl.
  rewrite (borrow_flag (2 ^ 256) _ _ _ _ H Hc Ev). repeat split; try apply Hz.
  apply (carry_mod _ _ _ (- c)); [done|lia].
Qed.

(** The operators are the flagged operations without the flag. *)
Lemma u256_add_overflowing x y : u256_add x y = fst <$> u256_overflowing_add x y.
Proof.
  unfold u256_add, u256_overflowing_add.
  by destruct (foldO _ _ _) as [[]| |].
Qed.
Lemma u256_sub_overflowing x y : u256_sub x y = fst <$> u256_overflowing_sub x y.
Proof.
  unfold u256_sub, u256_overflowing_sub.
  by destruct (foldO _ _ _) as [[]| |].
Qed.

Lemma u256_add_spec x y :
  u256_wf x → u256_wf y →
  ∃ z, u256_add x y = Ret z ∧ u256_wf z
     ∧ u256_val z = (u256_val x + u256_val y) mod 2 ^ 256.
Proof.
  intros Hx Hy. destruct (u256_overflowing_add_spec x y Hx Hy) as (z & E & ?).
  exists z. by rewrite u256_add_overflowing, E.
Qed.

(** ** Bitwise operators act on the denoted number *)

Lemma u256_bitop_val (op : Z → Z → Z) (f : bool → bool → bool) x y :
  (∀ x y i, 0 <= i → Z.testbit (op x y) i = f (Z.testbit x i) (Z.testbit y i)) →
  (∀ a b, is_uN 128 a → is_uN 128 b → is_uN 128 (op a b)) →
  u256_wf x → u256_wf y →
  u256_wf (Arr2 (op (a0 x) (a0 y)) (op (a1 x) (a1 y))) ∧
  u256_val (Arr2 (op (a0 x) (a0 y)) (op (a1 x) (a1 y))) = op (u256_val x) (u256_val y).
Proof.
  intros Hop Hr [Hx0 Hx1] [Hy0 Hy1]. split; [split; simpl; by apply Hr|].
  unfold u256_val; simpl. symmetry. apply (bitop_limbs op f); [done|lia|done|done|].
  by apply Hr.
Qed.

Lemma u256_shl_low x s :
  0 <= s < 128 →
  u256_shl_u128 x s = Ret (Arr2 (wrap 128 (Z.shiftl (a0 x) s)) (wrap 128 (a1 x))).
Proof.
  intros Hs. unfold u256_shl_u128, u256_shl, up2; cbn.
  rewrite !ushl_ret by lia. cbn. by rewrite Z.shiftl_0_r.
Qed.

(** The carry shifted left by 128 already panics in the first iteration. *)
Lemma u256_div_loop_panics x y : u256_div_loop x y = Panic POverflow.
Proof. done. Qed.

Lemma u256_mul_loop_panics x y : u256_mul_loop x y = Panic PBounds.
Proof.
  unfold u256_mul_loop, up2. cbn.
  repeat (match goal with
          | |- context [overflowing_mul ?w ?a ?b] => destruct (overflowing_mul w a b) as [? ?]
          | |- context [overflowing_add ?w ?a ?b] => destruct (overflowing_add w a b) as [? ?]
          end; cbn); done.
Qed.

Lemma compare_limbs n a b c d :
  0 <= a < n → 0 <= c < n →
  (a + n * b ?= c + n * d) = match b ?= d with Eq => a ?= c | o => o end.
Proof.
  intros. destruct (Z.compare_spec b d).
  - subst. destruct (Z.compare_spec a c); [apply Z.compare_eq_iff|apply Z.compare_lt_iff
      |apply Z.compare_gt_iff]; lia.
  - apply Z.compare_lt_iff. nia.
  - apply Z.compare_gt_iff. nia.
Qed.

Lemma gtb_ltb_compare (a b : Z) {A} (x y z : A) :
  (if a >? b then x else if a <? b then y else z) =
  match a ?= b with Gt => x | Lt => y | Eq => z end.
Proof. unfold Z.gtb, Z.ltb. by destruct (a ?= b). Qed.

Lemma u256_cmp_val x y :
  u256_wf x → u256_wf y → u256_cmp x y = (u256_val x ?= u256_val y).
Proof.
  intros [Hx0 _] [Hy0 _]. unfold u256_cmp, u256_val.
  rewrite !gtb_ltb_compare, compare_limbs by done.
  by destruct (a1 x ?= a1 y), (a0 x ?= a0 y).
Qed.

Lemma u256_eq_val x y :
  u256_wf x → u256_wf y → u256_eq x y = (u256_val x =? u256_val y).
Proof.
  intros Hx Hy. unfold u256_eq, u256_val. unfold u256_wf, is_uN in *.
  z_cases; simpl; try done; nia.
Qed.

Lemma u256_bytes_val x :
  u256_wf x → from_le_bytes (u256_to_le_bytes x) = u256_val x.
Proof.
  intros [H0 H1]. unfold is_uN in *. unfold u256_to_le_bytes, u256_val.
  rewrite from_le_bytes_app, !from_to_le_bytes, length_to_le_bytes by lia.
  by rewrite !Z.mod_small.
Qed.

Lemma swrap_as w v : 0 < w → - 2 ^ (w - 1) <= v < 2 ^ (w - 1) → swrap w v = v.
Proof.
  intros Hw Hv. unfold swrap.
  assert (2 ^ w = 2 * 2 ^ (w - 1)) as E by (rewrite <- Z.pow_succ_r by lia; f_equal; lia).
  destruct (decide (0 <= v)).
  - rewrite Z.mod_small by lia. z_cases; lia.
  - rewrite <- (Z.mod_add v 1 (2 ^ w)), Z.mod_small by lia. z_cases; lia.
Qed.

(** Truncating a sign-extended value gives the value back. *)
Lemma swrap_wrap w v : 0 < w <= 128 → swrap w (wrap 128 v) = swrap w v.
Proof.
  intros Hw. unfold swrap, wrap. rewrite Z.mod_mod_divide; [done|].
  exists (2 ^ (128 - w)). rewrite <- Z.pow_add_r by lia. f_equal. lia.
Qed.

Lemma u256_cast_roundtrip t v :
  prim_ok t v → u256_into t (u256_from t v) = v.
Proof.
  intros Hv. unfold u256_into, u256_from. simpl. unfold as_prim at 2. simpl.
  unfold prim_ok in Hv. unfold as_prim. destruct (prim_signed t) eqn:Es.
  - rewrite swrap_wrap by (destruct t; simpl; lia). apply swrap_as; [|done].
    destruct t; simpl; lia.
  - unfold wrap. destruct t; simpl in *; try done; rewrite (Z.mod_small v (2 ^ 128)) by lia;
      by apply Z.mod_small.
Qed.

(** ** Theorems *)

(** C7: [overflowing_add] on two well-formed 256-bit integers never panics,
    returns the sum modulo 2^256 in well-formed limbs, and its flag is set exactly
    when the sum does not fit in 256 bits. *)
Theorem u256_overflowing_add_correct (x y : u256) :
  u256_wf x → u256_wf y →
  ∃ z, u256_overflowing_add x y = Ret (z, 2 ^ 256 <=? u256_val x + u256_val y)
     ∧ u256_wf z ∧ u256_val z = (u256_val x + u256_val y) mod 2 ^ 256
     ∧ u256_add x y = Ret z.
Proof.
  intros Hx Hy. destruct (u256_overflowing_add_spec x y Hx Hy) as (z & E & ? & ?).
  exists z. by rewrite u256_add_overflowing, E.
Qed.

Definition u256_max : u256 := Arr2 (2 ^ 128 - 1) (2 ^ 128 - 1).

Lemma u256_max_wf : u256_wf u256_max.
Proof. split; unfold is_uN; simpl; lia. Qed.
Lemma u256_small_wf v : 0 <= v < 2 ^ 128 → u256_wf (Arr2 v 0).
Proof. intros. by apply (u256_from_u128_wf v). Qed.

Lemma u256_overflowing_add_witness :
  ∃ z, u256_overflowing_add u256_max (Arr2 1 0) = Ret (z, true) ∧ u256_val z = 0.
Proof.
  destruct (u256_overflowing_add_correct u256_max (Arr2 1 0)) as (z & E & _ & V & _).
  - apply u256_max_wf.
  - apply u256_small_wf. lia.
  - exists z. split; [rewrite E; reflexivity|rewrite V; reflexivity].
Defined.

(** [overflowing_sub] never panics, returns the difference modulo 2^256, and
    its flag is set exactly when a borrow leaves the top limb. *)
Theorem u256_overflowing_sub_correct (x y : u256) :
  u256_wf x → u256_wf y →
  ∃ z, u256_overflowing_sub x y = Ret (z, u256_val x <? u256_val y)
     ∧ u256_wf z ∧ u256_val z = (u256_val x - u256_val y) mod 2 ^ 256
     ∧ u256_sub x y = Ret z.
Proof.
  intros Hx Hy. destruct (u256_overflowing_sub_spec x y Hx Hy) as (z & E & ? & ?).
  exists z. by rewrite u256_sub_overflowing, E.
Qed.

Lemma u256_overflowing_sub_witness :
  ∃ z, u256_overflowing_sub (Arr2 0 0) (Arr2 1 0) = Ret (z, true)
     ∧ u256_val z = 2 ^ 256 - 1.
Proof.
  destruct (u256_overflowing_sub_correct (Arr2 0 0) (Arr2 1 0)) as (z & E & _ & V & _).
  - apply u256_small_wf. lia.
  - apply u256_small_wf. lia.
  - exists z. split; [rewrite E; reflexivity|rewrite V; reflexivity].
Defined.

(** C38: the bitwise operators are the operators of the denoted numbers, [!x] is
    2^256 - 1 - x, and [-x] is the two's complement of [x]; none of them panics. *)
Theorem u256_bitwise_correct (x y : u256) :
  u256_wf x → u256_wf y →
  (∃ z, u256_bitand x y = Ret z ∧ u256_wf z ∧ u256_val z = Z.land (u256_val x) (u256_val y)) ∧
  (∃ z, u256_bitor x y = Ret z ∧ u256_wf z ∧ u256_val z = Z.lor (u256_val x) (u256_val y)) ∧
  (∃ z, u256_bitxor x y = Ret z ∧ u256_wf z ∧ u256_val z = Z.lxor (u256_val x) (u256_val y)) ∧
  (∃ z, u256_not x = Ret z ∧ u256_wf z ∧ u256_val z = unot 256 (u256_val x)) ∧
  (∃ z, u256_neg x = Ret z ∧ u256_wf z ∧ u256_val z = (- u256_val x) mod 2 ^ 256).
Proof.
  intros Hx Hy.
  pose proof (u256_bitop_val Z.land andb x y (λ x y i _, Z.land_spec x y i)
    (λ a b, land_uN 128 a b ltac:(lia)) Hx Hy).
  pose proof (u256_bitop_val Z.lor orb x y (λ x y i _, Z.lor_spec x y i)
    (λ a b, lor_uN 128 a b ltac:(lia)) Hx Hy).
  pose proof (u256_bitop_val Z.lxor xorb x y (λ x y i _, Z.lxor_spec x y i)
    (λ a b, lxor_uN 128 a b ltac:(lia)) Hx Hy).
  assert (u256_wf (Arr2 (unot 128 (a0 x)) (unot 128 (a1 x)))) as Hn
    by (destruct Hx; split; simpl; by apply unot_uN).
  assert (u256_val (Arr2 (unot 128 (a0 x)) (unot 128 (a1 x))) = unot 256 (u256_val x)) as En
    by (unfold u256_val, unot; simpl; lia).
  split_and!; [by eexists|by eexists|by eexists|by eexists|].
  destruct (u256_add_spec _ (u256_from_u128 1) Hn) as (z & E & Hz & V).
  { apply u256_from_u128_wf. unfold is_uN. lia. }
  exists z. split_and!; [exact E|done|].
  rewrite V, En, u256_from_u128_val. unfold unot.
  rewrite <- (Z.mod_add (- u256_val x) 1) by lia. f_equal. lia.
Qed.

Lemma u256_bitwise_witness :
  ∃ z, u256_neg (Arr2 5 0) = Ret z ∧ u256_val z = 2 ^ 256 - 5.
Proof.
  destruct (u256_bitwise_correct (Arr2 5 0) (Arr2 3 0)) as (_ & _ & _ & _ & z & E & _ & V).
  - apply u256_small_wf. lia.
  - apply u256_small_wf. lia.
  - exists z. split; [exact E|rewrite V; reflexivity].
Defined.

(** [cmp] is the order of the denoted numbers, [partial_cmp] agrees with it,
    and [==] holds exactly on equal numbers. *)
Theorem u256_cmp_correct (x y : u256) :
  u256_wf x → u256_wf y →
  u256_cmp x y = (u256_val x ?= u256_val y) ∧
  u256_partial_cmp x y = Some (u256_cmp x y) ∧
  u256_eq x y = (u256_val x =? u256_val y).
Proof.
  intros Hx Hy. split_and!; [by apply u256_cmp_val| |by apply u256_eq_val].
  unfold u256_partial_cmp, u256_cmp. by repeat case_match.
Qed.

Lemma u256_cmp_witness : u256_cmp (Arr2 7 1) (Arr2 9 0) = Gt.
Proof.
  destruct (u256_cmp_correct (Arr2 7 1) (Arr2 9 0)) as (E & _).
  - split; unfold is_uN; simpl; lia.
  - apply u256_small_wf. lia.
  - rewrite E. reflexivity.
Defined.

(** Comparing a [u256] with a primitive integer never answers [Equal]: it
    answers [Less] for every number below 2^128, whatever the other operand is, even
    for two operands that [==] holds equal, and [Greater] above. *)
Theorem u256_partial_cmp_prim_behaviour (x : u256) (t : prim) (other : Z) :
  u256_wf x → 0 <= other < 2 ^ 128 →
  u256_partial_cmp_prim x t other = Some (if u256_val x <? 2 ^ 128 then Lt else Gt) ∧
  (u256_eq_prim x t other = true ↔ u256_val x = other).
Proof.
  intros [H0 H1] Ho. unfold is_uN in *. split.
  - unfold u256_partial_cmp_prim, u256_val. rewrite Z.gtb_ltb. z_cases; try done; nia.
  - unfold u256_eq_prim, u256_val, as_prim. simpl. unfold wrap.
    rewrite Z.mod_small by lia. rewrite andb_true_iff, !Z.eqb_eq. nia.
Qed.

Lemma u256_partial_cmp_prim_witness :
  u256_partial_cmp_prim (Arr2 5 0) U64 5 = Some Lt ∧
  u256_eq_prim (Arr2 5 0) U64 5 = true.
Proof.
  destruct (u256_partial_cmp_prim_behaviour (Arr2 5 0) U64 5) as [E F].
  - apply u256_small_wf. lia.
  - lia.
  - split; [rewrite E; reflexivity|apply F; reflexivity].
Defined.

(** Multiplication, division and remainder panic on every pair of operands:
    [out[i + j]] is out of bounds at [i = j = 1], and the division loop shifts a
    128-bit limb by 128 before that. *)
Theorem u256_mul_div_panic (x y : u256) :
  u256_mul x y = Panic PBounds ∧ u256_overflowing_mul x y = Panic PBounds ∧
  u256_div x y = Panic POverflow ∧ u256_rem x y = Panic POverflow ∧
  u256_overflowing_div x y = Panic POverflow.
Proof.
  unfold u256_mul, u256_overflowing_mul. by rewrite u256_mul_loop_panics.
Qed.

(** [to_le_bytes] gives 32 bytes that read back to the number, and equal
    byte strings come from equal numbers. *)
Theorem u256_to_le_bytes_roundtrip (x y : u256) :
  u256_wf x → u256_wf y →
  length (u256_to_le_bytes x) = 32%nat ∧
  Forall (is_uN 8) (u256_to_le_bytes x) ∧
  from_le_bytes (u256_to_le_bytes x) = u256_val x ∧
  (u256_to_le_bytes x = u256_to_le_bytes y → x = y).
Proof.
  intros Hx Hy. split_and!.
  - unfold u256_to_le_bytes. by rewrite length_app, !length_to_le_bytes.
  - apply Forall_app; split; apply to_le_bytes_bytes.
  - by apply u256_bytes_val.
  - intros E. apply u256_val_inj; [done..|]. by rewrite <- !u256_bytes_val, E.
Qed.

Lemma u256_to_le_bytes_witness :
  from_le_bytes (u256_to_le_bytes (Arr2 258 1)) = 2 ^ 128 + 258.
Proof.
  destruct (u256_to_le_bytes_roundtrip (Arr2 258 1) (Arr2 0 0)) as (_ & _ & E & _).
  - split; unfold is_uN; simpl; lia.
  - apply u256_small_wf. lia.
  - rewrite E. reflexivity.
Defined.

(** Converting a value of any primitive integer type to [u256] and back
    gives the value, and a non-negative value is denoted exactly; a negative one
    is sign-extended to 128 bits only, so it denotes 2^128 + v, not 2^256 + v. *)
Theorem u256_from_into_roundtrip (t : prim) (v : Z) :
  prim_ok t v →
  u256_into t (u256_from t v) = v ∧
  u256_val (u256_from t v) = if 0 <=? v then v else 2 ^ 128 + v.
Proof.
  intros Hv. split; [by apply u256_cast_roundtrip|].
  assert (- 2 ^ 127 <= v < 2 ^ 128) as Hr.
  { unfold prim_ok in Hv. destruct t; simpl in Hv; lia. }
  unfold u256_from, u256_val, as_prim; simpl. unfold wrap.
  z_cases; [rewrite Z.mod_small; lia|].
  rewrite <- (Z.mod_add v 1), Z.mod_small; lia.
Qed.

Lemma u256_from_into_witness :
  u256_into I16 (u256_from I16 (-2)) = -2 ∧
  u256_val (u256_from I16 (-2)) = 2 ^ 128 - 2.
Proof.
  destruct (u256_from_into_roundtrip I16 (-2)) as [E F].
  - unfold prim_ok; simpl; lia.
  - split; [exact E|rewrite F; reflexivity].
Defined.

(** The printed form does not determine the number: the limbs are printed
    one after the other with no padding, so different well-formed values have the
    same decimal and the same hexadecimal form, and every number below 2^128 is
    printed with a leading zero. *)
Theorem u256_fmt_ambiguous :
  (∃ x y, u256_wf x ∧ u256_wf y ∧ u256_val x ≠ u256_val y ∧
     u256_fmt Decimal x = u256_fmt Decimal y) ∧
  (∃ x y, u256_wf x ∧ u256_wf y ∧ u256_val x ≠ u256_val y ∧
     u256_fmt LowerHex x = u256_fmt LowerHex y) ∧
  (∀ v r, u256_fmt r (u256_from_u128 v) = String (digit_char r 0) (limb_fmt r v)).
Proof.
  split_and!.
  - exists (Arr2 3 12), (Arr2 23 1). unfold u256_wf, is_uN.
    split_and!; simpl; try lia; done.
  - exists (Arr2 3 0x12), (Arr2 0x23 1). unfold u256_wf, is_uN.
    split_and!; simpl; try lia; done.
  - intros v r. by destruct r.
Qed.
