(* ===== verification/LargeNumbers512.v ===== *)
(** * The 512-bit integer of src/common/large_numbers.rs

    [u512] is a pair of [u256] limbs; its operators are built on the flagged
    operations of [u256] (file LargeNumbers.v).  The theorems show that addition,
    subtraction and every comparison are those of the denoted numbers, and that
    multiplication and division always panic. *)

From S2P Require Import Prelude LargeNumbers.

Local Open Scope Z_scope.

Definition u512 : Type := arr2 u256.

Definition u512_new (a b : u256) : u512 := Arr2 a b.

(** [u256::from(0)]: the literal is an [i32]. *)
Definition u256_zero : u256 := u256_from I32 0.
Definition u256_one : u256 := u256_from I32 1.

(** [impl From<..> for u512]. *)
Definition u512_from_u256 (value : u256) : u512 := Arr2 value u256_zero.
Definition u512_from (t : prim) (value : Z) : u512 := Arr2 (u256_from t value) u256_zero.
Definition u512_from_u128 (value : Z) : u512 := Arr2 (u256_from_u128 value) u256_zero.
Definition u512_from_bool (value : bool) : u512 := Arr2 (u256_from_bool value) u256_zero.

(** [impl From<u512> for ..]: [value.0[0].into()]. *)
Definition u512_into_u256 (value : u512) : u256 := a0 value.
Definition u512_into (t : prim) (value : u512) : Z := u256_into t (a0 value).
Definition u512_into_bool (value : u512) : bool := u256_into_bool (a0 value).
Definition u512_into_char (value : u512) : Z := u256_into_char (a0 value).
Definition u512_into_bytes (value : u512) : list Z :=
  u256_to_le_bytes (a0 value) ++ u256_to_le_bytes (a1 value).

(** ** Operators *)

Definition u512_add_step (self rhs : u512) (st : u512 * Z) (i : nat) : outcome (u512 * Z) :=
  let '(out, carry) := st in
  a ← aget self i; b ← aget rhs i;
  '(sum, overflow) ← u256_overflowing_add a b;
  '(sum, overflow2) ← u256_overflowing_add sum (u256_from I32 carry);
  let carry := if (overflow : bool) || overflow2 then 1 else 0 in
  out ← aset out i sum;
  Ret (out, carry).

Definition u512_add (self rhs : u512) : outcome u512 :=
  '(out, _) ← foldO (u512_add_step self rhs) up2 (Arr2 u256_zero u256_zero, 0); Ret out.

Definition u512_sub_step (self rhs : u512) (st : u512 * Z) (i : nat) : outcome (u512 * Z) :=
  let '(out, carry) := st in
  a ← aget self i; b ← aget rhs i;
  '(sum, overflow) ← u256_overflowing_sub a b;
  '(sum, overflow2) ← u256_overflowing_sub sum (u256_from I32 carry);
  let carry := if (overflow : bool) || overflow2 then 1 else 0 in
  out ← aset out i sum;
  Ret (out, carry).

Definition u512_sub (self rhs : u512) : outcome u512 :=
  '(out, _) ← foldO (u512_sub_step self rhs) up2 (Arr2 u256_zero u256_zero, 0); Ret out.

Definition u512_mul_step (self rhs : u512) (i : nat) (st : u512 * u256) (j : nat)
    : outcome (u512 * u256) :=
  let '(out, carry) := st in
  a ← aget self i; b ← aget rhs j;
  '(sum, overflow) ← u256_overflowing_mul a b;
  o ← aget out (i + j);
  '(sum, overflow2) ← u256_overflowing_add sum o;
  '(sum, overflow3) ← u256_overflowing_add sum carry;
  let carry := if (overflow : bool) || overflow2 || overflow3 then u256_one else u256_zero in
  out ← aset out (i + j) sum;
  Ret (out, carry).

Definition u512_mul (self rhs : u512) : outcome u512 :=
  foldO (λ out i,
      '(out, _) ← foldO (u512_mul_step self rhs i) up2 (out, u256_zero); Ret out)
    up2 (Arr2 u256_zero u256_zero).

Definition u512_shl (self rhs : u512) : outcome u512 :=
  foldO (λ out i, a ← aget self i; s ← aget rhs i; x ← u256_shl a s; aset out i x)
    up2 (Arr2 u256_zero u256_zero).
Definition u512_shr (self rhs : u512) : outcome u512 :=
  foldO (λ out i, a ← aget self i; s ← aget rhs i; x ← u256_shr a s; aset out i x)
    up2 (Arr2 u256_zero u256_zero).

Definition u512_div_step (remainder rhs : u512) (i : nat) (st : u512 * u256) (j : nat)
    : outcome (u512 * u256) :=
  let '(out, carry) := st in
  r ← aget remainder j;
  c ← u512_shl (u512_from_u256 carry) (u512_from_u128 256);
  '(sum, overflow) ← u256_overflowing_add r (u512_into_u256 c);
  b ← aget rhs i;
  '(sum, overflow2) ← u256_overflowing_mul sum b;
  o ← aget out (i + j);
  '(sum, overflow3) ← u256_overflowing_add sum o;
  let carry := if (overflow : bool) || overflow2 || overflow3 then u256_one else u256_zero in
  out ← aset out (i + j) sum;
  Ret (out, carry).

Definition u512_div_loop (self rhs : u512) : outcome (u512 * u512) :=
  foldO (λ '(out, remainder) i,
      '(out, carry) ← foldO (u512_div_step remainder rhs i) down2 (out, u256_zero);
      remainder ← aset remainder i carry;
      Ret (out, remainder))
    down2 (Arr2 u256_zero u256_zero, self).

Definition u512_div (self rhs : u512) : outcome u512 :=
  '(out, _) ← u512_div_loop self rhs; Ret out.
Definition u512_rem (self rhs : u512) : outcome u512 :=
  '(_, remainder) ← u512_div_loop self rhs; Ret remainder.

Definition u512_bitand (self rhs : u512) : outcome u512 :=
  foldO (λ out i, a ← aget self i; b ← aget rhs i; x ← u256_bitand a b; aset out i x)
    up2 (Arr2 u256_zero u256_zero).
Definition u512_bitor (self rhs : u512) : outcome u512 :=
  foldO (λ out i, a ← aget self i; b ← aget rhs i; x ← u256_bitor a b; aset out i x)
    up2 (Arr2 u256_zero u256_zero).
Definition u512_bitxor (self rhs : u512) : outcome u512 :=
  foldO (λ out i, a ← aget self i; b ← aget rhs i; x ← u256_bitxor a b; aset out i x)
    up2 (Arr2 u256_zero u256_zero).
Definition u512_not (self : u512) : outcome u512 :=
  foldO (λ out i, a ← aget self i; x ← u256_not a; aset out i x)
    up2 (Arr2 u256_zero u256_zero).
Definition u512_neg (self : u512) : outcome u512 :=
  out ← foldO (λ out i, a ← aget self i; x ← u256_not a; aset out i x)
          up2 (Arr2 u256_zero u256_zero);
  u512_add out (u512_from I32 1).

(** The assigning forms: the new value of [self]. *)
Definition u512_add_assign (self rhs : u512) : outcome u512 := u512_add self rhs.
Definition u512_sub_assign (self rhs : u512) : outcome u512 := u512_sub self rhs.
Definition u512_mul_assign (self rhs : u512) : outcome u512 := u512_mul self rhs.
Definition u512_div_assign (self rhs : u512) : outcome u512 := u512_div self rhs.
Definition u512_rem_assign (self rhs : u512) : outcome u512 := u512_rem self rhs.
Definition u512_bitand_assign (self rhs : u512) : outcome u512 := u512_bitand self rhs.
Definition u512_bitor_assign (self rhs : u512) : outcome u512 := u512_bitor self rhs.
Definition u512_bitxor_assign (self rhs : u512) : outcome u512 := u512_bitxor self rhs.
Definition u512_shl_assign (self rhs : u512) : outcome u512 := u512_shl self rhs.
Definition u512_shr_assign (self rhs : u512) : outcome u512 := u512_shr self rhs.

Definition u512_op (o : binop) : u512 → u512 → outcome u512 :=
  match o with
  | OpAdd => u512_add | OpSub => u512_sub | OpMul => u512_mul
  | OpDiv => u512_div | OpRem => u512_rem
  | OpAnd => u512_bitand | OpOr => u512_bitor | OpXor => u512_bitxor
  | OpShl => u512_shl | OpShr => u512_shr
  end.

(** [impl Op<u256> for u512] and [impl Op<u128> for u512]. *)
Definition u512_op_u256 (o : binop) (self : u512) (rhs : u256) : outcome u512 :=
  u512_op o self (u512_from_u256 rhs).
Definition u512_op_u128 (o : binop) (self : u512) (rhs : Z) : outcome u512 :=
  u512_op o self (u512_from_u128 rhs).

(** ** Comparisons *)

(** [a > b] and [a < b] on [u256], through its [partial_cmp]. *)
Definition u256_gtb (a b : u256) : bool :=
  match u256_partial_cmp a b with Some Gt => true | _ => false end.
Definition u256_ltb (a b : u256) : bool :=
  match u256_partial_cmp a b with Some Lt => true | _ => false end.

Definition u512_eq (self other : u512) : bool :=
  u256_eq (a0 self) (a0 other) && u256_eq (a1 self) (a1 other).
Definition u512_eq_u256 (self : u512) (other : u256) : bool :=
  u256_eq (a0 self) other && u256_eq (a1 self) u256_zero.
Definition u512_eq_prim (self : u512) (t : prim) (other : Z) : bool :=
  u256_eq (a0 self) (u256_from t other) && u256_eq (a1 self) u256_zero.

Definition u512_partial_cmp (self other : u512) : option comparison :=
  if u256_gtb (a1 self) (a1 other) then Some Gt
  else if u256_ltb (a1 self) (a1 other) then Some Lt
  else if u256_gtb (a0 self) (a0 other) then Some Gt
  else if u256_ltb (a0 self) (a0 other) then Some Lt
  else Some Eq.

Definition u512_partial_cmp_u256 (self : u512) (other : u256) : option comparison :=
  if u256_gtb (a1 self) u256_zero then Some Gt
  else if u256_ltb (a1 self) u256_zero then Some Lt
  else if u256_gtb (a0 self) other then Some Gt
  else if u256_ltb (a0 self) other then Some Lt
  else Some Eq.

Definition u512_partial_cmp_prim (self : u512) (t : prim) (other : Z) : option comparison :=
  if u256_gtb (a1 self) u256_zero then Some Gt
  else if u256_ltb (a1 self) u256_zero then Some Lt
  else if u256_gtb (a0 self) (u256_from t other) then Some Gt
  else if u256_ltb (a0 self) (u256_from t other) then Some Lt
  else Some Eq.

Definition u512_cmp (self other : u512) : comparison :=
  if u256_gtb (a1 self) (a1 other) then Gt
  else if u256_ltb (a1 self) (a1 other) then Lt
  else if u256_gtb (a0 self) (a0 other) then Gt
  else if u256_ltb (a0 self) (a0 other) then Lt
  else Eq.

(** ** Values and well-formedness *)

Definition u512_wf (x : u512) : Prop := u256_wf (a0 x) ∧ u256_wf (a1 x).
Definition u512_val (x : u512) : Z := u256_val (a0 x) + 2 ^ 256 * u256_val (a1 x).

Lemma u256_from_carry c :
  0 <= c <= 1 → u256_wf (u256_from I32 c) ∧ u256_val (u256_from I32 c) = c.
Proof.
  intros. unfold u256_from, as_prim; simpl. rewrite wrap_small by (unfold is_uN; lia).
  unfold u256_wf, u256_val, is_uN; simpl. lia.
Qed.

Lemma u512_val_range x : u512_wf x → is_uN 512 (u512_val x).
Proof.
  intros [H0%u256_val_range H1%u256_val_range]. unfold is_uN, u512_val in *. lia.
Qed.

(** One 256-bit limb addition with carry. *)
Lemma wide_add_spec a b c :
  u256_wf a → u256_wf b → 0 <= c <= 1 →
  ∃ s o s' o', u256_overflowing_add a b = Ret (s, o) ∧
    u256_overflowing_add s (u256_from I32 c) = Ret (s', o') ∧ u256_wf s' ∧
    u256_val a + u256_val b + c = u256_val s' + 2 ^ 256 * (if o || o' then 1 else 0).
Proof.
  intros Ha Hb Hc. destruct (u256_from_carry c Hc) as [Wc Vc].
  destruct (u256_overflowing_add_spec a b Ha Hb) as (s & E & Hs & V).
  destruct (u256_overflowing_add_spec s _ Hs Wc) as (s' & E' & Hs' & V').
  eexists s, _, s', _. split_and!; [exact E|exact E'|exact Hs'|].
  rewrite V', V, Vc.
  pose proof (u256_val_range a Ha). pose proof (u256_val_range b Hb). unfold is_uN in *.
  z_cases; simpl; Z.to_euclidean_division_equations; lia.
Qed.

Lemma wide_sub_spec a b c :
  u256_wf a → u256_wf b → 0 <= c <= 1 →
  ∃ s o s' o', u256_overflowing_sub a b = Ret (s, o) ∧
    u256_overflowing_sub s (u256_from I32 c) = Ret (s', o') ∧ u256_wf s' ∧
    u256_val a - u256_val b - c = u256_val s' - 2 ^ 256 * (if o || o' then 1 else 0).
Proof.
  intros Ha Hb Hc. destruct (u256_from_carry c Hc) as [Wc Vc].
  destruct (u256_overflowing_sub_spec a b Ha Hb) as (s & E & Hs & V).
  destruct (u256_overflowing_sub_spec s _ Hs Wc) as (s' & E' & Hs' & V').
  eexists s, _, s', _. split_and!; [exact E|exact E'|exact Hs'|].
  rewrite V', V, Vc.
  pose proof (u256_val_range a Ha). pose proof (u256_val_range b Hb). unfold is_uN in *.
  z_cases; simpl; Z.to_euclidean_division_equations; lia.
Qed.

Lemma bool_carry (b : bool) : 0 <= (if b then 1 else 0) <= 1.
Proof. destruct b; lia. Qed.

Lemma u512_add_spec x y :
  u512_wf x → u512_wf y →
  ∃ z, u512_add x y = Ret z ∧ u512_wf z ∧
       u512_val z = (u512_val x + u512_val y) mod 2 ^ 512.
Proof.
  intros [Hx0 Hx1] [Hy0 Hy1].
  destruct (wide_add_spec (a0 x) (a0 y) 0 Hx0 Hy0 ltac:(lia))
    as (s & o & s' & o' & E1 & E2 & Hs & V).
  destruct (wide_add_spec (a1 x) (a1 y) _ Hx1 Hy1 (bool_carry (o || o')))
    as (t & p & t' & p' & F1 & F2 & Ht & W).
  exists (Arr2 s' t'). unfold u512_add, up2, u512_add_step. cbn.
  rewrite E1; cbn. rewrite E2; cbn. rewrite F1; cbn. rewrite F2; cbn.
  split_and!; [done|by split|].
  pose proof (u512_val_range (Arr2 s' t') (conj Hs Ht)).
  apply (carry_mod _ _ _ (if p || p' then 1 else 0)); [done|].
  unfold u512_val in *; simpl in *. destruct (o || o'), (p || p'); lia.
Qed.

Lemma u512_sub_spec x y :
  u512_wf x → u512_wf y →
  ∃ z, u512_sub x y = Ret z ∧ u512_wf z ∧
       u512_val z = (u512_val x - u512_val y) mod 2 ^ 512.
Proof.
  intros [Hx0 Hx1] [Hy0 Hy1].
  destruct (wide_sub_spec (a0 x) (a0 y) 0 Hx0 Hy0 ltac:(lia))
    as (s & o & s' & o' & E1 & E2 & Hs & V).
  destruct (wide_sub_spec (a1 x) (a1 y) _ Hx1 Hy1 (bool_carry (o || o')))
    as (t & p & t' & p' & F1 & F2 & Ht & W).
  exists (Arr2 s' t'). unfold u512_sub, up2, u512_sub_step. cbn.
  rewrite E1; cbn. rewrite E2; cbn. rewrite F1; cbn. rewrite F2; cbn.
  split_and!; [done|by split|].
  pose proof (u512_val_range (Arr2 s' t') (conj Hs Ht)).
  apply (carry_mod _ _ _ (- (if p || p' then 1 else 0))); [done|].
  unfold u512_val in *; simpl in *. destruct (o || o'), (p || p'); lia.
Qed.

(** The comparison cascade is the order of the limbs. *)
Lemma u256_order_val {A} a b (x y z : A) :
  u256_wf a → u256_wf b →
  (if u256_gtb a b then x else if u256_ltb a b then y else z) =
  match u256_val a ?= u256_val b with Gt => x | Lt => y | Eq => z end.
Proof.
  intros Ha Hb. unfold u256_gtb, u256_ltb.
  assert (u256_partial_cmp a b = Some (u256_val a ?= u256_val b)) as ->.
  { rewrite <- u256_cmp_val by done. unfold u256_partial_cmp, u256_cmp. by repeat case_match. }
  by destruct (u256_val a ?= u256_val b).
Qed.

Lemma u512_cmp_val x y :
  u512_wf x → u512_wf y → u512_cmp x y = (u512_val x ?= u512_val y).
Proof.
  intros [Hx0 Hx1] [Hy0 Hy1]. unfold u512_cmp, u512_val.
  rewrite !u256_order_val, compare_limbs by (done || by apply u256_val_range).
  by destruct (u256_val (a1 x) ?= u256_val (a1 y)), (u256_val (a0 x) ?= u256_val (a0 y)).
Qed.

Lemma u256_zero_wf : u256_wf u256_zero.
Proof. apply u256_from_carry. lia. Qed.

Lemma u512_partial_cmp_u256_val x b :
  u512_wf x → u256_wf b → u512_partial_cmp_u256 x b = Some (u512_val x ?= u256_val b).
Proof.
  intros Hx Hb. transitivity (Some (u512_cmp x (u512_from_u256 b))).
  - unfold u512_partial_cmp_u256, u512_cmp; simpl. by repeat case_match.
  - rewrite u512_cmp_val by first [exact Hx|split; [exact Hb|apply u256_zero_wf]].
    do 2 f_equal. unfold u512_val, u512_from_u256; simpl.
    change (u256_val u256_zero) with 0. lia.
Qed.

Lemma u256_from_unsigned t v :
  prim_signed t = false → prim_ok t v → u256_from t v = u256_from_u128 v ∧ is_uN 128 v.
Proof.
  unfold prim_ok. intros -> Hv.
  assert (0 <= v < 2 ^ 128) by (destruct t; simpl in Hv; lia).
  split; [|done]. unfold u256_from, as_prim; simpl. by rewrite wrap_small.
Qed.

(** ** Theorems *)

(** Addition and subtraction of well-formed 512-bit integers never panic
    and are those of the denoted numbers modulo 2^512. *)
Theorem u512_add_sub_correct (x y : u512) :
  u512_wf x → u512_wf y →
  (∃ z, u512_add x y = Ret z ∧ u512_wf z ∧
        u512_val z = (u512_val x + u512_val y) mod 2 ^ 512) ∧
  (∃ z, u512_sub x y = Ret z ∧ u512_wf z ∧
        u512_val z = (u512_val x - u512_val y) mod 2 ^ 512).
Proof. intros Hx Hy. split; [by apply u512_add_spec|by apply u512_sub_spec]. Qed.

Lemma u512_add_sub_witness :
  ∃ z, u512_add (Arr2 u256_max u256_zero) (Arr2 u256_one u256_zero) = Ret z ∧
       u512_val z = 2 ^ 256.
Proof.
  destruct (u512_add_sub_correct (Arr2 u256_max u256_zero) (Arr2 u256_one u256_zero))
    as [(z & E & _ & V) _].
  - split; [apply u256_max_wf|apply u256_zero_wf].
  - split; [apply u256_from_carry; lia|apply u256_zero_wf].
  - exists z. split; [exact E|rewrite V; reflexivity].
Defined.

(** Every comparison of a 512-bit integer is the order of the denoted
    numbers: with another [u512], with a [u256], and with an unsigned primitive
    integer. *)
Theorem u512_cmp_correct (x y : u512) (b : u256) (t : prim) (v : Z) :
  u512_wf x → u512_wf y → u256_wf b → prim_signed t = false → prim_ok t v →
  u512_cmp x y = (u512_val x ?= u512_val y) ∧
  u512_partial_cmp x y = Some (u512_val x ?= u512_val y) ∧
  u512_partial_cmp_u256 x b = Some (u512_val x ?= u256_val b) ∧
  u512_partial_cmp_prim x t v = Some (u512_val x ?= v).
Proof.
  intros Hx Hy Hb Ht Hv. destruct (u256_from_unsigned t v Ht Hv) as [E Hu].
  split_and!; [by apply u512_cmp_val| |by apply u512_partial_cmp_u256_val|].
  - rewrite <- u512_cmp_val by done. unfold u512_partial_cmp, u512_cmp. by repeat case_match.
  - unfold u512_partial_cmp_prim. rewrite E. rewrite <- (u256_from_u128_val v) at 3.
    by apply u512_partial_cmp_u256_val; [|apply u256_from_u128_wf].
Qed.

Lemma u512_cmp_witness :
  u512_partial_cmp_prim (Arr2 (Arr2 5 0) u256_zero) U64 5 = Some Eq.
Proof.
  destruct (u512_cmp_correct (Arr2 (Arr2 5 0) u256_zero) (Arr2 u256_zero u256_zero)
    u256_zero U64 5) as (_ & _ & _ & E).
  - split; [apply u256_small_wf; lia|apply u256_zero_wf].
  - split; apply u256_zero_wf.
  - apply u256_zero_wf.
  - reflexivity.
  - unfold prim_ok; simpl; lia.
  - rewrite E. reflexivity.
Defined.

(** [u512] multiplication, division and remainder panic on all operands. *)
Theorem u512_mul_div_panic (x y : u512) :
  u512_mul x y = Panic PBounds ∧ u512_div x y = Panic POverflow ∧
  u512_rem x y = Panic POverflow.
Proof.
  split_and!; [|done|done]. unfold u512_mul, up2. cbn.
  unfold u256_overflowing_mul. by rewrite u256_mul_loop_panics.
Qed.
