(* ===== verification/Paging.v ===== *)
(** * Addresses, frames and pages: what the kernel relies on in the x86_64 crate

    The address and page types are those of the [x86_64] crate, which is not part
    of the kernel.  [X86Paging] names the operations the kernel calls and
    [X86PagingLaws] states their documented behaviour; every component that uses
    addresses is proved against the two classes.  A frame or page is represented
    by its start address. *)

From S2P Require Import Prelude.

Local Open Scope Z_scope.

Definition page_size : Z := 4096.

Class X86Paging : Type := {
  phys_addr_new : Z → outcome Z;   (* PhysAddr::new *)
  virt_addr_new : Z → outcome Z;   (* VirtAddr::new *)
  frame_containing : Z → Z;        (* PhysFrame::<Size4KiB>::containing_address *)
  page_containing : Z → Z;         (* Page::<Size4KiB>::containing_address *)
}.

(** A canonical 48-bit virtual address. *)
Definition canonical (a : Z) : Prop :=
  0 <= a < 2 ^ 47 ∨ 2 ^ 64 - 2 ^ 47 <= a < 2 ^ 64.

Class X86PagingLaws `{X86Paging} : Prop := {
  phys_addr_new_ok a : 0 <= a < 2 ^ 52 → phys_addr_new a = Ret a;
  phys_addr_new_bad a : 2 ^ 52 <= a < 2 ^ 64 → ∃ p, phys_addr_new a = Panic p;
  virt_addr_new_ok a : canonical a → virt_addr_new a = Ret a;
  virt_addr_new_ext a : 2 ^ 47 <= a < 2 ^ 48 → virt_addr_new a = Ret (a + 2 ^ 64 - 2 ^ 48);
  virt_addr_new_bad a : 2 ^ 48 <= a < 2 ^ 64 - 2 ^ 47 → ∃ p, virt_addr_new a = Panic p;
  frame_containing_spec a : frame_containing a = a - a mod page_size;
  page_containing_spec a : page_containing a = a - a mod page_size;
}.

(** A model of the interface, for evaluating the definitions. *)
#[export] Instance x86_paging_model : X86Paging | 100 := {
  phys_addr_new a := if a <? 2 ^ 52 then Ret a else Panic (PMsg "invalid physical address");
  virt_addr_new a :=
    if (a <? 2 ^ 47) || (2 ^ 64 - 2 ^ 47 <=? a) then Ret a
    else if a <? 2 ^ 48 then Ret (a + 2 ^ 64 - 2 ^ 48)
    else Panic (PMsg "invalid virtual address");
  frame_containing a := a - a mod page_size;
  page_containing a := a - a mod page_size;
}.

#[export] Instance x86_paging_model_laws : @X86PagingLaws x86_paging_model.
Proof.
  split; simpl; unfold canonical; intros; z_cases; simpl; try done; try lia; by eexists.
Qed.

(** [PhysFrame::range_inclusive(begin, end)] and [Page::range_inclusive], as the
    list of the start addresses the iterator yields. *)
Definition frame_range (first last : Z) : list Z :=
  if last <? first then []
  else (λ k, first + page_size * Z.of_nat k) <$> seq 0 (S (Z.to_nat ((last - first) / page_size))).

(** [PhysAddr - u64]: underflow panics. *)
Definition phys_sub (a b : Z) : outcome Z := usub a b.

Lemma page_aligned_containing `{X86PagingLaws} a :
  frame_containing a mod page_size = 0.
Proof.
  rewrite frame_containing_spec. unfold page_size.
  rewrite Zminus_mod_idemp_r, Z.sub_diag. done.
Qed.

Lemma frame_containing_aligned `{X86PagingLaws} a :
  a mod page_size = 0 → frame_containing a = a.
Proof. intros E. rewrite frame_containing_spec, E. lia. Qed.

Lemma page_containing_aligned `{X86PagingLaws} a :
  a mod page_size = 0 → page_containing a = a.
Proof. intros E. rewrite page_containing_spec, E. lia. Qed.

Lemma page_containing_le `{X86PagingLaws} a :
  page_containing a <= a < page_containing a + page_size.
Proof.
  rewrite page_containing_spec. unfold page_size.
  pose proof (Z.mod_pos_bound a 4096). lia.
Qed.

Lemma page_containing_range `{X86PagingLaws} a : 0 <= a → 0 <= page_containing a <= a.
Proof.
  intros. rewrite page_containing_spec. unfold page_size.
  pose proof (Z.mod_le a 4096). pose proof (Z.mod_pos_bound a 4096). lia.
Qed.

#[export] Hint Resolve page_aligned_containing frame_containing_aligned
  page_containing_aligned : mach.

Lemma length_frame_range first last :
  first <= last → Z.of_nat (length (frame_range first last)) = (last - first) / page_size + 1.
Proof.
  intros. unfold frame_range. z_cases; [lia|].
  rewrite length_fmap, length_seq, Nat2Z.inj_succ, Z2Nat.id; [lia|].
  unfold page_size. apply Z.div_pos; lia.
Qed.

Lemma elem_of_frame_range first last f :
  f ∈ frame_range first last →
  first <= f <= last ∧ f mod page_size = first mod page_size.
Proof.
  unfold frame_range. z_cases; [by intros ?%not_elem_of_nil|].
  rewrite list_elem_of_fmap. intros (k & -> & Hk).
  apply list_elem_of_In, in_seq in Hk. unfold page_size in *.
  assert (Z.of_nat k <= (last - first) / 4096).
  { assert (0 <= (last - first) / 4096) by (apply Z.div_pos; lia). lia. }
  split; [Z.to_euclidean_division_equations; lia|].
  by rewrite Z.mul_comm, Z.mod_add.
Qed.
