(* ===== verification/Frames.v ===== *)
(** * The frame allocator, src/cralloc/frames.rs

    [KernelFrameAlloc] walks the usable memory regions handed over by the
    bootloader with an index [next]; it keeps no free list.  The theorems show that a
    sequence of allocations hands out pairwise distinct frames of usable memory,
    what [allocate_multiple] really reserves, and that freeing a frame rewinds the
    index whatever frame is freed. *)

From S2P Require Import Prelude Paging.

Local Open Scope Z_scope.

(** A region of the bootloader's memory map; [r_usable] is
    [kind == MemoryRegionKind::Usable]. *)
Record MemoryRegion : Type := Region { r_start : Z; r_end : Z; r_usable : bool }.

Record KernelFrameAlloc : Type := FrameAlloc { fa_map : list MemoryRegion; fa_next : Z }.

Definition falloc_new (map : list MemoryRegion) : KernelFrameAlloc := FrameAlloc map 0.

(** [(r.start..r.end).step_by(4096)]. *)
Definition region_addrs (r : MemoryRegion) : list Z :=
  if r_end r <=? r_start r then []
  else (λ k, r_start r + page_size * Z.of_nat k)
         <$> seq 0 (S (Z.to_nat ((r_end r - r_start r - 1) / page_size))).

(** The addresses the iterator of [usable] runs through. *)
Definition usable_addrs (map : list MemoryRegion) : list Z :=
  filter (λ r, r_usable r = true) map ≫= region_addrs.

Section Allocator.
Context `{X86Paging}.

(** [PhysFrame::containing_address(PhysAddr::new(a))]. *)
Definition frame_of (a : Z) : outcome Z :=
  a ← phys_addr_new a; Ret (frame_containing a).

(** [usable().nth(n)]: the iterator is lazy, so every address up to the [n]-th
    one is turned into a frame and none after it. *)
Fixpoint frames_nth (addrs : list Z) (n : nat) : outcome (option Z) :=
  match addrs with
  | [] => Ret None
  | a :: addrs =>
      f ← frame_of a;
      match n with
      | O => Ret (Some f)
      | S n => frames_nth addrs n
      end
  end.

Definition usable_nth (self : KernelFrameAlloc) (n : Z) : outcome (option Z) :=
  frames_nth (usable_addrs (fa_map self)) (Z.to_nat n).

Definition allocate_frame (self : KernelFrameAlloc) : outcome (option Z * KernelFrameAlloc) :=
  f ← usable_nth self (fa_next self);
  next ← uadd 64 (fa_next self) 1;
  Ret (f, FrameAlloc (fa_map self) next).

(** Returns the inclusive frame range as its two ends, and the new [next]. *)
Definition allocate_multiple (self : KernelFrameAlloc) (size : Z)
    : outcome (option (Z * Z * Z) * KernelFrameAlloc) :=
  b ← usable_nth self (fa_next self);
  match b with
  | None => Ret (None, self)
  | Some begin =>
      i ← uadd 64 (fa_next self) size;
      e ← usable_nth self i;
      match e with
      | None => Ret (None, self)
      | Some last =>
          s ← uadd 64 size 1;
          next ← uadd 64 (fa_next self) s;
          Ret (Some (begin, last, next), FrameAlloc (fa_map self) next)
      end
  end.

Definition deallocate_frame (self : KernelFrameAlloc) (frame : Z) : outcome KernelFrameAlloc :=
  let current_addr := frame in
  a ← phys_sub current_addr 4096;
  let new_addr := frame_containing a in
  next ← usub (fa_next self) 1;
  let _frame := frame_containing new_addr in
  Ret (FrameAlloc (fa_map self) next).

(** [for frame in range { deallocate_frame(frame) }; range.count()]. *)
Definition deallocate_multiple (self : KernelFrameAlloc) (first last : Z)
    : outcome (Z * KernelFrameAlloc) :=
  self ← foldO deallocate_frame (frame_range first last) self;
  Ret (Z.of_nat (length (frame_range first last)), self).

(** [get_next_usable_frame] of src/main.rs: [usable().next().expect(..)]. *)
Definition get_next_usable_frame (self : KernelFrameAlloc) : outcome Z :=
  f ← usable_nth self 0; unwrap f.

(** [n] successive calls of [allocate_frame]. *)
Fixpoint allocate_frames (n : nat) (self : KernelFrameAlloc)
    : outcome (list (option Z) * KernelFrameAlloc) :=
  match n with
  | O => Ret ([], self)
  | S n =>
      '(f, self) ← allocate_frame self;
      '(fs, self) ← allocate_frames n self;
      Ret (f :: fs, self)
  end.

End Allocator.

#[global] Arguments allocate_frame {_} self : simpl never.
#[global] Arguments deallocate_frame {_} self frame : simpl never.
#[global] Arguments usable_addrs map : simpl never.
#[global] Arguments usable_nth {_} self n : simpl never.

(** ** Well-formed memory maps

    The bootloader hands over page-aligned, disjoint regions in increasing order,
    below the architectural limit of 2^52. *)

Fixpoint regions_from (lo : Z) (map : list MemoryRegion) : Prop :=
  match map with
  | [] => True
  | r :: map =>
      lo <= r_start r ∧ r_start r mod page_size = 0 ∧ r_start r <= r_end r ∧
      r_end r mod page_size = 0 ∧ r_end r < 2 ^ 52 ∧ regions_from (r_end r) map
  end.
Definition regions_wf (map : list MemoryRegion) : Prop := regions_from 0 map.

(** The frame [f] lies wholly inside a usable region of [map]. *)
Definition in_usable (map : list MemoryRegion) (f : Z) : Prop :=
  ∃ r, r ∈ map ∧ r_usable r = true ∧ r_start r <= f ∧ f + page_size <= r_end r.

Lemma elem_of_region_addrs r a :
  r_start r mod page_size = 0 → r_end r mod page_size = 0 →
  a ∈ region_addrs r →
  r_start r <= a ∧ a + page_size <= r_end r ∧ a mod page_size = 0.
Proof.
  intros Hs He. unfold region_addrs. z_cases; [by intros ?%not_elem_of_nil|].
  rewrite list_elem_of_fmap. intros (k & -> & Hk). apply list_elem_of_In, in_seq in Hk.
  unfold page_size in *.
  assert (Z.of_nat k <= (r_end r - r_start r - 1) / 4096).
  { assert (0 <= (r_end r - r_start r - 1) / 4096) by (apply Z.div_pos; lia). lia. }
  rewrite Z.mul_comm, Z.mod_add by lia. Z.to_euclidean_division_equations; lia.
Qed.

Lemma region_addrs_NoDup r : NoDup (region_addrs r).
Proof.
  unfold region_addrs. z_cases; [constructor|]. apply NoDup_fmap_2, NoDup_seq.
  intros x y. unfold page_size. lia.
Qed.

Lemma length_region_addrs r :
  r_start r < r_end r →
  Z.of_nat (length (region_addrs r)) = (r_end r - r_start r - 1) / page_size + 1.
Proof.
  intros. unfold region_addrs. z_cases; [lia|].
  rewrite length_fmap, length_seq, Nat2Z.inj_succ, Z2Nat.id; [lia|].
  unfold page_size. apply Z.div_pos; lia.
Qed.

Lemma usable_addrs_cons r map :
  usable_addrs (r :: map) =
  (if r_usable r then region_addrs r else []) ++ usable_addrs map.
Proof.
  unfold usable_addrs. rewrite filter_cons. case_decide as E; [by rewrite E|].
  by rewrite (not_true_is_false _ E).
Qed.

(** Every address the iterator yields lies in a usable region, is page-aligned
    and is at or above the start of the map. *)
Lemma elem_of_usable_addrs lo map a :
  regions_from lo map → a ∈ usable_addrs map →
  in_usable map a ∧ a mod page_size = 0 ∧ lo <= a < 2 ^ 52.
Proof.
  revert lo. induction map as [|r map IH]; intros lo Hwf Ha.
  { by apply not_elem_of_nil in Ha. }
  destruct Hwf as (Hlo & Hs & Hse & He & Hlim & Hwf).
  rewrite usable_addrs_cons, elem_of_app in Ha. destruct Ha as [Ha|Ha].
  - destruct (r_usable r) eqn:Hu; [|by apply not_elem_of_nil in Ha].
    destruct (elem_of_region_addrs r a Hs He Ha) as (? & ? & ?). unfold page_size in *.
    split_and!; [|done|lia..]. exists r. split_and!; [constructor|done..].
  - destruct (IH _ Hwf Ha) as ((q & ? & ? & ? & ?) & ? & ?).
    split_and!; [|done|lia..]. exists q. split_and!; [by constructor|done..].
Qed.

Lemma usable_addrs_NoDup lo map : regions_from lo map → NoDup (usable_addrs map).
Proof.
  revert lo. induction map as [|r map IH]; intros lo Hwf; [constructor|].
  destruct Hwf as (Hlo & Hs & Hse & He & Hlim & Hwf).
  rewrite usable_addrs_cons. apply NoDup_app. split_and!.
  - destruct (r_usable r); [apply region_addrs_NoDup|constructor].
  - intros a Ha Ha'. destruct (r_usable r); [|by apply not_elem_of_nil in Ha].
    apply (elem_of_region_addrs r a Hs He) in Ha as (? & ? & ?).
    apply (elem_of_usable_addrs _ _ _ Hwf) in Ha' as (_ & _ & ?). unfold page_size in *. lia.
  - by apply (IH (r_end r)).
Qed.

Lemma region_addrs_lookup r i a :
  region_addrs r !! i = Some a → a = r_start r + page_size * Z.of_nat i.
Proof.
  unfold region_addrs. z_cases; [done|]. rewrite list_lookup_fmap.
  destruct (seq _ _ !! i) eqn:E; [|done]. apply lookup_seq in E as [-> _]. by intros [= <-].
Qed.

Lemma region_addrs_end r :
  r_start r mod page_size = 0 → r_end r mod page_size = 0 → r_start r <= r_end r →
  r_start r + page_size * Z.of_nat (length (region_addrs r)) <= r_end r.
Proof.
  intros Hs He Hse. destruct (decide (r_start r < r_end r)).
  - rewrite length_region_addrs by done. unfold page_size in *. zdm.
  - unfold region_addrs. z_cases; [cbn; lia|lia].
Qed.

(** The usable addresses grow by at least a page at every position. *)
Lemma usable_addrs_lower lo map n b :
  regions_from lo map → usable_addrs map !! n = Some b → lo + page_size * Z.of_nat n <= b.
Proof.
  revert lo n. induction map as [|r map IH]; intros lo n Hwf Hn; [done|].
  destruct Hwf as (Hlo & Hs & Hse & He & Hlim & Hwf). rewrite usable_addrs_cons in Hn.
  destruct (r_usable r); [|specialize (IH _ _ Hwf Hn); lia].
  pose proof (region_addrs_end r Hs He Hse).
  apply lookup_app_Some in Hn as [->%region_addrs_lookup|[? Hn]]; [lia|].
  specialize (IH _ _ Hwf Hn). unfold page_size in *. lia.
Qed.

Lemma usable_addrs_mono lo map i j a b :
  regions_from lo map → usable_addrs map !! i = Some a → usable_addrs map !! j = Some b →
  (i <= j)%nat → a + page_size * (Z.of_nat j - Z.of_nat i) <= b.
Proof.
  revert lo i j. induction map as [|r map IH]; intros lo i j Hwf Hi Hj Hij; [done|].
  destruct Hwf as (Hlo & Hs & Hse & He & Hlim & Hwf). rewrite usable_addrs_cons in Hi, Hj.
  destruct (r_usable r); [|by eapply IH].
  pose proof (region_addrs_end r Hs He Hse).
  apply lookup_app_Some in Hi as [Hi|[Hil Hi]], Hj as [Hj|[Hjl Hj]].
  - apply region_addrs_lookup in Hi as ->, Hj as ->. unfold page_size. lia.
  - apply region_addrs_lookup in Hi as ->. apply (usable_addrs_lower _ _ _ _ Hwf) in Hj.
    unfold page_size in *. lia.
  - apply lookup_lt_Some in Hj. lia.
  - specialize (IH _ _ _ Hwf Hi Hj). unfold page_size in *. lia.
Qed.

(** ** Behaviour of the allocator *)

Section AllocatorTheory.
Context `{X86PagingLaws}.

Lemma frame_of_ret a : a mod page_size = 0 → 0 <= a < 2 ^ 52 → frame_of a = Ret a.
Proof.
  intros. unfold frame_of. rewrite phys_addr_new_ok by lia. cbn.
  by rewrite frame_containing_aligned.
Qed.

(** On a well-formed map the lazy walk never panics: it is list indexing. *)
Lemma frames_nth_spec addrs n :
  Forall (λ a, a mod page_size = 0 ∧ 0 <= a < 2 ^ 52) addrs →
  frames_nth addrs n = Ret (addrs !! n).
Proof.
  intros HF. revert n. induction HF as [|a addrs (? & ?) _ IH]; intros [|n]; cbn; try done;
    rewrite frame_of_ret by lia; cbn; [done|apply IH].
Qed.

Lemma usable_nth_spec self n :
  regions_wf (fa_map self) →
  usable_nth self n = Ret (usable_addrs (fa_map self) !! Z.to_nat n).
Proof.
  intros Hwf. unfold usable_nth. apply frames_nth_spec, Forall_forall. intros a Ha.
  destruct (elem_of_usable_addrs _ _ _ Hwf Ha) as (_ & ? & ?). lia.
Qed.

Lemma allocate_frame_spec self :
  regions_wf (fa_map self) → 0 <= fa_next self < 2 ^ 64 - 1 →
  allocate_frame self =
  Ret (usable_addrs (fa_map self) !! Z.to_nat (fa_next self),
       FrameAlloc (fa_map self) (fa_next self + 1)).
Proof.
  intros Hwf Hn. unfold allocate_frame. rewrite usable_nth_spec by done. cbn.
  by rewrite uadd_ret by lia.
Qed.

(** [n] allocations read [n] consecutive positions of the usable addresses. *)
Lemma allocate_frames_spec n self :
  regions_wf (fa_map self) → 0 <= fa_next self → fa_next self + Z.of_nat n < 2 ^ 64 →
  allocate_frames n self =
  Ret ((λ k, usable_addrs (fa_map self) !! k) <$> seq (Z.to_nat (fa_next self)) n,
       FrameAlloc (fa_map self) (fa_next self + Z.of_nat n)).
Proof.
  revert self. induction n as [|n IH]; intros [m nx] Hwf Hnx Hn; cbn [fa_map fa_next] in *.
  { cbn. by rewrite Z.add_0_r. }
  cbn [allocate_frames]. rewrite allocate_frame_spec by (cbn in *; first [done|lia]). cbn.
  rewrite IH by (cbn; first [done|lia]). cbn.
  rewrite Z2Nat.inj_add by lia. change (Z.to_nat 1) with 1%nat.
  replace (Z.to_nat nx + 1)%nat with (S (Z.to_nat nx)) by lia.
  do 3 f_equal. lia.
Qed.

Lemma deallocate_frame_spec self frame :
  page_size <= frame → 1 <= fa_next self →
  deallocate_frame self frame = Ret (FrameAlloc (fa_map self) (fa_next self - 1)).
Proof.
  intros. unfold deallocate_frame, phys_sub, page_size in *.
  rewrite usub_ret by lia. cbn. by rewrite usub_ret by lia.
Qed.

Lemma deallocate_foldO fs self :
  Forall (Z.le page_size) fs → Z.of_nat (length fs) <= fa_next self →
  foldO deallocate_frame fs self =
  Ret (FrameAlloc (fa_map self) (fa_next self - Z.of_nat (length fs))).
Proof.
  intros HF. revert self. induction HF as [|f fs Hf _ IH]; intros [m nx] Hn; cbn [foldO length fa_next fa_map] in *.
  { by rewrite Z.sub_0_r. }
  rewrite deallocate_frame_spec by (cbn; first [done|lia]). cbn.
  rewrite IH by (cbn; lia). cbn. do 2 f_equal. lia.
Qed.

(** C3: on a well-formed memory map, [n] successive [allocate_frame] calls never
    panic; the frames they hand out (the calls that do not answer [None]) are
    page-aligned, lie wholly inside usable regions and are pairwise distinct. *)
Theorem allocate_frames_distinct_usable n self :
  regions_wf (fa_map self) → 0 <= fa_next self → fa_next self + Z.of_nat n < 2 ^ 64 →
  ∃ fs, allocate_frames n self = Ret (fs, FrameAlloc (fa_map self) (fa_next self + Z.of_nat n)) ∧
    length fs = n ∧
    (∀ i f, fs !! i = Some (Some f) → in_usable (fa_map self) f ∧ f mod page_size = 0) ∧
    (∀ i j f, fs !! i = Some (Some f) → fs !! j = Some (Some f) → i = j).
Proof.
  intros Hwf Hnx Hn. eexists. split; [by apply allocate_frames_spec|].
  split; [by rewrite length_fmap, length_seq|].
  assert (Hlk : ∀ i f, ((λ k, usable_addrs (fa_map self) !! k) <$> seq (Z.to_nat (fa_next self)) n) !! i
    = Some (Some f) → usable_addrs (fa_map self) !! (Z.to_nat (fa_next self) + i)%nat = Some f).
  { intros i f. rewrite list_lookup_fmap. destruct (seq _ n !! i) eqn:E; [|done].
    apply lookup_seq in E as [-> _]. by intros [= ->]. }
  split.
  - intros i f Hf%Hlk%list_elem_of_lookup_2.
    destruct (elem_of_usable_addrs _ _ _ Hwf Hf) as (? & ? & _). done.
  - intros i j f Hi%Hlk Hj%Hlk.
    assert (Z.to_nat (fa_next self) + i = Z.to_nat (fa_next self) + j)%nat; [|lia].
    eapply NoDup_lookup; [by eapply usable_addrs_NoDup|done..].
Qed.

(** Freeing any frame rewinds the allocator by one position, whichever frame
    is freed: the next allocation hands out the frame handed out last, which is
    still in use when it is not the freed one. *)
Theorem deallocate_rehands_last self f other :
  regions_wf (fa_map self) → 0 <= fa_next self < 2 ^ 64 - 1 → page_size <= other →
  ∀ self', allocate_frame self = Ret (Some f, self') →
  ∃ self'', deallocate_frame self' other = Ret self'' ∧
    allocate_frame self'' = Ret (Some f, self').
Proof.
  intros Hwf Hn Ho self'. rewrite allocate_frame_spec by done. intros [= E <-].
  eexists. rewrite deallocate_frame_spec by (cbn; lia). split; [done|].
  rewrite allocate_frame_spec by (cbn; first [done|lia]). cbn.
  replace (fa_next self + 1 - 1) with (fa_next self) by lia. by rewrite E.
Qed.

(** [allocate_multiple] reads the first and the last of [size + 1] positions. *)
Lemma allocate_multiple_spec self size :
  regions_wf (fa_map self) → 0 <= fa_next self → 0 <= size →
  fa_next self + size + 1 < 2 ^ 64 →
  let us := usable_addrs (fa_map self) in
  (∃ b e, us !! Z.to_nat (fa_next self) = Some b ∧
     us !! Z.to_nat (fa_next self + size) = Some e ∧
     allocate_multiple self size =
       Ret (Some (b, e, fa_next self + size + 1),
            FrameAlloc (fa_map self) (fa_next self + size + 1))) ∨
  (Z.of_nat (length us) <= fa_next self + size ∧ allocate_multiple self size = Ret (None, self)).
Proof.
  intros Hwf Hnx Hs Hn us. unfold allocate_multiple.
  rewrite usable_nth_spec by done. cbn. fold us.
  destruct (us !! Z.to_nat (fa_next self)) as [b|] eqn:Eb.
  2:{ right. apply lookup_ge_None in Eb. split; [lia|done]. }
  rewrite (uadd_ret 64 (fa_next self) size) by lia. cbn.
  rewrite usable_nth_spec by done. cbn. fold us.
  destruct (us !! Z.to_nat (fa_next self + size)) as [e|] eqn:Ee.
  - left. exists b, e. rewrite uadd_ret by lia. cbn. rewrite uadd_ret by lia. cbn.
    by rewrite Z.add_assoc.
  - right. apply lookup_ge_None in Ee. split; [lia|done].
Qed.

(** [allocate_multiple size] succeeds exactly when [size + 1] usable frames
    are left, and reserves [size + 1] of them.  The range it returns has at least
    that many frames, and exactly that many only if the reserved frames are
    contiguous; otherwise it covers frames that are not usable. *)
Theorem allocate_multiple_reserves self size :
  regions_wf (fa_map self) → 0 <= fa_next self → 0 <= size →
  fa_next self + size + 1 < 2 ^ 64 →
  let us := usable_addrs (fa_map self) in
  if decide (fa_next self + size < Z.of_nat (length us)) then
    ∃ b e, allocate_multiple self size =
        Ret (Some (b, e, fa_next self + size + 1),
             FrameAlloc (fa_map self) (fa_next self + size + 1)) ∧
      us !! Z.to_nat (fa_next self) = Some b ∧ us !! Z.to_nat (fa_next self + size) = Some e ∧
      size + 1 <= Z.of_nat (length (frame_range b e)) ∧
      (Z.of_nat (length (frame_range b e)) = size + 1 ↔ e = b + page_size * size)
  else allocate_multiple self size = Ret (None, self).
Proof.
  intros Hwf Hnx Hs Hn us.
  destruct (allocate_multiple_spec self size Hwf Hnx Hs Hn) as [(b & e & Hb & He & ->)|[Hl ->]].
  - pose proof (lookup_lt_Some _ _ _ He). rewrite decide_True by (unfold us; lia).
    pose proof (usable_addrs_mono _ _ _ _ _ _ Hwf Hb He ltac:(lia)) as Hbe.
    exists b, e. split_and!; [done..| |].
    + rewrite length_frame_range by (unfold page_size in *; lia). unfold page_size in *. zdm.
    + destruct (elem_of_usable_addrs _ _ b Hwf) as (_ & Hbal & _); [by eapply list_elem_of_lookup_2|].
      destruct (elem_of_usable_addrs _ _ e Hwf) as (_ & Heal & _); [by eapply list_elem_of_lookup_2|].
      rewrite length_frame_range by (unfold page_size in *; lia). unfold page_size in *. zdm.
  - by rewrite decide_False by (unfold us; lia).
Qed.

End AllocatorTheory.

(** ** Concrete runs *)

(** Two usable regions with a reserved one between them. *)
Definition example_map : list MemoryRegion :=
  [Region 0x1000 0x3000 true; Region 0x3000 0x5000 false; Region 0x5000 0x8000 true].

Lemma example_map_wf : regions_wf example_map.
Proof. unfold regions_wf, example_map, page_size. cbn. repeat split; lia. Qed.

Lemma allocate_frames_witness :
  ∃ fs, allocate_frames 6 (falloc_new example_map) = Ret (fs, FrameAlloc example_map 6) ∧
    fs = [Some 0x1000; Some 0x2000; Some 0x5000; Some 0x6000; Some 0x7000; None].
Proof.
  destruct (allocate_frames_distinct_usable 6 (falloc_new example_map) example_map_wf)
    as (fs & E & _); [cbn; lia..|].
  exists fs. split; [exact E|]. vm_compute in E. congruence.
Defined.

Lemma deallocate_rehands_witness :
  ∃ self'', deallocate_frame (FrameAlloc example_map 2) 0x1000 = Ret self'' ∧
    allocate_frame self'' = Ret (Some 0x2000, FrameAlloc example_map 2).
Proof.
  apply (deallocate_rehands_last (FrameAlloc example_map 1) 0x2000 0x1000 example_map_wf).
  - cbn; lia.
  - unfold page_size; lia.
  - reflexivity.
Defined.

(** The range of two frames starting at the second usable frame spans the
    reserved region between the two usable ones. *)
Lemma allocate_multiple_witness :
  allocate_multiple (FrameAlloc example_map 1) 1 =
    Ret (Some (0x2000, 0x5000, 3), FrameAlloc example_map 3) ∧
  frame_range 0x2000 0x5000 = [0x2000; 0x3000; 0x4000; 0x5000].
Proof.
  split; [|reflexivity].
  pose proof (allocate_multiple_reserves (FrameAlloc example_map 1) 1 example_map_wf) as Hm.
  destruct Hm as (b & e & E & Hb & He & _); [cbn; lia..|].
  vm_compute in Hb, He. injection Hb as <-. injection He as <-. exact E.
Defined.
