(* ===== verification/FrameOwners.v ===== *)
(** * Who owns which frame: clients of src/cralloc/frames.rs

    The allocator keeps an index and no record of the frames in use, so whether a frame has
    one owner depends on the order in which its clients free.  A client's blocks are kept
    here beside the allocator; steps are the calls of [KernelFrameAlloc]. *)

From stdpp Require Import relations.
From S2P Require Import Prelude Paging Frames.

Local Open Scope Z_scope.

(** The allocator and the blocks in use, the most recent first. *)
Record owners : Type := MkOwners { ow_falloc : KernelFrameAlloc; ow_blocks : list (list Z) }.

(** A client that frees only its most recent block, and takes a range only when the frames
    reserved for it are consecutive. *)
Inductive owner_step `{X86Paging} : owners → owners → Prop :=
  | own_frame fa fa' f bs :
      allocate_frame fa = Ret (Some f, fa') → owner_step (MkOwners fa bs) (MkOwners fa' ([f] :: bs))
  | own_none fa fa' bs :
      allocate_frame fa = Ret (None, fa') → owner_step (MkOwners fa bs) (MkOwners fa' bs)
  | own_range fa fa' size b e n bs :
      0 <= size → allocate_multiple fa size = Ret (Some (b, e, n), fa') → e = b + page_size * size →
      owner_step (MkOwners fa bs) (MkOwners fa' (frame_range b e :: bs))
  | own_no_range fa fa' size bs :
      0 <= size → allocate_multiple fa size = Ret (None, fa') → owner_step (MkOwners fa bs) (MkOwners fa' bs)
  | own_free fa fa' fs bs :
      foldO deallocate_frame fs fa = Ret fa' → owner_step (MkOwners fa (fs :: bs)) (MkOwners fa' bs).

Section Theory.
Context `{X86PagingLaws}.

(** *** What a call that returns says *)

Lemma allocate_frame_inv fa o fa' :
  regions_wf (fa_map fa) → 0 <= fa_next fa → allocate_frame fa = Ret (o, fa') →
  o = usable_addrs (fa_map fa) !! Z.to_nat (fa_next fa) ∧ fa' = FrameAlloc (fa_map fa) (fa_next fa + 1).
Proof.
  intros Hwf Hn. unfold allocate_frame. rewrite usable_nth_spec by done. cbn [mbind outcome_bind].
  intros (next & [-> _]%uadd_inv & [= <- <-])%bind_ret_inv. done.
Qed.

Lemma allocate_multiple_inv fa size o fa' :
  regions_wf (fa_map fa) → 0 <= fa_next fa → 0 <= size → allocate_multiple fa size = Ret (o, fa') →
  match o with
  | None => fa' = fa
  | Some (b, e, n) =>
      usable_addrs (fa_map fa) !! Z.to_nat (fa_next fa) = Some b ∧
      usable_addrs (fa_map fa) !! Z.to_nat (fa_next fa + size) = Some e ∧
      fa' = FrameAlloc (fa_map fa) (fa_next fa + size + 1)
  end.
Proof.
  intros Hwf Hn Hs. unfold allocate_multiple. rewrite usable_nth_spec by done. cbn [mbind outcome_bind].
  destruct (usable_addrs (fa_map fa) !! Z.to_nat (fa_next fa)) as [b|]; [|by intros [= <- <-]].
  intros (i & [-> _]%uadd_inv & Hb)%bind_ret_inv. rewrite usable_nth_spec in Hb by done. cbn [mbind outcome_bind] in Hb.
  destruct (usable_addrs (fa_map fa) !! Z.to_nat (fa_next fa + size)) as [e|]; [|by injection Hb as <- <-].
  apply bind_ret_inv in Hb as (i & [-> _]%uadd_inv & Hb). apply bind_ret_inv in Hb as (i & [-> _]%uadd_inv & [= <- <-]).
  split_and!; [done..|]. f_equal. lia.
Qed.

Lemma deallocate_inv fs fa fa' :
  foldO deallocate_frame fs fa = Ret fa' → 0 <= fa_next fa →
  fa' = FrameAlloc (fa_map fa) (fa_next fa - Z.of_nat (length fs)) ∧ Z.of_nat (length fs) <= fa_next fa.
Proof.
  revert fa. induction fs as [|f fs IH]; intros [m nx]; cbn [foldO length fa_map fa_next].
  - intros [= <-] Hn. rewrite Z.sub_0_r. split; [done|lia].
  - intros (fa1 & Hd & Hf)%bind_ret_inv Hn. unfold deallocate_frame, phys_sub in Hd. cbn [fa_map fa_next] in Hd.
    apply bind_ret_inv in Hd as (a & _ & Hd). apply bind_ret_inv in Hd as (nx' & [-> Hle]%usub_inv & [= <-]).
    apply IH in Hf as [-> Hl]; cbn [fa_next fa_map] in *; [|lia]. split; [|lia]. f_equal. lia.
Qed.

(** *** Blocks are stacked on the usable addresses *)

(** The blocks lie below [bound] one under the other, each on consecutive positions. *)
Fixpoint stacked (us : list Z) (bound : Z) (bs : list (list Z)) : Prop :=
  match bs with
  | [] => 0 <= bound
  | fs :: bs => ∃ j : nat, Z.of_nat (j + length fs) <= bound ∧ fs = take (length fs) (drop j us) ∧
                  stacked us (Z.of_nat j) bs
  end.

Lemma stacked_nonneg us bound bs : stacked us bound bs → 0 <= bound.
Proof. destruct bs; [done|]. intros (j & ? & _). lia. Qed.

Lemma stacked_mono us bound bound' bs : bound <= bound' → stacked us bound bs → stacked us bound' bs.
Proof. destruct bs; cbn; [lia|]. intros ? (j & ? & ?). exists j. split; [lia|done]. Qed.

Lemma stacked_positions us bound bs f :
  stacked us bound bs → f ∈ concat bs → ∃ k : nat, us !! k = Some f ∧ Z.of_nat k < bound.
Proof.
  revert bound. induction bs as [|fs bs IH]; intros bound; cbn; [by intros _ ?%not_elem_of_nil|].
  intros (j & Hj & Hfs & Hst) [Hf|Hf]%elem_of_app.
  - apply list_elem_of_lookup in Hf as [i Hi]. pose proof (lookup_lt_Some _ _ _ Hi).
    rewrite Hfs, lookup_take_lt, lookup_drop in Hi by done. exists (j + i)%nat. split; [done|lia].
  - destruct (IH _ Hst Hf) as (k & ? & ?). exists k. split; [done|lia].
Qed.

Lemma stacked_NoDup us bound bs : NoDup us → stacked us bound bs → NoDup (concat bs).
Proof.
  intros Hus. revert bound. induction bs as [|fs bs IH]; intros bound; cbn; [constructor|].
  intros (j & Hj & Hfs & Hst). apply NoDup_app. split_and!; [| |by eapply IH].
  - rewrite Hfs. eapply sublist_NoDup; [|apply sublist_take]. by eapply sublist_NoDup; [|apply sublist_drop].
  - intros f Hf Hf'. destruct (stacked_positions _ _ _ _ Hst Hf') as (k & Hk & Hkj).
    apply list_elem_of_lookup in Hf as [i Hi]. pose proof (lookup_lt_Some _ _ _ Hi).
    rewrite Hfs, lookup_take_lt, lookup_drop in Hi by done.
    pose proof (NoDup_lookup _ _ _ _ Hus Hi Hk). lia.
Qed.

(** A range whose ends are [size] positions and [size] pages apart is those positions. *)
Lemma range_positions us map i b e (size : Z) :
  us = usable_addrs map → regions_wf map → 0 <= size →
  us !! i = Some b → us !! (i + Z.to_nat size)%nat = Some e → e = b + page_size * size →
  frame_range b e = take (length (frame_range b e)) (drop i us) ∧ length (frame_range b e) = S (Z.to_nat size).
Proof.
  intros -> Hwf Hs Hb He ->.
  assert (length (frame_range b (b + page_size * size)) = S (Z.to_nat size)) as Hlen.
  { apply Nat2Z.inj. rewrite length_frame_range by (unfold page_size; lia). unfold page_size.
    replace (b + 4096 * size - b) with (size * 4096) by lia. rewrite Z.div_mul; lia. }
  split; [|done]. rewrite Hlen. apply list_eq. intros k. destruct (decide (k < S (Z.to_nat size))%nat) as [Hk|Hk].
  2: { rewrite lookup_ge_None_2 by lia. rewrite lookup_take_ge; [done|lia]. }
  rewrite lookup_take_lt, lookup_drop by done.
  assert (is_Some (usable_addrs map !! (i + k)%nat)) as [a Ha].
  { apply lookup_lt_is_Some. apply lookup_lt_Some in He. lia. }
  pose proof (usable_addrs_mono _ _ _ _ _ _ Hwf Hb Ha ltac:(lia)).
  pose proof (usable_addrs_mono _ _ _ _ _ _ Hwf Ha He ltac:(lia)).
  rewrite Ha. unfold frame_range. destruct (Z.ltb_spec (b + page_size * size) b); [unfold page_size in *; lia|].
  rewrite list_lookup_fmap, lookup_seq_lt.
  - cbn. f_equal. unfold page_size in *. lia.
  - unfold frame_range in Hlen. rewrite (proj2 (Z.ltb_ge _ _)) in Hlen by done.
    rewrite length_fmap, length_seq in Hlen. lia.
Qed.

Definition owners_inv (map : list MemoryRegion) (o : owners) : Prop :=
  fa_map (ow_falloc o) = map ∧ stacked (usable_addrs map) (fa_next (ow_falloc o)) (ow_blocks o).

Lemma owner_step_inv map o o' : regions_wf map → owner_step o o' → owners_inv map o → owners_inv map o'.
Proof.
  intros Hwf Hs [Hm Hst]. pose proof (stacked_nonneg _ _ _ Hst) as Hn.
  destruct Hs as [fa fa' f bs Ha|fa fa' bs Ha|fa fa' size b e n bs Hsz Ha He|fa fa' size bs Hsz Ha|fa fa' fs bs Hd];
    cbn [ow_falloc ow_blocks] in *; subst map.
  - apply allocate_frame_inv in Ha as [Hf ->]; [|done..]. split; [done|]. cbn.
    exists (Z.to_nat (fa_next fa)). split_and!; [cbn; lia| |by rewrite Z2Nat.id].
    symmetry in Hf. cbn [length]. by rewrite (drop_S _ _ _ Hf).
  - apply allocate_frame_inv in Ha as [Hf ->]; [|done..]. split; [done|]. cbn. eapply stacked_mono; [|done]. lia.
  - apply allocate_multiple_inv in Ha as (Hb & Hl & ->); [|done..]. split; [done|]. cbn [ow_falloc ow_blocks fa_next fa_map].
    rewrite Z2Nat.inj_add in Hl by lia.
    destruct (range_positions _ (fa_map fa) (Z.to_nat (fa_next fa)) b e size eq_refl Hwf Hsz Hb Hl He) as [Hr Hlen].
    exists (Z.to_nat (fa_next fa)). split_and!; [lia|done|by rewrite Z2Nat.id].
  - apply allocate_multiple_inv in Ha as ->; [|done..]. done.
  - apply deallocate_inv in Hd as [-> Hl]; [|done]. split; [done|]. cbn. destruct Hst as (j & Hj & _ & Hst).
    eapply stacked_mono; [|done]. lia.
Qed.

(** C6: clients that free in the reverse order of allocation, and take ranges only of
    consecutive frames, never share a frame: after any sequence of successful and failed
    allocations of frames and ranges and of such frees, the frames of all blocks in use are
    distinct, page-aligned and inside usable memory. *)
Theorem stacked_clients_never_share map o :
  regions_wf map → rtc owner_step (MkOwners (falloc_new map) []) o →
  NoDup (concat (ow_blocks o)) ∧
  ∀ f, f ∈ concat (ow_blocks o) → in_usable map f ∧ f mod page_size = 0.
Proof.
  intros Hwf Hr. assert (owners_inv map o) as [_ Hst].
  { revert o Hr. apply rtc_ind_r; [split; [done|cbn; lia]|]. eauto using owner_step_inv. }
  split; [eapply stacked_NoDup; [by eapply usable_addrs_NoDup|done]|].
  intros f Hf. destruct (stacked_positions _ _ _ _ Hst Hf) as (k & Hk & _).
  destruct (elem_of_usable_addrs _ _ f Hwf) as (? & ? & _); [by eapply list_elem_of_lookup_2|done].
Qed.

End Theory.

(** ** Concrete runs *)

(** Four usable frames, a gap of two, and two more. *)
Definition gap_map : list MemoryRegion :=
  [Region 0x1000 0x5000 true; Region 0x5000 0x7000 false; Region 0x7000 0x9000 true].
Lemma gap_map_wf : regions_wf gap_map.
Proof. unfold regions_wf, gap_map, page_size. cbn. repeat split; lia. Qed.

(** Two frames, the second freed, and a range of two. *)
Lemma stacked_clients_witness :
  ∃ o, rtc owner_step (MkOwners (falloc_new gap_map) []) o ∧
    ow_blocks o = [[0x2000; 0x3000]; [0x1000]] ∧ NoDup (concat (ow_blocks o)).
Proof.
  assert (rtc owner_step (MkOwners (falloc_new gap_map) [])
            (MkOwners (FrameAlloc gap_map 3) [[0x2000; 0x3000]; [0x1000]])) as Hr.
  { eapply rtc_l; [by apply (own_frame _ (FrameAlloc gap_map 1))|].
    eapply rtc_l; [by apply (own_frame _ (FrameAlloc gap_map 2) 0x2000)|].
    eapply rtc_l; [by apply (own_free _ (FrameAlloc gap_map 1))|].
    eapply rtc_l; [by apply (own_range _ (FrameAlloc gap_map 3) 1 0x2000 0x3000 3)|]. done. }
  eexists. split; [exact Hr|]. split; [reflexivity|].
  apply (stacked_clients_never_share gap_map _ gap_map_wf Hr).
Defined.

(** Without the second condition it fails: three frames are in use, a range of two frames
    spans the gap, and freeing it rewinds the allocator by four positions, so that the
    next frame it hands out is one of the three. *)
Lemma range_over_gap_shares :
  ∃ fs fa1 b e n fa2 k fa3 f fa4,
    allocate_frames 3 (falloc_new gap_map) = Ret (fs, fa1) ∧
    allocate_multiple fa1 1 = Ret (Some (b, e, n), fa2) ∧
    deallocate_multiple fa2 b e = Ret (k, fa3) ∧ allocate_frame fa3 = Ret (Some f, fa4) ∧ Some f ∈ fs.
Proof. do 10 eexists. split_and!; [reflexivity|reflexivity|reflexivity|reflexivity|]. right. left. Qed.
