(* ===== verification/Memory.v ===== *)
(** * Mapping memory: src/common/macros.rs, src/common/mod.rs, src/cralloc/mod.rs

    The page tables are those of the [x86_64] crate: [PageMapper] names what the
    kernel calls ([Mapper::map_to], [Mapper::unmap]) together with the view of the
    tables its behaviour is documented by, and [PageMapperLaws] states that
    behaviour.  On top of it stand the macros [map_page!] and [unmap_page!],
    [addralloc], the [XhciMapper] and the heap set-up, over the kernel's global
    memory state with its two locks. *)

From S2P Require Import Prelude Paging Frames.

Local Open Scope Z_scope.

(** ** The page-table interface *)

(** [Result<MapperFlush, MapToError>]. *)
Inductive map_result : Type :=
  | MapOk
  | FrameAllocationFailed
  | ParentEntryHugePage
  | PageAlreadyMapped (f : Z).

(** [Result<(PhysFrame, MapperFlush), UnmapError>]. *)
Inductive unmap_result : Type :=
  | UnmapOk (f : Z)
  | UnmapParentEntryHugePage
  | UnmapPageNotMapped
  | UnmapInvalidFrameAddress (a : Z).

#[export] Instance map_result_eq_dec : EqDecision map_result.
Proof. solve_decision. Defined.

Class PageMapper : Type := {
  pt : Type;
  translate : pt → Z → option (Z * Z);   (* page ↦ frame and flags *)
  huge : pt → Z → bool;                  (* a parent entry maps a huge page *)
  map_to : pt → Z → Z → Z → KernelFrameAlloc → outcome (map_result * pt * KernelFrameAlloc);
  unmap : pt → Z → outcome (unmap_result * pt);
  PRESENT : Z; WRITABLE : Z; USER_ACCESSIBLE : Z; WRITE_THROUGH : Z;
  NO_CACHE : Z; GLOBAL : Z; NO_EXECUTE : Z;   (* PageTableFlags *)
}.

(** The allocator has [n] more frames to give. *)
Definition frames_left (fa : KernelFrameAlloc) (n : Z) : Prop :=
  regions_wf (fa_map fa) ∧ 0 <= fa_next fa ∧ fa_next fa + n < 2 ^ 64 ∧
  fa_next fa + n <= Z.of_nat (length (usable_addrs (fa_map fa))).

(** [fa'] comes from [fa] by at most [n] allocations. *)
Definition advanced (n : Z) (fa fa' : KernelFrameAlloc) : Prop :=
  fa_map fa' = fa_map fa ∧ fa_next fa <= fa_next fa' <= fa_next fa + n.

Definition view_eq `{PageMapper} (m m' : pt) : Prop :=
  ∀ p, translate m' p = translate m p ∧ huge m' p = huge m p.

(** [m'] is [m] with the entry of [page] replaced. *)
Definition view_upd `{PageMapper} (page : Z) (e : option (Z * Z)) (m m' : pt) : Prop :=
  ∀ p, translate m' p = (if decide (p = page) then e else translate m p) ∧
       huge m' p = huge m p.

Class PageMapperLaws `{PageMapper} : Prop := {
  map_to_mapped m p f fl fa f0 fl0 :
    huge m p = false → translate m p = Some (f0, fl0) →
    ∃ m', map_to m p f fl fa = Ret (PageAlreadyMapped f0, m', fa) ∧ view_eq m m';
  map_to_huge m p f fl fa :
    huge m p = true →
    ∃ m', map_to m p f fl fa = Ret (ParentEntryHugePage, m', fa) ∧ view_eq m m';
  (* A new mapping may need frames for up to three levels of page tables. *)
  map_to_new m p f fl fa :
    huge m p = false → translate m p = None → frames_left fa 3 →
    ∃ m' fa', map_to m p f fl fa = Ret (MapOk, m', fa') ∧
      view_upd p (Some (f, fl)) m m' ∧ advanced 3 fa fa';
  unmap_mapped m p f fl :
    huge m p = false → translate m p = Some (f, fl) →
    ∃ m', unmap m p = Ret (UnmapOk f, m') ∧ view_upd p None m m';
  unmap_not_mapped m p :
    huge m p = false → translate m p = None →
    ∃ m', unmap m p = Ret (UnmapPageNotMapped, m') ∧ view_eq m m';
  unmap_huge m p :
    huge m p = true →
    ∃ m', unmap m p = Ret (UnmapParentEntryHugePage, m') ∧ view_eq m m';
  page_flag_bits :
    PRESENT = 2 ^ 0 ∧ WRITABLE = 2 ^ 1 ∧ USER_ACCESSIBLE = 2 ^ 2 ∧ WRITE_THROUGH = 2 ^ 3 ∧
    NO_CACHE = 2 ^ 4 ∧ GLOBAL = 2 ^ 8 ∧ NO_EXECUTE = 2 ^ 63;
}.

(** A model of the interface: a finite map with all its tables in place. *)
#[export] Instance page_mapper_model : PageMapper | 100 := {
  pt := gmap Z (Z * Z);
  translate m p := m !! p;
  huge _ _ := false;
  map_to m p f fl fa :=
    match m !! p with
    | Some (f0, _) => Ret (PageAlreadyMapped f0, m, fa)
    | None => Ret (MapOk, <[p := (f, fl)]> m, fa)
    end;
  unmap m p :=
    match m !! p with
    | Some (f, _) => Ret (UnmapOk f, delete p m)
    | None => Ret (UnmapPageNotMapped, m)
    end;
  PRESENT := 1; WRITABLE := 2; USER_ACCESSIBLE := 4; WRITE_THROUGH := 8;
  NO_CACHE := 16; GLOBAL := 256; NO_EXECUTE := 0x8000000000000000;
}.

#[export] Instance page_mapper_model_laws : @PageMapperLaws page_mapper_model.
Proof.
  split; cbn; unfold view_eq, view_upd, advanced; cbn; intros.
  - match goal with E : _ = Some _ |- _ => rewrite E end. by eexists.
  - done.
  - match goal with E : _ = None |- _ => rewrite E end. do 2 eexists. split; [done|].
    split_and!; [|done|lia..]. intros q. rewrite lookup_insert. case_decide; case_decide; naive_solver.
  - match goal with E : _ = Some _ |- _ => rewrite E end. eexists. split; [done|].
    intros q. rewrite lookup_delete. case_decide; case_decide; naive_solver.
  - match goal with E : _ = None |- _ => rewrite E end. by eexists.
  - done.
  - repeat split.
Qed.

(** ** The kernel's memory state

    [MAPPER] and [FRAME_ALLOCATOR] are [OnceCell]s around an [IrqLock]; a second
    [write()] while the lock is held spins with interrupts off, for good.
    [km_heap] is the range given to the heap allocator, [km_offset] the
    bootloader's [physical_memory_offset]. *)

Section Kernel.
Context `{X86Paging} `{PageMapper}.

Record KMem : Type := MkKMem {
  km_mapper : option pt;
  km_mapper_locked : bool;
  km_falloc : option KernelFrameAlloc;
  km_falloc_locked : bool;
  km_heap : option (Z * Z);
  km_offset : option Z;
}.

Definition get_phys_offset (k : KMem) : outcome Z := unwrap (km_offset k).

(** [MAPPER.get().unwrap().write()] and [FRAME_ALLOCATOR.get().unwrap().write()]. *)
Definition mapper_write (k : KMem) : outcome pt :=
  m ← unwrap (km_mapper k); if km_mapper_locked k then Hang else Ret m.
Definition falloc_write (k : KMem) : outcome KernelFrameAlloc :=
  fa ← unwrap (km_falloc k); if km_falloc_locked k then Hang else Ret fa.

Definition set_mapper (k : KMem) (m : pt) : KMem :=
  MkKMem (Some m) (km_mapper_locked k) (km_falloc k) (km_falloc_locked k) (km_heap k) (km_offset k).
Definition set_falloc (k : KMem) (fa : KernelFrameAlloc) : KMem :=
  MkKMem (km_mapper k) (km_mapper_locked k) (Some fa) (km_falloc_locked k) (km_heap k) (km_offset k).
Definition set_falloc_locked (k : KMem) (b : bool) : KMem :=
  MkKMem (km_mapper k) (km_mapper_locked k) (km_falloc k) b (km_heap k) (km_offset k).

(** [active_pml4], [map_memory] and [safe_active_pml4] of cralloc/frames.rs: the top-level
    table lies where the frame in [CR3] is in the window at [offset]; [table_at] is the
    page table a top-level table at an address stands for. *)
Definition active_pml4 (cr3 offset : Z) : outcome Z :=
  a ← uadd 64 offset cr3; virt_addr_new a.
Definition map_memory (table_at : Z → pt) (cr3 offset : Z) : outcome pt :=
  pml4 ← active_pml4 cr3 offset; Ret (table_at pml4).
(** A copy of the table, behind a mutex of its own. *)
Definition safe_active_pml4 (table_at : Z → pt) (cr3 offset : Z) : outcome (pt * bool) :=
  pml4 ← active_pml4 cr3 offset; Ret (table_at pml4, false).

(** What a page translates to in the active tables. *)
Definition kmem_translate (k : KMem) (p : Z) : option (Z * Z) :=
  m ← km_mapper k; translate m p.

(** [map_page!]: an already mapped page is left as it is. *)
Definition map_page (k : KMem) (phys virt flags : Z) : outcome KMem :=
  phys ← phys_addr_new phys;
  let frame := frame_containing phys in
  virt ← virt_addr_new virt;
  let page := page_containing virt in
  m ← mapper_write k;
  fa ← falloc_write k;
  '(res, m, fa) ← map_to m page frame flags fa;
  match res with
  | FrameAllocationFailed => Panic (PMsg "Out of memory")
  | MapOk | PageAlreadyMapped _ | ParentEntryHugePage =>
      Ret (set_falloc (set_mapper k m) fa)
  end.

Definition unmap_page (k : KMem) (page : Z) : outcome KMem :=
  m ← mapper_write k;
  '(res, m) ← unmap m page;
  match res with
  | UnmapInvalidFrameAddress _ =>
      Panic (PMsg "The address you attempted to unmap from doesn't exist")
  | UnmapOk _ | UnmapParentEntryHugePage | UnmapPageNotMapped => Ret (set_mapper k m)
  end.

(** PRESENT | WRITABLE | NO_CACHE | WRITE_THROUGH. *)
Definition kernel_flags : Z :=
  Z.lor (Z.lor (Z.lor PRESENT WRITABLE) NO_CACHE) WRITE_THROUGH.

(** [while i < bound { body; i += 4096 }]. *)
Fixpoint page_loop {S} (fuel : nat) (body : S → Z → outcome S) (i bound : Z) (s : S)
    : outcome S :=
  match fuel with
  | O => Hang
  | S fuel =>
      if i <? bound then
        s ← body s i;
        i ← uadd 64 i page_size;
        page_loop fuel body i bound s
      else Ret s
  end.
Definition page_fuel (bound : Z) : nat := S (Z.to_nat (bound / page_size)).

(** ** [addralloc] *)

Definition falloc_allocate_frame (k : KMem) : outcome (Z * KMem) :=
  fa ← falloc_write k;
  '(f, fa) ← allocate_frame fa;
  f ← unwrap f;
  Ret (f, set_falloc k fa).

(** One frame, mapped at its physical address plus the offset. *)
Definition addralloc_page (k : KMem) : outcome (Z * KMem) :=
  '(frame, k) ← falloc_allocate_frame k;
  off ← get_phys_offset k;
  virt ← uadd 64 frame off;
  virt ← virt_addr_new virt;
  let page := page_containing virt in
  k ← map_page k frame page kernel_flags;
  Ret (page, k).

Definition addralloc (size_of_T : Z) (k : KMem) : outcome (Z * KMem) :=
  '(page, k) ← addralloc_page k;
  k ← (if page_size <? size_of_T then
         page_loop (page_fuel size_of_T) (λ k _, '(_, k) ← addralloc_page k; Ret k)
           page_size size_of_T k
       else Ret k);
  Ret (page, k).

(** ** [XhciMapper] *)

Definition xhci_map_page (phys : Z) (k : KMem) : outcome KMem :=
  v ← virt_addr_new phys;
  map_page k phys (page_containing v) kernel_flags.

Definition xhci_map (phys_start bytes : Z) (k : KMem) : outcome (Z * KMem) :=
  k ← xhci_map_page phys_start k;
  k ← (if page_size <? bytes then
         page_loop (page_fuel bytes)
           (λ k i, phys ← uadd 64 phys_start i; xhci_map_page phys k) page_size bytes k
       else Ret k);
  if phys_start =? 0 then Panic PUnwrap else Ret (phys_start, k).

Definition xhci_unmap (virt_start bytes : Z) (k : KMem) : outcome KMem :=
  if 4096 <? bytes then
    page_loop (page_fuel bytes)
      (λ k i,
        virt ← uadd 64 virt_start i;
        v ← virt_addr_new virt;
        unmap_page k (page_containing v)) 4096 bytes k
  else
    v ← virt_addr_new virt_start;
    unmap_page k (page_containing v).

(** ** Heap set-up *)

Definition BEGIN_HEAP : Z := 0x200000000000.
Definition HEAP_LEN : Z := 32 * 1024 * 1024.

(** [VirtAddr + usize] and [VirtAddr - u64]. *)
Definition virt_add (a b : Z) : outcome Z := s ← uadd 64 a b; virt_addr_new s.
Definition virt_sub (a b : Z) : outcome Z := s ← usub a b; virt_addr_new s.

Definition heap_range : outcome (list Z) :=
  begin ← virt_addr_new BEGIN_HEAP;
  e ← virt_add begin HEAP_LEN;
  e ← virt_sub e 1;
  Ret (frame_range (page_containing begin) (page_containing e)).

(** The loop of [heap_init_inner]: [inl e] is its early return with [Err(e)]. *)
Fixpoint heap_map_pages (range : list Z) (m : pt) (fa : KernelFrameAlloc)
    : outcome ((map_result + unit) * pt * KernelFrameAlloc) :=
  match range with
  | [] => Ret (inr tt, m, fa)
  | p :: range =>
      '(f, fa) ← allocate_frame fa;
      match f with
      | None => Ret (inl FrameAllocationFailed, m, fa)
      | Some f =>
          '(res, m, fa) ← map_to m p f kernel_flags fa;
          match res with
          | MapOk => heap_map_pages range m fa
          | e => Ret (inl e, m, fa)
          end
      end
  end.

(** Returns the result, the two arguments it mutates and the range the heap
    allocator is initialised with. *)
Definition heap_init_inner (mapper : pt) (falloc : KernelFrameAlloc)
    : outcome ((map_result + unit) * pt * KernelFrameAlloc * option (Z * Z)) :=
  range ← heap_range;
  '(r, m, fa) ← heap_map_pages range mapper falloc;
  match r with
  | inl e => Ret (inl e, m, fa, None)
  | inr _ => Ret (inr tt, m, fa, Some (BEGIN_HEAP, HEAP_LEN))
  end.

(** [OnceCell::get_or_init]. *)
Definition get_or_init {A} (c : option A) (x : A) : option A :=
  match c with Some y => Some y | None => Some x end.

(** [table_at] and [cr3] are what [map_memory] finds on the CPU. *)
Definition heap_init (table_at : Z → pt) (cr3 : Z) (regions : list MemoryRegion) (k : KMem) : outcome KMem :=
  off ← get_phys_offset k;
  offset ← virt_addr_new off;
  map ← map_memory table_at cr3 offset;
  let k := MkKMem (get_or_init (km_mapper k) map) (km_mapper_locked k)
             (get_or_init (km_falloc k) (falloc_new regions)) (km_falloc_locked k)
             (km_heap k) (km_offset k) in
  m ← mapper_write k;
  fa ← falloc_write k;
  '(r, m, fa, heap) ← heap_init_inner m fa;
  match r with
  | inl _ => Panic (PMsg "Failed to initialize heap")
  | inr _ =>
      Ret (MkKMem (Some m) (km_mapper_locked k) (Some fa) (km_falloc_locked k) heap (km_offset k))
  end.

End Kernel.

#[global] Arguments get_phys_offset {_} k : simpl never.
#[global] Arguments map_page {_ _} k phys virt flags : simpl never.
#[global] Arguments unmap_page {_} k page : simpl never.
#[global] Arguments page_fuel bound : simpl never.

(** ** Loops over pages *)

Lemma frame_range_nil i last : last < i → frame_range i last = [].
Proof. intros. unfold frame_range. z_cases; [done|lia]. Qed.

Lemma frame_range_cons i last :
  i <= last → frame_range i last = i :: frame_range (i + page_size) last.
Proof.
  intros Hi. unfold frame_range, page_size in *. z_cases; try lia.
  - rewrite Z.div_small by lia. cbn. f_equal. lia.
  - replace (last - i) with (last - (i + 4096) + 1 * 4096) by lia.
    rewrite Z.div_add, Z2Nat.inj_add by (lia || apply Z.div_pos; lia).
    set (n := Z.to_nat ((last - (i + 4096)) / 4096)). change (Z.to_nat 1) with 1%nat.
    rewrite Nat.add_1_r, <- (cons_seq (S n) 0), fmap_cons, Z.mul_0_r, Z.add_0_r. f_equal.
    rewrite <- (fmap_S_seq 0), <- list_fmap_compose.
    apply list_fmap_ext. intros ? k _. unfold compose. lia.
Qed.

(** The loop terminates: with enough fuel it is the fold over the offsets. *)
Lemma page_loop_fold {S} (body : S → Z → outcome S) fuel i bound s :
  0 <= i → bound + page_size <= 2 ^ 64 → 1 <= Z.of_nat fuel →
  bound - i <= page_size * (Z.of_nat fuel - 1) →
  page_loop fuel body i bound s = foldO body (frame_range i (bound - 1)) s.
Proof.
  intros Hi Hb. revert i s Hi. induction fuel as [|fuel IH]; intros i s Hi Hf1 Hf; [lia|].
  cbn [page_loop]. destruct (Z.ltb_spec i bound).
  - rewrite frame_range_cons by lia. cbn [foldO]. destruct (body s i); [|done..]. cbn.
    unfold page_size in *. rewrite uadd_ret by lia. cbn. rewrite IH by lia. done.
  - by rewrite frame_range_nil by lia.
Qed.

Lemma page_loop_from_page {S} (body : S → Z → outcome S) bound s :
  0 <= bound → bound + page_size <= 2 ^ 64 →
  page_loop (page_fuel bound) body page_size bound s
  = foldO body (frame_range page_size (bound - 1)) s.
Proof.
  intros. apply page_loop_fold; unfold page_fuel, page_size in *; try lia. zdm.
Qed.

(** ** What the mapping operations do *)

(** Case on the decisions of a page-table view. *)
Ltac view_cases :=
  repeat case_decide; repeat split; destruct_and?; subst; try done; try congruence;
  exfalso; tauto.

Section KernelTheory.
Context `{X86PagingLaws} `{PageMapperLaws}.

(** The kernel after [heap_init]: both cells initialised, both locks free. *)
Definition ready (k : KMem) (m : pt) (fa : KernelFrameAlloc) : Prop :=
  km_mapper k = Some m ∧ km_mapper_locked k = false ∧
  km_falloc k = Some fa ∧ km_falloc_locked k = false.

Definition with_mem (k : KMem) (m : pt) (fa : KernelFrameAlloc) : KMem :=
  set_falloc (set_mapper k m) fa.

(** The translation after asking for [page ↦ e]: an existing mapping wins. *)
Definition map_view (m : pt) (page : Z) (e : Z * Z) (p : Z) : option (Z * Z) :=
  if decide (p = page ∧ huge m p = false ∧ translate m p = None) then Some e
  else translate m p.

Lemma ready_with_mem k m fa m' fa' : ready k m fa → ready (with_mem k m' fa') m' fa'.
Proof. intros (_ & ? & _ & ?). by split_and!. Qed.

Lemma with_mem_idem k m fa m' fa' : with_mem (with_mem k m fa) m' fa' = with_mem k m' fa'.
Proof. done. Qed.

Lemma mapper_write_ready k m fa : ready k m fa → mapper_write k = Ret m.
Proof. intros (E1 & E2 & _). unfold mapper_write. by rewrite E1, E2. Qed.
Lemma falloc_write_ready k m fa : ready k m fa → falloc_write k = Ret fa.
Proof. intros (_ & _ & E1 & E2). unfold falloc_write. by rewrite E1, E2. Qed.

(** In the window the active table is found, unless the window's end wraps or leaves the
    canonical addresses. *)
Lemma map_memory_ret table_at cr3 offset :
  0 <= cr3 → offset + cr3 < 2 ^ 64 → canonical (offset + cr3) →
  map_memory table_at cr3 offset = Ret (table_at (offset + cr3)).
Proof.
  intros Hc Hs Hcan. unfold map_memory, active_pml4. rewrite uadd_ret by done. cbn.
  by rewrite virt_addr_new_ok.
Qed.

Lemma get_phys_offset_ret k off : km_offset k = Some off → get_phys_offset k = Ret off.
Proof. unfold get_phys_offset. by intros ->. Qed.

Lemma advanced_refl n fa : 0 <= n → advanced n fa fa.
Proof. unfold advanced. split; [done|lia]. Qed.
Lemma advanced_trans a b n fa fa' fa'' :
  advanced a fa fa' → advanced b fa' fa'' → a + b <= n → advanced n fa fa''.
Proof. unfold advanced. intros [-> ?] [-> ?] ?. split; [done|lia]. Qed.
Lemma frames_left_advanced a n fa fa' :
  frames_left fa n → advanced a fa fa' → frames_left fa' (n - a).
Proof. unfold frames_left, advanced. intros (? & ? & ? & ?) [-> ?]. split_and!; [done|lia..]. Qed.
Lemma frames_left_le n n' fa : n' <= n → frames_left fa n → frames_left fa n'.
Proof. unfold frames_left. intros ? (? & ? & ? & ?). split_and!; [done|lia..]. Qed.

(** [Mapper::map_to] in one equation. *)
Lemma map_to_spec m p f fl fa :
  frames_left fa 3 →
  ∃ r m' fa', map_to m p f fl fa = Ret (r, m', fa') ∧ r ≠ FrameAllocationFailed ∧
    advanced 3 fa fa' ∧
    ∀ q, translate m' q = map_view m p (f, fl) q ∧ huge m' q = huge m q.
Proof.
  intros Hfl. unfold map_view. destruct (huge m p) eqn:Hh.
  { destruct (map_to_huge m p f fl fa Hh) as (m' & E & Hv). do 3 eexists.
    split_and!; [done..|by apply advanced_refl|]. intros q. destruct (Hv q) as [-> ->].
    view_cases. }
  destruct (translate m p) as [[f0 fl0]|] eqn:Ht.
  - destruct (map_to_mapped m p f fl fa f0 fl0 Hh Ht) as (m' & E & Hv). do 3 eexists.
    split_and!; [done..|by apply advanced_refl|]. intros q. destruct (Hv q) as [-> ->].
    view_cases.
  - destruct (map_to_new m p f fl fa Hh Ht Hfl) as (m' & fa' & E & Hv & ?). do 3 eexists.
    split_and!; [done..|]. intros q. destruct (Hv q) as [-> ->].
    view_cases.
Qed.

Lemma map_page_spec k m fa phys virt flags :
  ready k m fa → 0 <= phys < 2 ^ 52 → canonical virt → frames_left fa 3 →
  ∃ m' fa', map_page k phys virt flags = Ret (with_mem k m' fa') ∧ advanced 3 fa fa' ∧
    ∀ p, translate m' p = map_view m (page_containing virt) (frame_containing phys, flags) p ∧
         huge m' p = huge m p.
Proof.
  intros Hk Hp Hv Hfl. unfold map_page.
  rewrite phys_addr_new_ok by lia. cbn. rewrite virt_addr_new_ok by done. cbn.
  rewrite (mapper_write_ready _ _ _ Hk), (falloc_write_ready _ _ _ Hk). cbn.
  destruct (map_to_spec m (page_containing virt) (frame_containing phys) flags fa Hfl)
    as (r & m' & fa' & -> & Hr & Ha & Hview). cbn.
  exists m', fa'. destruct r; done.
Qed.

Lemma unmap_page_spec k m fa p :
  ready k m fa →
  ∃ m', unmap_page k p = Ret (with_mem k m' fa) ∧
    ∀ q, huge m' q = huge m q ∧
      translate m' q = if decide (q = p ∧ huge m q = false) then None else translate m q.
Proof.
  intros Hk. unfold unmap_page. rewrite (mapper_write_ready _ _ _ Hk). cbn.
  assert (Hw : ∀ m', set_mapper k m' = with_mem k m' fa).
  { intros. unfold with_mem, set_falloc, set_mapper. destruct Hk as (_ & _ & -> & _). done. }
  destruct (huge m p) eqn:Hh.
  { destruct (unmap_huge m p Hh) as (m' & -> & Hv). exists m'. cbn. rewrite Hw. split; [done|].
    intros q. destruct (Hv q) as [-> ->]. view_cases. }
  destruct (translate m p) as [[f0 fl0]|] eqn:Ht.
  - destruct (unmap_mapped m p f0 fl0 Hh Ht) as (m' & -> & Hv). exists m'. cbn. rewrite Hw.
    split; [done|]. intros q. destruct (Hv q) as [-> ->]. view_cases.
  - destruct (unmap_not_mapped m p Hh Ht) as (m' & -> & Hv). exists m'. cbn. rewrite Hw.
    split; [done|]. intros q. destruct (Hv q) as [-> ->]. view_cases.
Qed.

(** *** Identity mapping of a list of addresses *)

Lemma page_frame_containing a : frame_containing a = page_containing a.
Proof. by rewrite frame_containing_spec, page_containing_spec. Qed.

Lemma canonical_low a : 0 <= a < 2 ^ 47 → canonical a.
Proof. unfold canonical. lia. Qed.

Lemma page_containing_idem a : page_containing (page_containing a) = page_containing a.
Proof.
  apply page_containing_aligned. rewrite page_containing_spec. unfold page_size.
  by rewrite Zminus_mod_idemp_r, Z.sub_diag.
Qed.

(** The translation after mapping the pages [ps] to the frames with the same
    address. *)
Definition id_view (m : pt) (ps : list Z) (p : Z) : option (Z * Z) :=
  if decide (p ∈ ps ∧ huge m p = false ∧ translate m p = None) then Some (p, kernel_flags)
  else translate m p.

Lemma id_view_cons m m1 q ps p :
  translate m1 p = id_view m [q] p → huge m1 p = huge m p →
  id_view m1 ps p = id_view m (q :: ps) p.
Proof.
  unfold id_view. case_decide as Hq; rewrite list_elem_of_singleton in Hq; intros E1 E2.
  - destruct Hq as (? & Hh & Ht). subst q.
    case_decide as Hl; [destruct_and?; congruence|].
    case_decide as Hr; [done|]. destruct Hr. split_and!; [constructor|done..].
  - rewrite E1. apply decide_ext. rewrite E2, elem_of_cons. tauto.
Qed.

Lemma xhci_map_page_spec k m fa phys :
  ready k m fa → 0 <= phys < 2 ^ 47 → frames_left fa 3 →
  ∃ m' fa', xhci_map_page phys k = Ret (with_mem k m' fa') ∧ advanced 3 fa fa' ∧
    ∀ p, translate m' p = id_view m [page_containing phys] p ∧ huge m' p = huge m p.
Proof.
  intros Hk Hp Hfl. unfold xhci_map_page.
  rewrite virt_addr_new_ok by (by apply canonical_low). cbn.
  destruct (map_page_spec k m fa phys (page_containing phys) kernel_flags Hk)
    as (m' & fa' & -> & Ha & Hv); [lia| |done|].
  { apply canonical_low. pose proof (page_containing_range phys). lia. }
  exists m', fa'. split_and!; [done..|]. intros p. destruct (Hv p) as [-> ->].
  rewrite page_frame_containing, page_containing_idem.
  split; [|done]. unfold map_view, id_view.
  repeat case_decide; rewrite ?list_elem_of_singleton in *; destruct_and?; subst;
    try done; exfalso; tauto.
Qed.

Lemma xhci_map_foldO (start : Z) (offs : list Z) k m fa :
  ready k m fa → 0 <= start → Forall (λ i, 0 <= i ∧ start + i < 2 ^ 47) offs →
  frames_left fa (3 * Z.of_nat (length offs)) →
  ∃ m' fa', foldO (λ k i, phys ← uadd 64 start i; xhci_map_page phys k) offs k
      = Ret (with_mem k m' fa') ∧
    ready (with_mem k m' fa') m' fa' ∧ advanced (3 * Z.of_nat (length offs)) fa fa' ∧
    ∀ p, translate m' p = id_view m ((λ i, page_containing (start + i)) <$> offs) p ∧
         huge m' p = huge m p.
Proof.
  intros Hk Hs HF. revert k m fa Hk.
  induction HF as [|i offs [Hi1 Hi2] _ IH]; intros k m fa Hk Hfl.
  - exists m, fa. cbn. split_and!; [|by eapply ready_with_mem|apply advanced_refl; lia|].
    + destruct k, Hk as (? & ? & ? & ?). cbn in *. by subst.
    + intros p. unfold id_view. split; [|done]. case_decide as Hd; [|done].
      destruct Hd as (Hd & _). by apply not_elem_of_nil in Hd.
  - cbn [foldO]. rewrite uadd_ret by lia. cbn [mbind outcome_bind].
    cbn [length] in Hfl. rewrite Nat2Z.inj_succ in Hfl.
    destruct (xhci_map_page_spec k m fa (start + i) Hk) as (m1 & fa1 & -> & Ha1 & Hv1); [lia| |].
    { eapply frames_left_le; [|done]. lia. }
    destruct (IH (with_mem k m1 fa1) m1 fa1) as (m' & fa' & E & Hr & Ha & Hv).
    { by eapply ready_with_mem. }
    { eapply frames_left_le; [|by eapply frames_left_advanced]. lia. }
    exists m', fa'. cbn. rewrite with_mem_idem in E, Hr. split_and!; [done..| |].
    { eapply advanced_trans; [done..|]. lia. }
    intros p. destruct (Hv p) as [-> ->], (Hv1 p) as [E1 E2]. rewrite E2. split; [|done].
    by apply id_view_cons.
Qed.

(** *** [XhciMapper] *)

(** The pages [XhciMapper::map] visits. *)
Definition xhci_pages (start bytes : Z) : list Z :=
  (λ i, page_containing (start + i)) <$> (0 :: frame_range page_size (bytes - 1)).

Lemma frame_range_offsets bytes :
  0 <= bytes →
  Forall (λ i, 0 <= i ∧ i < bytes) (frame_range page_size (bytes - 1)) ∧
  Z.of_nat (length (frame_range page_size (bytes - 1))) <= bytes / page_size.
Proof.
  intros Hb. split.
  - apply Forall_forall. intros i Hi%elem_of_frame_range. unfold page_size in *. lia.
  - destruct (Z_lt_le_dec (bytes - 1) page_size).
    + rewrite frame_range_nil by lia. unfold page_size. cbn. by apply Z.div_pos.
    + rewrite length_frame_range by lia. unfold page_size in *. zdm.
Qed.

Lemma xhci_map_loop start bytes k :
  0 <= start < 2 ^ 64 → 0 <= bytes <= 2 ^ 47 →
  xhci_map start bytes k =
  k ← foldO (λ k i, phys ← uadd 64 start i; xhci_map_page phys k)
        (0 :: frame_range page_size (bytes - 1)) k;
  if start =? 0 then Panic PUnwrap else Ret (start, k).
Proof.
  intros Hs Hb. unfold xhci_map. cbn [foldO]. rewrite uadd_ret by lia. rewrite Z.add_0_r. cbn.
  destruct (xhci_map_page start k) as [k1| |]; [|done..]. cbn. destruct (Z.ltb_spec page_size bytes).
  - rewrite page_loop_from_page by (unfold page_size in *; lia). done.
  - by rewrite frame_range_nil by lia.
Qed.

Lemma xhci_pages_cover start bytes a :
  start mod page_size = 0 → start <= a < start + bytes →
  page_containing a ∈ xhci_pages start bytes.
Proof.
  intros Hal Ha. unfold xhci_pages. apply list_elem_of_fmap. exists ((a - start) / page_size * page_size).
  rewrite !page_containing_spec. unfold page_size in *. split; [zdm|].
  apply elem_of_cons. destruct (Z_lt_le_dec a (start + 4096)).
  { left. rewrite Z.div_small by lia. lia. }
  right. unfold frame_range, page_size. z_cases; [zdm|]. apply list_elem_of_fmap.
  exists (Z.to_nat ((a - start) / 4096 - 1)). split; [zdm|]. apply list_elem_of_In, in_seq. zdm.
Qed.

Lemma xhci_unmap_foldO (offs : list Z) start k m fa :
  ready k m fa → 0 <= start → Forall (λ i, 0 <= i ∧ start + i < 2 ^ 47) offs →
  ∃ m', foldO (λ k i, virt ← uadd 64 start i; v ← virt_addr_new virt;
                unmap_page k (page_containing v)) offs k = Ret (with_mem k m' fa) ∧
    ∀ q, huge m' q = huge m q ∧
      translate m' q =
        if decide (q ∈ (λ i, page_containing (start + i)) <$> offs ∧ huge m q = false) then None
        else translate m q.
Proof.
  intros Hk Hs HF. revert k m Hk. induction HF as [|i offs [Hi1 Hi2] _ IH]; intros k m Hk.
  - exists m. cbn. split.
    { destruct k, Hk as (? & ? & ? & ?). cbn in *. by subst. }
    intros q. split; [done|]. case_decide as Hd; [|done]. destruct Hd as [Hd _].
    by apply not_elem_of_nil in Hd.
  - cbn [foldO]. rewrite uadd_ret by lia. cbn [mbind outcome_bind].
    rewrite virt_addr_new_ok by (apply canonical_low; lia). cbn [mbind outcome_bind].
    destruct (unmap_page_spec k m fa (page_containing (start + i)) Hk) as (m1 & -> & Hv1).
    destruct (IH (with_mem k m1 fa) m1) as (m' & E & Hv); [by eapply ready_with_mem|].
    exists m'. cbn [mbind outcome_bind]. rewrite E, with_mem_idem. split; [done|].
    intros q. destruct (Hv q) as [-> ->], (Hv1 q) as [-> ->]. split; [done|].
    rewrite fmap_cons. repeat case_decide; rewrite ?elem_of_cons in *; tauto.
Qed.

(** *** [addralloc] *)

Lemma usable_in_map fa j f :
  regions_wf (fa_map fa) → usable_addrs (fa_map fa) !! j = Some f →
  in_usable (fa_map fa) f ∧ f mod page_size = 0 ∧ 0 <= f < 2 ^ 52.
Proof. intros Hwf Hf%list_elem_of_lookup_2. exact (elem_of_usable_addrs _ _ _ Hwf Hf). Qed.

(** While frames are left, [allocate_frame] hands out the next usable one. *)
Lemma allocate_frame_left fa n :
  frames_left fa n → 1 <= n →
  ∃ f fa', allocate_frame fa = Ret (Some f, fa') ∧
    usable_addrs (fa_map fa) !! Z.to_nat (fa_next fa) = Some f ∧
    fa' = FrameAlloc (fa_map fa) (fa_next fa + 1) ∧
    advanced 1 fa fa'.
Proof.
  intros (Hwf & Hnx & H64 & Hlen) Hn.
  destruct (lookup_lt_is_Some_2 (usable_addrs (fa_map fa)) (Z.to_nat (fa_next fa))) as [f Hf]; [lia|].
  do 2 eexists. rewrite allocate_frame_spec by (done || lia). rewrite Hf.
  split_and!; [done..|]. unfold advanced. cbn. split; [done|lia].
Qed.

Lemma addralloc_page_spec k m fa off :
  ready k m fa → km_offset k = Some off → frames_left fa 4 →
  0 <= off → off mod page_size = 0 → off + 2 ^ 52 < 2 ^ 64 →
  (∀ f, f ∈ usable_addrs (fa_map fa) → canonical (f + off)) →
  ∃ f m' fa', usable_addrs (fa_map fa) !! Z.to_nat (fa_next fa) = Some f ∧
    addralloc_page k = Ret (f + off, with_mem k m' fa') ∧
    advanced 4 fa fa' ∧ fa_next fa < fa_next fa' ∧
    ∀ p, translate m' p = map_view m (f + off) (f, kernel_flags) p ∧ huge m' p = huge m p.
Proof.
  intros Hk Hoff Hfl Ho Hal Hlim Hcan. unfold addralloc_page, falloc_allocate_frame.
  rewrite (falloc_write_ready _ _ _ Hk). cbn.
  destruct (allocate_frame_left fa 4 Hfl) as (f & fa1 & -> & Hf & Hfa1 & Ha1); [lia|]. cbn.
  unfold get_phys_offset. cbn. rewrite Hoff. cbn.
  destruct (usable_in_map fa _ f (proj1 Hfl) Hf) as (_ & Hfal & Hfr).
  pose proof (Hcan f (list_elem_of_lookup_2 _ _ _ Hf)) as Hc.
  rewrite uadd_ret by lia. cbn. rewrite virt_addr_new_ok by done. cbn.
  assert (page_containing (f + off) = f + off) as Hpg.
  { apply page_containing_aligned. by rewrite Z.add_mod, Hfal, Hal by done. }
  rewrite Hpg.
  destruct (map_page_spec (set_falloc k fa1) m fa1 f (f + off) kernel_flags)
    as (m' & fa' & -> & Ha & Hv); [|lia|done| |].
  { destruct Hk as (? & ? & _ & ?). by split_and!. }
  { eapply frames_left_le; [|by eapply frames_left_advanced]. lia. }
  cbn. exists f, m', fa'. rewrite Hpg, frame_containing_aligned in Hv by done.
  split_and!; [done..|by eapply advanced_trans|subst fa1; unfold advanced in *; cbn in *; lia|done].
Qed.

(** [fs] are usable frames the allocator hands out on the way from [fa] to [fa'], each
    once. *)
Definition frames_taken (fa fa' : KernelFrameAlloc) (fs : list Z) : Prop :=
  ∃ js, Forall2 (λ j f, usable_addrs (fa_map fa) !! j = Some f) js fs ∧ NoDup js ∧
    Forall (λ j, fa_next fa <= Z.of_nat j < fa_next fa') js.

Lemma frames_taken_NoDup fa fa' fs : regions_wf (fa_map fa) → frames_taken fa fa' fs → NoDup fs.
Proof.
  intros Hwf (js & Hjs & Hnd & _). apply NoDup_alt. intros i j f Hi Hj.
  destruct (Forall2_lookup_r _ _ _ _ _ Hjs Hi) as (a & Ha & Hfa).
  destruct (Forall2_lookup_r _ _ _ _ _ Hjs Hj) as (b & Hb & Hfb).
  assert (a = b) as -> by (eapply NoDup_lookup; [by eapply usable_addrs_NoDup|done..]).
  by eapply NoDup_lookup.
Qed.

(** The frames [fs] are mapped at [off] above their addresses, where nothing was. *)
Definition offset_view (m : pt) (off : Z) (fs : list Z) (p : Z) : option (Z * Z) :=
  if decide (p - off ∈ fs ∧ huge m p = false ∧ translate m p = None)
  then Some (p - off, kernel_flags) else translate m p.

Definition addralloc_post (off : Z) (m : pt) (fa : KernelFrameAlloc) (m' : pt) (fa' : KernelFrameAlloc)
    (fs : list Z) : Prop :=
  frames_taken fa fa' fs ∧ ∀ p, translate m' p = offset_view m off fs p ∧ huge m' p = huge m p.

Lemma addralloc_post_cons off m fa m1 fa1 m' fa' f fs :
  0 <= fa_next fa → usable_addrs (fa_map fa) !! Z.to_nat (fa_next fa) = Some f →
  fa_map fa1 = fa_map fa → fa_next fa < fa_next fa1 <= fa_next fa' →
  (∀ p, translate m1 p = map_view m (f + off) (f, kernel_flags) p ∧ huge m1 p = huge m p) →
  addralloc_post off m1 fa1 m' fa' fs → addralloc_post off m fa m' fa' (f :: fs).
Proof.
  intros Hn Hf Hmap Hlt Hv1 [(js & Hjs & Hnd & Hr) Hv]. rewrite Hmap in Hjs. split.
  - exists (Z.to_nat (fa_next fa) :: js). split_and!; [by constructor|..].
    + constructor; [|done]. rewrite Forall_forall in Hr. intros Hin%Hr. lia.
    + constructor; [lia|]. eapply Forall_impl; [exact Hr|]. cbn. lia.
  - intros p. destruct (Hv p) as [-> ->], (Hv1 p) as [E1 E2]. split; [|done].
    unfold offset_view. rewrite E1, E2. unfold map_view.
    assert (p = f + off ↔ p - off = f) as Hpf by lia.
    repeat case_decide; rewrite ?elem_of_cons in *; destruct_and?; try done; try tauto; try congruence.
    do 2 f_equal. lia.
Qed.

(** Any number of pages. *)
Lemma addralloc_foldO (offs : list Z) k m fa off :
  ready k m fa → km_offset k = Some off → frames_left fa (4 * Z.of_nat (length offs)) →
  0 <= off → off mod page_size = 0 → off + 2 ^ 52 < 2 ^ 64 →
  (∀ f, f ∈ usable_addrs (fa_map fa) → canonical (f + off)) →
  ∃ m' fa' fs, foldO (λ k _, '(_, k) ← addralloc_page k; Ret k) offs k = Ret (with_mem k m' fa') ∧
    advanced (4 * Z.of_nat (length offs)) fa fa' ∧ length fs = length offs ∧
    addralloc_post off m fa m' fa' fs.
Proof.
  intros Hk Hoff Hfl Ho Hal Hlim. revert k m fa Hk Hoff Hfl.
  induction offs as [|i offs IH]; intros k m fa Hk Hoff Hfl Hcan.
  - exists m, fa, []. cbn. split_and!; [|by apply advanced_refl|done|].
    { destruct k, Hk as (? & ? & ? & ?). cbn in *. by subst. }
    split; [exists []; split_and!; constructor|]. intros p. unfold offset_view.
    case_decide as Hd; [|done]. destruct Hd as [Hd _]. by apply not_elem_of_nil in Hd.
  - cbn [length] in *. rewrite Nat2Z.inj_succ in *.
    destruct (addralloc_page_spec k m fa off) as (f & m1 & fa1 & Hf & E1 & Ha1 & Hlt & Hv1); [done|done| |done..|].
    { eapply frames_left_le; [|done]. lia. }
    destruct (IH (with_mem k m1 fa1) m1 fa1) as (m' & fa' & fs & E & Ha & Hlen & Hp).
    { by eapply ready_with_mem. }
    { done. }
    { eapply frames_left_le; [|by eapply frames_left_advanced]. lia. }
    { destruct Ha1 as [-> _]. done. }
    exists m', fa', (f :: fs). cbn [foldO]. rewrite E1. cbn. rewrite E, with_mem_idem.
    split_and!; [done|eapply advanced_trans; [done..|lia]|by rewrite Hlen|].
    eapply addralloc_post_cons; [by destruct Hfl as (_ & ? & _)|done|by destruct Ha1| |done..].
    unfold advanced in *. lia.
Qed.

(** *** The heap *)

(** The pages of [range] are mapped, in order, to the usable frames number [js]. *)
Definition backed_by (m : pt) (map : list MemoryRegion) (range : list Z) (js : list nat) : Prop :=
  Forall2 (λ p j, ∃ f, translate m p = Some (f, kernel_flags) ∧ usable_addrs map !! j = Some f)
    range js.

(** Mapping a list of fresh pages: each gets a frame of its own, taken from the
    allocator in order. *)
Lemma heap_map_pages_spec range m fa :
  NoDup range → Forall (λ p, huge m p = false ∧ translate m p = None) range →
  frames_left fa (4 * Z.of_nat (length range)) →
  ∃ m' fa' js, heap_map_pages range m fa = Ret (inr tt, m', fa') ∧
    advanced (4 * Z.of_nat (length range)) fa fa' ∧
    (∀ p, p ∉ range → translate m' p = translate m p) ∧
    backed_by m' (fa_map fa) range js ∧ NoDup js ∧
    Forall (λ j, fa_next fa <= Z.of_nat j < fa_next fa') js.
Proof.
  intros Hnd. revert m fa. induction Hnd as [|p range Hp Hnd IH]; intros m fa HF Hfl.
  { exists m, fa, []. split_and!; try done; [by apply advanced_refl|constructor..]. }
  apply Forall_cons in HF as [[Hh Ht] HF]. cbn [length] in *. rewrite Nat2Z.inj_succ in *.
  destruct (allocate_frame_left fa _ Hfl) as (f & fa1 & E1 & Hf & Hfa1 & Ha1); [lia|].
  assert (frames_left fa1 (4 * Z.of_nat (length range) + 3)) as Hfl1.
  { eapply frames_left_le; [|by eapply frames_left_advanced]. lia. }
  destruct (map_to_new m p f kernel_flags fa1 Hh Ht) as (m2 & fa2 & E2 & Hv2 & Ha2).
  { eapply frames_left_le; [|done]. lia. }
  destruct (IH m2 fa2) as (m' & fa' & js & E & Ha & Hout & Hb & Hjs & Hrange).
  { apply Forall_forall. intros q Hq. rewrite Forall_forall in HF. destruct (Hv2 q) as [-> ->].
    rewrite decide_False by (intros ->; done). by apply HF. }
  { eapply frames_left_le; [|by eapply frames_left_advanced]. lia. }
  assert (fa_map fa2 = fa_map fa) as Hmap by (unfold advanced in *; destruct_and?; congruence).
  assert (fa_next fa < fa_next fa2) by (subst fa1; unfold advanced in *; cbn in *; lia).
  exists m', fa', (Z.to_nat (fa_next fa) :: js). cbn [heap_map_pages]. rewrite E1. cbn. rewrite E2. cbn.
  split_and!; [done|..].
  - eapply advanced_trans; [eapply advanced_trans; [exact Ha1|exact Ha2|reflexivity]|exact Ha|lia].
  - intros q [Hq1 Hq2]%not_elem_of_cons. rewrite Hout by done. destruct (Hv2 q) as [-> _].
    by rewrite decide_False.
  - rewrite Hmap in Hb. constructor; [|done]. exists f. rewrite Hout by done.
    destruct (Hv2 p) as [-> _]. by rewrite decide_True.
  - constructor; [|done]. intros Hin. rewrite Forall_forall in Hrange.
    specialize (Hrange _ Hin). cbn in Hrange. unfold frames_left in *. lia.
  - constructor; [unfold frames_left, advanced in *; lia|].
    eapply Forall_impl; [done|]. intros j ?. cbn in *. lia.
Qed.

(** Pages backed by pairwise different usable frames have different frames. *)
Lemma backed_by_inj m map range js i j p q f :
  regions_wf map → backed_by m map range js → NoDup js →
  range !! i = Some p → range !! j = Some q →
  translate m p = Some (f, kernel_flags) → translate m q = Some (f, kernel_flags) → i = j.
Proof.
  intros Hwf Hb Hjs Hi Hj Hp Hq.
  destruct (Forall2_lookup_l _ _ _ _ _ Hb Hi) as (a & Ha & f1 & E1 & Hu1).
  destruct (Forall2_lookup_l _ _ _ _ _ Hb Hj) as (b & Hb' & f2 & E2 & Hu2).
  assert (f1 = f) as -> by congruence. assert (f2 = f) as -> by congruence.
  assert (a = b) as -> by (eapply NoDup_lookup; [by eapply usable_addrs_NoDup|done..]).
  by eapply NoDup_lookup.
Qed.

Lemma frame_range_NoDup first last : NoDup (frame_range first last).
Proof.
  unfold frame_range. z_cases; [constructor|]. apply NoDup_fmap_2, NoDup_seq.
  intros x y. unfold page_size. lia.
Qed.

(** The heap is the 8192 pages from [BEGIN_HEAP]. *)
Definition heap_pages : list Z := frame_range BEGIN_HEAP (BEGIN_HEAP + HEAP_LEN - page_size).

Lemma heap_range_spec : heap_range = Ret heap_pages.
Proof.
  unfold heap_range, virt_add, virt_sub, BEGIN_HEAP, HEAP_LEN.
  rewrite virt_addr_new_ok by (unfold canonical; lia). cbn.
  rewrite uadd_ret by lia. cbn. rewrite virt_addr_new_ok by (unfold canonical; lia). cbn.
  rewrite usub_ret by lia. cbn. rewrite virt_addr_new_ok by (unfold canonical; lia). cbn.
  by rewrite !page_containing_spec.
Qed.

Lemma length_heap_pages : Z.of_nat (length heap_pages) = 8192.
Proof. unfold heap_pages. by rewrite length_frame_range. Qed.

(** ** The properties *)

(** [map_page!] never replaces a mapping and never reports that it did not:
    after mapping a page twice, to two different frames, the first frame is still
    the one the page translates to, and all other pages are as before. *)
Theorem map_page_first_wins k m fa phys phys' virt flags flags' :
  ready k m fa → 0 <= phys < 2 ^ 52 → 0 <= phys' < 2 ^ 52 → canonical virt →
  frames_left fa 6 → huge m (page_containing virt) = false →
  translate m (page_containing virt) = None →
  ∃ m' fa', (k ← map_page k phys virt flags; map_page k phys' virt flags') = Ret (with_mem k m' fa') ∧
    translate m' (page_containing virt) = Some (frame_containing phys, flags) ∧
    ∀ p, p ≠ page_containing virt → translate m' p = translate m p.
Proof.
  intros Hk Hp Hp' Hv Hfl Hh Ht.
  destruct (map_page_spec k m fa phys virt flags Hk Hp Hv) as (m1 & fa1 & -> & Ha1 & Hv1).
  { eapply frames_left_le; [|done]. lia. }
  destruct (map_page_spec (with_mem k m1 fa1) m1 fa1 phys' virt flags')
    as (m' & fa' & E & Ha & Hv'); [by eapply ready_with_mem|done..| |].
  { eapply frames_left_le; [|by eapply frames_left_advanced]. lia. }
  exists m', fa'. cbn. rewrite E. split; [done|].
  assert (∀ p, translate m' p = if decide (p = page_containing virt)
            then Some (frame_containing phys, flags) else translate m p) as Hm.
  { intros p. destruct (Hv' p) as [-> _], (Hv1 p) as [E1 E2]. unfold map_view in *.
    rewrite E1, E2. repeat case_decide; destruct_and?; subst; try done; try congruence;
      exfalso; tauto. }
  split; [by rewrite Hm, decide_True|]. intros p ?. by rewrite Hm, decide_False.
Qed.

(** C31: [XhciMapper::map] terminates, identity-maps exactly the pages at
    [phys_start + 4096 * i] below [bytes] (and always the first one) and no other
    page; from a page-aligned start these are all the pages of the range. *)
Theorem xhci_map_correct k m fa start bytes :
  ready k m fa → 0 < start → 0 <= bytes → start + bytes < 2 ^ 47 →
  frames_left fa (3 * (bytes / page_size + 1)) →
  ∃ m' fa', xhci_map start bytes k = Ret (start, with_mem k m' fa') ∧
    (∀ p, translate m' p = id_view m (xhci_pages start bytes) p) ∧
    (start mod page_size = 0 →
     ∀ a, start <= a < start + bytes → huge m (page_containing a) = false →
          translate m (page_containing a) = None →
          translate m' (page_containing a) = Some (page_containing a, kernel_flags)).
Proof.
  intros Hk Hs Hb Hsb Hfl. rewrite xhci_map_loop by lia.
  destruct (frame_range_offsets bytes Hb) as [HF Hlen].
  destruct (xhci_map_foldO start (0 :: frame_range page_size (bytes - 1)) k m fa)
    as (m' & fa' & -> & _ & _ & Hv); [done|lia| | |].
  { constructor; [lia|]. eapply Forall_impl; [exact HF|]. intros i ?. cbn in *. lia. }
  { eapply frames_left_le; [|done]. cbn [length]. lia. }
  exists m', fa'. cbn [mbind outcome_bind]. rewrite (proj2 (Z.eqb_neq start 0)) by lia.
  split_and!; [done|intros p; apply Hv|].
  intros Hal a Ha Hh Ht. rewrite (proj1 (Hv _)). unfold id_view.
  rewrite decide_True; [done|]. split_and!; [|done..]. by apply xhci_pages_cover.
Qed.

(** [XhciMapper::unmap] of more than one page leaves the first page of the
    range mapped; the pages at multiples of 4096 after it are unmapped. *)
Theorem xhci_unmap_keeps_first k m fa start bytes :
  ready k m fa → 0 <= start → page_size < bytes → start + bytes < 2 ^ 47 →
  ∃ m', xhci_unmap start bytes k = Ret (with_mem k m' fa) ∧
    translate m' (page_containing start) = translate m (page_containing start) ∧
    ∀ i, i ∈ frame_range page_size (bytes - 1) → huge m (page_containing (start + i)) = false →
         translate m' (page_containing (start + i)) = None.
Proof.
  intros Hk Hs Hb Hsb. unfold xhci_unmap. destruct (Z.ltb_spec 4096 bytes) as [_|?];
    [|unfold page_size in *; lia].
  rewrite page_loop_from_page by (unfold page_size in *; lia).
  destruct (xhci_unmap_foldO (frame_range page_size (bytes - 1)) start k m fa Hk Hs)
    as (m' & E & Hv).
  { eapply Forall_impl; [apply frame_range_offsets; unfold page_size in *; lia|].
    intros i ?. cbn in *. lia. }
  exists m'. split; [exact E|]. split.
  - destruct (Hv (page_containing start)) as [_ ->]. case_decide as Hd; [|done].
    destruct Hd as [(i & Ei & Hi%elem_of_frame_range)%list_elem_of_fmap _].
    rewrite !page_containing_spec in Ei. unfold page_size in *. zdm.
  - intros i Hi Hh. destruct (Hv (page_containing (start + i))) as [_ ->].
    rewrite decide_True; [done|]. split; [|done]. apply list_elem_of_fmap. eauto.
Qed.

(** The pages of a type: at least one, else as many as hold [size] bytes. *)
Definition addralloc_pages (size : Z) : Z := Z.max 1 ((size + page_size - 1) / page_size).

Lemma addralloc_pages_range size :
  0 <= size → 1 + Z.of_nat (length (frame_range page_size (size - 1))) = addralloc_pages size.
Proof.
  intros Hs. unfold addralloc_pages. destruct (Z_lt_le_dec (size - 1) page_size).
  - rewrite frame_range_nil by lia. unfold page_size in *. cbn [length]. zdm.
  - rewrite length_frame_range by lia. unfold page_size in *. zdm.
Qed.

(** C30: [addralloc] returns the phys-offset address of the next usable frame.  It takes
    exactly one frame of its own for every 4096 bytes of the type, rounded up and at
    least one, maps each of them at its phys-offset address unless something was mapped
    there, and changes no other page; these frames need not be adjacent, and only the
    first one's address is returned. *)
Theorem addralloc_correct size k m fa off :
  ready k m fa → km_offset k = Some off →
  0 <= size <= 2 ^ 47 → frames_left fa (4 * (size / page_size + 1)) →
  0 <= off → off mod page_size = 0 → off + 2 ^ 52 < 2 ^ 64 →
  (∀ f, f ∈ usable_addrs (fa_map fa) → canonical (f + off)) →
  ∃ f fs m' fa', usable_addrs (fa_map fa) !! Z.to_nat (fa_next fa) = Some f ∧
    addralloc size k = Ret (f + off, with_mem k m' fa') ∧
    Z.of_nat (length (f :: fs)) = addralloc_pages size ∧ NoDup (f :: fs) ∧
    frames_taken fa fa' (f :: fs) ∧ advanced (4 * (size / page_size + 1)) fa fa' ∧
    (∀ p, translate m' p = offset_view m off (f :: fs) p ∧ huge m' p = huge m p).
Proof.
  intros Hk Hoff Hsz Hfl Ho Hal Hlim Hcan.
  destruct (frame_range_offsets size) as [_ Hlen]; [lia|].
  assert (0 <= size / page_size) by (apply Z.div_pos; unfold page_size; lia).
  destruct (addralloc_page_spec k m fa off) as (f & m1 & fa1 & Hf & E1 & Ha1 & Hlt & Hv1); [done|done| |done..|].
  { eapply frames_left_le; [|done]. lia. }
  destruct (addralloc_foldO (frame_range page_size (size - 1)) (with_mem k m1 fa1) m1 fa1 off)
    as (m' & fa' & fs & E & Ha & Hfs & Hp); [by eapply ready_with_mem|done| |done..| |].
  { eapply frames_left_le; [|by eapply frames_left_advanced]. lia. }
  { destruct Ha1 as [-> _]. done. }
  assert (addralloc_post off m fa m' fa' (f :: fs)) as [Htaken Hview].
  { eapply addralloc_post_cons; [by destruct Hfl as (_ & ? & _)|done|by destruct Ha1| |done..].
    unfold advanced in *. lia. }
  exists f, fs, m', fa'. split; [done|]. unfold addralloc. rewrite E1. cbn [mbind outcome_bind].
  assert ((if page_size <? size then
    page_loop (page_fuel size) (λ k _, '(_, k) ← addralloc_page k; Ret k) page_size size
      (with_mem k m1 fa1) else Ret (with_mem k m1 fa1)) = Ret (with_mem k m' fa')) as ->.
  { change (with_mem k m' fa') with (with_mem (with_mem k m1 fa1) m' fa').
    rewrite <- E. destruct (Z.ltb_spec page_size size).
    - apply page_loop_from_page; unfold page_size in *; lia.
    - by rewrite frame_range_nil by lia. }
  split_and!; [done| |eapply frames_taken_NoDup; [apply Hfl|done]|done|eapply advanced_trans; [done..|lia]|done].
  rewrite <- addralloc_pages_range by lia. cbn [length]. lia.
Qed.

(** [heap_init] in one equation. *)
Lemma heap_init_ret k table_at cr3 regions off :
  km_mapper k = None → km_falloc k = None →
  km_mapper_locked k = false → km_falloc_locked k = false →
  km_offset k = Some off → canonical off → 0 <= cr3 → canonical (off + cr3) →
  let m := table_at (off + cr3) in
  Forall (λ p, huge m p = false ∧ translate m p = None) heap_pages →
  regions_wf regions → 4 * 8192 <= Z.of_nat (length (usable_addrs regions)) →
  ∃ m' fa' js, heap_init table_at cr3 regions k =
      Ret (MkKMem (Some m') false (Some fa') false (Some (BEGIN_HEAP, HEAP_LEN)) (Some off)) ∧
    backed_by m' regions heap_pages js ∧ NoDup js ∧
    (∀ p, p ∉ heap_pages → translate m' p = translate m p).
Proof.
  intros Em Ef El El' Eo Hoff Hcr Hpml m HF Hwf Hlen. unfold heap_init, get_phys_offset. rewrite Eo. cbn.
  rewrite virt_addr_new_ok by done. cbn. unfold map_memory, active_pml4.
  rewrite uadd_ret by (unfold canonical in *; lia). cbn.
  rewrite virt_addr_new_ok by done. cbn. unfold mapper_write, falloc_write. cbn.
  rewrite Em, Ef, El, El'. cbn. unfold heap_init_inner. rewrite heap_range_spec. cbn.
  fold m. destruct (heap_map_pages_spec heap_pages m (falloc_new regions))
    as (m' & fa' & js & -> & _ & Hout & Hb & Hjs & _); [apply frame_range_NoDup|done| |].
  { unfold frames_left. rewrite length_heap_pages. cbn. split_and!; [done|lia..]. }
  exists m', fa', js. cbn. by split_and!.
Qed.

(** C1: with enough memory and nothing mapped in the heap range, [heap_init]
    succeeds, hands the range to the heap allocator, and every one of its 8192
    pages is then backed by a usable frame of its own; all other pages of the tables that
    are active at [cr3] stay as they were. *)
Theorem heap_init_correct k table_at cr3 regions off :
  km_mapper k = None → km_falloc k = None →
  km_mapper_locked k = false → km_falloc_locked k = false →
  km_offset k = Some off → canonical off → 0 <= cr3 → canonical (off + cr3) →
  let m := table_at (off + cr3) in
  Forall (λ p, huge m p = false ∧ translate m p = None) heap_pages →
  regions_wf regions → 4 * 8192 <= Z.of_nat (length (usable_addrs regions)) →
  ∃ m' fa' js, heap_init table_at cr3 regions k =
      Ret (MkKMem (Some m') false (Some fa') false (Some (BEGIN_HEAP, HEAP_LEN)) (Some off)) ∧
    backed_by m' regions heap_pages js ∧ NoDup js ∧
    (∀ i j p q f, heap_pages !! i = Some p → heap_pages !! j = Some q →
       translate m' p = Some (f, kernel_flags) → translate m' q = Some (f, kernel_flags) → i = j) ∧
    (∀ p, p ∉ heap_pages → translate m' p = translate m p).
Proof.
  intros Em Ef El El' Eo Hoff Hcr Hpml m HF Hwf Hlen.
  destruct (heap_init_ret k table_at cr3 regions off) as (m' & fa' & js & E & Hb & Hjs & Hout); try done.
  exists m', fa', js. split_and!; [done..| |done].
  intros i j p q f. by apply (backed_by_inj m' regions heap_pages js).
Qed.

End KernelTheory.

(** ** Concrete runs *)

Definition big_map : list MemoryRegion := [Region 0x1000000 0x9000000 true].

Lemma big_map_wf : regions_wf big_map.
Proof. unfold regions_wf, big_map, page_size. cbn. repeat split; lia. Qed.

Lemma big_map_length : Z.of_nat (length (usable_addrs big_map)) = 32768.
Proof.
  unfold big_map. rewrite usable_addrs_cons, length_app, Nat2Z.inj_add. cbn [r_usable].
  by rewrite length_region_addrs.
Qed.

Lemma big_map_low f : f ∈ usable_addrs big_map → f < 2 ^ 45.
Proof.
  intros Hf. destruct (elem_of_usable_addrs _ _ _ big_map_wf Hf) as ((r & Hr & _ & ? & ?) & _).
  apply list_elem_of_singleton in Hr as ->. cbn in *. unfold page_size in *. lia.
Qed.

Lemma big_map_left n : n <= 32768 → frames_left (falloc_new big_map) n.
Proof.
  intros. unfold frames_left. cbn [fa_map fa_next falloc_new]. rewrite big_map_length.
  split_and!; [apply big_map_wf|lia..].
Qed.

Definition kmem_example : KMem :=
  MkKMem (Some ∅) false (Some (falloc_new big_map)) false None (Some 0).

Lemma kmem_example_ready : ready kmem_example ∅ (falloc_new big_map).
Proof. done. Qed.

Lemma map_page_first_wins_witness :
  ∃ m' fa', (k ← map_page kmem_example 0x5000 0x8123 3; map_page k 0x6000 0x8456 3)
      = Ret (with_mem kmem_example m' fa') ∧
    translate m' 0x8000 = Some (0x5000, 3).
Proof.
  destruct (map_page_first_wins kmem_example ∅ (falloc_new big_map) 0x5000 0x6000 0x8123 3 3
              kmem_example_ready) as (m' & fa' & E & Ht & _);
    [lia|lia|unfold canonical; lia|by apply big_map_left|done|done|].
  exists m', fa'. split; [exact E|exact Ht].
Defined.

(** From an unaligned start, the last page of the range is not mapped. *)
Lemma xhci_map_witness :
  (∃ m' fa', xhci_map 0x7000 0x1800 kmem_example = Ret (0x7000, with_mem kmem_example m' fa') ∧
     translate m' 0x8000 = Some (0x8000, kernel_flags)) ∧
  (∃ k', xhci_map 0x7800 0x1000 kmem_example = Ret (0x7800, k') ∧
     kmem_translate k' 0x8000 = None).
Proof.
  split; [|eexists; split; reflexivity].
  destruct (xhci_map_correct kmem_example ∅ (falloc_new big_map) 0x7000 0x1800
              kmem_example_ready) as (m' & fa' & E & _ & Hc); [lia..|by apply big_map_left|].
  exists m', fa'. split; [exact E|].
  apply (Hc eq_refl 0x8000); [lia|reflexivity|reflexivity].
Defined.

Definition kmem_mapped : KMem :=
  MkKMem (Some (<[0x7000 := (0x7000, 3)]> (<[0x8000 := (0x8000, 3)]> ∅))) false
    (Some (falloc_new big_map)) false None (Some 0).

Lemma xhci_unmap_witness :
  ∃ m', xhci_unmap 0x7000 0x2000 kmem_mapped = Ret (with_mem kmem_mapped m' (falloc_new big_map)) ∧
    translate m' 0x7000 = Some (0x7000, 3) ∧ translate m' 0x8000 = None.
Proof.
  destruct (xhci_unmap_keeps_first kmem_mapped
    (<[0x7000 := (0x7000, 3)]> (<[0x8000 := (0x8000, 3)]> ∅)) (falloc_new big_map) 0x7000 0x2000)
    as (m' & E & Hf & Hi); [done|lia|unfold page_size; lia|lia|].
  exists m'. split_and!; [exact E|exact Hf|].
  apply (Hi 0x1000); [|reflexivity]. rewrite frame_range_cons by (unfold page_size; lia).
  constructor.
Defined.

Lemma big_map_canonical f : f ∈ usable_addrs big_map → canonical (f + 0).
Proof.
  intros Hf. unfold canonical. pose proof (big_map_low f Hf).
  destruct (elem_of_usable_addrs _ _ _ big_map_wf Hf) as (_ & _ & ?). lia.
Qed.

(** A type of two pages takes two frames.  When the second one is not next to the first,
    the second page of the returned pointer stays unmapped. *)
Lemma addralloc_witness :
  (∃ f m' fa', addralloc 0x2000 kmem_example = Ret (0x1000000, with_mem kmem_example m' fa') ∧
     f ≠ 0x1000000 ∧ translate m' 0x1000000 = Some (0x1000000, kernel_flags) ∧
     translate m' f = Some (f, kernel_flags) ∧
     ∀ p, p ≠ 0x1000000 → p ≠ f → translate m' p = None) ∧
  (∃ k', addralloc 0x2000 (MkKMem (Some ∅) false (Some (FrameAlloc example_map 1)) false None
                             (Some 0)) = Ret (0x2000, k') ∧
     kmem_translate k' 0x3000 = None).
Proof.
  split; [|eexists; split; reflexivity].
  destruct (addralloc_correct 0x2000 kmem_example ∅ (falloc_new big_map) 0 kmem_example_ready)
    as (f & fs & m' & fa' & Hf & E & Hlen & Hnd & _ & _ & Hv);
    [done|lia|by apply big_map_left|lia|done|lia|exact big_map_canonical|].
  assert (f = 0x1000000) as -> by (lazy in Hf; congruence).
  destruct fs as [|g [|? ?]]; [done| |cbn [length] in Hlen; change (addralloc_pages 0x2000) with 2 in Hlen; lia].
  apply NoDup_cons in Hnd as [Hne%not_elem_of_cons _].
  assert (∀ p, translate m' p = if decide (p = 0x1000000 ∨ p = g) then Some (p, kernel_flags) else None) as Hm.
  { intros p. rewrite (proj1 (Hv p)). unfold offset_view. rewrite Z.sub_0_r.
    repeat case_decide; rewrite !elem_of_cons, elem_of_nil in *; try done; tauto. }
  exists g, m', fa'. split; [exact E|]. rewrite !Hm.
  split_and!; [naive_solver|done|by rewrite decide_True by tauto|].
  intros p ??. rewrite Hm. by rewrite decide_False by tauto.
Defined.

Lemma heap_init_example :
  ∃ k, heap_init (λ _, ∅) 0 big_map (MkKMem None false None false None (Some 0)) = Ret k.
Proof.
  destruct (heap_init_ret (MkKMem None false None false None (Some 0)) (λ _, ∅) 0 big_map 0)
    as (m' & fa' & js & E & _);
    [done..|unfold canonical; lia|lia|unfold canonical; lia|by apply Forall_true|apply big_map_wf|by rewrite big_map_length|].
  eexists. exact E.
Qed.

Lemma heap_init_witness :
  ∃ m' fa' js, heap_init (λ _, ∅) 0 big_map (MkKMem None false None false None (Some 0)) =
      Ret (MkKMem (Some m') false (Some fa') false (Some (BEGIN_HEAP, HEAP_LEN)) (Some 0)) ∧
    backed_by m' big_map heap_pages js.
Proof.
  destruct (heap_init_correct (MkKMem None false None false None (Some 0)) (λ _, ∅) 0 big_map 0)
    as (m' & fa' & js & E & Hb & _);
    [done..|unfold canonical; lia|lia|unfold canonical; lia|by apply Forall_true|apply big_map_wf|by rewrite big_map_length|].
  exists m', fa', js. split; [exact E|exact Hb].
Defined.
