(* ===== verification/SyscallDriver.v ===== *)
(** * Driver system calls, src/arch/x86_64/syscall/driver.rs

    [iopl], [physalloc], [physfree] and [physmap] over the kernel memory state of
    [Memory].  The flag and error constants are those of the [redox_syscall]
    crate ([RedoxAbi]).  The theorems show what [iopl] does to the saved flags,
    that [physalloc] can never return successfully, that [physmap] panics on every
    input, and what [physfree] frees. *)

From S2P Require Import Prelude Paging Frames Memory.

Local Open Scope Z_scope.

(** The constants of [redox_syscall] the module uses. *)
Class RedoxAbi : Type := {
  PROT_NONE : Z; PROT_READ : Z; PROT_WRITE : Z; PROT_EXEC : Z;
  MAP_FIXED : Z; MAP_FIXED_NOREPLACE : Z; MAP_LAZY : Z; MAP_PRIVATE : Z; MAP_SHARED : Z;
  PHYSMAP_WRITE : Z; PHYSMAP_WRITE_COMBINE : Z; PHYSMAP_NO_CACHE : Z;
  SPACE_32 : Z; SPACE_64 : Z;
  drv_EINVAL : Z; drv_ENOMEM : Z;
}.

(** The documented values. *)
Class RedoxAbiLaws `{RedoxAbi} : Prop := {
  prot_values : PROT_NONE = 0 ∧ PROT_EXEC = 0x10000 ∧ PROT_WRITE = 0x20000 ∧ PROT_READ = 0x40000;
  map_values : MAP_SHARED = 1 ∧ MAP_PRIVATE = 2 ∧ MAP_FIXED = 4 ∧ MAP_FIXED_NOREPLACE = 12 ∧
    MAP_LAZY = 16;
  physmap_values : PHYSMAP_WRITE = 1 ∧ PHYSMAP_WRITE_COMBINE = 2 ∧ PHYSMAP_NO_CACHE = 4;
  space_values : SPACE_32 = 1 ∧ SPACE_64 = 2;
  drv_errno_values : drv_EINVAL = 22 ∧ drv_ENOMEM = 12;
}.

#[export] Instance redox_abi_model : RedoxAbi | 100 := {
  PROT_NONE := 0; PROT_READ := 0x40000; PROT_WRITE := 0x20000; PROT_EXEC := 0x10000;
  MAP_FIXED := 4; MAP_FIXED_NOREPLACE := 12; MAP_LAZY := 16; MAP_PRIVATE := 2; MAP_SHARED := 1;
  PHYSMAP_WRITE := 1; PHYSMAP_WRITE_COMBINE := 2; PHYSMAP_NO_CACHE := 4;
  SPACE_32 := 1; SPACE_64 := 2; drv_EINVAL := 22; drv_ENOMEM := 12;
}.
#[export] Instance redox_abi_model_laws : @RedoxAbiLaws redox_abi_model.
Proof. by repeat split. Qed.

(** [bitflags]: [set] and [contains]. *)
Definition flags_set (fl bit : Z) (b : bool) : Z :=
  if b then Z.lor fl bit else Z.ldiff fl bit.
Definition flags_contains (fl bit : Z) : bool := Z.land fl bit =? bit.

(** [InterruptStackFrameValue]. *)
Record StackFrame : Type := MkStackFrame {
  sf_instruction_pointer : Z; sf_code_segment : Z; sf_cpu_flags : Z;
  sf_stack_pointer : Z; sf_stack_segment : Z;
}.

Section Driver.
Context `{X86Paging} `{PageMapper} `{RedoxAbi}.

Definition translate_flags (physmap map : Z) : outcome Z :=
  let new_flags := 0 in
  new_flags ←
    (if map =? PROT_NONE then Ret new_flags
     else if map =? PROT_READ then Ret (flags_set new_flags PRESENT true)
     else if map =? PROT_WRITE then
       Ret (flags_set (flags_set new_flags PRESENT true) WRITABLE true)
     else if map =? PROT_EXEC then Ret (flags_set new_flags NO_EXECUTE false)
     else if map =? MAP_FIXED then Ret (flags_set new_flags GLOBAL true)
     else if map =? MAP_FIXED_NOREPLACE then Ret (flags_set new_flags GLOBAL true)
     else if map =? MAP_LAZY then Ret (flags_set new_flags WRITE_THROUGH true)
     else if map =? MAP_PRIVATE then Ret (flags_set new_flags USER_ACCESSIBLE false)
     else if map =? MAP_SHARED then Ret (flags_set new_flags USER_ACCESSIBLE true)
     else Panic PAssert);
  if physmap =? PHYSMAP_WRITE then
    Ret (flags_set (flags_set new_flags PRESENT true) WRITABLE true)
  else if physmap =? PHYSMAP_WRITE_COMBINE then
    Ret (flags_set (flags_set new_flags PRESENT true) WRITABLE true)
  else if physmap =? PHYSMAP_NO_CACHE then
    Ret (flags_set (flags_set new_flags PRESENT true) NO_CACHE true)
  else Panic PAssert.

(** [Result<usize>] is [errno + usize]; [iopl] also writes the stack frame. *)
Definition iopl (level : Z) (frame : StackFrame) : (Z + Z) * StackFrame :=
  if level <=? 3 then
    (inr 0,
     MkStackFrame (sf_instruction_pointer frame) (sf_code_segment frame)
       (Z.lor (Z.land (sf_cpu_flags frame) (unot 64 (Z.shiftl 3 12)))
              (Z.shiftl (Z.land level 3) 12))
       (sf_stack_pointer frame) (sf_stack_segment frame))
  else (inl drv_EINVAL, frame).

(** The guard of the [write()] in the scrutinee of the [if let] is dropped only at
    the end of the whole [if let], so the allocator is locked in both branches. *)
Definition physalloc_inner (size flags : Z) (k : KMem)
    : outcome ((Z + Z * list Z) * KMem) :=
  if flags_contains flags (Z.lor SPACE_32 SPACE_64) || flags_contains flags SPACE_32
     || flags_contains flags SPACE_64 then
    fa ← falloc_write k;
    '(r, fa) ← allocate_multiple fa size;
    let k := set_falloc_locked (set_falloc k fa) true in
    match r with
    | Some (first, last, size) =>
        off ← get_phys_offset k;
        offset ← uadd 64 first off;
        v ← virt_addr_new offset;
        let p0 := page_containing v in
        o ← uadd 64 offset size;
        v ← virt_addr_new o;
        let p1 := page_containing v in
        let page_range := frame_range p0 p1 in
        k ← foldO (λ k '(p, f), map_page k f p kernel_flags)
              (zip page_range (frame_range first last)) k;
        Ret (inr (size, page_range), set_falloc_locked k false)
    | None => Ret (inl drv_ENOMEM, set_falloc_locked k false)
    end
  else Ret (inl drv_EINVAL, k).

Definition physalloc (size : Z) (k : KMem) : outcome ((Z + Z) * KMem) :=
  '(r, k) ← physalloc_inner size SPACE_64 k;
  match r with
  | inr (size, _) => Ret (inr size, k)
  | inl e => Ret (inl e, k)
  end.

Definition physfree_inner (addr count : Z) (k : KMem) : outcome ((Z + Z) * KMem) :=
  a ← phys_addr_new addr;
  c ← phys_addr_new count;
  fa ← falloc_write k;
  '(_, fa) ← deallocate_multiple fa (frame_containing a) (frame_containing c);
  Ret (inr 0, set_falloc k fa).

Definition physfree (addr count : Z) (k : KMem) : outcome ((Z + Z) * KMem) :=
  physfree_inner addr count k.

Definition physmap_inner (len flags : Z) (k : KMem) : outcome ((Z + Z) * KMem) :=
  let map_flags := Z.lor MAP_SHARED PROT_READ in
  let map_flags := flags_set map_flags PROT_WRITE (flags_contains flags PHYSMAP_WRITE) in
  pt_flags ← translate_flags flags map_flags;
  '(r, k) ← physalloc_inner len SPACE_64 k;
  match r with
  | inl e => Ret (inl e, k)
  | inr (_, frame_range) =>
      k ← foldO (λ k f,
            v ← virt_addr_new f;
            map_page k (page_containing v) f pt_flags) frame_range k;
      Ret (inr len, k)
  end.

Definition physmap (_phys len flags : Z) (k : KMem) : outcome ((Z + Z) * KMem) :=
  physmap_inner len flags k.

End Driver.

(** ** Properties *)

(** The flags [iopl] writes, bit by bit. *)
Lemma iopl_flags_testbit level fl i :
  0 <= level <= 3 → is_uN 64 fl → 0 <= i →
  Z.testbit (Z.lor (Z.land fl (unot 64 (Z.shiftl 3 12))) (Z.shiftl (Z.land level 3) 12)) i =
  if (i =? 12) || (i =? 13) then Z.testbit level (i - 12) else Z.testbit fl i.
Proof.
  intros Hl Hfl Hi.
  assert (Z.land level 3 = level) as ->.
  { change 3 with (Z.ones 2). by rewrite Z.land_ones, Z.mod_small by lia. }
  rewrite Z.lor_spec, Z.land_spec. destruct (Z_lt_le_dec i 64).
  - rewrite unot_testbit, testbit_mask3, Z.shiftl_spec by (lia || (split; vm_compute; congruence)).
    change (12 + 1) with 13. destruct ((i =? 12) || (i =? 13)) eqn:E; cbn.
    + by rewrite andb_false_r.
    + rewrite andb_true_r. apply orb_false_iff in E as [? ?]. z_bool.
      destruct (decide (i < 12)); [by rewrite (Z.testbit_neg_r level), orb_false_r by lia|].
      rewrite (testbit_high 2 level), orb_false_r by lia. done.
  - rewrite (testbit_high 64 fl), Z.shiftl_spec, (testbit_high 2 level) by (done || lia).
    z_cases; (lia || done).
Qed.

Section DriverTheory.
Context `{X86PagingLaws} `{PageMapperLaws} `{RedoxAbiLaws}.

(** [iopl] with a level up to 3 answers [Ok(0)], puts the level in bits 12
    and 13 of the saved flags and keeps every other bit and field; any other level
    is [EINVAL] and changes nothing. *)
Theorem iopl_correct level frame :
  0 <= level → is_uN 64 (sf_cpu_flags frame) →
  let '(r, frame') := iopl level frame in
  (level <= 3 → r = inr 0 ∧
    sf_instruction_pointer frame' = sf_instruction_pointer frame ∧
    sf_code_segment frame' = sf_code_segment frame ∧
    sf_stack_pointer frame' = sf_stack_pointer frame ∧
    sf_stack_segment frame' = sf_stack_segment frame ∧
    Z.land (Z.shiftr (sf_cpu_flags frame') 12) 3 = level ∧
    ∀ i, 0 <= i → i ≠ 12 → i ≠ 13 →
      Z.testbit (sf_cpu_flags frame') i = Z.testbit (sf_cpu_flags frame) i) ∧
  (3 < level → r = inl 22 ∧ frame' = frame).
Proof.
  intros Hl Hfl. unfold iopl. destruct (Z.leb_spec level 3).
  - split; [|lia]. intros _. cbn [sf_instruction_pointer sf_code_segment sf_cpu_flags
      sf_stack_pointer sf_stack_segment]. split_and!; [done..| |].
    + apply Z.bits_inj'. intros i Hi. rewrite Z.land_spec, Z.shiftr_spec by lia.
      rewrite iopl_flags_testbit by (done || lia).
      destruct (decide (i < 2)).
      * assert (i = 0 ∨ i = 1) as [-> | ->] by lia; cbn -[Z.testbit];
          by rewrite andb_true_r.
      * rewrite (testbit_high 2 3), andb_false_r, (testbit_high 2 level i) by lia. done.
    + intros i ???. rewrite iopl_flags_testbit by (done || lia). z_cases; (lia || done).
  - split; [lia|]. intros _. split; [|done]. f_equal. apply drv_errno_values.
Qed.

(** A write to a locked allocator never returns. *)
Lemma map_page_locked k m fa phys virt flags :
  km_mapper k = Some m → km_mapper_locked k = false →
  km_falloc k = Some fa → km_falloc_locked k = true →
  0 <= phys < 2 ^ 52 → canonical virt → map_page k phys virt flags = Hang.
Proof.
  intros E1 E2 E3 E4 Hp Hv. unfold map_page. rewrite phys_addr_new_ok by lia. cbn.
  rewrite virt_addr_new_ok by done. cbn. unfold mapper_write, falloc_write.
  by rewrite E1, E2, E3, E4.
Qed.

(** On an initialised kernel [physalloc] never returns a range: when there is
    not enough memory it is [ENOMEM] and nothing changes, and otherwise it
    deadlocks on the frame allocator's lock, which it still holds when it maps the
    first page. *)
Theorem physalloc_never_ok size k m fa off :
  ready k m fa → km_offset k = Some off → regions_wf (fa_map fa) →
  0 <= fa_next fa → 0 <= size → fa_next fa + size + 1 < 2 ^ 45 →
  0 <= off < 2 ^ 45 → (∀ f, f ∈ usable_addrs (fa_map fa) → f < 2 ^ 45) →
  (Z.of_nat (length (usable_addrs (fa_map fa))) <= fa_next fa + size →
     physalloc size k = Ret (inl 12, k)) ∧
  (fa_next fa + size < Z.of_nat (length (usable_addrs (fa_map fa))) →
     physalloc size k = Hang).
Proof.
  intros Hk Hoff Hwf Hnx Hs Hlim Ho Hcan. unfold physalloc, physalloc_inner.
  assert (flags_contains SPACE_64 SPACE_64 = true) as ->.
  { unfold flags_contains. rewrite Z.land_diag. apply Z.eqb_refl. }
  rewrite orb_true_r, (falloc_write_ready _ _ _ Hk). cbn.
  destruct (allocate_multiple_spec fa size Hwf Hnx Hs) as [(b & e & Hb & He & ->)|[Hl ->]]; [lia|..].
  - split; [apply lookup_lt_Some in He; lia|]. intros _. cbn.
    unfold get_phys_offset. cbn. rewrite Hoff. cbn.
    destruct (usable_in_map fa _ b Hwf Hb) as (_ & Hbal & Hbr).
    pose proof (Hcan b (list_elem_of_lookup_2 _ _ _ Hb)).
    pose proof (usable_addrs_mono _ _ _ _ _ _ Hwf Hb He ltac:(lia)) as Hbe.
    rewrite uadd_ret by lia. cbn. rewrite virt_addr_new_ok by (apply canonical_low; lia). cbn.
    rewrite uadd_ret by lia. cbn. rewrite virt_addr_new_ok by (apply canonical_low; lia). cbn.
    rewrite (frame_range_cons (page_containing (b + off)))
      by (rewrite !page_containing_spec; unfold page_size; zdm).
    rewrite (frame_range_cons b) by (unfold page_size in *; lia). cbn.
    destruct Hk as (? & ? & ? & ?). pose proof (page_containing_range (b + off) ltac:(lia)).
    erewrite map_page_locked by (done || lia || (apply canonical_low; lia)). done.
  - split; [|lia]. intros _. cbn. do 2 f_equal.
    + f_equal. apply drv_errno_values.
    + destruct k, Hk as (? & ? & ? & ?). cbn in *. by subst.
Qed.

(** [physmap] panics on every input: the map flags it builds are a
    combination, and [translate_flags] only accepts single flags. *)
Theorem physmap_panics _phys len flags k : physmap _phys len flags k = Panic PAssert.
Proof.
  unfold physmap, physmap_inner, translate_flags, flags_set.
  destruct prot_values as (-> & -> & -> & ->), map_values as (-> & -> & -> & -> & ->).
  by destruct (flags_contains flags PHYSMAP_WRITE).
Qed.

(** [physfree] takes its [count] for the address of the last frame to free:
    with a [count] below the frame at [addr] it answers [Ok(0)] and frees nothing;
    otherwise it rewinds the allocator by the number of frames between the two
    addresses. *)
Theorem physfree_count_is_address addr count k m fa :
  ready k m fa → page_size <= addr < 2 ^ 52 → 0 <= count < 2 ^ 52 →
  (frame_containing count < frame_containing addr → physfree addr count k = Ret (inr 0, k)) ∧
  (let n := (frame_containing count - frame_containing addr) / page_size + 1 in
   frame_containing addr <= frame_containing count → n <= fa_next fa →
   physfree addr count k = Ret (inr 0, set_falloc k (FrameAlloc (fa_map fa) (fa_next fa - n)))).
Proof.
  intros Hk Ha Hc. unfold physfree, physfree_inner.
  rewrite !phys_addr_new_ok by (unfold page_size in *; lia). cbn. rewrite (falloc_write_ready _ _ _ Hk). cbn.
  unfold deallocate_multiple. split.
  - intros Hlt. rewrite frame_range_nil by lia. cbn. do 2 f_equal.
    destruct k, Hk as (? & ? & ? & ?). cbn in *. by subst.
  - intros Hle Hn. rewrite deallocate_foldO.
    + cbn. by rewrite length_frame_range by done.
    + apply Forall_forall. intros f [? _]%elem_of_frame_range.
      rewrite frame_containing_spec in *. unfold page_size in *. zdm.
    + by rewrite length_frame_range by done.
Qed.

End DriverTheory.

(** ** Concrete runs *)

Lemma iopl_witness :
  iopl 3 (MkStackFrame 0x1000 8 0x202 0x2000 16) =
    (inr 0, MkStackFrame 0x1000 8 0x3202 0x2000 16) ∧
  iopl 4 (MkStackFrame 0x1000 8 0x202 0x2000 16) =
    (inl 22, MkStackFrame 0x1000 8 0x202 0x2000 16).
Proof.
  pose proof (iopl_correct 4 (MkStackFrame 0x1000 8 0x202 0x2000 16)) as Hw.
  split; [reflexivity|]. destruct (iopl 4 _) as [r f].
  destruct Hw as [_ Hw]; [lia|unfold is_uN; cbn; lia|].
  destruct Hw as [-> ->]; [lia|]. reflexivity.
Defined.

Lemma physalloc_witness :
  physalloc 2 kmem_example = Hang ∧ physalloc 32768 kmem_example = Ret (inl 12, kmem_example).
Proof.
  split.
  - apply (physalloc_never_ok 2 kmem_example ∅ (falloc_new big_map) 0 kmem_example_ready);
      [done|apply big_map_wf|cbn; lia..|exact big_map_low|].
    cbn [falloc_new fa_map fa_next]. rewrite big_map_length. lia.
  - apply (physalloc_never_ok 32768 kmem_example ∅ (falloc_new big_map) 0 kmem_example_ready);
      [done|apply big_map_wf|cbn; lia..|exact big_map_low|].
    cbn [falloc_new fa_map fa_next]. rewrite big_map_length. lia.
Defined.

(** Two frames at 0x5000: nothing is freed. *)
Lemma physfree_witness : physfree 0x5000 2 kmem_example = Ret (inr 0, kmem_example).
Proof.
  apply (physfree_count_is_address 0x5000 2 kmem_example ∅ (falloc_new big_map) kmem_example_ready);
    [unfold page_size; lia..|reflexivity].
Defined.

Lemma physmap_witness : physmap 0 4096 1 kmem_example = Panic PAssert.
Proof. apply (physmap_panics 0 4096 1 kmem_example). Defined.
