(* ===== verification/BitFields.v ===== *)
(** * The [bit_field] crate's accessors

    The drivers read and write register bits through the [BitField] trait of the
    [bit_field] crate.  [BitField] names the four methods at width [w] and
    [BitFieldLaws] states their documented behaviour: the bits they read and
    write, and that an index or a range outside the integer, or a value that does
    not fit the range, panics. *)

From S2P Require Import Prelude.

Local Open Scope Z_scope.

Class BitField : Type := {
  get_bit : Z → Z → Z → outcome bool;          (* w x i *)
  set_bit : Z → Z → Z → bool → outcome Z;      (* w x i b *)
  get_bits : Z → Z → Z → Z → outcome Z;        (* w x lo hi, the range lo..hi *)
  set_bits : Z → Z → Z → Z → Z → outcome Z;    (* w x lo hi v *)
}.

(** The bits [lo..hi] of [x], and [x] with these bits replaced by [v]. *)
Definition bits_of (x lo hi : Z) : Z := (x / 2 ^ lo) mod 2 ^ (hi - lo).
Definition with_bits (x lo hi v : Z) : Z := x + (v - bits_of x lo hi) * 2 ^ lo.

Class BitFieldLaws `{BitField} : Prop := {
  get_bit_ok w x i : 0 <= i < w → get_bit w x i = Ret (Z.testbit x i);
  get_bit_bad w x i : w <= i → ∃ p, get_bit w x i = Panic p;
  set_bit_ok w x i b :
    0 <= i < w → set_bit w x i b = Ret (if b then Z.setbit x i else Z.clearbit x i);
  set_bit_bad w x i b : w <= i → ∃ p, set_bit w x i b = Panic p;
  get_bits_ok w x lo hi : 0 <= lo < hi → hi <= w → get_bits w x lo hi = Ret (bits_of x lo hi);
  set_bits_ok w x lo hi v :
    0 <= lo < hi → hi <= w → 0 <= v < 2 ^ (hi - lo) →
    set_bits w x lo hi v = Ret (with_bits x lo hi v);
  set_bits_bad w x lo hi v :
    0 <= lo < hi → hi <= w → 2 ^ (hi - lo) <= v → ∃ p, set_bits w x lo hi v = Panic p;
}.

(** A model of the interface, for evaluating the definitions. *)
#[export] Instance bit_field_model : BitField | 100 := {
  get_bit w x i := if i <? w then Ret (Z.testbit x i) else Panic PAssert;
  set_bit w x i b :=
    if i <? w then Ret (if b then Z.setbit x i else Z.clearbit x i) else Panic PAssert;
  get_bits w x lo hi :=
    if (lo <? hi) && (hi <=? w) then Ret (bits_of x lo hi) else Panic PAssert;
  set_bits w x lo hi v :=
    if (lo <? hi) && (hi <=? w) && (v <? 2 ^ (hi - lo)) then Ret (with_bits x lo hi v)
    else Panic PAssert;
}.

#[export] Instance bit_field_model_laws : @BitFieldLaws bit_field_model.
Proof. split; cbn; intros; z_cases; cbn; try done; try lia; by eexists. Qed.

Lemma bits_of_range x lo hi : lo <= hi → 0 <= bits_of x lo hi < 2 ^ (hi - lo).
Proof. intros. apply Z.mod_pos_bound, pow2_pos. lia. Qed.

Lemma bits_of_testbit x lo hi i :
  0 <= lo <= hi → 0 <= i →
  Z.testbit (bits_of x lo hi) i = (i <? hi - lo) && Z.testbit x (i + lo).
Proof.
  intros Hlo Hi. unfold bits_of. z_cases; cbn.
  - by rewrite Z.mod_pow2_bits_low, Z.div_pow2_bits by lia.
  - apply (testbit_high (hi - lo)); [|lia]. apply Z.mod_pos_bound, pow2_pos. lia.
Qed.

(** A number split at [lo] and [hi]. *)
Lemma bits_split x lo hi :
  0 <= lo <= hi →
  x = x mod 2 ^ lo + 2 ^ lo * (bits_of x lo hi + 2 ^ (hi - lo) * (x / 2 ^ hi)).
Proof.
  intros. unfold bits_of. replace (x / 2 ^ hi) with (x / 2 ^ lo / 2 ^ (hi - lo)).
  - rewrite (Z.add_comm ((x / 2 ^ lo) mod _)), <- Z.div_mod by (apply Z.pow_nonzero; lia).
    rewrite (Z.add_comm (x mod _)). apply Z.div_mod, Z.pow_nonzero; lia.
  - rewrite Z.div_div by (apply Z.pow_nonzero || apply pow2_pos; lia).
    by rewrite <- Z.pow_add_r, Zplus_minus by lia.
Qed.

Lemma with_bits_split x lo hi v :
  0 <= lo <= hi →
  with_bits x lo hi v = x mod 2 ^ lo + 2 ^ lo * (v + 2 ^ (hi - lo) * (x / 2 ^ hi)).
Proof. intros. unfold with_bits. rewrite (bits_split x lo hi) at 1 by lia. lia. Qed.

Lemma with_bits_testbit x lo hi v i :
  0 <= lo <= hi → 0 <= i → 0 <= v < 2 ^ (hi - lo) →
  Z.testbit (with_bits x lo hi v) i =
  if (lo <=? i) && (i <? hi) then Z.testbit v (i - lo) else Z.testbit x i.
Proof.
  intros Hlo Hi Hv. rewrite with_bits_split by lia.
  pose proof (Z.mod_pos_bound x (2 ^ lo) (pow2_pos lo ltac:(lia))).
  rewrite (bits_split x lo hi) at 3 by lia.
  pose proof (bits_of_range x lo hi ltac:(lia)).
  rewrite !testbit_limbs by lia. z_cases; cbn; try lia; try done.
  - rewrite testbit_limbs by lia. z_cases; done || lia.
  - rewrite testbit_limbs by lia. z_cases; done || lia.
  - rewrite !testbit_limbs by lia. z_cases; done || lia.
Qed.

Lemma bits_of_with_bits x lo hi v :
  0 <= lo <= hi → 0 <= v < 2 ^ (hi - lo) → bits_of (with_bits x lo hi v) lo hi = v.
Proof.
  intros Hlo Hv. apply Z.bits_inj'. intros i Hi.
  rewrite bits_of_testbit, with_bits_testbit by lia. z_cases; cbn; try lia.
  - f_equal. lia.
  - symmetry. apply (testbit_high (hi - lo)); lia.
Qed.

(** Writing one range leaves a disjoint range alone. *)
Lemma bits_of_with_bits_ne x lo hi v lo' hi' :
  0 <= lo <= hi → 0 <= lo' <= hi' → 0 <= v < 2 ^ (hi - lo) → hi <= lo' ∨ hi' <= lo →
  bits_of (with_bits x lo hi v) lo' hi' = bits_of x lo' hi'.
Proof.
  intros Hlo Hlo' Hv Hd. apply Z.bits_inj'. intros i Hi.
  rewrite !bits_of_testbit, with_bits_testbit by lia. z_cases; cbn; lia || done.
Qed.

Lemma with_bits_uN w x lo hi v :
  0 <= lo <= hi → hi <= w → 0 <= v < 2 ^ (hi - lo) → is_uN w x → is_uN w (with_bits x lo hi v).
Proof.
  intros Hlo Hw Hv Hx.
  assert (0 <= with_bits x lo hi v).
  { rewrite with_bits_split by lia.
    pose proof (Z.mod_pos_bound x (2 ^ lo) (pow2_pos lo ltac:(lia))).
    pose proof (Z.div_pos x (2 ^ hi)). unfold is_uN in *. nia. }
  split; [done|]. apply bits_below; [lia|done|]. intros i Hi.
  rewrite with_bits_testbit by lia. z_cases; cbn; try lia; apply (testbit_high w); done || lia.
Qed.

Create Rewrite HintDb bits.
#[export] Hint Rewrite @get_bit_ok @set_bit_ok @get_bits_ok @set_bits_ok using lia : bits.
