(* ===== verification/Bitmap.v ===== *)
(** * The PCI bitmap, src/drivers/pci_impl.rs ([Bitmap])

    A bitmap is a vector of 64-bit blocks.  Its abstract view is the function from
    bit indices below the capacity to booleans; the theorems show that [set] and
    [is_set] implement that view, that [find_first_set] returns the least set bit,
    and what [find_first_unset] really looks at. *)

From S2P Require Import Prelude BitFields.

Local Open Scope Z_scope.

Definition BLOCK_BITS : Z := 64.

Definition calculate_blocks (bits : Z) : Z :=
  if bits mod BLOCK_BITS =? 0 then bits / BLOCK_BITS else bits / BLOCK_BITS + 1.

Record Bitmap : Type := MkBitmap { bm_blocks : list Z }.

(** [new_in]: a vector resized with zeroes. *)
Definition bitmap_new (size : Z) : Bitmap :=
  MkBitmap (replicate (Z.to_nat (calculate_blocks size)) 0).
Definition bitmap_empty : Bitmap := MkBitmap [].

Section Operations.
Context `{BitField}.

(** [get_mut(..).map(..)]: a bit outside the bitmap is ignored. *)
Definition bitmap_set (self : Bitmap) (bit_idx : Z) (yes : bool) : outcome Bitmap :=
  let block_idx := bit_idx / BLOCK_BITS in
  let mod_bit_idx := bit_idx mod BLOCK_BITS in
  match bm_blocks self !! Z.to_nat block_idx with
  | None => Ret self
  | Some n =>
      n ← set_bit 64 n mod_bit_idx yes;
      Ret (MkBitmap (<[Z.to_nat block_idx := n]> (bm_blocks self)))
  end.

Definition bitmap_is_set (self : Bitmap) (bit_idx : Z) : outcome bool :=
  let block_idx := bit_idx / BLOCK_BITS in
  let mod_bit_idx := bit_idx mod BLOCK_BITS in
  n ← index (bm_blocks self) block_idx;
  get_bit 64 n mod_bit_idx.

(** [while block_value.get_bit(0) == while_set { block_value >>= 1; bit += 1 }]. *)
Fixpoint scan_bits (fuel : nat) (while_set : bool) (block_value bit : Z) : outcome Z :=
  match fuel with
  | O => Hang
  | S fuel =>
      b ← get_bit 64 block_value 0;
      if eqb b while_set then
        v ← ushr 64 block_value 1;
        bit ← uadd 64 bit 1;
        scan_bits fuel while_set v bit
      else Ret bit
  end.
Definition scan_fuel : nat := 66.

(** The closure of [find_first_unset]. *)
Definition first_unset_in (i block : Z) : outcome Z :=
  if block =? 0 then umul 64 i BLOCK_BITS
  else
    bit ← scan_bits scan_fuel true block 0;
    base ← umul 64 i BLOCK_BITS;
    uadd 64 base bit.

(** [.map(..).nth(0)] is lazy: the closure runs on the first block only. *)
Definition find_first_unset (self : Bitmap) : outcome (option Z) :=
  match bm_blocks self with
  | [] => Ret None
  | block :: _ => r ← first_unset_in 0 block; Ret (Some r)
  end.

Fixpoint find_first_set_from (i : Z) (blocks : list Z) : outcome (option Z) :=
  match blocks with
  | [] => Ret None
  | block :: blocks =>
      if negb (block =? 0) then
        bit ← scan_bits scan_fuel false block 0;
        base ← umul 64 i BLOCK_BITS;
        r ← uadd 64 base bit;
        Ret (Some r)
      else find_first_set_from (i + 1) blocks
  end.
Definition find_first_set (self : Bitmap) : outcome (option Z) :=
  find_first_set_from 0 (bm_blocks self).

End Operations.

(** ** The abstract view *)

Definition bitmap_wf (self : Bitmap) : Prop :=
  Forall (is_uN 64) (bm_blocks self) ∧
  Z.of_nat (length (bm_blocks self)) < 2 ^ 57.

Definition bitmap_capacity (self : Bitmap) : Z := BLOCK_BITS * Z.of_nat (length (bm_blocks self)).

(** The value of bit [i]; bits outside the bitmap read as unset. *)
Definition bitmap_bit (self : Bitmap) (i : Z) : bool :=
  match bm_blocks self !! Z.to_nat (i / BLOCK_BITS) with
  | Some n => Z.testbit n (i mod BLOCK_BITS)
  | None => false
  end.

Lemma setbit_uN w x i (b : bool) :
  0 <= i < w → is_uN w x → is_uN w (if b then Z.setbit x i else Z.clearbit x i).
Proof.
  intros Hi Hx. assert (0 <= if b then Z.setbit x i else Z.clearbit x i) as Hpos.
  { unfold is_uN in *. destruct b; [rewrite Z.setbit_spec'|rewrite Z.clearbit_spec'];
      [apply Z.lor_nonneg; split; [lia|by apply Z.pow_nonneg]|apply Z.ldiff_nonneg; lia]. }
  split; [done|]. apply bits_below; [lia|done|]. intros j Hj.
  destruct b; [rewrite Z.setbit_neq by lia|rewrite Z.clearbit_neq by lia];
    by apply (testbit_high w).
Qed.

Lemma block_split i : 0 <= i → 0 <= i / BLOCK_BITS ∧ 0 <= i mod BLOCK_BITS < BLOCK_BITS ∧
  i = BLOCK_BITS * (i / BLOCK_BITS) + i mod BLOCK_BITS.
Proof. unfold BLOCK_BITS. intros. zdm. Qed.

Section Theory.
Context `{BitFieldLaws}.

Lemma bitmap_is_set_spec self j :
  0 <= j < bitmap_capacity self → bitmap_is_set self j = Ret (bitmap_bit self j).
Proof.
  intros Hj. unfold bitmap_is_set, bitmap_bit, bitmap_capacity in *.
  destruct (block_split j) as (? & ? & ?); [lia|].
  destruct (lookup_lt_is_Some_2 (bm_blocks self) (Z.to_nat (j / BLOCK_BITS))) as [n Hn].
  { unfold BLOCK_BITS in *. lia. }
  erewrite index_ret by done. cbn. rewrite Hn. by rewrite get_bit_ok.
Qed.

Lemma bitmap_is_set_panic self j :
  bitmap_capacity self <= j → bitmap_is_set self j = Panic PBounds.
Proof.
  intros Hj. unfold bitmap_is_set, bitmap_capacity in *. rewrite index_panic; [done|].
  unfold BLOCK_BITS in *. zdm.
Qed.

(** [set] never panics and keeps the bitmap well formed and of the same
    capacity; inside the capacity it makes [is_set] of that index answer the value
    set and changes no other bit, outside it changes nothing, where [is_set]
    panics. *)
Theorem bitmap_set_is_set self i b :
  bitmap_wf self → 0 <= i →
  ∃ self', bitmap_set self i b = Ret self' ∧ bitmap_wf self' ∧
    bitmap_capacity self' = bitmap_capacity self ∧
    (∀ j, 0 <= j →
       bitmap_bit self' j = if (j =? i) && (i <? bitmap_capacity self) then b else bitmap_bit self j) ∧
    (∀ j, 0 <= j < bitmap_capacity self → bitmap_is_set self' j = Ret (bitmap_bit self' j)) ∧
    (∀ j, bitmap_capacity self <= j → bitmap_is_set self' j = Panic PBounds).
Proof.
  intros [Hwf Hlen] Hi. unfold bitmap_set. destruct (block_split i Hi) as (? & ? & Ei).
  destruct (bm_blocks self !! Z.to_nat (i / BLOCK_BITS)) as [n|] eqn:En.
  - rewrite set_bit_ok by done. cbn. eexists. split; [done|].
    pose proof (lookup_lt_Some _ _ _ En).
    set (n' := if b then _ else _). set (self' := MkBitmap _).
    assert (bitmap_capacity self' = bitmap_capacity self) as Hcap.
    { unfold bitmap_capacity. cbn. by rewrite length_insert. }
    split_and!; [split|done| | |].
    + apply Forall_insert; [done|]. apply setbit_uN; [done|]. by eapply Forall_lookup_1.
    + cbn. by rewrite length_insert.
    + intros j Hj. destruct (block_split j Hj) as (? & ? & Ej).
      unfold bitmap_capacity, bitmap_bit. cbn.
      rewrite (proj2 (Z.ltb_lt i _)), andb_true_r by (unfold BLOCK_BITS in *; lia).
      destruct (decide (j / BLOCK_BITS = i / BLOCK_BITS)) as [Eb|Hb].
      * rewrite Eb, list_lookup_insert_eq, En by done. unfold n'.
        destruct (Z.eqb_spec j i) as [->|?]; destruct b;
          rewrite ?Z.setbit_eq, ?Z.clearbit_eq, ?Z.setbit_neq, ?Z.clearbit_neq by lia; done.
      * rewrite list_lookup_insert_ne by lia. rewrite (proj2 (Z.eqb_neq j i)) by congruence. done.
    + intros j Hj. apply bitmap_is_set_spec. lia.
    + intros j Hj. apply bitmap_is_set_panic. lia.
  - exists self. apply lookup_ge_None in En. split_and!; [done|by split|done| | |].
    + intros j Hj. unfold bitmap_capacity. rewrite (proj2 (Z.ltb_ge i _)), andb_false_r; [done|].
      unfold BLOCK_BITS in *. lia.
    + intros j Hj. by apply bitmap_is_set_spec.
    + intros j Hj. by apply bitmap_is_set_panic.
Qed.

(** The scan over a block: it stops at the first bit whose value differs from
    [ws], and with all bits equal to it at the bit where only zeroes are left. *)
Lemma scan_bits_spec ws fuel v bit r :
  is_uN 64 v → 0 <= r → (∀ j, 0 <= j < r → Z.testbit v j = ws) → Z.testbit v r = negb ws →
  r < Z.of_nat fuel → 0 <= bit → bit + r < 2 ^ 64 →
  scan_bits fuel ws v bit = Ret (bit + r).
Proof.
  revert v bit r. induction fuel as [|fuel IH]; intros v bit r Hv Hr Hbelow Hat Hf Hb Hbr; [lia|].
  cbn [scan_bits]. rewrite get_bit_ok by lia. cbn [mbind outcome_bind].
  destruct (decide (r = 0)) as [->|Hr0].
  - rewrite Hat, Z.add_0_r. by destruct ws.
  - rewrite (Hbelow 0), eqb_reflx by lia. rewrite ushr_ret by lia. cbn [mbind outcome_bind].
    rewrite uadd_ret by lia. cbn [mbind outcome_bind]. rewrite (IH _ _ (r - 1)); try lia.
    + f_equal. lia.
    + unfold is_uN in *. rewrite Z.shiftr_div_pow2 by lia. zdm.
    + intros j ?. rewrite Z.shiftr_spec by lia. apply Hbelow. lia.
    + rewrite Z.shiftr_spec by lia. by replace (r - 1 + 1) with r by lia.
Qed.

(** Below [n], either all bits are [ws] or there is a first one that is not. *)
Lemma first_diff ws v (n : nat) :
  (∀ j, 0 <= j < Z.of_nat n → Z.testbit v j = ws) ∨
  ∃ r, 0 <= r < Z.of_nat n ∧ Z.testbit v r = negb ws ∧ ∀ j, 0 <= j < r → Z.testbit v j = ws.
Proof.
  induction n as [|n [IH|(r & ? & ? & ?)]]; [left; lia| |right; exists r; split_and!; [lia..|done|done]].
  destruct (bool_decide_reflect (Z.testbit v (Z.of_nat n) = ws)) as [E|E].
  - left. intros j Hj. destruct (decide (j = Z.of_nat n)) as [->|]; [done|]. apply IH. lia.
  - right. exists (Z.of_nat n). split_and!; [lia..| |intros; apply IH; lia].
    by destruct (Z.testbit v _), ws.
Qed.

(** A non-zero block has a first set bit, and [scan_bits] finds it. *)
Lemma scan_first_set v :
  is_uN 64 v → v ≠ 0 →
  ∃ r, 0 <= r < 64 ∧ scan_bits scan_fuel false v 0 = Ret r ∧ Z.testbit v r = true ∧
    ∀ j, 0 <= j < r → Z.testbit v j = false.
Proof.
  intros Hv Hnz. destruct (first_diff false v 64) as [Hz|(r & Hr & Ht & Hb)].
  - destruct Hnz. apply Z.bits_inj'. intros j Hj. rewrite Z.bits_0.
    destruct (decide (j < 64)); [apply Hz; lia|]. apply (testbit_high 64); done || lia.
  - exists r. split_and!; [lia..| |done|done].
    by rewrite (scan_bits_spec false _ v 0 r) by (done || unfold scan_fuel; lia).
Qed.

(** The first unset bit of a block; a full block gives 64. *)
Lemma first_unset_in_spec v :
  is_uN 64 v →
  ∃ r, 0 <= r <= 64 ∧ first_unset_in 0 v = Ret r ∧
    (∀ j, 0 <= j < r → Z.testbit v j = true) ∧ (r < 64 → Z.testbit v r = false) ∧
    (r = 64 ↔ v = 2 ^ 64 - 1).
Proof.
  intros Hv. unfold first_unset_in. destruct (Z.eqb_spec v 0) as [->|Hnz].
  { exists 0. split_and!; [lia..|done|lia|intros _; apply Z.bits_0|lia]. }
  assert (∃ r, 0 <= r <= 64 ∧ Z.testbit v r = false ∧ ∀ j, 0 <= j < r → Z.testbit v j = true)
    as (r & Hr & Ht & Hb).
  { destruct (first_diff true v 64) as [Hz|(r & Hr & Ht & Hb)].
    - exists 64. split_and!; [lia..| |done]. apply (testbit_high 64); done || lia.
    - exists r. split_and!; [lia..|done|done]. }
  exists r. rewrite (scan_bits_spec true _ v 0 r) by (done || unfold scan_fuel; lia).
  cbn [mbind outcome_bind]. rewrite umul_ret by lia. cbn [mbind outcome_bind].
  rewrite uadd_ret by lia. split_and!; [lia..|f_equal; lia|done|done|].
  split; intros E.
  - apply Z.bits_inj'. intros j Hj. change (2 ^ 64 - 1) with (Z.ones 64).
    rewrite Z.testbit_ones_nonneg by lia. z_cases; [apply Hb; lia|].
    apply (testbit_high 64); done || lia.
  - destruct (decide (r = 64)); [done|]. rewrite E in Ht.
    change (2 ^ 64 - 1) with (Z.ones 64) in Ht. rewrite Z.ones_spec_low in Ht by lia. done.
Qed.

Lemma bitmap_bit_block i blocks v j :
  blocks !! i = Some v → 0 <= j < 64 →
  bitmap_bit (MkBitmap blocks) (64 * Z.of_nat i + j) = Z.testbit v j.
Proof.
  intros Hi Hj. unfold bitmap_bit, BLOCK_BITS. cbn [bm_blocks].
  replace ((64 * Z.of_nat i + j) / 64) with (Z.of_nat i) by zdm.
  replace ((64 * Z.of_nat i + j) mod 64) with j by zdm. by rewrite Nat2Z.id, Hi.
Qed.

(** The first non-zero block decides. *)
Lemma find_first_set_from_spec i blocks :
  Forall (is_uN 64) blocks → 0 <= i → i + Z.of_nat (length blocks) < 2 ^ 57 →
  (Forall (eq 0) blocks ∧ find_first_set_from i blocks = Ret None) ∨
  ∃ (k : nat) v r, blocks !! k = Some v ∧ (∀ k', (k' < k)%nat → blocks !! k' = Some 0) ∧
    0 <= r < 64 ∧ Z.testbit v r = true ∧ (∀ j, 0 <= j < r → Z.testbit v j = false) ∧
    find_first_set_from i blocks = Ret (Some (64 * (i + Z.of_nat k) + r)).
Proof.
  intros HF. revert i. induction HF as [|v blocks Hv HF IH]; intros i Hi Hlen; [by left|].
  cbn [length find_first_set_from] in *. destruct (Z.eqb_spec v 0) as [->|Hnz]; cbn [negb].
  - destruct (IH (i + 1)) as [[Hz ->]|(k & v & r & Hk & Hpre & Hr & Ht & Hb & ->)]; [lia..| |].
    + left. by split; [constructor|].
    + right. exists (S k), v, r. split_and!; [done| |lia..|done|done|do 2 f_equal; lia].
      intros [|k'] ?; [done|]. apply Hpre. lia.
  - right. destruct (scan_first_set v Hv Hnz) as (r & Hr & -> & Ht & Hb).
    exists 0%nat, v, r. split_and!; [done|lia|lia..|done|done|].
    cbn [mbind outcome_bind]. unfold BLOCK_BITS. rewrite umul_ret by lia. cbn [mbind outcome_bind].
    rewrite uadd_ret by lia. cbn. do 2 f_equal. lia.
Qed.

(** [find_first_set] terminates and answers the least set bit of the bitmap,
    and [None] exactly when no bit is set. *)
Theorem find_first_set_correct self :
  bitmap_wf self →
  ∃ r, find_first_set self = Ret r ∧
    match r with
    | Some i => 0 <= i < bitmap_capacity self ∧ bitmap_bit self i = true ∧
                ∀ j, 0 <= j < i → bitmap_bit self j = false
    | None => ∀ j, bitmap_bit self j = false
    end.
Proof.
  destruct self as [blocks]. intros [Hwf Hlen]. cbn [bm_blocks] in *. unfold find_first_set. cbn [bm_blocks].
  destruct (find_first_set_from_spec 0 blocks Hwf) as
    [[Hz ->]|(k & v & r & Hk & Hpre & Hr & Ht & Hb & ->)]; [lia..| |].
  - exists None. split; [done|]. intros j. unfold bitmap_bit. cbn [bm_blocks].
    destruct (blocks !! _) as [n|] eqn:En; [|done].
    rewrite <- (Forall_lookup_1 _ _ _ _ Hz En). apply Z.bits_0.
  - eexists. split; [done|]. cbn [bm_blocks]. rewrite Z.add_0_l.
    pose proof (lookup_lt_Some _ _ _ Hk). unfold bitmap_capacity, BLOCK_BITS. cbn [bm_blocks].
    split_and!; [lia..|by rewrite (bitmap_bit_block k blocks v)|].
    intros j Hj. destruct (decide (j < 64 * Z.of_nat k)).
    + unfold bitmap_bit, BLOCK_BITS. cbn [bm_blocks]. rewrite Hpre by zdm. apply Z.bits_0.
    + replace j with (64 * Z.of_nat k + (j - 64 * Z.of_nat k)) by lia.
      rewrite (bitmap_bit_block k blocks v) by (done || lia). apply Hb. lia.
Qed.

(** [find_first_unset] looks at the first block only: it answers the least
    unset bit when that block has one, and 64 when it is full, whatever the bit 64
    is and even when the bitmap has only 64 bits. *)
Theorem find_first_unset_first_block self v blocks :
  bitmap_wf self → bm_blocks self = v :: blocks →
  ∃ i, find_first_unset self = Ret (Some i) ∧
    (v ≠ 2 ^ 64 - 1 → 0 <= i < 64 ∧ bitmap_bit self i = false ∧
       ∀ j, 0 <= j < i → bitmap_bit self j = true) ∧
    (v = 2 ^ 64 - 1 → i = 64).
Proof.
  intros [Hwf _] E. unfold find_first_unset. rewrite E in *. apply Forall_cons in Hwf as [Hv _].
  destruct (first_unset_in_spec v Hv) as (r & Hr & -> & Hb & Ht & Hfull). exists r.
  split; [done|]. split; [|tauto]. intros Hne.
  assert (r < 64) by (destruct (decide (r = 64)); [tauto|lia]).
  assert (∀ j, 0 <= j < 64 → bitmap_bit self j = Z.testbit v j) as Hbit.
  { intros j Hj. destruct self as [bs]. cbn in E. subst bs. by apply (bitmap_bit_block 0 (v :: blocks)). }
  split_and!; [lia..|rewrite Hbit by lia; auto|]. intros j Hj. rewrite Hbit by lia. auto.
Qed.

End Theory.

(** ** Concrete runs *)

Definition bitmap_example : Bitmap := MkBitmap [2 ^ 64 - 1; 0x30].

Lemma bitmap_example_wf : bitmap_wf bitmap_example.
Proof. split; [|cbn; lia]. repeat constructor; cbn; lia. Qed.

Lemma bitmap_set_witness :
  ∃ self', bitmap_set bitmap_example 70 true = Ret self' ∧
    bitmap_is_set self' 70 = Ret true ∧ bitmap_is_set self' 200 = Panic PBounds.
Proof.
  destruct (bitmap_set_is_set bitmap_example 70 true bitmap_example_wf)
    as (self' & E & _ & Hc & Hb & Hin & Hout); [lia|].
  exists self'. split_and!; [exact E| |by apply Hout].
  rewrite Hin by done. f_equal. by rewrite Hb.
Defined.

Lemma find_first_set_witness : find_first_set (MkBitmap [0; 0x30]) = Ret (Some 68).
Proof.
  destruct (find_first_set_correct (MkBitmap [0; 0x30])) as (r & E & _).
  { split; [|cbn; lia]. repeat constructor; cbn; lia. }
  rewrite E. vm_compute in E. congruence.
Defined.

(** The first block is full: bit 64 is reported although it is set. *)
Lemma find_first_unset_witness :
  find_first_unset (MkBitmap [2 ^ 64 - 1; 1]) = Ret (Some 64) ∧
  bitmap_is_set (MkBitmap [2 ^ 64 - 1; 1]) 64 = Ret true.
Proof.
  split; [|reflexivity].
  destruct (find_first_unset_first_block (MkBitmap [2 ^ 64 - 1; 1]) (2 ^ 64 - 1) [1])
    as (i & E & _ & Hf); [|done|].
  { split; [|cbn; lia]. repeat constructor; cbn; lia. }
  rewrite E, Hf by done. reflexivity.
Defined.
