(* ===== verification/Signals.v ===== *)
(** * Signals, src/process/signal.rs

    The [Signal] enumeration, its conversions from and to numbers, and the error
    a process exits with on a signal.  The signal numbers and error codes are
    constants of the [redox_syscall] crate ([SignalAbi]). *)

From S2P Require Import Prelude.

Local Open Scope Z_scope.

Inductive Signal : Type :=
  | Success | SIGHUP | SIGINT | SIGQUIT | SIGILL | SIGTRAP | SIGABRT | SIGBUS | SIGFPE
  | SIGKILL | SIGUSR1 | SIGSEGV | SIGUSR2 | SIGPIPE | SIGALRM | SIGTERM | SIGSTKFLT
  | SIGCHLD | SIGCONT | SIGSTOP | SIGTSTP | SIGTTIN | SIGTTOU | SIGURG | SIGXCPU
  | SIGXFSZ | SIGVTALRM | SIGPROF | SIGWINCH | SIGIO | SIGPWR | SIGSYS | SIGINFO.

#[export] Instance Signal_eq_dec : EqDecision Signal.
Proof. solve_decision. Defined.

(** The constants of [redox_syscall]: [c_SIGHUP] is [syscall::SIGHUP], and so on. *)
Class SignalAbi : Type := {
  c_SIGHUP : Z; c_SIGINT : Z; c_SIGQUIT : Z; c_SIGILL : Z; c_SIGTRAP : Z; c_SIGABRT : Z;
  c_SIGBUS : Z; c_SIGFPE : Z; c_SIGKILL : Z; c_SIGUSR1 : Z; c_SIGSEGV : Z; c_SIGUSR2 : Z;
  c_SIGPIPE : Z; c_SIGALRM : Z; c_SIGTERM : Z; c_SIGSTKFLT : Z; c_SIGCHLD : Z;
  c_SIGCONT : Z; c_SIGSTOP : Z; c_SIGTSTP : Z; c_SIGTTIN : Z; c_SIGTTOU : Z;
  c_SIGURG : Z; c_SIGXCPU : Z; c_SIGXFSZ : Z; c_SIGVTALRM : Z; c_SIGPROF : Z;
  c_SIGWINCH : Z; c_SIGIO : Z; c_SIGPWR : Z; c_SIGSYS : Z;
  ECANCELED : Z; EDOM : Z; EDQUOT : Z; EFAULT : Z; EILSEQ : Z; EINTR : Z; EIO : Z;
  EPERM : Z; EPIPE : Z; ESPIPE : Z; EBADF : Z;
}.

(** The signal numbers are those of POSIX on Linux and Redox; an error code is a
    positive [i32]. *)
Class SignalAbiLaws `{SignalAbi} : Prop := {
  signal_numbers :
    [c_SIGHUP; c_SIGINT; c_SIGQUIT; c_SIGILL; c_SIGTRAP; c_SIGABRT; c_SIGBUS; c_SIGFPE;
     c_SIGKILL; c_SIGUSR1; c_SIGSEGV; c_SIGUSR2; c_SIGPIPE; c_SIGALRM; c_SIGTERM;
     c_SIGSTKFLT; c_SIGCHLD; c_SIGCONT; c_SIGSTOP; c_SIGTSTP; c_SIGTTIN; c_SIGTTOU;
     c_SIGURG; c_SIGXCPU; c_SIGXFSZ; c_SIGVTALRM; c_SIGPROF; c_SIGWINCH; c_SIGIO;
     c_SIGPWR; c_SIGSYS]
    = [1; 2; 3; 4; 5; 6; 7; 8; 9; 10; 11; 12; 13; 14; 15; 16; 17; 18; 19; 20; 21; 22; 23;
       24; 25; 26; 27; 28; 29; 30; 31];
  errno_positive : Forall (λ e, 0 < e < 2 ^ 31)
    [ECANCELED; EDOM; EDQUOT; EFAULT; EILSEQ; EINTR; EIO; EPERM; EPIPE; ESPIPE; EBADF];
}.

#[export] Instance signal_abi_model : SignalAbi | 100 := {
  c_SIGHUP := 1; c_SIGINT := 2; c_SIGQUIT := 3; c_SIGILL := 4; c_SIGTRAP := 5;
  c_SIGABRT := 6; c_SIGBUS := 7; c_SIGFPE := 8; c_SIGKILL := 9; c_SIGUSR1 := 10;
  c_SIGSEGV := 11; c_SIGUSR2 := 12; c_SIGPIPE := 13; c_SIGALRM := 14; c_SIGTERM := 15;
  c_SIGSTKFLT := 16; c_SIGCHLD := 17; c_SIGCONT := 18; c_SIGSTOP := 19; c_SIGTSTP := 20;
  c_SIGTTIN := 21; c_SIGTTOU := 22; c_SIGURG := 23; c_SIGXCPU := 24; c_SIGXFSZ := 25;
  c_SIGVTALRM := 26; c_SIGPROF := 27; c_SIGWINCH := 28; c_SIGIO := 29; c_SIGPWR := 30;
  c_SIGSYS := 31;
  ECANCELED := 125; EDOM := 33; EDQUOT := 122; EFAULT := 14; EILSEQ := 84; EINTR := 4;
  EIO := 5; EPERM := 1; EPIPE := 32; ESPIPE := 29; EBADF := 9;
}.
#[export] Instance signal_abi_model_laws : @SignalAbiLaws signal_abi_model.
Proof. split; [done|]. repeat constructor; cbn; lia. Qed.

Definition c_SIGINFO : Z := 32.

Section Signals.
Context `{SignalAbi}.

Definition signal_new (num : Z) : Signal :=
  if num =? c_SIGHUP then SIGHUP
  else if num =? c_SIGINT then SIGINT
  else if num =? c_SIGQUIT then SIGQUIT
  else if num =? c_SIGILL then SIGILL
  else if num =? c_SIGTRAP then SIGTRAP
  else if num =? c_SIGABRT then SIGABRT
  else if num =? c_SIGBUS then SIGBUS
  else if num =? c_SIGFPE then SIGFPE
  else if num =? c_SIGKILL then SIGKILL
  else if num =? c_SIGUSR1 then SIGUSR1
  else if num =? c_SIGSEGV then SIGSEGV
  else if num =? c_SIGUSR2 then SIGUSR2
  else if num =? c_SIGPIPE then SIGPIPE
  else if num =? c_SIGALRM then SIGALRM
  else if num =? c_SIGTERM then SIGTERM
  else if num =? c_SIGSTKFLT then SIGSTKFLT
  else if num =? c_SIGCHLD then SIGCHLD
  else if num =? c_SIGCONT then SIGCONT
  else if num =? c_SIGSTOP then SIGSTOP
  else if num =? c_SIGTSTP then SIGTSTP
  else if num =? c_SIGTTIN then SIGTTIN
  else if num =? c_SIGTTOU then SIGTTOU
  else if num =? c_SIGURG then SIGURG
  else if num =? c_SIGXCPU then SIGXCPU
  else if num =? c_SIGXFSZ then SIGXFSZ
  else if num =? c_SIGVTALRM then SIGVTALRM
  else if num =? c_SIGPROF then SIGPROF
  else if num =? c_SIGWINCH then SIGWINCH
  else if num =? c_SIGIO then SIGIO
  else if num =? c_SIGPWR then SIGPWR
  else if num =? c_SIGSYS then SIGSYS
  else if num =? c_SIGINFO then SIGINFO
  else Success.

(** [u64::from(Signal)]. *)
Definition signal_to_u64 (value : Signal) : Z :=
  match value with
  | Success => 0
  | SIGHUP => 1
  | SIGINT => 2
  | SIGQUIT => 3
  | SIGILL => 4
  | SIGTRAP => 5
  | SIGABRT => 6
  | SIGBUS => 7
  | SIGFPE => 8
  | SIGKILL => 9
  | SIGUSR1 => 10
  | SIGSEGV => 11
  | SIGUSR2 => 12
  | SIGPIPE => 13
  | SIGALRM => 14
  | SIGTERM => 15
  | SIGSTKFLT => 16
  | SIGCHLD => 17
  | SIGCONT => 18
  | SIGSTOP => 19
  | SIGTSTP => 20
  | SIGTTIN => 21
  | SIGTTOU => 22
  | SIGURG => 23
  | SIGXCPU => 24
  | SIGXFSZ => 25
  | SIGVTALRM => 26
  | SIGPROF => 27
  | SIGWINCH => 28
  | SIGIO => 29
  | SIGPWR => 30
  | SIGSYS => 31
  | SIGINFO => 32
  end.

(** [From<u64>] and [From<i32>] for [Signal] ([as] sign-extends), and [i32::from]. *)
Definition signal_from_u64 (value : Z) : Signal := signal_new value.
Definition signal_from_i32 (value : Z) : Signal := signal_from_u64 (wrap 64 value).
Definition signal_to_i32 (value : Signal) : Z := swrap 32 (signal_to_u64 value).

End Signals.

(** The conversions are inverse to each other: every signal survives the way
    to [u64] or [i32] and back, and a number comes back exactly when it is a
    signal number from 1 to 32; every other number becomes [Success]. *)
Theorem signal_roundtrip `{SignalAbiLaws} :
  (∀ s, signal_from_u64 (signal_to_u64 s) = s ∧ signal_from_i32 (signal_to_i32 s) = s) ∧
  (∀ n, signal_to_u64 (signal_new n) = if (1 <=? n) && (n <=? 32) then n else 0).
Proof.
  pose proof signal_numbers as [=]. split.
  - intros s. assert (signal_from_u64 (signal_to_u64 s) = s) as E.
    { unfold signal_from_u64, signal_new, c_SIGINFO.
      repeat match goal with E : ?c = _ |- _ => rewrite E; clear E end. by destruct s. }
    split; [done|]. unfold signal_from_i32, signal_to_i32.
    replace (wrap 64 (swrap 32 (signal_to_u64 s))) with (signal_to_u64 s); [done|].
    by destruct s.
  - intros n. unfold signal_new, c_SIGINFO.
    repeat match goal with E : ?c = _ |- _ => rewrite E; clear E end.
    repeat match goal with |- context [if n =? ?k then _ else _] =>
      destruct (Z.eqb_spec n k) as [->|?]; [reflexivity|] end.
    cbn. z_cases; cbn; lia.
Qed.

Lemma signal_roundtrip_witness :
  signal_from_i32 (signal_to_i32 SIGSEGV) = SIGSEGV ∧ signal_to_u64 (signal_new 33) = 0.
Proof.
  split.
  - apply (proj1 signal_roundtrip SIGSEGV).
  - exact (proj2 signal_roundtrip 33).
Defined.
