(* ===== verification/Process.v ===== *)
(** * Processes, src/process/mod.rs and [Signal::handle]

    A process runs as a generator that is resumed until it completes.  The process
    table is a [BTreeMap] behind a lock, which is modelled because several
    operations take it twice. *)

From S2P Require Import Prelude Signals.

Local Open Scope Z_scope.

Inductive State : Type :=
  | Runnable | Blocked | Zombie | AwaitingIo
  | Stopped (n : Z) | Exited (status : Z) | Invalid (n : Z).

#[export] Instance State_eq_dec : EqDecision State.
Proof. solve_decision. Defined.

(** [From<(u8, u64)> for State]. *)
Definition state_from (v0 v1 : Z) : State :=
  match v0 with
  | 0 => Runnable
  | 1 => Blocked
  | 2 => Zombie
  | 3 => AwaitingIo
  | 4 => Stopped v1
  | 5 => Exited v1
  | _ => Invalid v0
  end.

(** A process's [main]: what calling it does. *)
Inductive MainLoop : Type :=
  | WithoutResult (main : outcome unit)
  | WithResult (main : outcome (Z + unit)).

(** The type a [dyn Any] pointer carries. *)
Inductive any_type : Type :=
  | AnyFn (main : outcome unit)
  | AnyFnResult (main : outcome (Z + unit))
  | AnyOther.

(** [From<*mut dyn Any> for MainLoop]. *)
Definition mainloop_from_any (value : any_type) : outcome MainLoop :=
  match value with
  | AnyFn main => Ret (WithoutResult main)
  | AnyFnResult main => Ret (WithResult main)
  | AnyOther => Panic PAssert
  end.

(** The fields of [Process] with a value; [self_reference], [parent] and [pwd] are
    never set.  [executable] only records whether it is initialised. *)
Record Process : Type := MkProcess {
  p_state : State;
  p_pid : Z; p_tid : Z; p_sid : Z; p_gid : Z;
  p_sleep : Z;
  p_signal_received : Signal;
  p_io_pending : bool;
  p_executable : bool;
  p_open_files : option (list (list Z));
  p_exit_status : option Z;
  p_systrace : bool;
  p_main : MainLoop;
}.

Abbreviation Ptable := (gmap Z Process).

(** The lock around the process table, as held by the calling code. *)
Inductive lock_state : Type := LFree | LRead | LWrite.

(** [RwLock::read] and [RwLock::write] spin until they get the lock. *)
Definition lock_read (l : lock_state) : outcome unit :=
  match l with LWrite => Hang | LFree | LRead => Ret tt end.
Definition lock_write (l : lock_state) : outcome unit :=
  match l with LFree => Ret tt | LRead | LWrite => Hang end.

Definition ptable_len (l : lock_state) (t : Ptable) : outcome Z :=
  _ ← lock_read l; Ret (Z.of_nat (size t)).

Definition process_new (l : lock_state) (t : Ptable) (data : option (list Z)) (main : MainLoop)
    : outcome Process :=
  let open_files := (λ d, [d]) <$> data in
  n ← ptable_len l t;
  global_id ← usub n 1;
  Ret (MkProcess Blocked global_id global_id global_id global_id global_id Success false false
         open_files None false main).

(** [From<ElfFile> for Process]: the entry point is cast to [*mut TypeId] and then
    to [*mut dyn Any], so the type it carries is [TypeId]. *)
Definition process_from_elf (l : lock_state) (t : Ptable) : outcome Process :=
  main ← mainloop_from_any AnyOther;
  p ← process_new l t None main;
  Ret (MkProcess (p_state p) (p_pid p) (p_tid p) (p_sid p) (p_gid p) (p_sleep p)
         (p_signal_received p) (p_io_pending p) true (p_open_files p) (p_exit_status p)
         (p_systrace p) (p_main p)).

(** [PTABLE.write().insert(PTABLE.read().len() - 1, ..)]: the write guard is taken
    before the arguments are evaluated. *)
Definition process_create (l : lock_state) (t : Ptable) : outcome Ptable :=
  _ ← lock_write l;
  let l := LWrite in
  n ← ptable_len l t;
  key ← usub n 1;
  p ← process_from_elf l t;
  Ret (<[key := p]> t).

Definition set_state (p : Process) (state : State) : Process :=
  MkProcess state (p_pid p) (p_tid p) (p_sid p) (p_gid p) (p_sleep p) (p_signal_received p)
    (p_io_pending p) (p_executable p) (p_open_files p) (p_exit_status p) (p_systrace p) (p_main p).
Definition set_exit_status (p : Process) (s : option Z) : Process :=
  MkProcess (p_state p) (p_pid p) (p_tid p) (p_sid p) (p_gid p) (p_sleep p) (p_signal_received p)
    (p_io_pending p) (p_executable p) (p_open_files p) s (p_systrace p) (p_main p).

Definition process_block (p : Process) : Process := set_state p Blocked.
Definition process_unblock (p : Process) : Process := set_state p Runnable.

(** [exit] and [abort] do not return. *)
Definition abort {A} : outcome A := Hang.
Definition process_exit (p : Process) (code : Z) : outcome Process :=
  let _ := set_state p (Exited code) in abort.

Definition kill (p : Process) (signal : Signal) : Process :=
  MkProcess (p_state p) (p_pid p) (p_tid p) (p_sid p) (p_gid p) (p_sleep p) signal
    (p_io_pending p) (p_executable p) (p_open_files p) (p_exit_status p) (p_systrace p) (p_main p).

Definition fopen (p : Process) (file : list Z) : Process :=
  MkProcess (p_state p) (p_pid p) (p_tid p) (p_sid p) (p_gid p) (p_sleep p) (p_signal_received p)
    (p_io_pending p) (p_executable p)
    (match p_open_files p with None => Some [file] | Some files => Some (files ++ [file]) end)
    (p_exit_status p) (p_systrace p) (p_main p).

Section Running.
Context `{SignalAbi}.

(** [Signal::handle]: the result and the process. *)
Definition handle (self : Signal) (p : Process) : outcome ((Z + unit) * Process) :=
  match self with
  | Success => Ret (inr tt, p)
  | SIGHUP => Ret (inl EPIPE, p)
  | SIGINT => Ret (inl ECANCELED, p)
  | SIGQUIT => Ret (inl ECANCELED, p)
  | SIGILL => Ret (inl EILSEQ, p)
  | SIGTRAP => Ret (inl EPERM, p)
  | SIGABRT => Ret (inl ECANCELED, p)
  | SIGBUS => Ret (inl EFAULT, p)
  | SIGFPE => Ret (inl EDOM, p)
  | SIGKILL => abort
  | SIGUSR1 => Ret (inr tt, p)
  | SIGSEGV => Ret (inl EFAULT, p)
  | SIGUSR2 => Ret (inr tt, p)
  | SIGPIPE => Ret (inl EPIPE, p)
  | SIGALRM => Ret (inl EDQUOT, p)
  | SIGTERM => Ret (inr tt, p)
  | SIGSTKFLT => Ret (inl ESPIPE, p)
  | SIGCHLD => Ret (inr tt, set_state p Zombie)
  | SIGSTOP => Ret (inr tt, set_state p (Stopped (signal_to_u64 self)))
  | SIGTSTP => Ret (inr tt, set_state p (Stopped (signal_to_u64 self)))
  | SIGTTIN => Ret (inr tt, set_state p Blocked)
  | SIGTTOU => Ret (inr tt, set_state p Blocked)
  | SIGCONT => Ret (inr tt, set_state p Runnable)
  | SIGURG => Ret (inr tt, p)
  | SIGXCPU => Ret (inl EDQUOT, p)
  | SIGXFSZ => Ret (inl EDQUOT, p)
  | SIGVTALRM => Ret (inl EDQUOT, p)
  | SIGPROF => Ret (inl EDQUOT, p)
  | SIGWINCH => Ret (inr tt, p)
  | SIGIO => Ret (inl EIO, p)
  | SIGPWR => Ret (inr tt, p)
  | SIGSYS => Ret (inl EINTR, p)
  | SIGINFO => Ret (inr tt, p)
  end.

(** [GeneratorState]. *)
Inductive gen_state : Type := Yielded | Complete (r : Z + unit).

(** The generator up to its first [yield] or [return]. *)
Definition gen_start (l : lock_state) (p : Process) (t : Ptable)
    : outcome (gen_state * Process * Ptable) :=
  match p_state p with
  | Runnable =>
      match p_main p with
      | WithoutResult main =>
          _ ← main;
          Ret (Complete (inr tt), set_state p (Exited 0), t)
      | WithResult main =>
          r ← main;
          match r with
          | inr _ => Ret (Complete (inr tt), set_state p (Exited 0), t)
          | inl e => Ret (Complete (inr tt), set_state p (Exited (wrap 64 e)), t)
          end
      end
  | Blocked | AwaitingIo | Stopped _ => Ret (Yielded, p, t)
  | Exited status =>
      let p := set_exit_status p
                 (match p_exit_status p with Some s => Some s | None => Some status end) in
      status ← unwrap (p_exit_status p);
      _ ← lock_write l;
      let t := delete (p_pid p) t in
      if decide (p_signal_received p = Success) then
        if status =? 0 then Ret (Complete (inr tt), p, t)
        else Ret (Complete (inl (swrap 32 status)), p, t)
      else
        '(r, p) ← handle (p_signal_received p) p;
        match r with
        | inl e => Ret (Complete (inl e), p, t)
        | inr _ => Ret (Complete (inr tt), p, t)
        end
  | Invalid _ => Ret (Complete (inl EBADF), p, t)
  | Zombie => Ret (Complete (inr tt), kill p SIGKILL, t)
  end.

(** Resumed after a [yield], the generator leaves the [match] and completes. *)
Definition gen_resume : gen_state := Complete (inr tt).

Definition gen_finish (g : gen_state) : Z + Z :=
  match g with
  | Yielded => inr 0
  | Complete (inl e) => inl e
  | Complete (inr _) => inr 0
  end.

(** [Process::run]: [l] is how the caller holds the process table. *)
Definition run (l : lock_state) (p : Process) (t : Ptable)
    : outcome ((Z + Z) * Process * Ptable) :=
  '(g, p, t) ← gen_start l p t;
  match g with
  | Yielded => Ret (gen_finish gen_resume, p, t)
  | g => Ret (gen_finish g, p, t)
  end.

End Running.

(** ** Properties *)

(** No process can be created: [Process::create] never returns, because it
    asks for a read lock on the process table while it holds the write lock; and
    outside of it, building a [Process] from an ELF file panics on every input. *)
Theorem process_create_never_returns l t :
  process_create l t = Hang ∧ process_from_elf l t = Panic PAssert.
Proof. split; [|done]. unfold process_create. by destruct l. Qed.

Section RunTheory.
Context `{SignalAbi}.

(** What a process's [main] returns, and the status that becomes of it. *)
Definition main_call (p : Process) : outcome (Z + unit) :=
  match p_main p with
  | WithoutResult main => _ ← main; Ret (inr tt)
  | WithResult main => main
  end.
Definition exit_code (r : Z + unit) : Z := match r with inl e => wrap 64 e | inr _ => 0 end.

Lemma run_runnable l p t :
  p_state p = Runnable →
  run l p t = r ← main_call p; Ret (inr 0, set_state p (Exited (exit_code r)), t).
Proof.
  unfold run, gen_start, main_call. intros ->.
  destruct (p_main p) as [m|m]; destruct m as [r| |]; try done. by destruct r.
Qed.

(** A paused process yields once and is then reported as finished. *)
Lemma run_paused l p t :
  p_state p = Blocked ∨ p_state p = AwaitingIo ∨ (∃ n, p_state p = Stopped n) → run l p t = Ret (inr 0, p, t).
Proof. unfold run, gen_start. by intros [-> | [-> | [n ->]]]. Qed.

Lemma run_invalid l p t :
  (p_state p = Zombie → run l p t = Ret (inr 0, kill p SIGKILL, t)) ∧
  (∀ n, p_state p = Invalid n → run l p t = Ret (inl EBADF, p, t)).
Proof. unfold run, gen_start. split; [by intros ->|by intros n ->]. Qed.

(** Running an exited process: the first status recorded counts, and a pending signal more
    than the status. *)
Definition exit_record (p : Process) (status : Z) : Process :=
  set_exit_status p (Some (default status (p_exit_status p))).
Lemma run_exited p t status :
  p_state p = Exited status →
  (p_signal_received p = Success →
     run LFree p t = Ret (let st := default status (p_exit_status p) in if st =? 0 then inr 0 else inl (swrap 32 st),
                          exit_record p status, delete (p_pid p) t)) ∧
  (p_signal_received p ≠ Success →
     run LFree p t = '(r, p') ← handle (p_signal_received p) (exit_record p status);
                     Ret (match r with inl e => inl e | inr _ => inr 0 end, p', delete (p_pid p) t)) ∧
  ∀ l, l ≠ LFree → run l p t = Hang.
Proof.
  intros Hs. assert (match p_exit_status p with Some s => Some s | None => Some status end
    = Some (default status (p_exit_status p))) as Hx by (by destruct (p_exit_status p)).
  unfold run, gen_start. rewrite Hs, Hx. cbn [p_exit_status set_exit_status unwrap mbind outcome_bind].
  split_and!.
  - intros Hsig. cbn [lock_write mbind outcome_bind p_signal_received set_exit_status]. rewrite decide_True by done.
    cbv zeta. by destruct (_ =? 0).
  - intros Hsig. cbn [lock_write mbind outcome_bind p_signal_received set_exit_status]. rewrite decide_False by done.
    unfold exit_record. destruct (handle _ _) as [[[e|u] p']| |]; done.
  - intros l Hl. by destruct l.
Qed.

(** An error number survives its way through the 64-bit status. *)
Lemma errno_through_status e : - 2 ^ 31 <= e < 2 ^ 31 → swrap 32 (wrap 64 e) = e ∧ (wrap 64 e =? 0) = (e =? 0).
Proof.
  intros He. assert (wrap 64 e = if e <? 0 then e + 2 ^ 64 else e) as ->.
  { unfold wrap. symmetry. destruct (Z.ltb_spec e 0); [apply (Z.mod_unique _ _ (-1))|apply (Z.mod_unique _ _ 0)]; lia. }
  unfold swrap. split; [|destruct (Z.ltb_spec e 0), (Z.eqb_spec e 0); lia].
  destruct (Z.ltb_spec e 0).
  - rewrite <- (Z.mod_unique (e + 2 ^ 64) (2 ^ 32) (2 ^ 32 - 1) (e + 2 ^ 32)) by lia. z_cases; lia.
  - rewrite Z.mod_small by lia. z_cases; lia.
Qed.

(** Every handler but that of [SIGKILL] returns. *)
Lemma handle_returns sig p : sig ≠ SIGKILL → ∃ q p', handle sig p = Ret (q, p').
Proof. intros Hk. destruct sig; try done; eauto. Qed.

(** C35: the life of a process whose [main] returns.  The run that calls [main] answers
    [Ok(0)] whatever it returned and leaves the process [Exited]; the next run, if nobody
    holds the table, takes it out of the table and answers with [main]'s own result, and
    another run of the process answers the same.  A signal that arrives in between
    decides the answer instead: the error its handler gives, or [Ok(0)] if it gives none,
    and no answer at all for [SIGKILL].  If the caller holds the table, as the scheduler
    does, the run never returns and the process is never taken out; and if the state is
    set back to [Runnable] first, as the scheduler also does, [main] is called again. *)
Theorem process_lifecycle l p t r :
  p_state p = Runnable → p_exit_status p = None → main_call p = Ret r →
  (∀ e, r = inl e → - 2 ^ 31 <= e < 2 ^ 31) →
  ∃ p1, run l p t = Ret (inr 0, p1, t) ∧ p_state p1 = Exited (exit_code r) ∧
    (p_signal_received p = Success →
       let answer := match r with inl e => if e =? 0 then inr 0 else inl e | inr _ => inr 0 end in
       ∃ p2, run LFree p1 t = Ret (answer, p2, delete (p_pid p) t) ∧
             run LFree p2 (delete (p_pid p) t) = Ret (answer, p2, delete (p_pid p) t)) ∧
    (∀ sig, sig ≠ Success → sig ≠ SIGKILL →
       ∃ q p2, handle sig (exit_record (kill p1 sig) (exit_code r)) = Ret (q, p2) ∧
         run LFree (kill p1 sig) t =
           Ret (match q with inl e => inl e | inr _ => inr 0 end, p2, delete (p_pid p) t)) ∧
    run LFree (kill p1 SIGKILL) t = Hang ∧
    (∀ sig l', l' ≠ LFree → run l' (kill p1 sig) t = Hang) ∧
    (∀ l', run l' (process_unblock p1) t = Ret (inr 0, p1, t)).
Proof.
  intros Hs Hx Hm He. set (p1 := set_state p (Exited (exit_code r))). exists p1.
  rewrite (run_runnable l p t Hs), Hm. split_and!; [done..| | | | |].
  - intros Hsig answer.
    assert ((if exit_code r =? 0 then inr 0 else inl (swrap 32 (exit_code r))) = answer) as Hans.
    { unfold answer, exit_code. destruct r as [e|]; [|done]. by destruct (errno_through_status e (He e eq_refl)) as [-> ->]. }
    exists (exit_record p1 (exit_code r)). split.
    + rewrite (proj1 (run_exited p1 t (exit_code r) eq_refl) Hsig). cbn [p1 p_exit_status set_state]. rewrite Hx.
      cbn [default]. cbv zeta. by rewrite Hans.
    + rewrite (proj1 (run_exited (exit_record p1 (exit_code r)) _ (exit_code r) eq_refl) Hsig).
      assert (default (exit_code r) (p_exit_status (exit_record p1 (exit_code r))) = exit_code r) as ->
        by (cbn; by rewrite Hx).
      cbv zeta. rewrite Hans. change (p_pid (exit_record p1 (exit_code r))) with (p_pid p). by rewrite delete_delete_eq.
  - intros sig Hsig Hkill. destruct (run_exited (kill p1 sig) t _ eq_refl)
      as (_ & -> & _); [|done]. cbn [p_signal_received kill].
    destruct (handle_returns sig (exit_record (kill p1 sig) (exit_code r)) Hkill)
      as (q & p2 & E). exists q, p2. rewrite E. done.
  - by destruct (run_exited (kill p1 SIGKILL) t _ eq_refl) as (_ & -> & _).
  - intros sig l' Hl. by apply (run_exited (kill p1 sig) t _ eq_refl).
  - intros l'. rewrite (run_runnable l' (process_unblock p1) t eq_refl).
    change (main_call (process_unblock p1)) with (main_call p). by rewrite Hm.
Qed.

End RunTheory.

(** ** Concrete runs *)

Definition example_process (s : State) (main : MainLoop) : Process :=
  MkProcess s 0 0 0 0 0 Success false false None None false main.

(** A process that fails with error 5: its own table entry goes with the second run, and a
    segmentation fault in between would be reported as [EFAULT]. *)
Lemma process_lifecycle_witness :
  let p := example_process Runnable (WithResult (Ret (inl 5))) in
  ∃ p1 p2 p3, run LRead p {[0 := p]} = Ret (inr 0, p1, {[0 := p]}) ∧
    run LFree p1 {[0 := p]} = Ret (inl 5, p2, ∅) ∧
    run LFree (kill p1 SIGSEGV) {[0 := p]} = Ret (inl EFAULT, p3, ∅) ∧
    run LRead p1 {[0 := p]} = Hang.
Proof.
  intros p. destruct (process_lifecycle LRead p {[0 := p]} (inl 5) eq_refl eq_refl eq_refl)
    as (p1 & E1 & _ & Hok & Hsig & _ & Hheld & _); [intros e [= <-]; lia|].
  destruct (Hok eq_refl) as (p2 & E2 & _). destruct (Hsig SIGSEGV) as (q & p3 & Hq & E3); [done..|].
  exists p1, p2, p3. split_and!; [exact E1| | |].
  - rewrite E2. reflexivity.
  - rewrite E3. cbn in Hq. simplify_eq. reflexivity.
  - assert (kill p1 Success = p1) as <- by (cbn in E1; by simplify_eq). by apply Hheld.
Defined.
