(* ===== verification/Interrupts.v ===== *)
(** * The interrupt descriptor table, src/arch/x86_64/interrupts.rs

    [IDT] is a lazily built table behind a lock; [init] loads a clone of it that is
    itself made lazily, once.  The model keeps the table, the clone and the table
    the CPU has loaded apart.  [InterruptDescriptorTable] comes from the [x86_64]
    crate: [IdtIndexing] says which vectors its [Index] impl accepts. *)

From S2P Require Import Prelude.

Local Open Scope Z_scope.

(** The handlers the kernel installs; [HOther n] is a driver's handler. *)
Inductive handler : Type :=
  | h_double_fault | h_page_fault | h_sigfpe | h_invalid_tss | h_sigbus | h_sigsegv
  | h_general_protection | h_breakpoint | h_bound_range_exceeded | h_invalid_op | h_navail
  | h_timer | h_lapic_err | h_spurious | h_pin_inta | h_pin_intb | h_pin_intc | h_pin_intd
  | h_syscall | h_task_sched | h_pci | h_ahci | HOther (n : Z).

#[export] Instance handler_eq_dec : EqDecision handler.
Proof. solve_decision. Defined.

(** A vector's handler and interrupt-stack index; a missing entry is absent. *)
Abbreviation Idt := (gmap Z (handler * option Z)).

(** [Index<usize> for InterruptDescriptorTable]. *)
Class IdtIndexing : Type := idt_index_ok : Z → bool.
Class IdtIndexingLaws `{IdtIndexing} : Prop := {
  idt_divide_error : idt_index_ok 0 = true;
  idt_interrupts i : 32 <= i <= 255 → idt_index_ok i = true;
  idt_too_big i : 255 < i → idt_index_ok i = false;
}.
(** Exceptions with an error code, the diverging ones and the reserved vectors
    are refused. *)
#[export] Instance idt_indexing_model : IdtIndexing | 100 := λ i,
  (0 <=? i) && (i <=? 255) &&
  negb (bool_decide (i ∈ [8; 10; 11; 12; 13; 14; 15; 17; 18; 21; 22; 23; 24; 25; 26; 27; 29; 30; 31])).
#[export] Instance idt_indexing_model_laws : @IdtIndexingLaws idt_indexing_model.
Proof.
  split; [done|..].
  - intros i Hi. unfold idt_index_ok, idt_indexing_model. rewrite bool_decide_eq_false_2.
    + z_cases; cbn; lia || done.
    + rewrite !elem_of_cons, elem_of_nil. lia.
  - intros i Hi. unfold idt_index_ok, idt_indexing_model. z_cases; cbn; lia || done.
Qed.

Definition DOUBLE_FAULT_STACK_INDEX : Z := 0.
Definition PAGE_FAULT_STACK_INDEX : Z := 1.
Definition INVALID_TSS_STACK_INDEX : Z := 2.
Definition DIV_ERR_STACK_INDEX : Z := 3.
Definition SIGBUS_STACK_INDEX : Z := 4.
Definition SIGSEGV_STACK_INDEX : Z := 5.
Definition GPF_STACK_INDEX : Z := 6.

Definition IrqTimer : Z := 0xfe.
Definition IrqLapicErr : Z := 0x31.
Definition IrqSpurious : Z := 0xff.

(** The pin interrupts' vectors, the lazily built table and its clone, and the
    table loaded into the CPU. *)
Record IntState : Type := MkIntState {
  INTA_IRQ : Z; INTB_IRQ : Z; INTC_IRQ : Z; INTD_IRQ : Z;
  idt : option Idt;
  idt_clone : option Idt;
  idt_loaded : option Idt;
}.

Section Idt.
Context `{IdtIndexing}.

(** [idt[i].set_handler_fn(h)]: the entry keeps its stack index. *)
Definition idt_set (t : Idt) (i : Z) (h : handler) : outcome Idt :=
  if idt_index_ok i then
    Ret (<[i := (h, match t !! i with Some (_, st) => st | None => None end)]> t)
  else Panic PBounds.

(** The exception fields, by their vector. *)
Definition idt_exceptions : Idt :=
  <[8 := (h_double_fault, Some DOUBLE_FAULT_STACK_INDEX)]>
  (<[14 := (h_page_fault, Some PAGE_FAULT_STACK_INDEX)]>
  (<[0 := (h_sigfpe, Some DIV_ERR_STACK_INDEX)]>
  (<[10 := (h_invalid_tss, Some INVALID_TSS_STACK_INDEX)]>
  (<[11 := (h_sigbus, Some SIGBUS_STACK_INDEX)]>
  (<[12 := (h_sigsegv, Some SIGSEGV_STACK_INDEX)]>
  (<[13 := (h_general_protection, Some GPF_STACK_INDEX)]>
  (<[3 := (h_breakpoint, None)]>
  (<[5 := (h_bound_range_exceeded, None)]>
  (<[6 := (h_invalid_op, None)]>
  (<[7 := (h_navail, None)]> ∅)))))))))).

Definition idt_new (s : IntState) : outcome Idt :=
  t ← idt_set idt_exceptions IrqTimer h_timer;
  t ← idt_set t IrqLapicErr h_lapic_err;
  t ← idt_set t IrqSpurious h_spurious;
  t ← idt_set t (INTA_IRQ s) h_pin_inta;
  t ← idt_set t (INTB_IRQ s) h_pin_intb;
  t ← idt_set t (INTC_IRQ s) h_pin_intc;
  t ← idt_set t (INTD_IRQ s) h_pin_intd;
  t ← idt_set t 0x80 h_syscall;
  t ← idt_set t 132 h_task_sched;
  t ← idt_set t 139 h_pci;
  t ← idt_set t 0x82 h_spurious;
  idt_set t 151 h_ahci.

Definition with_idt (s : IntState) (t : Idt) : IntState :=
  MkIntState (INTA_IRQ s) (INTB_IRQ s) (INTC_IRQ s) (INTD_IRQ s) (Some t) (idt_clone s) (idt_loaded s).

(** Dereferencing the lazy static. *)
Definition idt_deref (s : IntState) : outcome (Idt * IntState) :=
  match idt s with
  | Some t => Ret (t, s)
  | None => t ← idt_new s; Ret (t, with_idt s t)
  end.

(** [interrupts::init]: [IDT_CLONE] is made on the first call only. *)
Definition interrupts_init (s : IntState) : outcome IntState :=
  '(c, s) ← (match idt_clone s with
             | Some c => Ret (c, s)
             | None => idt_deref s
             end);
  Ret (MkIntState (INTA_IRQ s) (INTB_IRQ s) (INTC_IRQ s) (INTD_IRQ s) (idt s) (Some c) (Some c)).

(** [for i in 32..=255 { if IDT.read()[i] == Entry::missing() { return i } }]. *)
Fixpoint irqalloc_from (t : Idt) (vs : list Z) : outcome Z :=
  match vs with
  | [] => Panic (PMsg "Out of IRQs!")
  | i :: vs =>
      if idt_index_ok i then
        match t !! i with None => Ret i | Some _ => irqalloc_from t vs end
      else Panic PBounds
  end.
Definition irqalloc_range : list Z := (λ k : nat, 32 + Z.of_nat k) <$> seq 0 224.

Definition irqalloc (s : IntState) : outcome (Z * IntState) :=
  '(t, s) ← idt_deref s;
  i ← irqalloc_from t irqalloc_range;
  Ret (i, s).

Definition register_handler (irq : Z) (h : handler) (s : IntState) : outcome IntState :=
  '(t, s) ← idt_deref s;
  t ← idt_set t irq h;
  interrupts_init (with_idt s t).

End Idt.

#[global] Arguments irqalloc_from {_} t vs : simpl never.
#[global] Arguments irqalloc_range : simpl never.

(** ** Properties *)

Section IdtTheory.
Context `{IdtIndexingLaws}.

Lemma irqalloc_from_spec t vs :
  Forall (λ i, 32 <= i <= 255) vs →
  (∃ pre i post, vs = pre ++ i :: post ∧ Forall (λ j, t !! j ≠ None) pre ∧ t !! i = None ∧
     irqalloc_from t vs = Ret i) ∨
  (Forall (λ j, t !! j ≠ None) vs ∧ irqalloc_from t vs = Panic (PMsg "Out of IRQs!")).
Proof.
  induction 1 as [|i vs Hi _ IH]; [right; by split|].
  change (irqalloc_from t (i :: vs)) with
    (if idt_index_ok i then match t !! i with None => Ret i | Some _ => irqalloc_from t vs end
     else Panic PBounds).
  rewrite idt_interrupts by done. destruct (t !! i) as [e|] eqn:Ei.
  - destruct IH as [(pre & j & post & -> & Hpre & Hj & ->)|[Hall ->]].
    + left. exists (i :: pre), j, post. split_and!; [done| |done|done].
      constructor; [by rewrite Ei|done].
    + right. split; [|done]. constructor; [by rewrite Ei|done].
  - left. by exists [], i, vs.
Qed.

Lemma irqalloc_range_bounds : Forall (λ i, 32 <= i <= 255) irqalloc_range.
Proof.
  apply Forall_forall. intros i. unfold irqalloc_range. rewrite list_elem_of_fmap.
  intros (k & -> & Hk). apply list_elem_of_In, in_seq in Hk. lia.
Qed.

Lemma irqalloc_range_lookup (k : nat) : (k < 224)%nat → irqalloc_range !! k = Some (32 + Z.of_nat k).
Proof.
  intros. unfold irqalloc_range. rewrite list_lookup_fmap, lookup_seq_lt by done. done.
Qed.

(** The vector [irqalloc] answers is the least free one. *)
Lemma irqalloc_least (t : Idt) pre i post j :
  irqalloc_range = pre ++ i :: post → Forall (λ j, t !! j ≠ None) pre → 32 <= j < i → t !! j ≠ None.
Proof.
  intros E Hpre Hj. rewrite Forall_lookup in Hpre. apply (Hpre (Z.to_nat (j - 32))).
  assert (irqalloc_range !! length pre = Some i) as Ei by (by rewrite E, list_lookup_middle).
  assert (length pre < 224)%nat as Hlen.
  { apply lookup_lt_Some in Ei. unfold irqalloc_range in Ei. by rewrite length_fmap, length_seq in Ei. }
  rewrite irqalloc_range_lookup in Ei by done. injection Ei as Ei.
  rewrite <- (lookup_app_l pre (i :: post)) by lia. rewrite <- E.
  rewrite irqalloc_range_lookup by lia. f_equal. lia.
Qed.

(** C13: [irqalloc] on a built table answers the least vector from 32 to 255 that
    has no handler, panics exactly when there is none, and registering a handler
    at the vector it answered makes the next call answer a larger one. *)
Theorem irqalloc_correct s t :
  idt s = Some t →
  (∃ i, irqalloc s = Ret (i, s) ∧ 32 <= i <= 255 ∧ t !! i = None ∧
     (∀ j, 32 <= j < i → t !! j ≠ None) ∧
     ∀ h, ∃ s', register_handler i h s = Ret s' ∧
       idt s' = Some (<[i := (h, None)]> t) ∧
       (∀ i' s'', irqalloc s' = Ret (i', s'') → i < i')) ∨
  ((∀ j, 32 <= j <= 255 → t !! j ≠ None) ∧ irqalloc s = Panic (PMsg "Out of IRQs!")).
Proof.
  intros Et. unfold irqalloc, idt_deref. rewrite Et. cbn.
  destruct (irqalloc_from_spec t irqalloc_range irqalloc_range_bounds)
    as [(pre & i & post & E & Hpre & Hi & ->)|[Hall ->]].
  - left. exists i. assert (32 <= i <= 255) as Hr.
    { pose proof irqalloc_range_bounds as HF. rewrite E in HF.
      apply Forall_app in HF as [_ HF]. by apply Forall_cons in HF as [? _]. }
    split_and!; [done|lia..|done|intros j Hj; by eapply irqalloc_least|].
    intros h. unfold register_handler, idt_deref, idt_set. rewrite Et. cbn.
    rewrite idt_interrupts, Hi by lia. cbn. unfold interrupts_init, idt_deref.
    set (t' := <[i := _]> t).
    assert (∀ s', idt s' = Some t' → ∀ i' s'',
      irqalloc s' = Ret (i', s'') → i < i') as Hnext.
    { intros s' Es' i' s''. unfold irqalloc, idt_deref. rewrite Es'. cbn.
      destruct (irqalloc_from_spec t' irqalloc_range irqalloc_range_bounds)
        as [(pre' & k & post' & E' & Hpre' & Hk & ->)|[_ ->]]; [|done]. cbn. intros [= -> _].
      unfold t' in Hk. apply lookup_insert_None in Hk as [Hk ?].
      destruct (Z_lt_le_dec i i'); [done|]. exfalso.
      assert (32 <= i' <= 255) as Hr'.
      { pose proof irqalloc_range_bounds as HF. rewrite E' in HF.
        apply Forall_app in HF as [_ HF]. by apply Forall_cons in HF as [? _]. }
      by apply (irqalloc_least t pre i post i' E Hpre); [lia|]. }
    destruct (idt_clone s); cbn; eexists; (split; [done|]); (split; [done|]); by apply Hnext.
  - right. split; [|done]. intros j Hj. rewrite Forall_lookup in Hall.
    apply (Hall (Z.to_nat (j - 32))). rewrite irqalloc_range_lookup by lia. f_equal. lia.
Qed.

(** A handler registered after the first [init] never becomes active: the
    table the CPU uses stays the clone made by that first call, whatever is
    registered later. *)
Theorem registered_handler_not_loaded s0 s1 irq h s2 :
  interrupts_init s0 = Ret s1 → register_handler irq h s1 = Ret s2 →
  ∃ c t, idt_loaded s1 = Some c ∧ idt s2 = Some t ∧
    (fst <$> t !! irq = Some h) ∧ idt_loaded s2 = Some c.
Proof.
  unfold interrupts_init. intros E1 E2.
  destruct (match idt_clone s0 with Some c => Ret (c, s0) | None => idt_deref s0 end)
    as [[c s]| |]; cbn in E1; try done. injection E1 as <-.
  unfold register_handler in E2. destruct (idt_deref _) as [[t s']| |] eqn:Ed; cbn in E2; try done.
  unfold idt_set in E2. destruct (idt_index_ok irq); cbn in E2; [|done].
  assert (idt_clone s' = Some c) as Hc.
  { unfold idt_deref in Ed. cbn in Ed. destruct (idt s); [by injection Ed as <- <-|].
    destruct (idt_new _); cbn in Ed; [|done..]. by injection Ed as <- <-. }
  unfold interrupts_init in E2. cbn in E2. rewrite Hc in E2. cbn in E2. injection E2 as <-.
  exists c. eexists. split_and!; [done..| |done]. by rewrite lookup_insert_eq.
Qed.

Lemma idt_set_lookup t i h t' j :
  idt_set t i h = Ret t' →
  t' !! j = if decide (j = i) then Some (h, match t !! i with Some (_, st) => st | None => None end)
            else t !! j.
Proof.
  unfold idt_set. destruct (idt_index_ok i); [|done]. intros [= <-].
  case_decide as Hd; [by rewrite Hd, lookup_insert_eq|by rewrite lookup_insert_ne].
Qed.

(** While the pin vectors still have their initial value 0, the table routes the
    divide error (vector 0) to the handler of pin D. *)
Lemma idt_new_divide_error s t :
  INTA_IRQ s = 0 → INTB_IRQ s = 0 → INTC_IRQ s = 0 → INTD_IRQ s = 0 →
  idt_new s = Ret t → t !! 0 = Some (h_pin_intd, Some DIV_ERR_STACK_INDEX).
Proof.
  intros Ea Eb Ec Ed. unfold idt_new. rewrite Ea, Eb, Ec, Ed.
  repeat match goal with
  | |- mbind _ ?m = _ → _ =>
      let t := fresh "t" in let E := fresh "E" in
      destruct m as [t| |] eqn:E; cbn [mbind outcome_bind]; [|done|done];
      apply (fun E => idt_set_lookup _ _ _ _ 0 E) in E
  end.
  intros E'. apply (fun E => idt_set_lookup _ _ _ _ 0 E) in E'.
  repeat match goal with
  | E : _ !! 0 = (if decide (0 = ?n) then _ else _) |- _ =>
      first [rewrite (decide_False (P := 0 = n)) in E by done
            |rewrite (decide_True (P := 0 = n)) in E by done]
  end.
  assert (idt_exceptions !! 0 = Some (h_sigfpe, Some DIV_ERR_STACK_INDEX)) as Ex by reflexivity.
  repeat match goal with
  | E1 : ?t !! 0 = Some _, E2 : context [?t !! 0] |- _ => rewrite E1 in E2; clear E1
  end.
  done.
Qed.

End IdtTheory.

(** ** Concrete runs *)

Definition int_state_example : IntState := MkIntState 0 0 0 0 (Some ∅) None None.

Lemma irqalloc_witness : irqalloc int_state_example = Ret (32, int_state_example).
Proof.
  destruct (irqalloc_correct int_state_example ∅ eq_refl) as [(i & E & _)|[Hall _]].
  - rewrite E. vm_compute in E. congruence.
  - exfalso. by apply (Hall 32); [lia|].
Defined.

Definition int_state_loaded (t : Idt) : IntState := MkIntState 0 0 0 0 (Some t) (Some ∅) (Some ∅).

Lemma registered_handler_witness :
  interrupts_init int_state_example = Ret (int_state_loaded ∅) ∧
  register_handler 32 (HOther 1) (int_state_loaded ∅)
    = Ret (int_state_loaded (<[32 := (HOther 1, None)]> ∅)) ∧
  idt_loaded (int_state_loaded (<[32 := (HOther 1, None)]> ∅)) = Some ∅.
Proof.
  assert (interrupts_init int_state_example = Ret (int_state_loaded ∅)) as E1 by reflexivity.
  assert (register_handler 32 (HOther 1) (int_state_loaded ∅)
    = Ret (int_state_loaded (<[32 := (HOther 1, None)]> ∅))) as E2 by reflexivity.
  split_and!; [exact E1|exact E2|].
  destruct (registered_handler_not_loaded _ _ _ _ _ E1 E2) as (c & t & Ec & _ & _ & ->).
  symmetry. exact Ec.
Defined.
