(* ===== verification/Scheduler.v ===== *)
(** * The scheduler and the exception handlers, src/arch/x86_64/interrupts.rs

    [task_sched] is the inter-processor interrupt that runs the next process and
    passes itself on to the next core.  The exception handlers panic in ring 0 and
    signal the current process otherwise.  The table and every process in it are behind a
    read-write lock; the state says how code that is under way, interrupted or on another
    core, holds them.  [lapic_ids] stands for what [get_lapic_ids] reads from the CPU. *)

From S2P Require Import Prelude Paging Frames Memory Signals Process.

Local Open Scope Z_scope.

Record SchedState : Type := MkSched {
  ss_ptable : Ptable;
  ss_idx : Z;               (* PTABLE_IDX *)
  ss_lapic : Z;             (* ACTIVE_LAPIC_ID *)
  ss_ticks : Z;             (* TICK_COUNT *)
  ss_ipis : list (Z * Z);   (* the (vector, core) pairs sent so far *)
  ss_eois : Z;              (* end-of-interrupt signals sent so far *)
  ss_plock : lock_state;    (* how others hold [PTABLE] *)
  ss_held : gset Z;         (* the processes others hold for writing *)
}.

Definition with_ptable (s : SchedState) (t : Ptable) : SchedState :=
  MkSched t (ss_idx s) (ss_lapic s) (ss_ticks s) (ss_ipis s) (ss_eois s) (ss_plock s) (ss_held s).
Definition with_idx (s : SchedState) (i : Z) : SchedState :=
  MkSched (ss_ptable s) i (ss_lapic s) (ss_ticks s) (ss_ipis s) (ss_eois s) (ss_plock s) (ss_held s).
Definition with_lapic (s : SchedState) (id : Z) : SchedState :=
  MkSched (ss_ptable s) (ss_idx s) id (ss_ticks s) (ss_ipis s) (ss_eois s) (ss_plock s) (ss_held s).
Definition send_ipi (s : SchedState) (vector id : Z) : SchedState :=
  MkSched (ss_ptable s) (ss_idx s) (ss_lapic s) (ss_ticks s) (ss_ipis s ++ [(vector, id)]) (ss_eois s)
    (ss_plock s) (ss_held s).
Definition end_of_interrupt (s : SchedState) : SchedState :=
  MkSched (ss_ptable s) (ss_idx s) (ss_lapic s) (ss_ticks s) (ss_ipis s) (ss_eois s + 1) (ss_plock s) (ss_held s).

(** [(PTABLE.read())[&k].write()]: the process behind its guard, which is never got while
    others hold it. *)
Definition process_write (s : SchedState) (k : Z) : outcome Process :=
  _ ← lock_read (ss_plock s);
  p ← match ss_ptable s !! k with Some p => Ret p | None => Panic PBounds end;
  if decide (k ∈ ss_held s) then Hang else Ret p.

Definition process_store (s : SchedState) (k : Z) (p : Process) : SchedState :=
  with_ptable s (<[k := p]> (ss_ptable s)).

Definition ptable_set_state (s : SchedState) (k : Z) (st : State) : outcome SchedState :=
  p ← process_write s k; Ret (process_store s k (set_state p st)).

(** While a process runs, the statement that runs it holds the table for reading and the
    process for writing. *)
Definition running (s : SchedState) (k : Z) : SchedState :=
  MkSched (ss_ptable s) (ss_idx s) (ss_lapic s) (ss_ticks s) (ss_ipis s) (ss_eois s) LRead ({[k]} ∪ ss_held s).

Section Scheduling.
Context `{SignalAbi}.

(** [(PTABLE.read())[&k].write().run().unwrap()]: the read guard lives until the
    end of the statement. *)
Definition ptable_run (s : SchedState) (k : Z) : outcome SchedState :=
  p ← process_write s k;
  '(r, p, t) ← run (ss_plock (running s k)) p (ss_ptable s);
  match r with
  | inr _ => Ret (process_store (with_ptable s t) k p)
  | inl _ => Panic PUnwrap
  end.

(** The part of [task_sched] over the process table. *)
Definition sched_processes (s : SchedState) : outcome SchedState :=
  _ ← lock_read (ss_plock s);
  if Z.of_nat (size (ss_ptable s)) =? 0 then Ret s
  else
    s ← (if Z.of_nat (size (ss_ptable s)) =? 1 then
           s ← ptable_set_state s (ss_idx s) Runnable;
           ptable_run s (ss_idx s)
         else
           prev ← usub (ss_idx s) 1;
           s ← ptable_set_state s prev Blocked;
           s ← ptable_set_state s (ss_idx s) Runnable;
           ptable_run s (ss_idx s));
    Ret (if ss_idx s <? Z.of_nat (size (ss_ptable s)) then with_idx s (wrap 64 (ss_idx s + 1))
         else with_idx s 0).

(** [ids.cycle().nth(n)]. *)
Definition cycle_nth (ids : list Z) (n : nat) : option Z := ids !! (n mod length ids)%nat.

(** The position of the first element equal to [x]. *)
Fixpoint position (x : Z) (ids : list Z) : option nat :=
  match ids with
  | [] => None
  | y :: ids => if y =? x then Some 0%nat else S <$> position x ids
  end.

(** The part that passes the interrupt on.  On an endless [cycle], [any] does not
    return when no core has the active id. *)
Definition sched_next_core (lapic_ids : list Z) (s : SchedState) : outcome SchedState :=
  if ss_lapic s =? 0 then
    id ← unwrap (head lapic_ids);
    let s := with_lapic s id in
    dest ← unwrap (cycle_nth lapic_ids 1);
    Ret (send_ipi s 100 dest)
  else
    match lapic_ids with
    | [] => Panic PAssert
    | _ =>
        match position (ss_lapic s) lapic_ids with
        | None => Hang
        | Some i =>
            id ← unwrap (cycle_nth lapic_ids (S i));
            let s := with_lapic s id in
            Ret (send_ipi s 100 (ss_lapic s))
        end
    end.

Definition task_sched (lapic_ids : list Z) (s : SchedState) : outcome SchedState :=
  s ← sched_processes s;
  s ← sched_next_core lapic_ids s;
  Ret (end_of_interrupt s).

End Scheduling.

(** ** Exception and interrupt handlers *)

(** [SegmentSelector::rpl]: the low two bits of the selector. *)
Definition is_ring0 (code_segment : Z) : bool := Z.land (wrap 16 code_segment) 3 =? 0.

(** [PTABLE.read()[&PTABLE_IDX].write().kill(signal)]. *)
Definition kill_current (signal : Signal) (s : SchedState) : outcome SchedState :=
  p ← process_write s (ss_idx s);
  Ret (process_store s (ss_idx s) (kill p signal)).

Definition bound_range_exceeded (cs : Z) (s : SchedState) : outcome SchedState :=
  if is_ring0 cs then Panic (PMsg "Bound range exceeded") else kill_current SIGFPE s.
Definition invalid_op (cs : Z) (s : SchedState) : outcome SchedState :=
  if is_ring0 cs then Panic (PMsg "Invalid opcode") else kill_current SIGILL s.
Definition navail (cs : Z) (s : SchedState) : outcome SchedState :=
  if is_ring0 cs then Panic (PMsg "Device not available") else kill_current SIGSYS s.
Definition sigfpe (cs : Z) (s : SchedState) : outcome SchedState :=
  if is_ring0 cs then Panic (PMsg "Attempt to divide by zero") else kill_current SIGFPE s.
Definition sigbus (cs : Z) (code : Z) (s : SchedState) : outcome SchedState :=
  if is_ring0 cs then Panic (PMsg "Segment selector is not present") else kill_current SIGBUS s.
Definition sigsegv (cs : Z) (code : Z) (s : SchedState) : outcome SchedState :=
  if is_ring0 cs then
    if code =? 0 then Panic (PMsg "Stack segment fault of unknown cause")
    else Panic (PMsg "Segment selector caused a stack segment fault")
  else kill_current SIGSEGV s.
Definition general_protection (cs : Z) (code : Z) (s : SchedState) : outcome SchedState :=
  if is_ring0 cs then
    if code =? 0 then Panic (PMsg "General protection fault of unknown cause")
    else Panic (PMsg "Segment selector caused a general protection fault")
  else kill_current SIGABRT s.
(** [breakpoint]: the loop reads the byte at its own instruction pointer, turn by turn
    ([code i] is that byte in turn [i]), and leaves when it is not [int3]. *)
Fixpoint breakpoint (code : nat → Z) (turn fuel : nat) : outcome unit :=
  match fuel with
  | O => Hang
  | S fuel => if negb (code turn =? 0xcc) then Ret tt else breakpoint code (S turn) fuel
  end.

(** [invalid_tss] only logs. *)
Definition invalid_tss (s : SchedState) : SchedState := s.

Definition double_fault (s : SchedState) : outcome SchedState := Panic (PMsg "Double fault").

Definition timer (s : SchedState) : SchedState :=
  end_of_interrupt (MkSched (ss_ptable s) (ss_idx s) (ss_lapic s) (wrap 64 (ss_ticks s + 1))
    (ss_ipis s) (ss_eois s) (ss_plock s) (ss_held s)).
Definition spurious (s : SchedState) : SchedState := end_of_interrupt s.
Definition lapic_err (s : SchedState) : SchedState := end_of_interrupt s.
Definition pin_int (s : SchedState) : SchedState := end_of_interrupt s.
Definition pci_interrupt (s : SchedState) : SchedState := end_of_interrupt s.
Definition syscall_interrupt (s : SchedState) : outcome SchedState := Panic PAssert.

(** The page-fault handler: [code] is the error code, [cr2] the faulting address,
    [kernel_cs] the selector in [CS].  An empty code is a kernel read of an absent
    page, which is mapped to the frame with the same address. *)
Definition page_fault `{X86Paging} `{PageMapper} (code cr2 kernel_cs : Z) (k : KMem)
    (s : SchedState) : outcome (KMem * SchedState) :=
  if code =? 0 then
    k ← map_page k cr2 cr2 kernel_flags;
    Ret (k, s)
  else if is_ring0 kernel_cs then Panic (PMsg "Page fault")
  else s ← kill_current SIGSEGV s; Ret (k, s).

(** ** Properties *)

Section SchedTheory.
Context `{SignalAbi}.

(** A process that nobody holds. *)
Definition free_process (s : SchedState) (k : Z) (p : Process) : Prop :=
  ss_plock s ≠ LWrite ∧ ss_ptable s !! k = Some p ∧ k ∉ ss_held s.

Lemma lock_read_free l : l ≠ LWrite → lock_read l = Ret tt.
Proof. by destruct l. Qed.

Lemma process_write_free s k p : free_process s k p → process_write s k = Ret p.
Proof.
  intros (Hl & Hp & Hk). unfold process_write. rewrite (lock_read_free _ Hl), Hp. cbn. by rewrite decide_False.
Qed.
Lemma process_write_held s k :
  ss_plock s ≠ LWrite → is_Some (ss_ptable s !! k) → k ∈ ss_held s → process_write s k = Hang.
Proof.
  intros Hl [p Hp] Hk. unfold process_write. rewrite (lock_read_free _ Hl), Hp. cbn. by rewrite decide_True.
Qed.

Lemma set_state_free s k p st : free_process s k p → ptable_set_state s k st = Ret (process_store s k (set_state p st)).
Proof. intros Hp. unfold ptable_set_state. by rewrite (process_write_free s k p Hp). Qed.

Lemma free_process_store s k p j q :
  free_process s k p → free_process (process_store s j q) k (if decide (j = k) then q else p).
Proof.
  intros (Hl & Hp & Hk). split_and!; [done| |done]. cbn. rewrite lookup_insert. by case_decide.
Qed.

(** Making a process runnable and running it is calling its [main]. *)
Lemma resume_process s p :
  free_process s (ss_idx s) p →
  (s ← ptable_set_state s (ss_idx s) Runnable; ptable_run s (ss_idx s)) =
  r ← main_call p; Ret (process_store s (ss_idx s) (set_state p (Exited (exit_code r)))).
Proof.
  intros Hp. rewrite (set_state_free s (ss_idx s) p Runnable Hp). cbn [mbind outcome_bind]. unfold ptable_run.
  cbn [ss_idx process_store with_ptable]. set (k := ss_idx s) in *.
  rewrite (process_write_free _ k (set_state p Runnable)); cycle 1.
  { pose proof (free_process_store s k p k (set_state p Runnable) Hp) as Hf. by rewrite decide_True in Hf. }
  cbn [mbind outcome_bind]. rewrite run_runnable by done.
  change (main_call (set_state p Runnable)) with (main_call p).
  destruct (main_call p) as [r| |]; cbn [mbind outcome_bind]; [|done..].
  unfold process_store. cbn. by rewrite insert_insert_eq.
Qed.

(** The scheduler gets as far as running the current process: it is alone, or the one before
    it can be blocked. *)
Definition can_resume (s : SchedState) (p : Process) : Prop :=
  free_process s (ss_idx s) p ∧
  (size (ss_ptable s) = 1%nat ∨
   (2 <= size (ss_ptable s))%nat ∧ 1 <= ss_idx s ∧ ∃ q, free_process s (ss_idx s - 1) q).

Lemma task_sched_as_main ids s p :
  can_resume s p →
  (main_call p = Hang → task_sched ids s = Hang) ∧ (∀ i, main_call p = Panic i → task_sched ids s = Panic i).
Proof.
  intros [Hp Hs]. unfold task_sched, sched_processes. pose proof Hp as (Hl & _ & _).
  rewrite (lock_read_free _ Hl). cbn [mbind outcome_bind].
  destruct Hs as [->|(Hs & Hi & q & Hq)].
  - change (Z.of_nat 1 =? 0) with false. change (Z.of_nat 1 =? 1) with true. cbv iota.
    rewrite (resume_process s p Hp). split; [intros ->|intros i ->]; done.
  - rewrite (proj2 (Z.eqb_neq _ 0)), (proj2 (Z.eqb_neq _ 1)) by lia. rewrite usub_ret by lia.
    cbn [mbind outcome_bind]. rewrite (set_state_free s _ q Blocked Hq). cbn [mbind outcome_bind].
    pose proof (free_process_store s (ss_idx s) p (ss_idx s - 1) (set_state q Blocked) Hp) as Hf.
    rewrite decide_False in Hf by lia.
    rewrite (resume_process (process_store s (ss_idx s - 1) (set_state q Blocked)) p Hf).
    split; [intros ->|intros i ->]; done.
Qed.

(** The interrupt finds a core to go to. *)
Definition cores_ok (ids : list Z) (s : SchedState) : Prop := ids ≠ [] ∧ (ss_lapic s = 0 ∨ ss_lapic s ∈ ids).

Lemma position_elem x ids : x ∈ ids → ∃ i, position x ids = Some i.
Proof.
  induction 1 as [x ids|x y ids _ [i IH]]; cbn; [rewrite Z.eqb_refl; eauto|].
  rewrite IH. destruct (y =? x); cbn; eauto.
Qed.

Lemma cycle_nth_some ids n : ids ≠ [] → ∃ x, cycle_nth ids n = Some x.
Proof.
  intros Hne. unfold cycle_nth. apply lookup_lt_is_Some_2, Nat.mod_upper_bound. by destruct ids.
Qed.

Lemma sched_next_core_ret ids s :
  cores_ok ids s → ∃ id dest, sched_next_core ids s = Ret (send_ipi (with_lapic s id) 100 dest).
Proof.
  intros [Hne Hc]. unfold sched_next_core. destruct (Z.eqb_spec (ss_lapic s) 0) as [E|E].
  - destruct (cycle_nth_some ids 1 Hne) as [d ->]. destruct ids as [|i ids]; [done|]. by exists i, d.
  - destruct Hc as [|Hc]; [done|]. destruct (position_elem _ _ Hc) as [i ->].
    destruct (cycle_nth_some ids (S i) Hne) as [d ->]. destruct ids; [done|]. by exists d, d.
Qed.

(** C39: started at index 0, the scheduler never gets beyond its second tick.  With two or
    more processes the first tick panics on the index of the process before the first.
    With one process, numbered 0, the first tick calls its [main]: if that panics or does
    not return, neither does the tick; if it returns, so does the tick, with the process
    [Exited], and the second tick panics looking for process number 1. *)
Theorem task_sched_panics ids s :
  ss_idx s = 0 → ss_plock s ≠ LWrite → ss_held s = ∅ →
  ((2 <= size (ss_ptable s))%nat → task_sched ids s = Panic POverflow) ∧
  ∀ p, ss_ptable s = {[0 := p]} →
    match main_call p with
    | Ret r => cores_ok ids s →
        ∃ s', task_sched ids s = Ret s' ∧ ss_ptable s' = {[0 := set_state p (Exited (exit_code r))]} ∧
          task_sched ids s' = Panic PBounds
    | Panic i => task_sched ids s = Panic i
    | Hang => task_sched ids s = Hang
    end.
Proof.
  intros Hidx Hl Hh. split.
  - intros Hs. unfold task_sched, sched_processes. rewrite (lock_read_free _ Hl). cbn [mbind outcome_bind].
    rewrite (proj2 (Z.eqb_neq _ 0)), (proj2 (Z.eqb_neq _ 1)) by lia. by rewrite Hidx.
  - intros p Ht.
    assert (free_process s (ss_idx s) p) as Hp by (split_and!; [done|by rewrite Ht, Hidx, lookup_singleton_eq|set_solver]).
    assert (can_resume s p) as Hr by (split; [done|left; by rewrite Ht, map_size_singleton]).
    destruct (task_sched_as_main ids s p Hr) as [Hhang Hpanic].
    destruct (main_call p) as [r|i|] eqn:Em; [|by apply Hpanic|by apply Hhang]. intros Hc.
    unfold task_sched at 1, sched_processes. rewrite (lock_read_free _ Hl), (resume_process s p Hp), Em, Ht, map_size_singleton.
    change (Z.of_nat 1 =? 0) with false. change (Z.of_nat 1 =? 1) with true. cbn [mbind outcome_bind].
    set (t := {[0 := set_state p (Exited (exit_code r))]}).
    assert (process_store s (ss_idx s) (set_state p (Exited (exit_code r))) = with_ptable s t) as ->
      by (unfold process_store; by rewrite Ht, Hidx, insert_singleton_eq).
    cbn [ss_idx ss_ptable with_ptable]. unfold t at 1. rewrite map_size_singleton, Hidx.
    change (0 <? Z.of_nat 1) with true. change (wrap 64 (0 + 1)) with 1. cbv iota.
    destruct (sched_next_core_ret ids (with_idx (with_ptable s t) 1)) as (id & dest & ->); [done|]. cbn [mbind outcome_bind].
    eexists. split_and!; [done..|]. unfold task_sched, sched_processes. cbn [ss_plock ss_ptable ss_idx end_of_interrupt
      send_ipi with_lapic with_idx with_ptable]. rewrite (lock_read_free _ Hl). unfold t at 1 2. rewrite map_size_singleton.
    change (Z.of_nat 1 =? 0) with false. change (Z.of_nat 1 =? 1) with true. cbn [mbind outcome_bind].
    unfold ptable_set_state, process_write. cbn. by rewrite (lock_read_free _ Hl).
Qed.

(** The exceptions a process can cause, with the signal it gets for each. *)
Definition exceptions (cs code : Z) : list ((SchedState → outcome SchedState) * Signal) :=
  [(bound_range_exceeded cs, SIGFPE); (invalid_op cs, SIGILL); (navail cs, SIGSYS); (sigfpe cs, SIGFPE);
   (sigbus cs code, SIGBUS); (sigsegv cs code, SIGSEGV); (general_protection cs code, SIGABRT)].

Lemma exceptions_kill cs code h sig s :
  (h, sig) ∈ exceptions cs code →
  (is_ring0 cs = true → ∃ m, h s = Panic (PMsg m)) ∧ (is_ring0 cs = false → h s = kill_current sig s).
Proof.
  unfold exceptions. rewrite !elem_of_cons, elem_of_nil. intros Hin.
  assert (∀ (b : bool) (m m' : string), ∃ x, (if b then Panic (PMsg m) else Panic (PMsg m')) =
    (Panic (PMsg x) : outcome SchedState)) as Hif by (intros []; eauto).
  destruct_or? Hin; simplify_eq;
    unfold bound_range_exceeded, invalid_op, navail, sigfpe, sigbus, sigsegv, general_protection;
    (split; intros ->; eauto).
Qed.

(** C34: an exception from user mode marks the current process with the handler's signal,
    if nobody holds that process, and changes nothing else: no other process, no counter,
    no interrupt sent or acknowledged.  But the process that causes the exception is
    being run, and what runs it holds its lock: the handler waits for that lock, so the
    handler and the scheduler's interrupt under it never return, and the signal is never
    delivered.  Without a current process the handler panics, and in ring 0, where [run]
    itself calls [main], always. *)
Theorem exceptions_signal_current cs code h sig s :
  (h, sig) ∈ exceptions cs code →
  (is_ring0 cs = true → ∃ m, h s = Panic (PMsg m)) ∧
  (is_ring0 cs = false → ss_plock s ≠ LWrite →
     (ss_ptable s !! ss_idx s = None → h s = Panic PBounds) ∧
     ∀ p, ss_ptable s !! ss_idx s = Some p →
       (ss_idx s ∉ ss_held s → h s = Ret (with_ptable s (<[ss_idx s := kill p sig]> (ss_ptable s)))) ∧
       h (running s (ss_idx s)) = Hang ∧
       ∀ ids s0 p0, can_resume s0 p0 →
         p_main p0 = WithoutResult (_ ← h (running s (ss_idx s)); Ret tt) → task_sched ids s0 = Hang).
Proof.
  intros Hin. split; [by apply (exceptions_kill cs code h sig s Hin)|]. intros Hu Hl.
  assert (∀ s, h s = kill_current sig s) as Hk by (intros s1; by apply (exceptions_kill cs code h sig s1 Hin)).
  split.
  - intros Hn. rewrite Hk. unfold kill_current, process_write. by rewrite (lock_read_free _ Hl), Hn.
  - intros p Hp. assert (h (running s (ss_idx s)) = Hang) as Hhang.
    { rewrite Hk. unfold kill_current. by rewrite process_write_held by (done || by eexists || set_solver). }
    split_and!; [|done|].
    + intros Hf. rewrite Hk. unfold kill_current. by rewrite (process_write_free s (ss_idx s) p).
    + intros ids s0 p0 Hr Hm. apply (task_sched_as_main ids s0 p0 Hr). unfold main_call. rewrite Hm, Hhang. done.
Qed.

End SchedTheory.

(** C32: a page fault with an empty error code maps the page that was touched to the frame of
    the same address, whoever uses that frame, without taking one from the allocator
    (only page tables do), and replaces no mapping; above the physical address space it
    panics instead, and it never returns if the interrupted code is inside [map_page!].
    A fault with any other code panics when the handler itself runs in ring 0, as it
    always does, whichever process caused it. *)
Theorem page_fault_cases `{X86PagingLaws} `{PageMapperLaws} code cr2 cs k s m fa :
  is_ring0 cs = true →
  (code ≠ 0 → page_fault code cr2 cs k s = Panic (PMsg "Page fault")) ∧
  (ready k m fa → frames_left fa 3 → 0 <= cr2 < 2 ^ 47 →
   ∃ m' fa', page_fault 0 cr2 cs k s = Ret (with_mem k m' fa', s) ∧ advanced 3 fa fa' ∧
     ∀ q, translate m' q = map_view m (page_containing cr2) (frame_containing cr2, kernel_flags) q) ∧
  (2 ^ 52 <= cr2 < 2 ^ 64 → ∃ i, page_fault 0 cr2 cs k s = Panic i) ∧
  (km_mapper k = Some m → km_mapper_locked k = true → 0 <= cr2 < 2 ^ 47 → page_fault 0 cr2 cs k s = Hang).
Proof.
  intros Hcs. split_and!.
  - intros Hc. unfold page_fault. by rewrite (proj2 (Z.eqb_neq code 0) Hc), Hcs.
  - intros Hk Hf Hcr. unfold page_fault. change (0 =? 0) with true. cbv iota.
    destruct (map_page_spec k m fa cr2 cr2 kernel_flags Hk) as (m' & fa' & -> & Ha & Hv);
      [lia|apply canonical_low; lia|done|].
    exists m', fa'. split_and!; [done..|]. intros q. apply Hv.
  - intros Hcr. unfold page_fault, map_page. change (0 =? 0) with true. cbv iota.
    destruct (phys_addr_new_bad cr2 Hcr) as [i ->]. by exists i.
  - intros Hm Hl Hcr. unfold page_fault, map_page, mapper_write. change (0 =? 0) with true. cbv iota.
    rewrite phys_addr_new_ok by lia. cbn [mbind outcome_bind].
    rewrite virt_addr_new_ok by (apply canonical_low; lia). cbn [mbind outcome_bind].
    rewrite Hm, Hl. done.
Qed.

(** ** Concrete runs *)

(** The breakpoint handler returns at the first turn that does not read [int3], so at
    once when its code is left alone, and never if every turn reads it. *)
Lemma breakpoint_returns code n t :
  (∀ i, (t <= i < t + n)%nat → code i = 0xcc) → code (t + n)%nat ≠ 0xcc → breakpoint code t (S n) = Ret tt.
Proof.
  revert t. induction n as [|n IH]; intros t Hc Hn; cbn [breakpoint].
  - rewrite Nat.add_0_r in Hn. by rewrite (proj2 (Z.eqb_neq _ _) Hn).
  - rewrite (Hc t) by lia. change (negb (0xcc =? 0xcc)) with false. cbn iota. apply IH; [intros; apply Hc; lia|].
    by replace (S t + n)%nat with (t + S n)%nat by lia.
Qed.

Lemma breakpoint_waits code fuel : (∀ i, code i = 0xcc) → ∀ t, breakpoint code t fuel = Hang.
Proof. intros Hc. induction fuel as [|fuel IH]; intros t; [done|]. cbn. rewrite Hc. apply IH. Qed.

(** With a single identifier in the list, however often it is repeated, the scheduler
    interrupt is only ever passed on to that core. *)
Lemma sched_next_core_own id ids s :
  Forall (eq id) ids → ids ≠ [] → ss_lapic s = 0 ∨ ss_lapic s = id →
  sched_next_core ids s = Ret (send_ipi (with_lapic s id) 100 id).
Proof.
  intros Hall Hne Hs. unfold sched_next_core.
  assert (∀ n, cycle_nth ids n = Some id) as Hcyc.
  { intros n. unfold cycle_nth. assert (n mod length ids < length ids)%nat as Hlt
      by (apply Nat.mod_upper_bound; by destruct ids).
    destruct (lookup_lt_is_Some_2 _ _ Hlt) as [x Hx]. rewrite Hx. f_equal. symmetry.
    by apply (proj1 (Forall_lookup _ _) Hall _ _ Hx). }
  destruct ids as [|i ids]; [done|]. apply Forall_cons_1 in Hall as [<- Hall].
  destruct (Z.eqb_spec (ss_lapic s) 0) as [E|E].
  - cbn [head unwrap mbind outcome_bind]. by rewrite Hcyc.
  - destruct Hs as [|Hs]; [done|]. cbn [position]. rewrite Hs, Z.eqb_refl, Hcyc. done.
Qed.

Definition sched_example : SchedState :=
  MkSched {[0 := example_process Blocked (WithoutResult (Ret tt))]} 0 0 0 [] 0 LFree ∅.
(** A process that divides by zero. *)
Definition sched_faulting : SchedState :=
  MkSched {[0 := example_process Blocked (WithoutResult (_ ← sigfpe 0x1b (running sched_example 0); Ret tt))]}
    0 0 0 [] 0 LFree ∅.

Lemma task_sched_witness :
  ∃ s', task_sched [1; 2] sched_example = Ret s' ∧ ss_ipis s' = [(100, 2)] ∧
    task_sched [1; 2] s' = Panic PBounds.
Proof.
  pose proof (proj2 (task_sched_panics [1; 2] sched_example eq_refl ltac:(done) eq_refl) _ eq_refl) as Hr.
  cbn [main_call p_main example_process mbind outcome_bind] in Hr.
  destruct Hr as (s' & E & _ & E2); [split; [done|by left]|]. exists s'. split_and!; [exact E| |exact E2].
  assert (ss_ipis <$> (match task_sched [1; 2] sched_example with Ret x => Some x | _ => None end) = Some [(100, 2)]) as Hi
    by reflexivity. rewrite E in Hi. by injection Hi.
Defined.

(** Marked from outside, the process has its signal; dividing by zero itself, it stops the
    scheduler. *)
Lemma exceptions_witness :
  (∃ s', sigfpe 0x1b sched_example = Ret s' ∧ p_signal_received <$> ss_ptable s' !! 0 = Some SIGFPE) ∧
  task_sched [1; 2] sched_faulting = Hang.
Proof.
  assert ((sigfpe 0x1b, SIGFPE) ∈ exceptions 0x1b 0) as Hin by (do 3 right; left).
  destruct (exceptions_signal_current 0x1b 0 (sigfpe 0x1b) SIGFPE sched_example Hin) as [_ Hu].
  destruct (Hu eq_refl ltac:(done)) as [_ Hp]. destruct (Hp _ eq_refl) as (Hf & _ & Hs). split.
  - eexists. split; [apply Hf; set_solver|reflexivity].
  - eapply Hs; [split; [split_and!; [done|reflexivity|set_solver]|left; reflexivity]|reflexivity].
Defined.

(** A kernel read at 16 MiB finds the allocator's first frame there, which nobody gave it. *)
Lemma page_fault_witness :
  ∃ m' fa', page_fault 0 0x1000000 8 kmem_example sched_example = Ret (with_mem kmem_example m' fa', sched_example) ∧
    translate m' 0x1000000 = Some (0x1000000, kernel_flags) ∧
    (allocate_frame (falloc_new big_map) ≫= λ x, Ret x.1) = Ret (Some 0x1000000).
Proof.
  destruct (page_fault_cases 0 0x1000000 8 kmem_example sched_example ∅ (falloc_new big_map) eq_refl) as (_ & Hp & _).
  destruct (Hp kmem_example_ready (big_map_left 3 ltac:(lia)) ltac:(lia)) as (m' & fa' & E & _ & Ht).
  exists m', fa'. split; [exact E|]. split; [|reflexivity]. rewrite Ht. by vm_compute.
Defined.
