(* ===== verification/Apic.v ===== *)
(** * Interrupt controllers, src/drivers/apic_impl.rs

    Switching off the legacy 8259 pair and setting up the local and I/O APICs.
    The controllers' register interfaces belong to the [x2apic] crate: the model
    records the port writes and the redirection-table entries the kernel asks
    for. *)

From S2P Require Import Prelude Paging Frames Memory.

Local Open Scope Z_scope.

Record ApicInfo : Type := MkApicInfo { local_apic_address : Z; io_apics : list Z }.
Inductive InterruptModel : Type := ModelApic (apic : ApicInfo) | ModelOther.

(** A redirection entry: interrupt, vector and destination, fixed delivery,
    level-triggered and low-active. *)
Record RedirEntry : Type := MkRedir { re_irq : Z; re_vector : Z; re_dest : Z }.

Record ApicState : Type := MkApic {
  APIC_IS_INITIALIZED : bool;
  ap_ports : list (Z * Z);                    (* port writes, in order *)
  ap_ioapics : list (Z * list RedirEntry);    (* per I/O APIC, by virtual address *)
  ap_interrupts : bool;                       (* interrupts are enabled *)
}.

(** The hardware's answers: the local APIC's id and whether
    [LocalApicBuilder::build] succeeds at a base address. *)
Class ApicEnv : Type := { lapic_build : Z → bool; lapic_id : Z }.

Definition pic_disable_ports : list (Z * Z) :=
  [(0x20, 0x11); (0xa0, 0x11); (0x80, 0);
   (0x21, 0xf8); (0xa1, 0xff); (0x80, 0);
   (0x21, 4); (0x80, 0);
   (0xa1, 2); (0x80, 0);
   (0x21, 1); (0xa1, 1); (0x80, 0);
   (0x21, 255); (0xa1, 255)].

(** [get_lapic_ids]: the [x2apic_id] of each topology level CPUID lists, or the id of the
    only core when it lists none. *)
Definition get_lapic_ids `{ApicEnv} (topology : option (list Z)) : list Z :=
  match topology with Some levels => levels | None => [lapic_id] end.

Section Apic.
Context `{X86Paging} `{PageMapper} `{ApicEnv}.

(** The loop over the I/O APICs. *)
Definition map_ioapics (off : Z) (addrs : list Z) (k : KMem) : outcome (list Z * KMem) :=
  foldO (λ '(vs, k) phys,
    virt ← uadd 64 phys off;
    k ← map_page k phys virt kernel_flags;
    Ret (vs ++ [virt], k)) addrs ([], k).

(** Returns the local APIC's and the I/O APICs' virtual addresses. *)
Definition build_all_available_apics (im : option InterruptModel) (s : ApicState) (k : KMem)
    : outcome (option (Z * list Z) * ApicState * KMem) :=
  let s := MkApic (APIC_IS_INITIALIZED s) (ap_ports s ++ pic_disable_ports) (ap_ioapics s)
             (ap_interrupts s) in
  im ← unwrap im;
  match im with
  | ModelApic apic =>
      off ← get_phys_offset k;
      lapic_virt ← uadd 64 (local_apic_address apic) off;
      k ← map_page k (local_apic_address apic) lapic_virt kernel_flags;
      if lapic_build lapic_virt then
        '(vs, k) ← map_ioapics off (io_apics apic) k;
        Ret (Some (lapic_virt, vs), s, k)
      else Panic (PMsg "Error building the local APIC")
  | ModelOther => Ret (None, s, k)
  end.

(** [ioapic_irq!(ioapic, i, lapic.id())]. *)
Definition ioapic_irq (i : Z) : RedirEntry := MkRedir i (wrap 8 i) (wrap 8 lapic_id).

Definition ioapic_entries : list RedirEntry := (λ k : nat, ioapic_irq (Z.of_nat k)) <$> seq 0 (255 - 32).

Definition init_all_available_apics (im : option InterruptModel) (s : ApicState) (k : KMem)
    : outcome (ApicState * KMem) :=
  '(r, s, k) ← build_all_available_apics im s k;
  '(_, ioapics) ← unwrap r;
  Ret (MkApic true (ap_ports s) (ap_ioapics s ++ ((λ v, (v, ioapic_entries)) <$> ioapics)) true, k).

End Apic.

(** The I/O APIC interrupt [i] is delivered on vector [i], so the first 32 of them
    arrive on the vectors of CPU exceptions. *)
Lemma ioapic_entries_vectors `{ApicEnv} i :
  0 <= i < 223 → ∃ e, ioapic_entries !! Z.to_nat i = Some e ∧ re_irq e = i ∧ re_vector e = i.
Proof.
  intros Hi. eexists. unfold ioapic_entries. rewrite list_lookup_fmap, lookup_seq_lt by lia.
  split; [done|]. cbn. rewrite Z2Nat.id by lia. split; [done|]. apply wrap_small. unfold is_uN. lia.
Qed.

(** CPUID's topology leaf describes the processor that executes it, level by level, and
    each level repeats that processor's own identifier; so [get_lapic_ids] lists no other
    processor, whatever the number of cores. *)
Lemma get_lapic_ids_own `{ApicEnv} topology :
  match topology with Some levels => Forall (eq lapic_id) levels | None => True end →
  Forall (eq lapic_id) (get_lapic_ids topology).
Proof. destruct topology; cbn; [done|]. intros _. by constructor. Qed.
