(* ===== verification/AcpiHandler.v ===== *)
(** * The ACPI handler, src/drivers/acpi_impl.rs

    Memory and configuration-space accesses on behalf of the [acpi] and [aml]
    crates, interrupt routing and the set-up of the AML interpreter.  An access
    maps a page first and then reads or writes at an address; the model returns
    that address together with the kernel state, so that the two can be
    compared. *)

From S2P Require Import Prelude Paging Frames Memory Interrupts Apic.

Local Open Scope Z_scope.

Section Handler.
Context `{X86Paging} `{PageMapper}.

(** [page_align(size, addr)]. *)
Definition page_align (size addr : Z) : outcome Z :=
  _ ← virt_addr_new addr;
  a ← usub size 1;
  b ← uadd 64 (a / page_size) 1;
  umul 64 b page_size.

(** [map_physical_region]: the mapping's physical start, virtual start, region
    length and mapped length. *)
Definition map_physical_region (physical_address size : Z) (k : KMem)
    : outcome ((Z * Z * Z * Z) * KMem) :=
  off ← get_phys_offset k;
  v ← uadd 64 physical_address off;
  v ← virt_addr_new v;
  let virtual_address := page_containing v in
  k ← map_page k physical_address virtual_address kernel_flags;
  p ← (if virtual_address =? 0 then Panic PUnwrap else Ret virtual_address);
  len ← page_align size virtual_address;
  Ret ((physical_address, p, size, len), k).

Definition unmap_physical_region (virtual_start : Z) (k : KMem) : outcome KMem :=
  v ← virt_addr_new virtual_start;
  unmap_page k (page_containing v).

(** The page mapped and the address accessed by [read_u8] .. [read_u64] and
    [write_u8] .. [write_u64], which only differ in the width of the access. *)
Definition acpi_access (address : Z) (k : KMem) : outcome (Z * KMem) :=
  v ← virt_addr_new address;
  let test_start := page_containing v in
  off ← get_phys_offset k;
  a ← uadd 64 test_start off;
  a ← uadd 64 a page_size;
  k ← map_page k address a kernel_flags;
  off ← get_phys_offset k;
  a ← uadd 64 address off;
  Ret (a, k).

(** Memory as bytes by virtual address; a read of [n] bytes is little-endian. *)
Definition mem_read (mem : Z → Z) (a : Z) (n : nat) : Z :=
  from_le_bytes ((λ k : nat, mem (a + Z.of_nat k)) <$> seq 0 n).
Definition mem_write (mem : Z → Z) (a : Z) (n : nat) (v : Z) : Z → Z := λ x,
  if (a <=? x) && (x <? a + Z.of_nat n) then default 0 (to_le_bytes n v !! Z.to_nat (x - a))
  else mem x.

(** [read_u8] is [acpi_read 1], and so on; likewise the writes. *)
Definition acpi_read (n : nat) (mem : Z → Z) (address : Z) (k : KMem) : outcome (Z * KMem) :=
  '(a, k) ← acpi_access address k;
  Ret (mem_read mem a n, k).
Definition acpi_write (n : nat) (mem : Z → Z) (address value : Z) (k : KMem)
    : outcome ((Z → Z) * KMem) :=
  '(a, k) ← acpi_access address k;
  Ret (mem_write mem a n value, k).

(** The address built from the bytes of segment, bus, device, function and offset. *)
Definition pci_rebuilt (segment bus device function offset : Z) : outcome Z :=
  let seg_bytes := to_be_bytes 2 segment in
  let offs_bytes := to_be_bytes 2 offset in
  s0 ← index seg_bytes 0; s1 ← index seg_bytes 1;
  o0 ← index offs_bytes 0; o1 ← index offs_bytes 1;
  Ret (from_be_bytes [0; s0; s1; bus; device; function; o0; o1]).

Definition acpi_read_pci (n : nat) (mem : Z → Z) (segment bus device function offset : Z) (k : KMem)
    : outcome (Z * KMem) :=
  rebuilt ← pci_rebuilt segment bus device function offset;
  '(a, k) ← acpi_access rebuilt k;
  Ret (mem_read mem a n, k).
Definition acpi_write_pci (n : nat) (mem : Z → Z) (segment bus device function offset value : Z)
    (k : KMem) : outcome ((Z → Z) * KMem) :=
  rebuilt ← pci_rebuilt segment bus device function offset;
  '(a, k) ← acpi_access rebuilt k;
  Ret (mem_write mem a n value, k).

Definition acpi_stall {A} : outcome A := Panic PAssert.
Definition acpi_sleep {A} : outcome A := Panic PAssert.

End Handler.

(** ** AML set-up and interrupt routing *)

(** What the [acpi] and [aml] crates answer: the DSDT, the interpreter's results
    and the routes of the PCI routing table. *)
Class AmlEnv : Type := {
  fadt_found : bool;
  dsdt_address : option Z;
  dsdt_length : option Z;
  aml_initialize_objects : bool;
  aml_parse_table : bool;
  fadt_smi_cmd_port : Z;
  fadt_acpi_enable : Z;
  prt_found : bool;                        (* \_SB.PCI0._PRT *)
  prt_route : Z → Z → Z → option Z;        (* device, function, pin 0..3 *)
}.

Record AmlState : Type := MkAml {
  AML_CONTEXT : bool;
  FADT : bool;
  DSDT_MAPPED : Z;
  aml_ports : list (Z * Z);
}.

Section Aml.
Context `{X86Paging} `{PageMapper} `{IdtIndexing} `{ApicEnv} `{AmlEnv}.

Definition aml_init (a : AmlState) (k : KMem) : outcome (AmlState * KMem) :=
  if fadt_found then
    let a := MkAml (AML_CONTEXT a) true (DSDT_MAPPED a) (aml_ports a) in
    dsdt_addr ← unwrap dsdt_address;
    _ ← unwrap dsdt_length;
    v ← virt_addr_new dsdt_addr;
    off ← get_phys_offset k;
    aml_virt ← uadd 64 (page_containing v) off;
    k ← map_page k dsdt_addr aml_virt kernel_flags;
    if aml_initialize_objects && aml_parse_table then
      Ret (MkAml true true aml_virt (aml_ports a ++ [(wrap 16 fadt_smi_cmd_port, fadt_acpi_enable)]), k)
    else Ret (a, k)
  else Panic PUnwrap.

(** The four routed interrupt numbers, 0 for a pin without a route. *)
Definition pin_irq (class_base pin : Z) : Z :=
  match prt_route class_base class_base pin with Some irq => irq | None => 0 end.

(** [INTx_IRQ.store(desc.irq + 32)] for the routed pins. *)
Definition route_pin (class_base pin old : Z) : outcome Z :=
  match prt_route class_base class_base pin with
  | Some irq => uadd 32 irq 32
  | None => Ret old
  end.

Definition aml_route (im : option InterruptModel) (class_base : Z)
    (a : AmlState) (i : IntState) (s : ApicState) (k : KMem)
    : outcome (option (list Z) * IntState * ApicState * KMem) :=
  if AML_CONTEXT a then
    if prt_found then
      pa ← route_pin class_base 0 (INTA_IRQ i);
      pb ← route_pin class_base 1 (INTB_IRQ i);
      pc ← route_pin class_base 2 (INTC_IRQ i);
      pd ← route_pin class_base 3 (INTD_IRQ i);
      i ← interrupts_init (MkIntState pa pb pc pd (idt i) (idt_clone i) (idt_loaded i));
      '(s, k) ← (if APIC_IS_INITIALIZED s then Ret (s, k)
                 else init_all_available_apics im s k);
      Ret (Some (pin_irq class_base <$> [0; 1; 2; 3]), i, s, k)
    else Ret (None, i, s, k)
  else Panic PUnwrap.

End Aml.

(** ** Properties *)

Section HandlerTheory.
Context `{X86PagingLaws} `{PageMapperLaws}.

(** [page_align] rounds a size up to whole pages: the result is the least multiple of
    4096 that is not below the size.  It panics, by underflow, on size 0 and, by
    overflow, on the sizes above 2^64 - 4096, whose multiple does not fit 64 bits. *)
Theorem page_align_bounds size addr :
  canonical addr → is_uN 64 size →
  if (1 <=? size) && (size <=? 2 ^ 64 - page_size)
  then ∃ r, page_align size addr = Ret r ∧ is_uN 64 r ∧ r mod page_size = 0 ∧ size <= r < size + page_size
  else page_align size addr = Panic POverflow.
Proof.
  intros Hc Hs. unfold page_align, is_uN, page_size in *. rewrite virt_addr_new_ok by done. cbn [mbind outcome_bind].
  destruct (Z.leb_spec 1 size) as [Hge|Hge]; cbn [andb]; [|rewrite usub_panic by lia; done].
  rewrite usub_ret by lia. cbn [mbind outcome_bind].
  assert (0 <= (size - 1) / 4096 < 2 ^ 52) as Hd
    by (split; [apply Z.div_pos; lia|apply Z.div_lt_upper_bound; lia]).
  rewrite uadd_ret by lia. cbn [mbind outcome_bind].
  pose proof (Z.div_mod (size - 1) 4096 ltac:(lia)) as Hdm. pose proof (Z.mod_pos_bound (size - 1) 4096 ltac:(lia)).
  unfold umul. z_cases; try lia; [|done].
  eexists. split_and!; [done|lia|lia|by rewrite Z.mod_mul|lia|lia].
Qed.

(** C40: every memory access of the ACPI handler maps the page after the one it
    then accesses: the frame of the address ends up mapped one page too high, and
    the page the access goes to is exactly as mapped or unmapped as before. *)
Theorem acpi_access_maps_next_page address k m fa off :
  ready k m fa → km_offset k = Some off → frames_left fa 3 →
  0 <= address < 2 ^ 45 → 0 <= off < 2 ^ 45 → off mod page_size = 0 →
  ∃ m' fa', acpi_access address k = Ret (address + off, with_mem k m' fa') ∧
    let accessed := page_containing (address + off) in
    translate m' accessed = translate m accessed ∧
    (huge m (accessed + page_size) = false → translate m (accessed + page_size) = None →
     translate m' (accessed + page_size) = Some (frame_containing address, kernel_flags)).
Proof.
  intros Hk Ho Hfl Ha Hoff Hal. unfold acpi_access.
  rewrite virt_addr_new_ok by (apply canonical_low; lia). cbn.
  pose proof (page_containing_range address ltac:(lia)) as Hpr.
  rewrite (get_phys_offset_ret _ _ Ho). cbn. unfold page_size at 1.
  rewrite uadd_ret by lia. cbn. rewrite uadd_ret by lia. cbn.
  destruct (map_page_spec k m fa address (page_containing address + off + 4096) kernel_flags)
    as (m' & fa' & -> & _ & Hv); [done|lia|apply canonical_low; lia|done|]. cbn.
  rewrite (get_phys_offset_ret (with_mem k m' fa') off Ho). cbn. rewrite uadd_ret by lia. cbn.
  exists m', fa'. split; [done|].
  assert (page_containing (page_containing address + off + 4096)
          = page_containing (address + off) + page_size) as Hq.
  { rewrite !page_containing_spec. unfold page_size in *. zdm. }
  rewrite Hq in Hv. split.
  - rewrite (proj1 (Hv _)). unfold map_view. rewrite decide_False; [done|].
    intros [? _]. unfold page_size in *. lia.
  - intros Hh Ht. rewrite (proj1 (Hv _)). unfold map_view. by rewrite decide_True.
Qed.

(** The rebuilt configuration address is the concatenation of its fields. *)
Lemma pci_rebuilt_spec seg bus dev fn off :
  is_uN 16 seg → is_uN 8 bus → is_uN 8 dev → is_uN 8 fn → is_uN 16 off →
  pci_rebuilt seg bus dev fn off =
  Ret (seg * 2 ^ 40 + bus * 2 ^ 32 + dev * 2 ^ 24 + fn * 2 ^ 16 + off).
Proof.
  unfold is_uN. intros. unfold pci_rebuilt, from_be_bytes, index. cbn.
  change (Z.to_nat 0) with 0%nat. change (Z.to_nat 1) with 1%nat. cbn. f_equal.
  Z.to_euclidean_division_equations; lia.
Qed.

End HandlerTheory.

Lemma acpi_access_witness :
  ∃ m' fa', acpi_access 0xE0010 kmem_example = Ret (0xE0010, with_mem kmem_example m' fa') ∧
    translate m' 0xE0000 = None ∧ translate m' 0xE1000 = Some (0xE0000, kernel_flags).
Proof.
  destruct (acpi_access_maps_next_page 0xE0010 kmem_example ∅ (falloc_new big_map) 0
              kmem_example_ready) as (m' & fa' & E & Hs & Hn);
    [done|by apply big_map_left|lia|lia|done|].
  exists m', fa'. split_and!; [exact E|exact Hs|]. by apply Hn.
Defined.

Lemma page_align_witness :
  page_align 0 0 = Panic POverflow ∧ (∃ r, page_align 4097 0 = Ret r ∧ r mod page_size = 0 ∧ 4097 <= r < 8193).
Proof.
  assert (canonical 0) as Hc by (left; lia). split.
  - apply (page_align_bounds 0 0 Hc). unfold is_uN. lia.
  - destruct (page_align_bounds 4097 0 Hc) as (r & E & _ & Hm & Hr); [unfold is_uN; lia|].
    exists r. split_and!; [exact E|exact Hm|apply Hr|apply Hr].
Defined.
