(* ===== verification/PciIds.v ===== *)
(** * PCI identifiers, src/drivers/pci_impl.rs

    The vendors and device kinds the kernel knows, and their decoding from the
    numbers of a configuration header. *)

From S2P Require Import Prelude.

Local Open Scope Z_scope.

Inductive Vendor : Type :=
  | Intel | AMD | NVIDIA | Qemu | Broadcom | Epson | IBM | Acer | Dell | Toshiba | HP
  | Asus | Hitachi | Motorola | Apple | LG | Oracle | Adobe | DLink | Linksys | Samsung
  | RedHat | Google | ATT | Qualcomm | Lenovo | Sapphire | Seagate | Patriot | MSI | Ralink
  | TpLink | Hauppauge
  | VendorUnknown (id : Z).

Definition vendor_new (id : Z) : Vendor :=
  match id with
  | 0x8086 | 0x34ba => Intel
  | 0x1002 | 0x1022 => AMD
  | 0x10DE | 0x12d2 => NVIDIA
  | 0x1234 => Qemu
  | 0x1000 | 0x1166 | 0x14e4 | 0x166d | 0x173b | 0x182f | 0xfeda => Broadcom
  | 0x1008 => Epson
  | 0x1014 => IBM
  | 0x1025 | 0x107b => Acer
  | 0x1028 | 0x1120 => Dell
  | 0x102f | 0x1179 | 0x11e7 | 0x13d7 => Toshiba
  | 0x103c | 0x11c0 | 0x1590 | 0xa259 | 0xa25b => HP
  | 0x1043 | 0x807d | 0xf043 => Asus
  | 0x1020 | 0x1037 | 0x1054 | 0x1250 | 0x1367 | 0x1388 | 0x158c => Hitachi
  | 0x1057 | 0x11b7 | 0x1507 | 0x19d1 | 0xc0de => Motorola
  | 0x106b => Apple
  | 0x107c | 0x122b | 0x1854 => LG
  | 0x108e => Oracle
  | 0x1173 => Adobe
  | 0x07d1 | 0x1186 => DLink
  | 0x1737 => Linksys
  | 0x1099 | 0x10c3 | 0x11e2 | 0x1249 | 0x144d | 0x167d => Samsung
  | 0x1af4 | 0x1b36 | 0x6900 => RedHat
  | 0x1ae0 => Google
  | 0x18a3 => ATT
  | 0x168c | 0x17cb | 0x1969 | 0x5143 => Qualcomm
  | 0x17aa | 0x1d49 => Lenovo
  | 0x0721 | 0x174b | 0x1da2 => Sapphire
  | 0x1bb1 => Seagate
  | 0x137e => Patriot
  | 0x1462 => MSI
  | 0x1804 | 0x1814 => Ralink
  | 0x7470 => TpLink
  | 0x0070 | 0x0270 | 0x13eb => Hauppauge
  | _ => VendorUnknown id
  end.

Definition vendor_is_valid (self : Vendor) : bool :=
  match self with VendorUnknown id => negb (id =? 0xFFFF) | _ => true end.

Inductive DeviceKind : Type :=
  | DeviceUnknown | LegacyVgaCompatible | LegacyNotVgaCompatible | ScsiBusController
  | IdeController | FloppyController | IpiBusController | RaidController | AtaController
  | SataController | SasController | NvmeController | OtherMassStorageController
  | EthernetController | TokenRingController | FddiController | AtmController
  | IsdnController | PicmgController | OtherNetworkController | VgaCompatibleController
  | XgaController | ThreeDController | OtherDisplayController | VideoDevice | AudioDevice
  | TelephonyDevice | OtherMultimediaDevice | RamController | FlashController
  | OtherMemoryController | HostBridge | IsaBridge | EisaBridge | McaBridge | PciPciBridge
  | PcmciaBridge | NuBusBridge | CardBusBridge | RacewayBridge
  | SemiTransparentPciPciBridge | InfinibandPciHostBridge | OtherBridgeDevice
  | SerialController | ParallelPort | MultiportSerialController | Modem | GpibController
  | SmartCard | OtherCommunicationsDevice | InterruptController | DmaController
  | SystemTimer | RtcController | GenericPciHotPlugController | SdHostController
  | OtherSystemPeripheral | KeyboardController | Digitizer | MouseController
  | ScannerController | GameportController | OtherInputController | GenericDockingStation
  | OtherDockingStation | Processor386 | Processor486 | ProcessorPentium | ProcessorAlpha
  | ProcessorPowerPc | ProcessorMips | CoProcessor | FirewireController
  | AccessBusController | SsaBusController | UsbController | FibreChannelController
  | SmBusController | InfiniBandController | IpmiController | SercosController
  | CanBusController | IrdaController | ConsumerIrController | RfController
  | BluetoothController | BroadbandController | Ethernet5GHzController
  | Ethernet24GHzController | OtherWirelessController | IntelligentIoController
  | TvSatelliteCommunicationsController | AudioSatelliteCommunicationsController
  | VoiceSatelliteCommunicationsController | DataSatelliteCommunicationsController
  | NetworkCryptionController | EntertainmentCryptionController | OtherCryptionController
  | DpioModule | PerformanceCounter | CommunicationsSynchronizationController
  | ManagementCard | OtherSignalProcessingController.

#[export] Instance DeviceKind_eq_dec : EqDecision DeviceKind.
Proof. intros x y. unfold Decision. decide equality. Defined.

Definition device_kind_new (base_class sub_class : Z) : DeviceKind :=
  match base_class, sub_class with
  | 0x00, 0x00 => LegacyNotVgaCompatible
  | 0x00, 0x01 => LegacyVgaCompatible
  | 0x01, 0x00 => ScsiBusController
  | 0x01, 0x01 => IdeController
  | 0x01, 0x02 => FloppyController
  | 0x01, 0x03 => IpiBusController
  | 0x01, 0x04 => RaidController
  | 0x01, 0x05 => AtaController
  | 0x01, 0x06 => SataController
  | 0x01, 0x07 => SasController
  | 0x01, 0x08 => NvmeController
  | 0x01, 0x80 => OtherMassStorageController
  | 0x02, 0x00 => EthernetController
  | 0x02, 0x01 => TokenRingController
  | 0x02, 0x02 => FddiController
  | 0x02, 0x03 => AtmController
  | 0x02, 0x04 => IsdnController
  | 0x02, 0x06 => PicmgController
  | 0x02, 0x80 => OtherNetworkController
  | 0x03, 0x00 => VgaCompatibleController
  | 0x03, 0x01 => XgaController
  | 0x03, 0x02 => ThreeDController
  | 0x03, 0x80 => OtherDisplayController
  | 0x04, 0x00 => VideoDevice
  | 0x04, 0x01 => AudioDevice
  | 0x04, 0x02 => TelephonyDevice
  | 0x04, 0x03 => OtherMultimediaDevice
  | 0x05, 0x00 => RamController
  | 0x05, 0x01 => FlashController
  | 0x05, 0x02 => OtherMemoryController
  | 0x06, 0x00 => HostBridge
  | 0x06, 0x01 => IsaBridge
  | 0x06, 0x02 => EisaBridge
  | 0x06, 0x03 => McaBridge
  | 0x06, 0x04 => PciPciBridge
  | 0x06, 0x05 => PcmciaBridge
  | 0x06, 0x06 => NuBusBridge
  | 0x06, 0x07 => CardBusBridge
  | 0x06, 0x08 => RacewayBridge
  | 0x06, 0x09 => SemiTransparentPciPciBridge
  | 0x06, 0x0a => InfinibandPciHostBridge
  | 0x06, 0x80 => OtherBridgeDevice
  | 0x07, 0x00 => SerialController
  | 0x07, 0x01 => ParallelPort
  | 0x07, 0x02 => MultiportSerialController
  | 0x07, 0x03 => Modem
  | 0x07, 0x04 => GpibController
  | 0x07, 0x05 => SmartCard
  | 0x07, 0x80 => OtherCommunicationsDevice
  | 0x08, 0x00 => InterruptController
  | 0x08, 0x01 => DmaController
  | 0x08, 0x02 => SystemTimer
  | 0x08, 0x03 => RtcController
  | 0x08, 0x04 => GenericPciHotPlugController
  | 0x08, 0x05 => SdHostController
  | 0x08, 0x80 => OtherSystemPeripheral
  | 0x09, 0x00 => KeyboardController
  | 0x09, 0x01 => Digitizer
  | 0x09, 0x02 => MouseController
  | 0x09, 0x03 => ScannerController
  | 0x09, 0x04 => GameportController
  | 0x09, 0x80 => OtherInputController
  | 0x0a, 0x00 => GenericDockingStation
  | 0x0a, 0x80 => OtherDockingStation
  | 0x0b, 0x00 => Processor386
  | 0x0b, 0x01 => Processor486
  | 0x0b, 0x02 => ProcessorPentium
  | 0x0b, 0x10 => ProcessorAlpha
  | 0x0b, 0x20 => ProcessorPowerPc
  | 0x0b, 0x30 => ProcessorMips
  | 0x0b, 0x40 => CoProcessor
  | 0x0c, 0x00 => FirewireController
  | 0x0c, 0x01 => AccessBusController
  | 0x0c, 0x02 => SsaBusController
  | 0x0c, 0x03 => UsbController
  | 0x0c, 0x04 => FibreChannelController
  | 0x0c, 0x05 => SmBusController
  | 0x0c, 0x06 => InfiniBandController
  | 0x0c, 0x07 => IpmiController
  | 0x0c, 0x08 => SercosController
  | 0x0c, 0x09 => CanBusController
  | 0x0d, 0x00 => IrdaController
  | 0x0d, 0x01 => ConsumerIrController
  | 0x0d, 0x10 => RfController
  | 0x0d, 0x11 => BluetoothController
  | 0x0d, 0x12 => BroadbandController
  | 0x0d, 0x20 => Ethernet5GHzController
  | 0x0d, 0x21 => Ethernet24GHzController
  | 0x0d, 0x80 => OtherWirelessController
  | 0x0e, 0x00 => IntelligentIoController
  | 0x0f, 0x00 => TvSatelliteCommunicationsController
  | 0x0f, 0x01 => AudioSatelliteCommunicationsController
  | 0x0f, 0x02 => VoiceSatelliteCommunicationsController
  | 0x0f, 0x03 => DataSatelliteCommunicationsController
  | 0x10, 0x00 => NetworkCryptionController
  | 0x10, 0x10 => EntertainmentCryptionController
  | 0x10, 0x80 => OtherCryptionController
  | 0x11, 0x00 => DpioModule
  | 0x11, 0x01 => PerformanceCounter
  | 0x11, 0x10 => CommunicationsSynchronizationController
  | 0x11, 0x20 => ManagementCard
  | 0x11, 0x80 => OtherSignalProcessingController
  | _, _ => DeviceUnknown
  end.
