(* ===== verification/Pci.v ===== *)
(** * PCI devices, src/drivers/pci_impl.rs

    MSI-X messages, the scan of the configuration space, the table of drivers and
    the start-up of the devices.  Configuration headers are parsed by the [pcics]
    crate and the configuration space is located by the [acpi] crate: [PciEnv]
    collects what the kernel gets from them and from the hardware. *)

From S2P Require Import Prelude BitFields Paging Frames Memory Interrupts Apic AcpiHandler PciIds.

Local Open Scope Z_scope.

(** ** MSI-X messages *)

Record Message : Type := MkMessage {
  msg_addr_low : Z; msg_addr_high : Z; msg_data : Z; msg_mask : Z;
}.

Section Messages.
Context `{BitField}.

Definition is_masked (self : Message) : outcome bool := get_bit 32 (msg_mask self) 0.

Definition set_mask (self : Message) (mask : bool) : outcome Message :=
  m ← set_bit 32 (msg_mask self) 0 mask;
  m ← set_bit 32 m 30 mask;
  Ret (MkMessage (msg_addr_low self) (msg_addr_high self) (msg_data self) m).

(** [lapic_id] is [get_active_lapic().id()], [xapic_base] the base in the
    IA32_APIC_BASE register, [delivery_mode] the number of the [IrqMode]. *)
Definition route_irq (lapic_id xapic_base phys_offset irq delivery_mode : Z) (self : Message)
    : outcome Message :=
  data ← set_bits 32 0 0 8 irq;
  data ← set_bits 32 data 8 11 delivery_mode;
  data ← set_bit 32 data 14 false;
  data ← set_bit 32 data 15 false;
  data ← set_bits 32 data 16 32 0;
  addr ← set_bits 32 0 12 20 lapic_id;
  base ← get_bits 64 xapic_base 20 32;
  addr ← set_bits 32 addr 20 32 (wrap 32 base);
  Ret (MkMessage addr (wrap 32 phys_offset) data (msg_mask self)).

End Messages.

(** ** The environment *)

(** A header type as the kernel distinguishes them: a normal header with its six
    base addresses, or another one. *)
Inductive HeaderType : Type := HNormal (bars : list Z) | HOtherType.

(** The capability kinds the kernel distinguishes; [bir] is the raw BAR indicator. *)
Inductive Capability : Type :=
  | CapMsiX (bir table_offset table_size : Z)
  | CapOther.

Class PciEnv : Type := {
  Header : Type;
  mcfg : Type;
  (* PciConfigRegions::physical_address(segment, bus, device, function) *)
  physical_address : mcfg → Z → Z → Z → Z → option Z;
  (* the 256 bytes of configuration space at a virtual address *)
  read_config : Z → list Z;
  header_try_from : list Z → option Header;
  hdr_vendor_id : Header → Z;
  hdr_class_base : Header → Z;
  hdr_class_sub : Header → Z;
  hdr_capabilities_pointer : Header → Z;
  hdr_type : Header → HeaderType;
  hdr_disable_interrupts : Header → Header;
  (* Capabilities::new(..), the entries that parse *)
  hdr_capabilities : list Z → Header → list Capability;
}.

Section Scan.
Context `{X86Paging} `{PageMapper} `{PciEnv}.

Definition header_kind (h : Header) : DeviceKind :=
  device_kind_new (hdr_class_base h) (hdr_class_sub h).

(** [mcfg_brute_force_inner] and [.flatten()] over the numbers below [n]: the four
    big-endian bytes are segment, bus, device and function. *)
Definition mcfg_address (m : option mcfg) (i : Z) : outcome (option Z) :=
  match m with
  | Some m =>
      let bs := to_be_bytes 4 i in
      seg ← index bs 0; bus ← index bs 1; dev ← index bs 2; fn ← index bs 3;
      Ret (physical_address m seg bus dev fn)
  | None => Ret None
  end.

Fixpoint mcfg_addresses (m : option mcfg) (is_ : list Z) : outcome (list Z) :=
  match is_ with
  | [] => Ret []
  | i :: is_ =>
      a ← mcfg_address m i;
      l ← mcfg_addresses m is_;
      Ret (match a with Some a => a :: l | None => l end)
  end.

(** Map the page of a device's configuration space and read its header. *)
Definition pci_read_header (addr : Z) (k : KMem) : outcome (Z * list Z * Header * KMem) :=
  v ← virt_addr_new addr;
  off ← get_phys_offset k;
  virt ← uadd 64 (page_containing v) off;
  k ← map_page k addr virt kernel_flags;
  let raw := read_config virt in
  h ← unwrap (header_try_from raw);
  Ret (virt, raw, h, k).

Record ScanState : Type := MkScan {
  sc_mem : KMem;
  deduped_kinds : list DeviceKind;
  deduped_scan : list Z;
}.

Definition scan_step (s : ScanState) (addr : Z) : outcome ScanState :=
  '(_, _, h, k) ← pci_read_header addr (sc_mem s);
  let kind := header_kind h in
  if decide (kind = DeviceUnknown) then Ret (MkScan k (deduped_kinds s) (deduped_scan s))
  else if decide (kind ∈ deduped_kinds s) then Ret (MkScan k (deduped_kinds s) (deduped_scan s))
  else Ret (MkScan k (deduped_kinds s ++ [kind]) (deduped_scan s ++ [addr])).

(** [0x0..0x1000] with [opt_level = "0"], else [0x0..0xffff]. *)
Definition scan_range (opt_level_0 : bool) : list Z :=
  Z.of_nat <$> seq 0 (Z.to_nat (if opt_level_0 then 0x1000 else 0xffff)).

(** The addresses are produced lazily, but producing them has no effect. *)
Definition mcfg_brute_force (opt_level_0 : bool) (m : option mcfg) (k : KMem)
    : outcome (list Z * KMem) :=
  addrs ← mcfg_addresses m (scan_range opt_level_0);
  s ← foldO scan_step addrs (MkScan k [] []);
  Ret (deduped_scan s, sc_mem s).

End Scan.

(** ** Drivers and device start-up *)

(** The trait [FOSSPciDeviceHandle] and the two drivers that implement it.  A
    driver's [start] sees the number of registered drivers, the header and the
    kernel memory, besides a state of its own. *)
Class PciDrivers `{PageMapper} `{PciEnv} : Type := {
  driver : Type;
  drv_state : Type;
  drv_handles : driver → Vendor → DeviceKind → bool;
  drv_start : driver → Z → Header → KMem → drv_state → outcome (Header * KMem * drv_state);
  ahci_driver : driver;
  xhci_driver : driver;
  (* XhciProtected::new, run by the first xhci_init *)
  xhci_new : Header → KMem → outcome KMem;
}.

(** The hardware values a message is routed with, and the MSI-X table entry in
    memory at an address. *)
Class MsiEnv : Type := {
  env_lapic_id : Z;
  env_xapic_base : Z;
  read_message : Z → Message;
}.

Section Startup.
Context `{X86Paging} `{BitField} `{IdtIndexing} `{!PageMapper} `{!PciEnv} `{!PciDrivers} `{MsiEnv}
  `{ApicEnv} `{AmlEnv}.

Record PciState : Type := MkPci {
  ps_mem : KMem;
  ps_int : IntState;
  ps_apic : ApicState;
  ps_aml : AmlState;
  ps_devices : list driver;           (* PciTable::devices *)
  ps_raw_headers : list (list Z);     (* PciTable::raw_headers *)
  ps_headers : list Header;           (* PciTable::headers *)
  PCI_DRIVER_COUNT : Z;
  ps_xhci : bool;                     (* the XHCI Once has run *)
  ps_messages : list (Z * Message);   (* MSI-X entries written, by address *)
  ps_drv : drv_state;
}.

Definition with_mem_int (s : PciState) (k : KMem) (i : IntState) (msgs : list (Z * Message)) : PciState :=
  MkPci k i (ps_apic s) (ps_aml s) (ps_devices s) (ps_raw_headers s) (ps_headers s) (PCI_DRIVER_COUNT s) (ps_xhci s)
    msgs (ps_drv s).

Definition register_headers (s : PciState) (raw : list Z) (h : Header) : PciState :=
  MkPci (ps_mem s) (ps_int s) (ps_apic s) (ps_aml s) (ps_devices s) (ps_raw_headers s ++ [raw]) (ps_headers s ++ [h])
    (PCI_DRIVER_COUNT s) (ps_xhci s) (ps_messages s) (ps_drv s).

Definition register_device_driver (s : PciState) (d : driver) : PciState :=
  let devices := ps_devices s ++ [d] in
  MkPci (ps_mem s) (ps_int s) (ps_apic s) (ps_aml s) devices (ps_raw_headers s) (ps_headers s)
    (Z.of_nat (length devices)) (ps_xhci s) (ps_messages s) (ps_drv s).

(** The [Once] around the driver only builds an empty driver object. *)
Definition ahci_init (s : PciState) : PciState := register_device_driver s ahci_driver.

Definition xhci_init (s : PciState) : outcome PciState :=
  s ← (if ps_xhci s then Ret s
       else
         h ← unwrap (List.find (λ h, bool_decide (header_kind h = UsbController)) (ps_headers s));
         k ← xhci_new h (ps_mem s);
         Ret (MkPci k (ps_int s) (ps_apic s) (ps_aml s) (ps_devices s) (ps_raw_headers s) (ps_headers s)
                (PCI_DRIVER_COUNT s) true (ps_messages s) (ps_drv s)));
  Ret (register_device_driver s xhci_driver).

(** The BAR the MSI-X table is in. *)
Definition msix_bar (h : Header) (bir : Z) : outcome Z :=
  match hdr_type h with
  | HNormal bars =>
      if (0 <=? bir) && (bir <=? 5) then index bars bir else Panic (PMsg "Invalid BAR")
  | HOtherType => Ret 0
  end.

(** [register_handler(irq, msi_x)]: the handler all MSI-X vectors share. *)
Definition h_msi_x : handler := HOther 0.

(** [for entry in msg_table { irqalloc; route_irq; register_handler }]: entries of
    16 bytes from [addr]. *)
Fixpoint msix_entries (phys_offset addr : Z) (n : nat) (i : IntState)
    : outcome (list (Z * Message) * IntState) :=
  match n with
  | O => Ret ([], i)
  | S n =>
      '(irq, i) ← irqalloc i;
      msg ← route_irq env_lapic_id env_xapic_base phys_offset irq 0 (read_message addr);
      i ← register_handler irq h_msi_x i;
      '(msgs, i) ← msix_entries phys_offset (addr + 16) n i;
      Ret ((addr, msg) :: msgs, i)
  end.

(** The MSI-X part of the loop body. *)
Definition msix_setup (header_addr : Z) (h : Header) (kind : DeviceKind)
    (bir table_offset table_size : Z) (s : PciState) : outcome (Header * PciState) :=
  bar ← msix_bar h bir;
  a ← uadd 64 header_addr bar;
  a ← uadd 64 a table_offset;
  let h := hdr_disable_interrupts h in
  off ← get_phys_offset (ps_mem s);
  '(msgs, i) ← msix_entries off a (Z.to_nat table_size) (ps_int s);
  let s := with_mem_int s (ps_mem s) i (ps_messages s ++ msgs) in
  s ← (if decide (kind = UsbController) then xhci_init s else Ret s);
  Ret (h, s).

Definition first_msix (caps : list Capability) : option (Z * Z * Z) :=
  head (omap (λ c, match c with CapMsiX b o n => Some (b, o, n) | CapOther => None end) caps).

(** [for driver in &mut PCI_TABLE.write().devices { .. }]. *)
Definition start_drivers (s : PciState) (h : Header) : outcome PciState :=
  '(_, k, d) ← foldO (λ '(h, k, d) drv,
      if drv_handles drv (vendor_new (hdr_vendor_id h)) (header_kind h) then
        '(h, k, d) ← drv_start drv (PCI_DRIVER_COUNT s) h k d;
        Ret (h, k, d)
      else Ret (h, k, d)) (ps_devices s) (h, ps_mem s, ps_drv s);
  Ret (MkPci k (ps_int s) (ps_apic s) (ps_aml s) (ps_devices s) (ps_raw_headers s) (ps_headers s) (PCI_DRIVER_COUNT s)
         (ps_xhci s) (ps_messages s) d).

Definition with_routing (s : PciState) (i : IntState) (ap : ApicState) (a : AmlState) (k : KMem)
    : PciState :=
  MkPci k i ap a (ps_devices s) (ps_raw_headers s) (ps_headers s) (PCI_DRIVER_COUNT s) (ps_xhci s)
    (ps_messages s) (ps_drv s).

(** The body of the loop of [init] for one device.  [aml_route]'s result is
    dropped; [im] is the platform's interrupt model. *)
Definition init_device (im : option InterruptModel) (s : PciState) (dev : Z) : outcome PciState :=
  '(virt, raw, h, k) ← pci_read_header dev (ps_mem s);
  let s := with_mem_int s k (ps_int s) (ps_messages s) in
  let s := register_headers s raw h in
  '(_, i, ap, k) ← aml_route im (hdr_class_base h) (ps_aml s) (ps_int s) (ps_apic s) (ps_mem s);
  let s := with_routing s i ap (ps_aml s) k in
  let kind := header_kind h in
  let s := if decide (kind = SataController) then ahci_init s else s in
  h2 ← unwrap (header_try_from raw);
  let caps := if negb (hdr_capabilities_pointer h =? 0) then hdr_capabilities raw h2 else [] in
  '(h, s) ← (match first_msix caps with
             | Some (bir, off, n) => msix_setup virt h kind bir off n s
             | None => Ret (h, s)
             end);
  start_drivers s h.

Definition pci_init (opt_level_0 : bool) (im : option InterruptModel) (m : option mcfg) (s : PciState)
    : outcome PciState :=
  match m with
  | None => Panic (PMsg "MCFG table not present")
  | Some _ =>
      '(a, k) ← aml_init (ps_aml s) (ps_mem s);
      '(devs, k) ← mcfg_brute_force opt_level_0 m k;
      foldO (init_device im) devs (with_routing s (ps_int s) (ps_apic s) a k)
  end.

End Startup.

#[global] Arguments scan_range : simpl never.
#[global] Arguments pci_read_header {_ _ _} addr k : simpl never.

(** ** The scan *)

Section ScanTheory.
Context `{X86PagingLaws} `{PageMapperLaws} `{PciEnv}.

(** The device number is the third byte and the function the fourth one: segment
    and bus are always 0. *)
Lemma mcfg_address_bus0 mc i :
  0 <= i < 0x10000 →
  mcfg_address (Some mc) i = Ret (physical_address mc 0 0 (i / 256) (i mod 256)).
Proof.
  intros Hi. unfold mcfg_address.
  assert (to_be_bytes 4 i = [0; 0; i / 256; i mod 256]) as ->.
  { change (to_be_bytes 4 i) with
      [(i / 256 / 256 / 256) mod 256; (i / 256 / 256) mod 256; (i / 256) mod 256; i mod 256].
    repeat (f_equal; [Z.to_euclidean_division_equations; lia|]).
    f_equal. Z.to_euclidean_division_equations; lia. }
  done.
Qed.

Lemma mcfg_addresses_bus0 mc l :
  Forall (λ i, 0 <= i < 0x10000) l →
  mcfg_addresses (Some mc) l = Ret (omap (λ i, physical_address mc 0 0 (i / 256) (i mod 256)) l).
Proof.
  induction 1 as [|i l Hi _ IH]; [done|]. cbn [mcfg_addresses].
  rewrite mcfg_address_bus0 by done. cbn [mbind outcome_bind]. rewrite IH. cbn.
  by destruct (physical_address _ _ _ _ _).
Qed.

Lemma scan_range_bounds o : Forall (λ i, 0 <= i < 0x10000) (scan_range o).
Proof.
  apply Forall_forall. intros i. unfold scan_range. rewrite list_elem_of_fmap.
  intros (n & -> & Hn). apply list_elem_of_In, in_seq in Hn. destruct o; lia.
Qed.

(** The addresses the scan visits. *)
Definition scan_addrs (o : bool) (mc : mcfg) : list Z :=
  omap (λ i, physical_address mc 0 0 (i / 256) (i mod 256)) (scan_range o).

(** The kind of the device at [addr], when its header parses. *)
Definition kind_at (off addr : Z) : option DeviceKind :=
  header_kind <$> header_try_from (read_config (page_containing addr + off)).

Lemma pci_read_header_spec k m fa off addr kind :
  ready k m fa → km_offset k = Some off → frames_left fa 3 →
  0 <= addr < 2 ^ 45 → 0 <= off < 2 ^ 45 → kind_at off addr = Some kind →
  ∃ h m' fa', pci_read_header addr k =
      Ret (page_containing addr + off, read_config (page_containing addr + off), h, with_mem k m' fa') ∧
    header_kind h = kind ∧ advanced 3 fa fa'.
Proof.
  intros Hk Ho Hfl Ha Hoff Hkind. unfold pci_read_header.
  rewrite virt_addr_new_ok by (apply canonical_low; lia). cbn.
  rewrite (get_phys_offset_ret _ _ Ho). cbn.
  pose proof (page_containing_range addr ltac:(lia)).
  rewrite uadd_ret by lia. cbn.
  destruct (map_page_spec k m fa addr (page_containing addr + off) kernel_flags)
    as (m' & fa' & -> & Hadv & _); [done|lia|apply canonical_low; lia|done|]. cbn.
  unfold kind_at in Hkind. destruct (header_try_from _) as [h|]; [|done]. cbn in *.
  injection Hkind as Hkind. by exists h, m', fa'.
Qed.

(** What the scan keeps: the first address of each known kind. *)
Fixpoint first_of_kind (off : Z) (kinds : list DeviceKind) (addrs : list Z) : list Z :=
  match addrs with
  | [] => []
  | a :: addrs =>
      match kind_at off a with
      | Some kd =>
          if decide (kd = DeviceUnknown ∨ kd ∈ kinds) then first_of_kind off kinds addrs
          else a :: first_of_kind off (kinds ++ [kd]) addrs
      | None => first_of_kind off kinds addrs
      end
  end.

Lemma scan_foldO off addrs k m fa kinds scan :
  ready k m fa → km_offset k = Some off → frames_left fa (3 * Z.of_nat (length addrs)) →
  0 <= off < 2 ^ 45 → Forall (λ a, 0 <= a < 2 ^ 45 ∧ is_Some (kind_at off a)) addrs →
  ∃ k' kinds', foldO scan_step addrs (MkScan k kinds scan)
    = Ret (MkScan k' kinds' (scan ++ first_of_kind off kinds addrs)).
Proof.
  intros Hk Ho Hfl Hoff HF. revert k m fa kinds scan Hk Ho Hfl.
  induction HF as [|a addrs [Ha [kd Hkd]] _ IH]; intros k m fa kinds scan Hk Ho Hfl.
  { exists k, kinds. cbn. by rewrite app_nil_r. }
  cbn [length] in Hfl. rewrite Nat2Z.inj_succ in Hfl.
  destruct (pci_read_header_spec k m fa off a kd) as (h & m1 & fa1 & E & Hh & Hadv);
    [done|done| |done..|]; [eapply frames_left_le; [|done]; lia|].
  assert (frames_left fa1 (3 * Z.of_nat (length addrs))) as Hfl1
    by (eapply frames_left_le; [|by eapply frames_left_advanced]; lia).
  assert (ready (with_mem k m1 fa1) m1 fa1) as Hk1 by (by eapply ready_with_mem).
  assert (scan_step (MkScan k kinds scan) a =
    if decide (kd = DeviceUnknown) then Ret (MkScan (with_mem k m1 fa1) kinds scan)
    else if decide (kd ∈ kinds) then Ret (MkScan (with_mem k m1 fa1) kinds scan)
    else Ret (MkScan (with_mem k m1 fa1) (kinds ++ [kd]) (scan ++ [a]))) as Hstep.
  { unfold scan_step. cbn [sc_mem]. rewrite E. cbn [mbind outcome_bind]. by rewrite Hh. }
  cbn [foldO first_of_kind]. rewrite Hstep, Hkd.
  destruct (decide (kd = DeviceUnknown)) as [Hu|Hu].
  { rewrite decide_True by (by left). cbn [mbind outcome_bind].
    by apply (IH (with_mem k m1 fa1) m1 fa1). }
  destruct (decide (kd ∈ kinds)) as [Hin|Hin].
  { rewrite decide_True by (by right). cbn [mbind outcome_bind].
    by apply (IH (with_mem k m1 fa1) m1 fa1). }
  rewrite decide_False by tauto. cbn [mbind outcome_bind].
  destruct (IH (with_mem k m1 fa1) m1 fa1 (kinds ++ [kd]) (scan ++ [a]) Hk1 Ho Hfl1)
    as (k' & kinds' & ->). exists k', kinds'. by rewrite <- app_assoc.
Qed.

(** Every kept address has a known kind that was not seen before, kinds are not
    repeated, and every known kind at a visited address is represented. *)
Lemma first_of_kind_spec off kinds addrs :
  Forall (λ a, is_Some (kind_at off a)) addrs →
  let found := omap (kind_at off) (first_of_kind off kinds addrs) in
  NoDup found ∧ (∀ kd, kd ∈ found → kd ≠ DeviceUnknown ∧ kd ∉ kinds) ∧
  first_of_kind off kinds addrs `sublist_of` addrs ∧
  (∀ a kd, a ∈ addrs → kind_at off a = Some kd → kd ≠ DeviceUnknown → kd ∈ kinds ∨ kd ∈ found).
Proof.
  intros HF. revert kinds. induction HF as [|a addrs [kd Hkd] _ IH]; intros kinds; cbn [first_of_kind].
  { cbn. split_and!; [constructor|by intros ??%not_elem_of_nil|constructor|by intros ???%not_elem_of_nil]. }
  rewrite Hkd. case_decide as Hd.
  - destruct (IH kinds) as (Hnd & Hnew & Hsub & Hall). split_and!; [done..|by constructor|].
    intros b kb [->|Hb]%elem_of_cons Hkb Hu; [|by eapply Hall].
    assert (kb = kd) as -> by congruence. left. tauto.
  - destruct (IH (kinds ++ [kd])) as (Hnd & Hnew & Hsub & Hall). cbn. rewrite Hkd.
    split_and!.
    + constructor; [|done]. intros Hin. apply (Hnew kd Hin). apply elem_of_app. right. by constructor.
    + intros k' [->|Hk']%elem_of_cons; [tauto|]. destruct (Hnew k' Hk') as [? Hn].
      split; [done|]. intros ?. apply Hn. apply elem_of_app. by left.
    + by constructor.
    + intros b kb Hb Hkb Hu. apply elem_of_cons in Hb as [->|Hb].
      * assert (kb = kd) as -> by congruence. right. constructor.
      * destruct (Hall b kb Hb Hkb Hu) as [Hin|Hin]; [|right; by constructor].
        apply elem_of_app in Hin as [?|Hin]; [by left|].
        apply list_elem_of_singleton in Hin as ->. right. constructor.
Qed.

(** C11: the scan of the configuration space returns, and keeps one address for
    each known device kind it sees: no two devices of the same kind are found, an
    unknown device is never found, every kind that occurs at a visited address is
    represented, and all visited addresses are on segment 0, bus 0. *)
Theorem mcfg_brute_force_correct opt mc k m fa off :
  ready k m fa → km_offset k = Some off → 0 <= off < 2 ^ 45 →
  frames_left fa (3 * Z.of_nat (length (scan_addrs opt mc))) →
  Forall (λ a, 0 <= a < 2 ^ 45 ∧ is_Some (kind_at off a)) (scan_addrs opt mc) →
  ∃ found k', mcfg_brute_force opt (Some mc) k = Ret (found, k') ∧
    found `sublist_of` scan_addrs opt mc ∧
    NoDup (omap (kind_at off) found) ∧
    (∀ kd, kd ∈ omap (kind_at off) found ↔
       kd ≠ DeviceUnknown ∧ ∃ a, a ∈ scan_addrs opt mc ∧ kind_at off a = Some kd).
Proof.
  intros Hk Ho Hoff Hfl HF. unfold mcfg_brute_force.
  rewrite mcfg_addresses_bus0 by apply scan_range_bounds. cbn [mbind outcome_bind].
  destruct (scan_foldO off (scan_addrs opt mc) k m fa [] [] Hk Ho Hfl Hoff HF) as (k' & ks & E).
  unfold scan_addrs in E at 1. rewrite E. cbn [mbind outcome_bind deduped_scan sc_mem app].
  do 2 eexists. split; [done|].
  destruct (first_of_kind_spec off [] (scan_addrs opt mc)) as (Hnd & Hnew & Hsub & Hall).
  { eapply Forall_impl; [done|]. by intros a [_ ?]. }
  split_and!; [done..|]. intros kd. split.
  - intros Hin. split; [by apply Hnew|]. apply list_elem_of_omap in Hin as (a & Ha & Hka).
    exists a. split; [by eapply elem_of_sublist|done].
  - intros (Hu & a & Ha & Hka). destruct (Hall a kd Ha Hka Hu) as [Hin|]; [|done].
    by apply not_elem_of_nil in Hin.
Qed.

End ScanTheory.

(** ** MSI-X vectors *)

Section MsixTheory.
Context `{BitFieldLaws} `{IdtIndexingLaws} `{MsiEnv}.

(** The free vectors of a table, in order. *)
Definition free_vectors (t : Idt) : list Z := filter (λ i, t !! i = None) irqalloc_range.

Lemma irqalloc_from_free t vs :
  Forall (λ i, 32 <= i <= 255) vs →
  irqalloc_from t vs =
  match filter (λ i, t !! i = None) vs with
  | i :: _ => Ret i
  | [] => Panic (PMsg "Out of IRQs!")
  end.
Proof.
  induction 1 as [|i vs Hi _ IH]; [done|].
  change (irqalloc_from t (i :: vs)) with
    (if idt_index_ok i then match t !! i with None => Ret i | Some _ => irqalloc_from t vs end
     else Panic PBounds).
  rewrite idt_interrupts, filter_cons by done. destruct (t !! i) eqn:E.
  - rewrite decide_False by congruence. done.
  - by rewrite decide_True.
Qed.

Lemma irqalloc_range_NoDup : NoDup irqalloc_range.
Proof. unfold irqalloc_range. apply NoDup_fmap_2, NoDup_seq. intros x y. lia. Qed.

Lemma filter_insert_ne t i e (l : list Z) :
  i ∉ l → filter (λ j, <[i := e]> t !! j = None) l = filter (λ j, (t : Idt) !! j = None) l.
Proof.
  induction l as [|j l IH]; intros Hi; [done|].
  apply not_elem_of_cons in Hi as [? ?]. rewrite !filter_cons, IH by done.
  apply decide_ext. by rewrite lookup_insert_ne.
Qed.

(** Taking the first free vector leaves the others. *)
Lemma free_vectors_insert t i rest e :
  free_vectors t = i :: rest → free_vectors (<[i := e]> t) = rest.
Proof.
  unfold free_vectors. generalize irqalloc_range_NoDup. generalize irqalloc_range.
  induction l as [|j l IH]; intros Hnd; [done|].
  apply NoDup_cons in Hnd as [Hj Hnd]. rewrite !filter_cons. intros E.
  destruct (decide (t !! j = None)) as [Hn|Hn].
  - injection E as -> <-. rewrite decide_False by (by rewrite lookup_insert_eq).
    by apply filter_insert_ne.
  - assert (i ≠ j) as Hne.
    { intros ->. assert (j ∈ filter (λ i, t !! i = None) l) as Hin by (rewrite E; constructor).
      by apply list_elem_of_filter in Hin as [? _]. }
    rewrite decide_False by (by rewrite lookup_insert_ne). by apply IH.
Qed.

Lemma clearbit_unset x i : Z.testbit x i = false → Z.clearbit x i = x.
Proof.
  intros Hx. apply Z.bits_inj'. intros j Hj. destruct (decide (j = i)) as [->|].
  - by rewrite Z.clearbit_eq, Hx.
  - by rewrite Z.clearbit_neq by done.
Qed.

(** The message [route_irq] builds. *)
Lemma route_irq_spec id base off irq mode msg :
  0 <= irq < 256 → 0 <= mode < 8 → 0 <= id < 256 →
  ∃ a, route_irq id base off irq mode msg = Ret (MkMessage a (wrap 32 off) (irq + 256 * mode) (msg_mask msg)) ∧
    bits_of a 12 20 = id ∧ bits_of a 20 32 = bits_of base 20 32 ∧ bits_of a 0 12 = 0.
Proof.
  intros Hi Hm Hid. unfold route_irq.
  rewrite (set_bits_ok 32 0 0 8) by (cbn; lia). cbn [mbind outcome_bind].
  assert (with_bits 0 0 8 irq = irq) as ->.
  { unfold with_bits. change (bits_of 0 0 8) with 0. change (2 ^ 0) with 1. lia. }
  rewrite (set_bits_ok 32 irq 8 11) by (cbn; lia). cbn [mbind outcome_bind].
  assert (with_bits irq 8 11 mode = irq + 256 * mode) as ->.
  { rewrite with_bits_split by lia.
    rewrite Z.mod_small, (Z.div_small irq) by lia. change (2 ^ 8) with 256. lia. }
  rewrite !set_bit_ok by lia. cbn [mbind outcome_bind]. rewrite !set_bit_ok by lia. cbn [mbind outcome_bind].
  rewrite (clearbit_unset _ 14) by (apply (testbit_high 11); lia).
  rewrite (clearbit_unset _ 15) by (apply (testbit_high 11); lia).
  rewrite (set_bits_ok 32 _ 16 32 0) by (cbn; lia). cbn [mbind outcome_bind].
  assert (with_bits (irq + 256 * mode) 16 32 0 = irq + 256 * mode) as ->.
  { rewrite with_bits_split by lia. rewrite Z.mod_small, (Z.div_small _ (2 ^ 32)) by lia. lia. }
  rewrite (set_bits_ok 32 0 12 20) by (cbn; lia). cbn [mbind outcome_bind].
  rewrite get_bits_ok by lia. cbn [mbind outcome_bind].
  pose proof (bits_of_range base 20 32 ltac:(lia)) as Hb.
  rewrite (wrap_small 32 (bits_of base 20 32)) by (unfold is_uN; cbn in *; lia).
  rewrite set_bits_ok by (cbn in *; lia). cbn [mbind outcome_bind].
  eexists. split; [done|]. split_and!.
  - rewrite bits_of_with_bits_ne by (cbn in *; lia). apply bits_of_with_bits; cbn; lia.
  - apply bits_of_with_bits; [lia|done].
  - rewrite !bits_of_with_bits_ne by (cbn in *; lia). done.
Qed.

Lemma irqalloc_free s t i rest :
  idt s = Some t → free_vectors t = i :: rest → irqalloc s = Ret (i, s).
Proof.
  intros Es Ef. unfold irqalloc, idt_deref. rewrite Es. cbn.
  rewrite irqalloc_from_free by apply irqalloc_range_bounds.
  change (filter _ irqalloc_range) with (free_vectors t). by rewrite Ef.
Qed.

Lemma register_handler_free s t i rest h :
  idt s = Some t → free_vectors t = i :: rest →
  ∃ s', register_handler i h s = Ret s' ∧ idt s' = Some (<[i := (h, None)]> t) ∧ 32 <= i <= 255.
Proof.
  intros Es Ef.
  assert (i ∈ free_vectors t) as Hin by (rewrite Ef; constructor).
  apply list_elem_of_filter in Hin as [Hn Hr].
  pose proof irqalloc_range_bounds as HF. rewrite Forall_forall in HF. specialize (HF i Hr).
  unfold register_handler, idt_deref, idt_set. rewrite Es. cbn.
  rewrite idt_interrupts, Hn by done. cbn. unfold interrupts_init, idt_deref. cbn.
  destruct (idt_clone s); cbn; eexists; split_and!; done || lia.
Qed.

(** C12: setting up an MSI-X table of [n] entries succeeds when [n] vectors are
    free; the entries, 16 bytes apart, get the first [n] free vectors in order, one
    each, and every message carries its vector, fixed delivery, the active local
    APIC's id as its destination, the APIC base bits as its address, the low half of the
    physical memory offset as its upper address, and the entry's old mask. *)
Theorem msix_entries_correct off addr n s t :
  idt s = Some t → (n <= length (free_vectors t))%nat → 0 <= env_lapic_id < 256 →
  ∃ msgs s', msix_entries off addr n s = Ret (msgs, s') ∧
    msgs.*1 = (λ k : nat, addr + 16 * Z.of_nat k) <$> seq 0 n ∧
    (λ m, msg_data m.2) <$> msgs = take n (free_vectors t) ∧ NoDup (take n (free_vectors t)) ∧
    Forall (λ '(a, m), bits_of (msg_addr_low m) 12 20 = env_lapic_id ∧
                       bits_of (msg_addr_low m) 20 32 = bits_of env_xapic_base 20 32 ∧
                       msg_addr_high m = wrap 32 off ∧ msg_mask m = msg_mask (read_message a)) msgs ∧
    (∃ t', idt s' = Some t' ∧ free_vectors t' = drop n (free_vectors t)).
Proof.
  intros Es Hn Hid. revert addr s t Es Hn. induction n as [|n IH]; intros addr s t Es Hn.
  { exists [], s. cbn. split_and!; [done..|constructor|constructor|]. exists t. by rewrite drop_0. }
  destruct (free_vectors t) as [|i rest] eqn:Ef; [cbn in Hn; lia|].
  destruct (register_handler_free s t i rest h_msi_x Es Ef) as (s1 & E1 & Es1 & Hi).
  destruct (route_irq_spec env_lapic_id env_xapic_base off i 0 (read_message addr))
    as (a & Er & Ha1 & Ha2 & _); [lia..|].
  pose proof (free_vectors_insert t i rest (h_msi_x, None) Ef) as Ef1.
  destruct (IH (addr + 16) s1 (<[i := (h_msi_x, None)]> t) Es1)
    as (msgs & s' & E & Haddr & Hdata & Hnd & Hfa & t' & Es' & Ef'); [rewrite Ef1; cbn in Hn; lia|].
  rewrite Ef1 in *.
  exists ((addr, MkMessage a (wrap 32 off) (i + 256 * 0) (msg_mask (read_message addr))) :: msgs), s'.
  cbn [msix_entries]. rewrite (irqalloc_free s t i rest Es Ef). cbn [mbind outcome_bind]. rewrite Er.
  cbn [mbind outcome_bind]. rewrite E1. cbn [mbind outcome_bind]. rewrite E. cbn [mbind outcome_bind].
  split_and!.
  - done.
  - cbn. rewrite Haddr, <- (fmap_S_seq 0), <- list_fmap_compose. f_equal; [lia|].
    apply list_fmap_ext. intros ? k _. unfold compose. lia.
  - cbn. f_equal; [lia|done].
  - cbn. constructor; [|done]. intros Hin%elem_of_take. destruct Hin as (j & Hj & _).
    assert (NoDup (i :: rest)) as Hnd' by (rewrite <- Ef; apply NoDup_filter, irqalloc_range_NoDup).
    apply NoDup_cons in Hnd' as [Hni _]. apply Hni. by eapply list_elem_of_lookup_2.
  - by constructor.
  - by exists t'.
Qed.

End MsixTheory.

(** ** Concrete runs *)

(** A machine with three functions on bus 0: a SATA controller, a second one, and
    a USB controller; a header is its class pair. *)
#[export] Instance pci_env_example : PciEnv | 100 := {
  Header := Z * Z;
  mcfg := unit;
  physical_address _ _ bus dev fn :=
    if (bus =? 0) && (dev =? 0) && (fn <? 3) then Some (0xE0000000 + 4096 * fn) else None;
  read_config v :=
    if v =? 0xE0000000 then [1; 6] else if v =? 0xE0001000 then [1; 6] else [0xc; 3];
  header_try_from raw := match raw with [b; s] => Some (b, s) | _ => None end;
  hdr_vendor_id _ := 0x8086;
  hdr_class_base h := h.1;
  hdr_class_sub h := h.2;
  hdr_capabilities_pointer _ := 0;
  hdr_type _ := HOtherType;
  hdr_disable_interrupts h := h;
  hdr_capabilities _ _ := [];
}.

Definition mcfg_example : @mcfg pci_env_example := ().

Lemma omap_none {A B} (f : A → option B) l : Forall (λ x, f x = None) l → omap f l = [].
Proof. induction 1 as [|x l E _ IH]; [done|]. cbn. by rewrite E. Qed.

Lemma scan_addrs_example : scan_addrs true mcfg_example = [0xE0000000; 0xE0001000; 0xE0002000].
Proof.
  unfold scan_addrs, scan_range. change (Z.to_nat 0x1000) with (3 + 4093)%nat.
  rewrite seq_app, fmap_app, omap_app. rewrite (omap_none _ (Z.of_nat <$> seq (0 + 3) 4093)); [done|].
  apply Forall_forall. intros i. rewrite list_elem_of_fmap. intros (n & -> & Hn).
  apply list_elem_of_In, in_seq in Hn. cbn.
  destruct (Z.eqb_spec (Z.of_nat n / 256) 0); cbn; [|done].
  destruct (Z.ltb_spec (Z.of_nat n mod 256) 3); [|done]. exfalso.
  Z.to_euclidean_division_equations; lia.
Qed.

(** The second SATA controller is not found. *)
Lemma mcfg_brute_force_witness :
  ∃ found k', mcfg_brute_force true (Some mcfg_example) kmem_example = Ret (found, k') ∧
    found `sublist_of` [0xE0000000; 0xE0001000; 0xE0002000] ∧
    NoDup (omap (kind_at 0) found) ∧ SataController ∈ omap (kind_at 0) found ∧
    UsbController ∈ omap (kind_at 0) found.
Proof.
  assert (frames_left (falloc_new big_map) (3 * Z.of_nat (length (scan_addrs true mcfg_example)))) as Hfl.
  { rewrite scan_addrs_example. by apply big_map_left. }
  assert (Forall (λ a, 0 <= a < 2 ^ 45 ∧ is_Some (kind_at 0 a)) (scan_addrs true mcfg_example)) as HF.
  { rewrite scan_addrs_example. repeat constructor; cbn; try lia; by eexists. }
  destruct (mcfg_brute_force_correct true mcfg_example kmem_example ∅ (falloc_new big_map) 0
              kmem_example_ready eq_refl ltac:(lia) Hfl HF) as (found & k' & E & Hsub & Hnd & Hk).
  rewrite scan_addrs_example in Hsub.
  exists found, k'. split_and!; [exact E|exact Hsub|exact Hnd|apply Hk..].
  - split; [discriminate|]. exists 0xE0000000. split; [|vm_compute; reflexivity].
    rewrite scan_addrs_example. constructor.
  - split; [discriminate|]. exists 0xE0002000. split; [|vm_compute; reflexivity].
    rewrite scan_addrs_example. do 2 constructor. constructor.
Defined.

#[export] Instance msi_env_example : MsiEnv | 100 := {
  env_lapic_id := 3; env_xapic_base := 0xFEE00000; read_message _ := MkMessage 0 0 0 1;
}.

Lemma msix_entries_witness :
  ∃ msgs s', msix_entries 0 0x1000 2 (MkIntState 0 0 0 0 (Some {[33 := (h_pci, None)]}) None None)
      = Ret (msgs, s') ∧
    (λ m, msg_data m.2) <$> msgs = [32; 34].
Proof.
  destruct (msix_entries_correct 0 0x1000 2
    (MkIntState 0 0 0 0 (Some {[33 := (h_pci, None)]}) None None) {[33 := (h_pci, None)]} eq_refl)
    as (msgs & s' & E & _ & Hd & _).
  - vm_compute. lia.
  - cbn. lia.
  - exists msgs, s'. split; [exact E|]. rewrite Hd. vm_compute. reflexivity.
Defined.
