(* ===== verification/AhciDma.v ===== *)
(** * AHCI DMA requests and command structures, src/drivers/ahci/mod.rs

    Physical buffers, DMA requests and the in-memory structures of a command: the
    register FIS, the PRDT entries, the command header flags and the port status. *)

From S2P Require Import Prelude BitFields Paging Frames Memory.

Local Open Scope Z_scope.

(** ** Buffers *)

Definition BUDDY_SIZE : list Z := [4096; 4096 * 4; 2 * 1024 * 1024].

Inductive BuddyOrdering : Type := Size4KiB | Size8KiB.
Definition raw_order (o : BuddyOrdering) : Z := match o with Size4KiB => 0 | Size8KiB => 2 end.

Record DmaBuffer : Type := MkDmaBuffer { db_start : Z; db_data_size : Z }.

(** [usize::ceil_div]. *)
Definition ceil_div (self d : Z) : outcome Z :=
  a ← uadd 64 self d; b ← usub a 1; udiv b d.
Definition dma_buffer_sectors (b : DmaBuffer) : outcome Z := ceil_div (db_data_size b) 512.

Inductive DmaCommand : Type := DmaRead.

Record DmaRequest : Type := MkDmaRequest {
  dr_sector : Z; dr_count : Z; dr_buffer : list DmaBuffer; dr_command : DmaCommand;
}.

Inductive AtaCommand : Type :=
  | WriteDma | WriteDmaQueued | WriteMultiple | WriteSectors
  | ReadDma | ReadDmaQueued | ReadMultiple | ReadSectors
  | WriteDmaExt | WriteDmaQueuedExt | WriteMultipleExt | WriteSectorsExt
  | ReadDmaExt | ReadDmaQueuedExt | ReadMultipleExt | ReadSectorsExt
  | Packet | DeviceReset | Service | Nop | NopNopAutopoll | GetMediaStatus
  | FlushCache | FlushCacheExt | DataSetManagement | MediaEject
  | IdentifyPacketDevice | IdentifyDevice | SetFeatures | SetFeaturesEnableReleaseInt
  | SetFeaturesEnableServiceInt | SetFeaturesDisableReleaseInt | SetFeaturesDisableServiceInt.

#[export] Instance AtaCommand_eq_dec : EqDecision AtaCommand.
Proof. solve_decision. Defined.

(** The [repr(u8)] discriminants. *)
Definition ata_code (c : AtaCommand) : Z :=
  match c with
  | WriteDma => 0xCA | WriteDmaQueued => 0xCC | WriteMultiple => 0xC5 | WriteSectors => 0x30
  | ReadDma => 0xC8 | ReadDmaQueued => 0xC7 | ReadMultiple => 0xC4 | ReadSectors => 0x20
  | WriteDmaExt => 0x35 | WriteDmaQueuedExt => 0x36 | WriteMultipleExt => 0x39
  | WriteSectorsExt => 0x34
  | ReadDmaExt => 0x25 | ReadDmaQueuedExt => 0x26 | ReadMultipleExt => 0x29
  | ReadSectorsExt => 0x24
  | Packet => 0xA0 | DeviceReset => 0x08 | Service => 0xA2 | Nop => 0 | NopNopAutopoll => 1
  | GetMediaStatus => 0xDA | FlushCache => 0xE7 | FlushCacheExt => 0xEA
  | DataSetManagement => 0x06 | MediaEject => 0xED
  | IdentifyPacketDevice => 0xA1 | IdentifyDevice => 0xEC | SetFeatures => 0xEF
  | SetFeaturesEnableReleaseInt => 0x5D | SetFeaturesEnableServiceInt => 0x5E
  | SetFeaturesDisableReleaseInt => 0xDD | SetFeaturesDisableServiceInt => 0xDE
  end.

Definition ata_is_lba48 (c : AtaCommand) : bool :=
  match c with ReadDmaExt | WriteDmaExt => true | _ => false end.
Definition ata_is_write (c : AtaCommand) : bool :=
  match c with WriteDmaExt | WriteDma => true | _ => false end.

Section Dma.
Context `{X86Paging} `{PageMapper}.

(** The kernel memory and the ranges of virtual memory zeroed so far. *)
Record DmaMem : Type := MkDmaMem { dm_kmem : KMem; dm_zeroed : list (Z * Z) }.

(** One page, or two for the 8 KiB order. *)
Definition pmm_map (order : BuddyOrdering) (k : KMem) (phys virt : Z) : outcome KMem :=
  match order with
  | Size4KiB => map_page k phys virt kernel_flags
  | Size8KiB =>
      k ← map_page k phys virt kernel_flags;
      phys2 ← uadd 64 phys 4096;
      virt2 ← uadd 64 virt 4096;
      map_page k phys2 virt2 kernel_flags
  end.

Definition pmm_alloc (order : BuddyOrdering) (s : DmaMem) : outcome (Z * DmaMem) :=
  _ ← rassert (raw_order order <=? Z.of_nat (length BUDDY_SIZE));
  '(phys, k) ← falloc_allocate_frame (dm_kmem s);
  off ← get_phys_offset k;
  virt ← uadd 64 phys off;
  k ← pmm_map order k phys virt;
  fill_size ← index BUDDY_SIZE (raw_order order);
  phys ← phys_addr_new phys;
  Ret (phys, MkDmaMem k (dm_zeroed s ++ [(virt, fill_size)])).

(** [while size > 0 { .. }]. *)
Fixpoint dma_alloc_loop (fuel : nat) (size : Z) (buffer : list DmaBuffer) (s : DmaMem)
    : outcome (list DmaBuffer * DmaMem) :=
  match fuel with
  | O => Hang
  | S fuel =>
      if 0 <? size then
        let data_size := Z.min size 0x2000 in
        let ordering := if 0x1000 <? size then Size8KiB else Size4KiB in
        '(start, s) ← pmm_alloc ordering s;
        size ← usub size data_size;
        dma_alloc_loop fuel size (buffer ++ [MkDmaBuffer start data_size]) s
      else Ret (buffer, s)
  end.

Definition dma_request_new (sector count : Z) (s : DmaMem) : outcome (DmaRequest * DmaMem) :=
  size ← umul 64 count 512;
  '(buffer, s) ← dma_alloc_loop (S (S (Z.to_nat (size / 0x2000)))) size [] s;
  Ret (MkDmaRequest sector count buffer DmaRead, s).

(** [into[offset..offset + count].copy_from_slice(bytes)]. *)
Definition copy_slice (into : list Z) (offset count : Z) (bytes : list Z) : outcome (list Z) :=
  e ← uadd 64 offset count;
  if e <=? Z.of_nat (length into) then
    Ret (take (Z.to_nat offset) into ++ bytes ++ drop (Z.to_nat e) into)
  else Panic PBounds.

(** The bytes a device wrote, by virtual address. *)
Definition mem_slice (mem : Z → Z) (a count : Z) : list Z :=
  (λ k : nat, mem (a + Z.of_nat k)) <$> seq 0 (Z.to_nat count).

(** The loop state is the buffer written so far, the offset and what remains. *)
Definition copy_into_step (mem : Z → Z) (off : Z) (st : list Z * Z * Z) (b : DmaBuffer)
    : outcome (list Z * Z * Z) :=
  let '(into, offset, remaining) := st in
  let count := Z.min remaining 0x2000 in
  virt ← uadd 64 (db_start b) off;
  v ← virt_addr_new virt;
  into ← copy_slice into offset count (mem_slice mem v count);
  remaining ← usub remaining count;
  offset ← uadd 64 offset count;
  Ret (into, offset, remaining).

Definition copy_into (mem : Z → Z) (self : DmaRequest) (into : list Z) (k : KMem) : outcome (list Z) :=
  match dr_buffer self with
  | [] => Ret into
  | _ =>
      off ← get_phys_offset k;
      '(into, _, _) ← foldO (copy_into_step mem off) (dr_buffer self) (into, 0, Z.of_nat (length into));
      Ret into
  end.

End Dma.

Definition as_command (self : DmaRequest) : AtaCommand :=
  let lba48 := 0x0FFFFFFF <? dr_sector self in
  match dr_command self with DmaRead => if lba48 then ReadDmaExt else ReadDma end.

(** [&self.buffer[offset / 16..]]. *)
Definition at_offset (self : DmaRequest) (offset : Z) : outcome (list DmaBuffer) :=
  if offset / 16 <=? Z.of_nat (length (dr_buffer self)) then
    Ret (drop (Z.to_nat (offset / 16)) (dr_buffer self))
  else Panic PBounds.

(** ** Command structures *)

Inductive FisType : Type :=
  RegH2D | RegD2H | DmaInit | DmaSetup | FisData | Bist | PioSetup | DevBits.

Record FisRegH2D : Type := MkFis {
  fis_type : FisType; fis_flags : Z; fis_command : AtaCommand; fis_featurel : Z;
  fis_lba0 : Z; fis_lba1 : Z; fis_lba2 : Z; fis_device : Z;
  fis_lba3 : Z; fis_lba4 : Z; fis_lba5 : Z; fis_featureh : Z;
  fis_count : Z; fis_icc : Z; fis_control : Z; fis_reserved : list Z;
}.

Record HbaPrdtEntry : Type := MkPrdt { prdt_dba : Z; prdt_flags : Z }.
Record HbaCmdHeader : Type := MkCmdHeader { ch_flags : Z; ch_prdtl : Z; ch_prdbc : Z; ch_ctb : Z }.

(** The address of a command table's FIS and of its [i]-th PRDT entry. *)
Definition cfis_as_h2d_mut (tbl : Z) : Z := tbl.
Definition prdt_entry_mut (tbl i : Z) : Z := tbl + (64 + 16 + 48) + 16 * i.

Definition W : Z := Z.shiftl 1 6.
Definition P : Z := Z.shiftl 1 7.
Definition C : Z := Z.shiftl 1 10.

Inductive HbaPortDd : Type := DdNone | DdPresentNotE | DdPresentAndE | DdOffline.
Inductive HbaPortIpm : Type := IpmNone | IpmActive | IpmPartial | IpmSlumber | IpmDevSleep.

Section Structures.
Context `{BitField}.

(** The bits are set in the copy that [bits()] returns. *)
Definition set_command_fis_size (flags size : Z) : outcome Z :=
  _ ← set_bits 16 flags 0 5 (wrap 16 size);
  Ret flags.

Definition set_lba (f : FisRegH2D) (lba : Z) : outcome FisRegH2D :=
  _ ← rassert (lba <? 2 ^ 48);
  Ret (MkFis (fis_type f) (fis_flags f) (fis_command f) (fis_featurel f)
         (wrap 8 lba) (wrap 8 (Z.shiftr lba 8)) (wrap 8 (Z.shiftr lba 16)) (fis_device f)
         (wrap 8 (Z.shiftr lba 24)) (wrap 8 (Z.shiftr lba 32)) (wrap 8 (Z.shiftr lba 40))
         (fis_featureh f) (fis_count f) (fis_icc f) (fis_control f) (fis_reserved f)).

Definition set_command (f : FisRegH2D) (yes : bool) : outcome FisRegH2D :=
  flags ← set_bit 8 (fis_flags f) 7 yes;
  Ret (MkFis (fis_type f) flags (fis_command f) (fis_featurel f)
         (fis_lba0 f) (fis_lba1 f) (fis_lba2 f) (fis_device f)
         (fis_lba3 f) (fis_lba4 f) (fis_lba5 f)
         (fis_featureh f) (fis_count f) (fis_icc f) (fis_control f) (fis_reserved f)).

Definition set_data_byte_count (e : HbaPrdtEntry) (count : Z) : outcome HbaPrdtEntry :=
  flags ← set_bits 32 (prdt_flags e) 0 21 (wrap 32 count);
  Ret (MkPrdt (prdt_dba e) flags).

Definition set_interrupt_on_completion (e : HbaPrdtEntry) (yes : bool) : outcome HbaPrdtEntry :=
  flags ← set_bit 32 (prdt_flags e) 31 yes;
  Ret (MkPrdt (prdt_dba e) flags).

Definition device_detection (ssts : Z) : outcome HbaPortDd :=
  v ← get_bits 64 ssts 0 4;
  match v with
  | 0 => Ret DdNone
  | 1 => Ret DdPresentNotE
  | 3 => Ret DdPresentAndE
  | 4 => Ret DdOffline
  | _ => Panic (PMsg "Invalid HbaPortSstsRegDet")
  end.

Definition interface_power_management (ssts : Z) : outcome HbaPortIpm :=
  v ← get_bits 64 ssts 8 12;
  match v with
  | 0 => Ret IpmNone
  | 1 => Ret IpmActive
  | 2 => Ret IpmPartial
  | 6 => Ret IpmSlumber
  | 8 => Ret IpmDevSleep
  | _ => Panic (PMsg "Invalid HbaPortSstsRegIpm")
  end.

End Structures.

#[global] Arguments pmm_alloc {_ _} order s : simpl never.
#[global] Arguments pmm_map {_ _} order k phys virt : simpl never.

(** ** Allocating a request *)

Section DmaTheory.
Context `{X86PagingLaws} `{PageMapperLaws}.

(** The memory a request is allocated from: initialised, with all usable frames
    and the physical-memory window in the lower half. *)
Definition dma_ready (s : DmaMem) (m : pt) (fa : KernelFrameAlloc) (off : Z) : Prop :=
  ready (dm_kmem s) m fa ∧ km_offset (dm_kmem s) = Some off ∧ 0 <= off < 2 ^ 45 ∧
  (∀ f, f ∈ usable_addrs (fa_map fa) → f < 2 ^ 45).

Definition fill_size (o : BuddyOrdering) : Z :=
  match o with Size4KiB => 4096 | Size8KiB => 2 * 1024 * 1024 end.

Lemma pmm_map_spec o k m fa f off :
  ready k m fa → frames_left fa 6 → 0 <= f < 2 ^ 45 → 0 <= off < 2 ^ 45 →
  ∃ m' fa', pmm_map o k f (f + off) = Ret (with_mem k m' fa') ∧ advanced 6 fa fa'.
Proof.
  intros Hk Hfl Hf Ho. unfold pmm_map.
  destruct (map_page_spec k m fa f (f + off) kernel_flags Hk) as (m2 & fa2 & E2 & Ha2 & _);
    [lia|apply canonical_low; lia|eapply frames_left_le; [|done]; lia|].
  rewrite E2. destruct o.
  - exists m2, fa2. split; [done|]. unfold advanced in *. split; [apply Ha2|lia].
  - cbn. rewrite uadd_ret by lia. cbn. rewrite uadd_ret by lia. cbn.
    destruct (map_page_spec (with_mem k m2 fa2) m2 fa2 (f + 4096) (f + off + 4096) kernel_flags)
      as (m3 & fa3 & -> & Ha3 & _);
      [by eapply ready_with_mem|lia|apply canonical_low; lia
      |eapply frames_left_le; [|by eapply frames_left_advanced]; lia|].
    exists m3, fa3. split; [done|]. by eapply advanced_trans.
Qed.

(** One frame is taken whatever the order; what is zeroed is a page, or 2 MiB. *)
Lemma pmm_alloc_spec o s m fa off :
  dma_ready s m fa off → frames_left fa 7 →
  ∃ f s' m' fa', usable_addrs (fa_map fa) !! Z.to_nat (fa_next fa) = Some f ∧
    pmm_alloc o s = Ret (f, s') ∧ dma_ready s' m' fa' off ∧
    dm_zeroed s' = dm_zeroed s ++ [(f + off, fill_size o)] ∧
    advanced 7 fa fa' ∧ fa_next fa < fa_next fa'.
Proof.
  intros (Hk & Ho & Hoff & Hlow) Hfl. unfold pmm_alloc.
  assert (rassert (raw_order o <=? Z.of_nat (length BUDDY_SIZE)) = Ret tt) as -> by (by destruct o).
  cbn [mbind outcome_bind]. unfold falloc_allocate_frame. rewrite (falloc_write_ready _ _ _ Hk). cbn.
  destruct (allocate_frame_left fa 7 Hfl) as (f & fa1 & -> & Hf & Hfa1 & Ha1); [lia|]. cbn.
  rewrite (get_phys_offset_ret (set_falloc (dm_kmem s) fa1) off Ho). cbn.
  destruct (usable_in_map fa _ f (proj1 Hfl) Hf) as (_ & Hal & Hfr).
  pose proof (Hlow f (list_elem_of_lookup_2 _ _ _ Hf)).
  rewrite uadd_ret by lia. cbn.
  destruct (pmm_map_spec o (set_falloc (dm_kmem s) fa1) m fa1 f off) as (m' & fa' & -> & Ha').
  { destruct Hk as (? & ? & _ & ?). by split_and!. }
  { eapply frames_left_le; [|by eapply frames_left_advanced]. lia. }
  { lia. }
  { lia. }
  cbn. assert (index BUDDY_SIZE (raw_order o) = Ret (fill_size o)) as -> by (by destruct o).
  cbn. rewrite phys_addr_new_ok by lia. cbn.
  exists f. eexists. exists m', fa'. split_and!; [done|done| |done|by eapply advanced_trans|].
  - destruct Hk as (? & ? & _ & ?). split_and!; try done; try lia. intros g Hg. apply Hlow.
    unfold advanced in *. destruct_and?. congruence.
  - subst fa1. unfold advanced in *. cbn in *. lia.
Qed.

(** The sizes of the buffers for [size] bytes. *)
Definition buffers_for (size : Z) (bufs : list DmaBuffer) : Prop :=
  Z.of_nat (length bufs) = (size + 0x1fff) / 0x2000 ∧
  ∀ i b, bufs !! i = Some b → db_data_size b = Z.min (size - 0x2000 * Z.of_nat i) 0x2000.

Lemma buffers_for_cons size start bufs :
  0 < size → buffers_for (size - Z.min size 0x2000) bufs →
  buffers_for size (MkDmaBuffer start (Z.min size 0x2000) :: bufs).
Proof.
  intros Hs [Hlen Hb]. split.
  - cbn [length]. rewrite Nat2Z.inj_succ, Hlen. zdm.
  - intros [|i] b; cbn [lookup list_lookup].
    + intros [= <-]. cbn. lia.
    + intros Hi. rewrite (Hb i b Hi).
      pose proof (lookup_lt_Some _ _ _ Hi). zdm.
Qed.

Lemma dma_alloc_loop_spec fuel size acc s m fa off :
  0 <= size → size < 0x2000 * (Z.of_nat fuel - 1) + 1 → 1 <= Z.of_nat fuel →
  dma_ready s m fa off → frames_left fa (7 * ((size + 0x1fff) / 0x2000)) →
  ∃ bufs s' m' fa', dma_alloc_loop fuel size acc s = Ret (acc ++ bufs, s') ∧
    dma_ready s' m' fa' off ∧ buffers_for size bufs ∧
    (∀ b, b ∈ bufs → db_start b ∈ usable_addrs (fa_map fa)).
Proof.
  revert size acc s m fa. induction fuel as [|fuel IH]; intros size acc s m fa Hs Hf Hf1 Hd Hfl; [lia|].
  cbn [dma_alloc_loop]. destruct (Z.ltb_spec 0 size).
  - destruct (pmm_alloc_spec (if 0x1000 <? size then Size8KiB else Size4KiB) s m fa off Hd)
      as (f & s1 & m1 & fa1 & Hf' & -> & Hd1 & _ & Ha1 & _).
    { eapply frames_left_le; [|done]. zdm. }
    cbn [mbind outcome_bind]. rewrite usub_ret by lia. cbn [mbind outcome_bind].
    destruct (IH (size - Z.min size 0x2000) (acc ++ [MkDmaBuffer f (Z.min size 0x2000)]) s1 m1 fa1)
      as (bufs & s' & m' & fa' & -> & Hd' & Hb & Hin); [lia..|done| |].
    { eapply frames_left_le; [|by eapply frames_left_advanced]. zdm. }
    exists (MkDmaBuffer f (Z.min size 0x2000) :: bufs), s', m', fa'.
    rewrite <- app_assoc. split_and!; [done..|by apply buffers_for_cons|].
    intros b [->|Hb']%elem_of_cons; [by eapply list_elem_of_lookup_2|].
    destruct Ha1 as [<- _]. by apply Hin.
  - exists [], s, m, fa. rewrite app_nil_r. split_and!; [done|done| |by intros ??%not_elem_of_nil].
    split; [|done]. assert (size = 0) as -> by lia. done.
Qed.

(** *** Scatter-gather coverage *)

Definition bytes_of (bufs : list DmaBuffer) : Z := foldr Z.add 0 (db_data_size <$> bufs).

(** The first [n] of the buffers from position [i] hold their share of the bytes. *)
Lemma bytes_of_take size bufs i n :
  buffers_for size bufs → (i + n <= length bufs)%nat → 0 <= size →
  bytes_of (take n (drop i bufs)) =
  Z.min (Z.max 0 (size - 0x2000 * Z.of_nat i)) (0x2000 * Z.of_nat n).
Proof.
  intros [Hlen Hb] Hi Hs. revert i Hi. induction n as [|n IH]; intros i Hi.
  - rewrite take_0. cbn. lia.
  - destruct (lookup_lt_is_Some_2 bufs i) as [b Hib]; [lia|].
    rewrite (drop_S bufs b i Hib). cbn [take]. unfold bytes_of in *. cbn [fmap list_fmap foldr].
    rewrite (Hb i b Hib), IH by lia. zdm.
Qed.

Lemma dma_request_buffers sector count s m fa off :
  0 <= count < 2 ^ 40 → dma_ready s m fa off → frames_left fa (7 * ((512 * count + 0x1fff) / 0x2000)) →
  ∃ bufs s' m' fa', dma_request_new sector count s = Ret (MkDmaRequest sector count bufs DmaRead, s') ∧
    dma_ready s' m' fa' off ∧ buffers_for (512 * count) bufs ∧
    ∀ b, b ∈ bufs → db_start b ∈ usable_addrs (fa_map fa).
Proof.
  intros Hc Hd Hfl. unfold dma_request_new. rewrite umul_ret by lia. cbn [mbind outcome_bind].
  replace (count * 512) with (512 * count) by lia.
  destruct (dma_alloc_loop_spec (S (S (Z.to_nat (512 * count / 0x2000)))) (512 * count) [] s m fa off)
    as (bufs & s' & m' & fa' & -> & Hrest); [lia|zdm|lia|done|done|].
  cbn [mbind outcome_bind app]. by exists bufs, s', m', fa'.
Qed.

(** A DMA request of [count] sectors always gets its buffers when memory
    suffices, [count] times 512 bytes in all; and for every chunk of up to 128
    sectors, starting at a multiple of 128, the PRDT entries taken from
    [at_offset] are as many as the command announces and hold exactly the chunk's
    bytes. *)
Theorem dma_request_scatter_gather sector count s m fa off :
  0 <= count < 2 ^ 40 → dma_ready s m fa off →
  frames_left fa (7 * ((512 * count + 0x1fff) / 0x2000)) →
  ∃ req s', dma_request_new sector count s = Ret (req, s') ∧
    dr_sector req = sector ∧ dr_count req = count ∧ bytes_of (dr_buffer req) = 512 * count ∧
    ∀ o, 0 <= o < count → o mod 128 = 0 →
      let c := Z.min (count - o) 128 in
      let length_ := Z.shiftr (c - 1) 4 + 1 in
      ∃ bs, at_offset req o = Ret bs ∧
        Z.of_nat (length (take (Z.to_nat length_) bs)) = length_ ∧ length_ <= 8 ∧
        bytes_of (take (Z.to_nat length_) bs) = 512 * c.
Proof.
  intros Hc Hd Hfl. destruct (dma_request_buffers sector count s m fa off Hc Hd Hfl)
    as (bufs & s' & m' & fa' & -> & _ & Hb & _).
  do 2 eexists. split; [done|]. cbn [dr_sector dr_count dr_buffer].
  pose proof (proj1 Hb) as Hlen. split_and!; [done..| |].
  - pose proof (bytes_of_take (512 * count) bufs 0 (length bufs) Hb) as Ht.
    rewrite drop_0, firstn_all in Ht. rewrite Ht, Hlen by lia. zdm.
  - intros o Ho Hmod. set (c := Z.min (count - o) 128). set (len := Z.shiftr (c - 1) 4 + 1).
    unfold at_offset. cbn [dr_buffer].
    assert (1 <= c <= 128 ∧ len = (c + 15) / 16) as [Hcr Hlen'].
    { unfold len. rewrite Z.shiftr_div_pow2 by lia. change (2 ^ 4) with 16. unfold c. zdm. }
    assert (Z.of_nat (length bufs) = (count + 15) / 16) as Hlen16 by (rewrite Hlen; zdm).
    assert (∃ q, o = 128 * q ∧ o / 16 = 8 * q ∧ 0 <= q) as (q & Hq & Hq16 & Hq0).
    { exists (o / 128). zdm. }
    rewrite Hq16. destruct (Z.leb_spec (8 * q) (Z.of_nat (length bufs))); [|unfold c in *; zdm].
    eexists. split; [done|].
    assert (0 <= len <= 8 ∧ 8 * q + len <= (count + 15) / 16) as [Hl8 Hle].
    { rewrite Hlen'. unfold c in *. zdm. }
    rewrite length_take, length_drop. split_and!; [lia|lia|].
    rewrite (bytes_of_take (512 * count)) by (done || lia).
    rewrite !Z2Nat.id by lia. rewrite Hlen'. unfold c in *. zdm.
Qed.

End DmaTheory.

(** ** The encodings *)

(** The sector a FIS addresses. *)
Definition fis_lba (f : FisRegH2D) : Z :=
  from_le_bytes [fis_lba0 f; fis_lba1 f; fis_lba2 f; fis_lba3 f; fis_lba4 f; fis_lba5 f].

(** [set_lba] stores the sector's 48 bits. *)
Lemma set_lba_spec f lba :
  0 <= lba < 2 ^ 48 → ∃ f', set_lba f lba = Ret f' ∧ fis_lba f' = lba ∧
    fis_type f' = fis_type f ∧ fis_flags f' = fis_flags f ∧ fis_command f' = fis_command f ∧
    fis_count f' = fis_count f ∧ fis_device f' = fis_device f.
Proof.
  intros Hl. unfold set_lba. destruct (Z.ltb_spec lba (2 ^ 48)); [|lia]. cbn [rassert mbind outcome_bind].
  eexists. split; [done|]. split; [|done]. unfold fis_lba.
  cbn [fis_lba0 fis_lba1 fis_lba2 fis_lba3 fis_lba4 fis_lba5]. unfold wrap.
  rewrite !Z.shiftr_div_pow2 by lia.
  change (2 ^ 8) with 256. change (2 ^ 16) with (256 * 256). change (2 ^ 24) with (256 * 256 * 256).
  change (2 ^ 32) with (256 * 256 * 256 * 256). change (2 ^ 40) with (256 * 256 * 256 * 256 * 256).
  rewrite <- !Z.div_div by lia.
  change (from_le_bytes (to_le_bytes 6 lba) = lba). rewrite from_to_le_bytes by lia.
  apply Z.mod_small. change (256 ^ Z.of_nat 6) with (2 ^ 48). lia.
Qed.

Section EncodingTheory.
Context `{BitFieldLaws}.

(** The FIS length never reaches the header's flags. *)
Lemma set_command_fis_size_no_effect flags size :
  0 <= size < 32 → set_command_fis_size flags size = Ret flags.
Proof.
  intros Hs. unfold set_command_fis_size. rewrite wrap_small by (unfold is_uN; lia).
  by rewrite set_bits_ok by (cbn; lia).
Qed.

(** A PRDT entry announces its byte count, and the interrupt flag. *)
Lemma prdt_entry_spec e n yes :
  0 <= n < 2 ^ 21 → ∃ e1 e2, set_data_byte_count e n = Ret e1 ∧
    set_interrupt_on_completion e1 yes = Ret e2 ∧ prdt_dba e2 = prdt_dba e ∧
    bits_of (prdt_flags e2) 0 21 = n ∧ Z.testbit (prdt_flags e2) 31 = yes.
Proof.
  intros Hn. unfold set_data_byte_count, set_interrupt_on_completion.
  rewrite wrap_small by (unfold is_uN; lia). rewrite set_bits_ok by (cbn; lia).
  cbn [mbind outcome_bind prdt_flags prdt_dba]. do 2 eexists. split; [done|].
  cbn [prdt_flags]. rewrite set_bit_ok by lia. cbn [mbind outcome_bind].
  split; [done|]. cbn [prdt_dba prdt_flags]. split; [done|].
  split; [|destruct yes; by rewrite ?Z.setbit_eq, ?Z.clearbit_eq by lia].
  trans (bits_of (with_bits (prdt_flags e) 0 21 n) 0 21); [|apply bits_of_with_bits; cbn; lia].
  apply Z.bits_inj'. intros i Hi. rewrite !bits_of_testbit by lia.
  destruct (Z.ltb_spec i (21 - 0)); [|done]. cbn [andb].
  destruct yes; [rewrite Z.setbit_neq|rewrite Z.clearbit_neq]; done || lia.
Qed.

End EncodingTheory.

(** ** Concrete runs *)

Lemma dma_request_witness :
  ∃ req s', dma_request_new 7 20 (MkDmaMem kmem_example []) = Ret (req, s') ∧
    bytes_of (dr_buffer req) = 10240 ∧ ∃ bs, at_offset req 0 = Ret bs ∧ bytes_of (take 2 bs) = 10240.
Proof.
  destruct (dma_request_scatter_gather 7 20 (MkDmaMem kmem_example []) ∅ (falloc_new big_map) 0)
    as (req & s' & E & _ & _ & Hb & Ho); [lia| | |].
  - split_and!; [apply kmem_example_ready|done|lia|lia|exact big_map_low].
  - by apply big_map_left.
  - exists req, s'. split_and!; [done|by rewrite Hb|].
    destruct (Ho 0) as (bs & Hbs & _ & _ & Hby); [lia|done|]. exists bs. split; [done|]. exact Hby.
Defined.
