(* ===== verification/AhciPort.v ===== *)
(** * The AHCI port driver, src/drivers/ahci/mod.rs

    Ports, command slots and the driver's start-up, over the registers of a
    controller that is not part of the kernel: [HbaDevice] names what a volatile
    read and write of a register answer and do, for any controller.  A register is
    addressed by its memory-mapped address, which the [repr(C)] structures fix; the
    command headers, FIS and PRDT entries live in memory, by virtual address. *)

From S2P Require Import Prelude BitFields Paging Frames Memory PciIds AhciDma.

Local Open Scope Z_scope.

(** ** Registers *)

Class HbaDevice : Type := {
  dev : Type;
  dev_read : Z → dev → Z * dev;    (* a volatile read at an address *)
  dev_write : Z → Z → dev → dev;
  dev_ram : dev → Z → Z;           (* the bytes the controller has stored *)
}.

(** The fields of [HbaPort], with their sizes, in the order of the source. *)
Inductive PortField : Type :=
  | f_clb | f_fb | f_is | f_ie | f_cmd | f_reserved | f_tfd | f_sig | f_ssts | f_sctl | f_serr
  | f_sact | f_ci | f_sntf | f_fbs | f_devslp | f_reserved_1 | f_vendor.

#[export] Instance PortField_eq_dec : EqDecision PortField.
Proof. solve_decision. Defined.

(** Field, size and alignment. *)
Definition HbaPort : list (PortField * Z * Z) :=
  [(f_clb, 8, 8); (f_fb, 8, 8); (f_is, 4, 4); (f_ie, 4, 4); (f_cmd, 4, 4); (f_reserved, 4, 4);
   (f_tfd, 4, 4); (f_sig, 4, 4); (f_ssts, 8, 8); (f_sctl, 4, 4); (f_serr, 4, 4); (f_sact, 4, 4);
   (f_ci, 4, 4); (f_sntf, 4, 4); (f_fbs, 4, 4); (f_devslp, 4, 4); (f_reserved_1, 40, 4);
   (f_vendor, 16, 4)].

Definition align_up (x a : Z) : Z := (x + a - 1) / a * a.

(** [repr(C)]: each field at the next offset of its alignment; the size is rounded
    up to the largest alignment. *)
Fixpoint repr_c (fs : list (PortField * Z * Z)) (at_ : Z) : list (PortField * Z) * Z :=
  match fs with
  | [] => ([], at_)
  | (f, size, align) :: fs =>
      let o := align_up at_ align in
      let '(os, e) := repr_c fs (o + size) in ((f, o) :: os, e)
  end.

Definition port_field (f : PortField) : Z :=
  match list_find (λ x, x.1 = f) (repr_c HbaPort 0).1 with Some (_, (_, o)) => o | None => 0 end.
Definition size_of_HbaPort : Z := align_up (repr_c HbaPort 0).2 8.

(** The [HbaMemory] registers the driver uses, and the end of the structure. *)
Definition global_host_control : Z := 0x04.
Definition interrupt_status : Z := 0x08.
Definition ports_implemented : Z := 0x0C.
Definition version : Z := 0x10.
Definition bios_handoff_ctrl_sts : Z := 0x28.
Definition size_of_HbaMemory : Z := 0x100.

Definition port_mut (hba port : Z) : Z := hba + size_of_HbaMemory + size_of_HbaPort * port.

(** Register flags. *)
Definition OOS : Z := 0x2.
Definition OOC : Z := 0x8.
Definition IE : Z := 0x2.
Definition TFES : Z := Z.shiftl 1 30.
Definition HbaPortIE_all : Z := 0xFDC000FF.
Definition ST : Z := Z.shiftl 1 0.
Definition SUD : Z := Z.shiftl 1 1.
Definition POD : Z := Z.shiftl 1 2.
Definition FRE : Z := Z.shiftl 1 4.
Definition FR : Z := Z.shiftl 1 14.
Definition CR : Z := Z.shiftl 1 15.

Definition contains (flags f : Z) : bool := Z.land flags f =? f.
Definition intersects (flags f : Z) : bool := negb (Z.land flags f =? 0).

(** ** Command memory *)

Record CmdMem : Type := MkCmdMem {
  cm_header : Z → HbaCmdHeader; cm_fis : Z → FisRegH2D; cm_prdt : Z → HbaPrdtEntry;
}.

Definition set_header (c : CmdMem) (a : Z) (h : HbaCmdHeader) : CmdMem :=
  MkCmdMem (λ x, if x =? a then h else cm_header c x) (cm_fis c) (cm_prdt c).
Definition set_fis (c : CmdMem) (a : Z) (f : FisRegH2D) : CmdMem :=
  MkCmdMem (cm_header c) (λ x, if x =? a then f else cm_fis c x) (cm_prdt c).
Definition set_prdt (c : CmdMem) (a : Z) (p : HbaPrdtEntry) : CmdMem :=
  MkCmdMem (cm_header c) (cm_fis c) (λ x, if x =? a then p else cm_prdt c x).

(** [slice.fill(0x00)] over the structures that start in the slice.  A zero byte is no
    [FisType]; the driver writes the type before anything reads it. *)
Definition zero_range (c : CmdMem) (r : Z * Z) : CmdMem :=
  let '(virt, size) := r in
  let hit a := (virt <=? a) && (a <? virt + size) in
  MkCmdMem (λ a, if hit a then MkCmdHeader 0 0 0 0 else cm_header c a)
    (λ a, if hit a then MkFis (fis_type (cm_fis c a)) 0 Nop 0 0 0 0 0 0 0 0 0 0 0 0 [0; 0; 0; 0] else cm_fis c a)
    (λ a, if hit a then MkPrdt 0 0 else cm_prdt c a).

(** [AhciPortProtected]: the port's registers and its command slots. *)
Record AhciPortProtected : Type := MkPort {
  ap_address : Z; ap_cmds : list (option DmaRequest); ap_free_cmds : Z;
}.

(** [AhciPort::new]. *)
Definition AhciPort_new (address : Z) : AhciPortProtected := MkPort address (replicate 32 None) 32.

(** A PCI header as the driver sees it: the BARs of a normal header, and the
    command register's three flags. *)
Record AhciHeader : Type := MkAhciHeader {
  ah_bars : option (list Z); ah_io_space : bool; ah_memory_space : bool; ah_bus_master : bool;
}.

Definition enable_interrupts (h : AhciHeader) : AhciHeader := MkAhciHeader (ah_bars h) false true true.

Section Port.
Context `{X86Paging} `{PageMapper} `{BitField} `{HbaDevice}.

Record AhciState : Type := MkAhci { as_mem : DmaMem; as_cmd : CmdMem; as_dev : dev }.

Definition km (s : AhciState) : KMem := dm_kmem (as_mem s).
Definition with_cmd (s : AhciState) (c : CmdMem) : AhciState := MkAhci (as_mem s) c (as_dev s).
Definition with_dev (s : AhciState) (d : dev) : AhciState := MkAhci (as_mem s) (as_cmd s) d.
Definition with_km (s : AhciState) (k : KMem) : AhciState :=
  MkAhci (MkDmaMem k (dm_zeroed (as_mem s))) (as_cmd s) (as_dev s).
(** After allocations: what they have zeroed is zeroed in the command structures too. *)
Definition with_dma (s : AhciState) (m : DmaMem) : AhciState :=
  MkAhci m (foldl zero_range (as_cmd s) (drop (length (dm_zeroed (as_mem s))) (dm_zeroed m))) (as_dev s).

(** [VolatileCell::get] and [set] of a register. *)
Definition rd (a : Z) (s : AhciState) : Z * AhciState :=
  let '(v, d) := dev_read a (as_dev s) in (v, with_dev s d).
Definition wr (a v : Z) (s : AhciState) : AhciState := with_dev s (dev_write a v (as_dev s)).
Definition prd (port : Z) (f : PortField) (s : AhciState) : Z * AhciState := rd (port + port_field f) s.
Definition pwr (port : Z) (f : PortField) (v : Z) (s : AhciState) : AhciState :=
  wr (port + port_field f) v s.

Definition cmd_header_at (port index : Z) (s : AhciState) : outcome (Z * AhciState) :=
  let '(clb, s) := prd port f_clb s in
  off ← get_phys_offset (km s);
  a ← uadd 64 clb off;
  clb_mapped ← virt_addr_new a;
  o ← umul 64 32 index;
  a ← uadd 64 clb_mapped o;
  a ← virt_addr_new a;
  Ret (a, s).

(** [while self.cmd.get().contains(CR) {}], and the command engine. *)
Fixpoint spin_while (fuel : nat) (port : Z) (busy : Z → bool) (s : AhciState) : outcome AhciState :=
  match fuel with
  | O => Hang
  | S fuel =>
      let '(cmd, s) := prd port f_cmd s in
      if busy cmd then spin_while fuel port busy s else Ret s
  end.

Definition start_cmd (fuel : nat) (port : Z) (s : AhciState) : outcome AhciState :=
  s ← spin_while fuel port (λ c, contains c CR) s;
  let '(cmd, s) := prd port f_cmd s in
  Ret (pwr port f_cmd (Z.lor cmd (Z.lor FRE ST)) s).

Definition stop_cmd (fuel : nat) (port : Z) (s : AhciState) : outcome AhciState :=
  let '(cmd, s) := prd port f_cmd s in
  let s := pwr port f_cmd (Z.land cmd (unot 32 (Z.lor FRE ST))) s in
  spin_while fuel port (λ c, intersects c (Z.lor FR CR)) s.

(** The page of the table frame is mapped with its virtual address as the frame
    and its physical address as the page. *)
Definition start_map (frame_addr page_addr : Z) (s : AhciState) (size : Z) : outcome AhciState :=
  a ← uadd 64 page_addr size;
  phys ← virt_addr_new a;
  a ← uadd 64 frame_addr size;
  virt ← phys_addr_new a;
  k ← map_page (km s) phys virt kernel_flags;
  Ret (with_km s k).

Definition start_header (port frame_addr : Z) (s : AhciState) (i : Z) : outcome AhciState :=
  '(a, s) ← cmd_header_at port i s;
  ctb ← phys_addr_new (frame_addr + 256 * i);
  Ret (with_cmd s (set_header (as_cmd s) a (MkCmdHeader (ch_flags (cm_header (as_cmd s) a)) 8 0 ctb))).

Definition port_indices : list Z := Z.of_nat <$> seq 0 32.

Definition port_start (fuel : nat) (port : Z) (s : AhciState) : outcome AhciState :=
  s ← stop_cmd fuel port s;
  '(frame_addr, m) ← pmm_alloc Size8KiB (as_mem s);
  let s := with_dma s m in
  off ← get_phys_offset (km s);
  page_addr ← uadd 64 off frame_addr;
  s ← foldO (start_map frame_addr page_addr) [0; 0x1000] s;
  s ← foldO (start_header port frame_addr) port_indices s;
  let '(clb, s) := prd port f_clb s in
  let s := pwr port f_clb clb s in
  let '(fb, s) := prd port f_fb s in
  let s := pwr port f_fb fb s in
  let '(is_, s) := prd port f_is s in
  let s := pwr port f_is is_ s in
  let s := pwr port f_ie HbaPortIE_all s in
  let '(sctl, s) := prd port f_sctl s in
  let s := pwr port f_sctl (Z.lor sctl (Z.shiftl 7 8)) s in
  let s := pwr port f_cmd (Z.lor POD SUD) s in
  start_cmd fuel port s.

Definition probe (fuel : nat) (port : Z) (s : AhciState) : outcome (bool * AhciState) :=
  let '(status, s) := prd port f_ssts s in
  ipm ← interface_power_management status;
  dd ← device_detection status;
  match dd, ipm with
  | DdPresentAndE, IpmActive => s ← port_start fuel port s; Ret (true, s)
  | _, _ => Ret (false, s)
  end.

(** *** Running a command *)

(** The [pri]-th PRDT entry of the table at [tbl]. *)
Definition run_prdt (tbl length_ : Z) (buffer : list DmaBuffer) (c : CmdMem) (pri : Z)
    : outcome CmdMem :=
  let a := prdt_entry_mut tbl pri in
  b ← index buffer pri;
  let e := MkPrdt (db_start b) (prdt_flags (cm_prdt c a)) in
  n ← usub (db_data_size b) 1;
  e ← set_data_byte_count e n;
  last ← usub length_ 1;
  e ← set_interrupt_on_completion e (pri =? last);
  Ret (set_prdt c a e).

Definition run_fis (command : AtaCommand) (sector count : Z) (f : FisRegH2D) : outcome FisRegH2D :=
  let f := MkFis RegH2D (fis_flags f) command 0
             (fis_lba0 f) (fis_lba1 f) (fis_lba2 f) (Z.shiftl 1 6)
             (fis_lba3 f) (fis_lba4 f) (fis_lba5 f) 0 (wrap 16 count) 0 0 [0; 0; 0; 0] in
  f ← set_lba f sector;
  set_command f true.

(** The command header's flags: write or read, prefetchable, clear busy. *)
Definition run_flags (command : AtaCommand) (flags : Z) : outcome Z :=
  let flags := if bool_decide (command = WriteDmaExt) || bool_decide (command = WriteDma)
               then Z.lor flags W else Z.land flags (unot 16 W) in
  set_command_fis_size (Z.lor flags (Z.lor P C)) (20 / 4).

(** [while (tfd == 0x80 || tfd == 0x08) && spin > 0]: what is left of [spin]. *)
Fixpoint busy_wait (spin : nat) (port : Z) (s : AhciState) : nat * AhciState :=
  let '(t, s) := prd port f_tfd s in
  let '(busy, s) := if t =? 0x80 then (true, s)
                    else let '(t, s) := prd port f_tfd s in (t =? 0x08, s) in
  match spin with
  | O => (O, s)
  | S spin' => if (busy : bool) then busy_wait spin' port s else (spin, s)
  end.

(** [while self.ci.get() & (1 << slot) == 1 { .. }]. *)
Fixpoint wait_done (fuel : nat) (port bit : Z) (s : AhciState) : outcome AhciState :=
  match fuel with
  | O => Hang
  | S fuel =>
      let '(ci, s) := prd port f_ci s in
      if Z.land ci bit =? 1 then
        let '(is_, s) := prd port f_is s in
        if contains is_ TFES then let '(_, s) := prd port f_serr s in Ret s
        else wait_done fuel port bit s
      else Ret s
  end.

(** Everything of [run_command] up to the issue of the command. *)
Definition build_command (command : AtaCommand) (port sector count slot : Z) (buffer : list DmaBuffer)
    (s : AhciState) : outcome AhciState :=
  '(a, s) ← cmd_header_at port slot s;
  let h := cm_header (as_cmd s) a in
  flags ← run_flags command (ch_flags h);
  c1 ← usub count 1;
  let length_ := Z.shiftr c1 4 + 1 in
  let c := set_header (as_cmd s) a (MkCmdHeader flags (wrap 16 length_) (ch_prdbc h) (ch_ctb h)) in
  off ← get_phys_offset (km s);
  t ← uadd 64 off (ch_ctb h);
  tbl ← virt_addr_new t;
  c ← foldO (run_prdt tbl length_ buffer)
        (Z.of_nat <$> seq 0 (Nat.min (length buffer) (Z.to_nat length_))) c;
  let fa := cfis_as_h2d_mut tbl in
  f ← run_fis command sector count (cm_fis c fa);
  Ret (with_cmd s (set_fis c fa f)).

Definition run_command (fuel : nat) (command : AtaCommand) (port sector count slot : Z)
    (buffer : list DmaBuffer) (s : AhciState) : outcome AhciState :=
  s ← build_command command port sector count slot buffer s;
  bit ← ushl 32 1 slot;
  let s := pwr port f_ci bit s in
  let '(spin, s) := busy_wait 100 port s in
  match spin with
  | O => Ret s
  | S _ => wait_done fuel port bit s
  end.

(** *** Requests *)

(** The first empty slot. *)
Definition free_slot (cmds : list (option DmaRequest)) : option nat :=
  fst <$> list_find (λ e, e = None) cmds.

Fixpoint protected_loop (n fuel : nat) (request : DmaRequest) (remaining offset : Z)
    (p : AhciPortProtected) (s : AhciState) : outcome (Z * AhciPortProtected * AhciState) :=
  match n with
  | O => Hang
  | S n =>
      if 0 <? remaining then
        match free_slot (ap_cmds p) with
        | None => Ret (offset, p, s)
        | Some slot =>
            let count := Z.min remaining 128 in
            sector ← uadd 64 (dr_sector request) offset;
            buffer ← at_offset request offset;
            s ← run_command fuel (as_command request) (ap_address p) sector count (Z.of_nat slot)
                  buffer s;
            remaining ← usub remaining count;
            offset ← uadd 64 offset count;
            cmds ← index_set (ap_cmds p) (Z.of_nat slot) (Some request);
            free ← usub (ap_free_cmds p) 1;
            protected_loop n fuel request remaining offset (MkPort (ap_address p) cmds free) s
        end
      else Ret (offset, p, s)
  end.

(** Chunks of at most 128 sectors. *)
Definition chunks (remaining : Z) : nat := Z.to_nat ((remaining + 127) / 128).

Definition protected_run_request (fuel : nat) (request : DmaRequest) (offset : Z)
    (p : AhciPortProtected) (s : AhciState) : outcome (Z * AhciPortProtected * AhciState) :=
  remaining ← usub (dr_count request) offset;
  protected_loop (S (chunks remaining)) fuel request remaining offset p s.

(** [while offset < request.count { .. }]. *)
Fixpoint request_loop (n fuel : nat) (request : DmaRequest) (offset : Z)
    (p : AhciPortProtected) (s : AhciState) : outcome (AhciPortProtected * AhciState) :=
  match n with
  | O => Hang
  | S n =>
      if offset <? dr_count request then
        '(offset, p, s) ← protected_run_request fuel request offset p s;
        request_loop n fuel request offset p s
      else Ret (p, s)
  end.

Definition port_run_request (n fuel : nat) (request : DmaRequest) (p : AhciPortProtected) (s : AhciState)
    : outcome (option Z * AhciPortProtected * AhciState) :=
  '(p, s) ← request_loop n fuel request 0 p s;
  r ← umul 64 (dr_count request) 512;
  Ret (Some r, p, s).

Definition port_read (n fuel : nat) (sector : Z) (buffer : list Z) (p : AhciPortProtected) (s : AhciState)
    : outcome (option Z * list Z * AhciPortProtected * AhciState) :=
  a ← uadd 64 (Z.of_nat (length buffer)) 512;
  b ← usub a 1;
  let count := b / 512 in
  '(request, m) ← dma_request_new sector count (as_mem s);
  '(result, p, s) ← port_run_request n fuel request p (with_dma s m);
  match result with
  | Some r => buffer ← copy_into (dev_ram (as_dev s)) request buffer (km s); Ret (Some r, buffer, p, s)
  | None => Ret (None, buffer, p, s)
  end.

(** *** Start-up *)

Definition start_port (fuel : nat) (hba pi : Z) (st : list (option AhciPortProtected) * AhciState) (i : Z)
    : outcome (list (option AhciPortProtected) * AhciState) :=
  let '(ports, s) := st in
  b ← get_bit 32 pi i;
  if (b : bool) then
    let port := port_mut hba i in
    '(up, s) ← probe fuel port s;
    if (up : bool) then
      address ← virt_addr_new port;
      ports ← index_set ports i (Some (AhciPort_new address));
      Ret (ports, s)
    else Ret (ports, s)
  else Ret (ports, s).

Definition start_hba (fuel : nat) (hba : Z) (ports : list (option AhciPortProtected)) (s : AhciState)
    : outcome (list (option AhciPortProtected) * AhciState) :=
  let s := wr (hba + bios_handoff_ctrl_sts) (Z.lor OOC OOS) s in
  let '(ghc, s) := rd (hba + global_host_control) s in
  let s := wr (hba + global_host_control) (Z.lor ghc IE) s in
  let '(_, s) := rd (hba + version) s in
  let '(pi, s) := rd (hba + ports_implemented) s in
  foldO (start_port fuel hba pi) port_indices (ports, s).

(** The test read of sector 0 on every port that is up. *)
Fixpoint test_reads (n fuel : nat) (ports : list (option AhciPortProtected)) (s : AhciState)
    : outcome (list (option AhciPortProtected) * AhciState) :=
  match ports with
  | [] => Ret ([], s)
  | None :: ports => '(ports, s) ← test_reads n fuel ports s; Ret (None :: ports, s)
  | Some p :: ports =>
      '(_, _, p, s) ← port_read n fuel 0 (replicate 512 0) p s;
      '(ports, s) ← test_reads n fuel ports s;
      Ret (Some p :: ports, s)
  end.

Definition start_driver (n fuel : nat) (header : AhciHeader) (ports : list (option AhciPortProtected))
    (s : AhciState) : outcome (AhciHeader * list (option AhciPortProtected) * AhciState) :=
  match ah_bars header with
  | None => Panic (PMsg "AHCI: Not a normal header")
  | Some bars =>
      abar ← index bars 5;
      v ← virt_addr_new abar;
      off ← get_phys_offset (km s);
      abar_virt ← uadd 64 (page_containing v) off;
      k ← map_page (km s) abar abar_virt kernel_flags;
      let s := with_km s k in
      hba ← virt_addr_new abar_virt;
      '(ports, s) ← start_hba fuel hba ports s;
      let header := enable_interrupts header in
      '(ports, s) ← test_reads n fuel ports s;
      Ret (header, ports, s)
  end.

(** [AhciDriver::handles] and [AhciDriver::start]. *)
Definition ahci_handles (vendor : Z) (kind : DeviceKind) : bool :=
  bool_decide (kind = SataController).

Definition ahci_start (n fuel : nat) (pci_driver_count : Z) (header : AhciHeader)
    (ports : list (option AhciPortProtected)) (s : AhciState)
    : outcome (AhciHeader * list (option AhciPortProtected) * AhciState) :=
  if pci_driver_count =? 1 then start_driver n fuel header ports s
  else Ret (header, ports, s).

(** The disk interrupt: acknowledge the controller, then every port that is up.
    [locked] says whether the interrupted code holds the driver's write lock, as
    [start_driver]'s caller does; [eoi] ends the interrupt at the local APIC. *)
Definition ahci_ack (s : AhciState) (p : option AhciPortProtected) : AhciState :=
  match p with
  | None => s
  | Some p => let '(st, s) := prd (ap_address p) f_is s in pwr (ap_address p) f_is st s
  end.

Definition ahci_interrupt (locked : bool) (eoi : AhciState → outcome AhciState) (hba : Z)
    (ports : list (option AhciPortProtected)) (s : AhciState) : outcome AhciState :=
  if locked then Hang
  else
    let '(status, s) := rd (hba + interrupt_status) s in
    let s := wr (hba + interrupt_status) status s in
    eoi (foldl ahci_ack s ports).

End Port.

(** [ssts] is eight bytes wide, so the registers after it, [ci] among them, lie
    four bytes higher than [ssts : u32] would put them, and a port has 0x88 bytes. *)
Lemma hba_port_layout :
  port_field f_ssts = 0x28 ∧ port_field f_sctl = 0x30 ∧ port_field f_serr = 0x34 ∧
  port_field f_ci = 0x3C ∧ size_of_HbaPort = 0x88.
Proof. by vm_compute. Qed.

#[global] Arguments port_field f : simpl never.
#[global] Arguments prd {_ _} port f s : simpl never.
#[global] Arguments pwr {_ _} port f v s : simpl never.

Section PortTheory.
Context `{X86PagingLaws} `{PageMapperLaws} `{BitFieldLaws} `{HbaDevice}.

(** ** Building a command *)

(** The entry [e] describes buffer [b]; [last] asks for an interrupt. *)
Definition prdt_describes (e : HbaPrdtEntry) (b : DmaBuffer) (last : bool) : Prop :=
  prdt_dba e = db_start b ∧ bits_of (prdt_flags e) 0 21 = db_data_size b - 1 ∧
  Z.testbit (prdt_flags e) 31 = last.

Definition buffer_ok (b : DmaBuffer) : Prop := 1 <= db_data_size b <= 0x2000.

Lemma run_prdt_spec tbl len bs c pri b :
  1 <= len → 0 <= pri → bs !! Z.to_nat pri = Some b → buffer_ok b →
  ∃ e, run_prdt tbl len bs c pri = Ret (set_prdt c (prdt_entry_mut tbl pri) e) ∧
       prdt_describes e b (pri =? len - 1).
Proof.
  intros Hl Hp Hb Hok. unfold run_prdt, buffer_ok in *. rewrite (index_ret _ _ b) by done.
  cbn [mbind outcome_bind]. rewrite (usub_ret (db_data_size b)) by lia. cbn [mbind outcome_bind].
  destruct (prdt_entry_spec (MkPrdt (db_start b) (prdt_flags (cm_prdt c (prdt_entry_mut tbl pri))))
              (db_data_size b - 1) (pri =? len - 1)) as (e1 & e2 & -> & E2 & Hd & Hn & Hi); [lia|].
  cbn [mbind outcome_bind]. rewrite usub_ret by lia. cbn [mbind outcome_bind].
  rewrite E2. cbn [mbind outcome_bind]. by exists e2.
Qed.

Lemma run_prdts_spec tbl len bs c m :
  1 <= len → (m <= length bs)%nat → Forall buffer_ok bs →
  ∃ c', foldO (run_prdt tbl len bs) (Z.of_nat <$> seq 0 m) c = Ret c' ∧
    cm_header c' = cm_header c ∧ cm_fis c' = cm_fis c ∧
    (∀ i b, (i < m)%nat → bs !! i = Some b →
      prdt_describes (cm_prdt c' (prdt_entry_mut tbl (Z.of_nat i))) b (Z.of_nat i =? len - 1)) ∧
    ∀ a, a < tbl + 128 ∨ tbl + 128 + 16 * Z.of_nat m <= a → cm_prdt c' a = cm_prdt c a.
Proof.
  intros Hl Hm Hbs. induction m as [|m IH].
  - exists c. split_and!; [done..| |done]. lia.
  - destruct IH as (c1 & E & Hh & Hf & Hp & Hk); [lia|].
    rewrite seq_S, fmap_app, foldO_app, E. cbn [mbind outcome_bind fmap list_fmap foldO].
    destruct (lookup_lt_is_Some_2 bs m) as [b Hb]; [lia|].
    destruct (run_prdt_spec tbl len bs c1 (Z.of_nat (0 + m)) b) as (e & -> & He); [done|lia| | |].
    { by rewrite Nat2Z.id. }
    { by eapply Forall_lookup_1. }
    cbn [mbind outcome_bind]. eexists. split; [done|].
    cbn [set_prdt cm_header cm_fis cm_prdt]. unfold prdt_entry_mut in *. split_and!; [done..| |].
    + intros i b' Hi Hb'.
      destruct (Z.eqb_spec (tbl + (64 + 16 + 48) + 16 * Z.of_nat i)
                           (tbl + (64 + 16 + 48) + 16 * Z.of_nat (0 + m))).
      * assert (i = m) as -> by lia. by simplify_eq.
      * apply Hp; [|done]. lia.
    + intros a Ha. destruct (Z.eqb_spec a (tbl + (64 + 16 + 48) + 16 * Z.of_nat (0 + m))); [lia|].
      apply Hk. lia.
Qed.

Lemma run_flags_spec command flags :
  is_uN 16 flags → ∃ fl, run_flags command flags = Ret fl ∧ contains fl (Z.lor P C) = true ∧
    Z.testbit fl 6 = ata_is_write command ∧ is_uN 16 fl.
Proof.
  intros Hf. unfold run_flags. change (20 / 4) with 5.
  rewrite set_command_fis_size_no_effect by lia.
  eexists. split; [done|]. split_and!.
  - apply Z.eqb_eq. generalize (if bool_decide (command = WriteDmaExt) || bool_decide (command = WriteDma)
      then Z.lor flags W else Z.land flags (unot 16 W)). intros x.
    apply Z.bits_inj'. intros i Hi. rewrite Z.land_spec, !Z.lor_spec.
    by destruct (Z.testbit x i), (Z.testbit P i), (Z.testbit C i).
  - rewrite Z.lor_spec. change (Z.testbit (Z.lor P C) 6) with false. rewrite orb_false_r.
    destruct command; cbn [ata_is_write]; repeat case_bool_decide; try done; cbn [orb];
      rewrite ?Z.lor_spec, ?Z.land_spec; change (Z.testbit W 6) with true;
      change (Z.testbit (unot 16 W) 6) with false; by rewrite ?orb_true_r, ?andb_false_r.
  - apply lor_uN; [lia| |by vm_compute]. destruct (_ || _); [apply lor_uN|apply land_uN];
      lia || done || by vm_compute.
Qed.

Lemma run_fis_spec command sector count f :
  0 <= sector < 2 ^ 48 → is_uN 16 count →
  ∃ f', run_fis command sector count f = Ret f' ∧ fis_type f' = RegH2D ∧ fis_command f' = command ∧
    fis_lba f' = sector ∧ fis_count f' = count ∧ fis_device f' = 0x40 ∧ Z.testbit (fis_flags f') 7 = true.
Proof.
  intros Hs Hc. unfold run_fis. rewrite (wrap_small 16 count) by done.
  match goal with |- context [set_lba ?g _] =>
    destruct (set_lba_spec g sector Hs) as (f' & -> & Hl & Ht & Hfl & Hcm & Hct & Hd) end.
  cbn [mbind outcome_bind]. unfold set_command. rewrite set_bit_ok by lia. cbn [mbind outcome_bind].
  eexists. split; [done|]. cbn [fis_type fis_command fis_count fis_device fis_flags].
  split_and!; try done. by rewrite Z.setbit_eq by lia.
Qed.

(** The header and the command table of a slot are where the port's [clb] and the
    header's [ctb] say, in the physical-memory window of the lower half. *)
Definition header_addr (clb off slot : Z) : Z := clb + off + 32 * slot.

Definition slot_ready (port clb off slot : Z) (s : AhciState) : Prop :=
  (prd port f_clb s).1 = clb ∧ km_offset (km s) = Some off ∧ 0 <= clb ∧ 0 <= off ∧
  clb + off < 2 ^ 46 ∧ 0 <= slot < 32 ∧
  let h := cm_header (as_cmd s) (header_addr clb off slot) in
  0 <= ch_ctb h ∧ off + ch_ctb h < 2 ^ 46 ∧ is_uN 16 (ch_flags h).

Lemma cmd_header_at_ret port clb off slot s :
  (prd port f_clb s).1 = clb → km_offset (km s) = Some off → 0 <= clb → 0 <= off → clb + off < 2 ^ 46 →
  0 <= slot < 32 →
  cmd_header_at port slot s = Ret (header_addr clb off slot, (prd port f_clb s).2).
Proof.
  intros Hc Ho ? ? ? ?. unfold cmd_header_at.
  destruct (prd port f_clb s) as [c s1] eqn:E. cbn [fst snd] in *. subst c.
  assert (km s1 = km s) as ->.
  { unfold prd, rd in E. destruct (dev_read _ _). by injection E as <- <-. }
  rewrite (get_phys_offset_ret _ off Ho). cbn [mbind outcome_bind].
  rewrite uadd_ret by lia. cbn [mbind outcome_bind].
  rewrite virt_addr_new_ok by (unfold canonical; lia). cbn [mbind outcome_bind].
  rewrite umul_ret by lia. cbn [mbind outcome_bind].
  rewrite uadd_ret by lia. cbn [mbind outcome_bind].
  by rewrite virt_addr_new_ok by (unfold canonical; lia).
Qed.

Lemma cmd_header_at_spec port clb off slot s :
  slot_ready port clb off slot s →
  cmd_header_at port slot s = Ret (header_addr clb off slot, (prd port f_clb s).2).
Proof. intros (? & ? & ? & ? & ? & ? & _). by apply cmd_header_at_ret. Qed.

Lemma prd_frame port f s :
  as_mem (prd port f s).2 = as_mem s ∧ as_cmd (prd port f s).2 = as_cmd s.
Proof. unfold prd, rd. by destruct (dev_read _ _). Qed.

(** The command in slot [slot] of memory [c]. *)
Definition command_built (c : CmdMem) (clb off slot tbl : Z) (command : AtaCommand) (sector count : Z)
    (bs : list DmaBuffer) : Prop :=
  let h := cm_header c (header_addr clb off slot) in
  let f := cm_fis c tbl in
  let len := (count + 15) / 16 in
  off + ch_ctb h = tbl ∧ ch_prdtl h = len ∧ contains (ch_flags h) (Z.lor P C) = true ∧
  Z.testbit (ch_flags h) 6 = ata_is_write command ∧ is_uN 16 (ch_flags h) ∧
  fis_type f = RegH2D ∧ fis_command f = command ∧ fis_lba f = sector ∧ fis_count f = count ∧
  fis_device f = 0x40 ∧ Z.testbit (fis_flags f) 7 = true ∧
  ∀ i b, Z.of_nat i < len → bs !! i = Some b →
    prdt_describes (cm_prdt c (prdt_entry_mut tbl (Z.of_nat i))) b (Z.of_nat i =? len - 1).

(** Nothing is written but the header at [a] and the table at [tbl]. *)
Definition kept_outside (c c' : CmdMem) (a tbl : Z) : Prop :=
  (∀ x, x ≠ a → cm_header c' x = cm_header c x) ∧ (∀ x, x ≠ tbl → cm_fis c' x = cm_fis c x) ∧
  ∀ x, x < tbl + 128 ∨ tbl + 256 <= x → cm_prdt c' x = cm_prdt c x.

Lemma build_command_spec command port sector count clb off slot bs s :
  slot_ready port clb off slot s → 1 <= count <= 128 → 0 <= sector < 2 ^ 48 →
  Forall buffer_ok bs → (count + 15) / 16 <= Z.of_nat (length bs) →
  let a := header_addr clb off slot in
  ∃ c', build_command command port sector count slot bs s =
      Ret (with_cmd (prd port f_clb s).2 c') ∧
    command_built c' clb off slot (off + ch_ctb (cm_header (as_cmd s) a)) command sector count bs ∧
    kept_outside (as_cmd s) c' a (off + ch_ctb (cm_header (as_cmd s) a)).
Proof.
  intros Hr Hc Hs Hbs Hlen a. unfold build_command.
  rewrite (cmd_header_at_spec port clb off slot s Hr). cbn [mbind outcome_bind].
  destruct (prd_frame port f_clb s) as [Hm Hcm]. unfold km. rewrite Hm, Hcm.
  destruct Hr as (_ & Ho & Hclb & Hoff & Hlow & Hslot & Hct & Hctl & Hfl).
  fold a in Hct, Hctl, Hfl |- *. set (h := cm_header (as_cmd s) a) in *.
  destruct (run_flags_spec command (ch_flags h) Hfl) as (fl & -> & Hpc & Hw & Hfl').
  cbn [mbind outcome_bind]. rewrite usub_ret by lia. cbn [mbind outcome_bind].
  assert (Z.shiftr (count - 1) 4 + 1 = (count + 15) / 16) as ->.
  { rewrite Z.shiftr_div_pow2 by lia. change (2 ^ 4) with 16. zdm. }
  set (len := (count + 15) / 16) in *. assert (1 <= len <= 8) as Hl8 by (unfold len; zdm).
  rewrite (wrap_small 16 len) by (unfold is_uN; lia).
  rewrite (get_phys_offset_ret (dm_kmem (as_mem s)) off Ho). cbn [mbind outcome_bind].
  rewrite uadd_ret by lia. cbn [mbind outcome_bind].
  rewrite virt_addr_new_ok by (unfold canonical; lia). cbn [mbind outcome_bind].
  rewrite Nat.min_r by lia.
  destruct (run_prdts_spec (off + ch_ctb h) len bs
              (set_header (as_cmd s) a (MkCmdHeader fl len (ch_prdbc h) (ch_ctb h))) (Z.to_nat len))
    as (c1 & -> & Hh1 & Hf1 & Hp1 & Hk1); [lia|lia|done|].
  cbn [mbind outcome_bind]. unfold cfis_as_h2d_mut.
  destruct (run_fis_spec command sector count (cm_fis c1 (off + ch_ctb h)))
    as (f & -> & Hf); [done|unfold is_uN; lia|].
  cbn [mbind outcome_bind]. eexists. split; [done|].
  cbn [set_fis cm_header cm_fis cm_prdt]. split.
  - unfold command_built. cbn [set_fis cm_header cm_fis cm_prdt]. fold a len.
    rewrite Hh1. cbn [set_header cm_header]. rewrite !Z.eqb_refl. cbn [ch_ctb ch_prdtl ch_flags].
    destruct Hf as (? & ? & ? & ? & ? & ?). split_and!; try done; try apply Hfl'.
    intros i b Hi Hb. apply Hp1; [lia|done].
  - split_and!; intros x Hx; cbn [set_fis cm_header cm_fis cm_prdt].
    + rewrite Hh1. cbn [set_header cm_header]. by rewrite (proj2 (Z.eqb_neq x a) Hx).
    + rewrite (proj2 (Z.eqb_neq x _) Hx). by rewrite Hf1.
    + rewrite Hk1 by lia. done.
Qed.

(** For a slot other than 0 the masked [ci] is never 1: one read and the wait is over. *)
Lemma wait_done_slot fuel port slot s :
  1 <= slot < 32 → wait_done (S fuel) port (2 ^ slot) s = Ret (prd port f_ci s).2.
Proof.
  intros Hs. cbn [wait_done]. destruct (prd port f_ci s) as [ci s1]. cbn [snd].
  destruct (Z.eqb_spec (Z.land ci (2 ^ slot)) 1) as [E|]; [|done].
  apply (f_equal (λ x, Z.testbit x 0)) in E.
  rewrite Z.land_spec, Z.pow2_bits_false, andb_false_r in E by lia. done.
Qed.

(** C8: a command for at most 128 sectors is laid out as the controller expects
    (header, register FIS, one PRDT entry per buffer with an interrupt on the last),
    only the bit of its slot is written to [ci], and then the driver polls [tfd] at
    most 100 times; in slot 0 it goes on to wait for completion or an error, in every
    other slot it returns after one read of [ci], whether the command is done or not. *)
Theorem run_command_correct command port sector count clb off slot bs s :
  slot_ready port clb off slot s → 1 <= count <= 128 → 0 <= sector < 2 ^ 48 →
  Forall buffer_ok bs → (count + 15) / 16 <= Z.of_nat (length bs) →
  ∃ c', command_built c' clb off slot
          (off + ch_ctb (cm_header (as_cmd s) (header_addr clb off slot))) command sector count bs ∧
    ∀ fuel, run_command (S fuel) command port sector count slot bs s =
      let '(spin, s2) := busy_wait 100 port (pwr port f_ci (2 ^ slot) (with_cmd (prd port f_clb s).2 c')) in
      if bool_decide (spin = O) then Ret s2
      else if slot =? 0 then wait_done (S fuel) port 1 s2 else Ret (prd port f_ci s2).2.
Proof.
  intros Hr Hc Hs Hbs Hlen.
  destruct (build_command_spec command port sector count clb off slot bs s Hr Hc Hs Hbs Hlen)
    as (c' & E & Hb & _).
  exists c'. split; [done|]. intros fuel. unfold run_command. rewrite E. cbn [mbind outcome_bind].
  assert (0 <= slot < 32) as Hsl by apply Hr. rewrite ushl_ret by lia. cbn [mbind outcome_bind].
  rewrite Z.shiftl_1_l, wrap_small
    by (split; [apply Z.pow_nonneg; lia|apply Z.pow_lt_mono_r; lia]).
  destruct (busy_wait 100 port _) as [[|spin] s2]; [done|]. cbn [bool_decide decide].
  destruct (Z.eqb_spec slot 0) as [->|]; [done|]. rewrite wait_done_slot by lia. done.
Qed.

(** ** Command slots *)

Definition free_of (cmds : list (option DmaRequest)) : Z :=
  Z.of_nat (length (filter (λ e, e = None) cmds)).

Lemma free_of_use cmds i r :
  cmds !! i = Some None → free_of (<[i := Some r]> cmds) = free_of cmds - 1.
Proof.
  intros Hi. unfold free_of. rewrite insert_take_drop by (by eapply lookup_lt_Some).
  assert (length (filter (λ e, e = None) cmds) =
          length (filter (λ e, e = None) (take i cmds ++ None :: drop (S i) cmds))) as ->
    by (by rewrite take_drop_middle).
  rewrite !filter_app, !filter_cons, !length_app, decide_False, decide_True by done. cbn [length]. lia.
Qed.

Lemma free_slot_cases cmds :
  (free_slot cmds = None ∧ free_of cmds = 0) ∨
  (∃ i, free_slot cmds = Some i ∧ cmds !! i = Some None ∧ 1 <= free_of cmds).
Proof.
  unfold free_slot. destruct (list_find _ cmds) as [[i e]|] eqn:E; cbn [fmap option_fmap option_map fst].
  - right. apply list_find_Some in E as (Hi & -> & _). exists i. split_and!; [done..|].
    rewrite <- (take_drop_middle cmds i None Hi). unfold free_of.
    rewrite filter_app, filter_cons, length_app, decide_True by done. cbn [length]. lia.
  - left. split; [done|]. apply list_find_None in E. unfold free_of.
    clear -E. induction E as [|e l He _ IH]; [done|]. by rewrite filter_cons, decide_False by done.
Qed.

(** Waiting touches neither the kernel's memory nor the command structures. *)
Definition same_memory (s s' : AhciState) : Prop := as_mem s' = as_mem s ∧ as_cmd s' = as_cmd s.

Lemma busy_wait_frame spin port s : same_memory s (busy_wait spin port s).2.
Proof.
  revert s. induction spin as [|spin IH]; intros s; cbn [busy_wait];
    destruct (prd_frame port f_tfd s) as [Hm Hc]; destruct (prd port f_tfd s) as [t s1];
    cbn [snd] in *; destruct (t =? 0x80);
    try (destruct (prd_frame port f_tfd s1) as [Hm1 Hc1]; destruct (prd port f_tfd s1) as [t1 s2];
         cbn [snd] in *).
  - by split.
  - split; cbn [snd]; congruence.
  - destruct (IH s1). split; congruence.
  - destruct (t1 =? 8); [destruct (IH s2)|cbn [snd]]; split; congruence.
Qed.

Lemma wait_done_cases fuel port bit s :
  (∃ s', wait_done fuel port bit s = Ret s' ∧ same_memory s s') ∨ wait_done fuel port bit s = Hang.
Proof.
  revert s. induction fuel as [|fuel IH]; intros s; cbn [wait_done]; [by right|].
  destruct (prd_frame port f_ci s) as [Hm Hc]. destruct (prd port f_ci s) as [ci s1]. cbn [snd] in *.
  destruct (_ =? 1); [|left; exists s1; by split].
  destruct (prd_frame port f_is s1) as [Hm1 Hc1]. destruct (prd port f_is s1) as [v s2]. cbn [snd] in *.
  destruct (contains v TFES).
  - destruct (prd_frame port f_serr s2) as [Hm2 Hc2]. destruct (prd port f_serr s2) as [w s3].
    cbn [snd] in *. left. exists s3. split; [done|]. split; congruence.
  - destruct (IH s2) as [(s' & -> & ? & ?)| ->]; [left|by right]. exists s'. split; [done|].
    split; congruence.
Qed.

(** A port whose command list is in place: the controller keeps the address of
    the list, and the 32 headers point to their tables. *)
Definition port_ready (p : AhciPortProtected) (clb off : Z) (s : AhciState) : Prop :=
  (∀ d, (dev_read (ap_address p + port_field f_clb) d).1 = clb) ∧
  ∀ slot, 0 <= slot < 32 → slot_ready (ap_address p) clb off slot s.

(** The wait for a command always ends. *)
Definition prompt (fuel : nat) (port : Z) : Prop := ∀ bit s, wait_done fuel port bit s ≠ Hang.

Lemma port_ready_frame p p' clb off s s' :
  port_ready p clb off s → ap_address p' = ap_address p → as_mem s' = as_mem s →
  (∀ slot, 0 <= slot < 32 →
    let a := header_addr clb off slot in
    ch_ctb (cm_header (as_cmd s') a) = ch_ctb (cm_header (as_cmd s) a) ∧
    is_uN 16 (ch_flags (cm_header (as_cmd s') a))) →
  port_ready p' clb off s'.
Proof.
  intros [Hd Hs] Hp Hm Hc. split; [by rewrite Hp|]. intros slot Hslot.
  destruct (Hs slot Hslot) as (_ & Ho & ? & ? & ? & ? & ? & ? & ?). destruct (Hc slot Hslot) as [Ht Hfl].
  rewrite Hp. unfold slot_ready, km in *. rewrite Hm, Ht.
  split; [|do 7 (split; [done|]); exact Hfl].
  unfold prd, rd. specialize (Hd (as_dev s')). by destruct (dev_read _ _).
Qed.

Lemma run_command_cases fuel command p sector count clb off slot bs s :
  port_ready p clb off s → 0 <= slot < 32 → 1 <= count <= 128 → 0 <= sector < 2 ^ 48 →
  Forall buffer_ok bs → (count + 15) / 16 <= Z.of_nat (length bs) →
  (∃ s', run_command fuel command (ap_address p) sector count slot bs s = Ret s' ∧
     port_ready p clb off s' ∧ as_mem s' = as_mem s ∧
     let a := header_addr clb off slot in let tbl := off + ch_ctb (cm_header (as_cmd s) a) in
     command_built (as_cmd s') clb off slot tbl command sector count bs ∧
     kept_outside (as_cmd s) (as_cmd s') a tbl) ∨
  (run_command fuel command (ap_address p) sector count slot bs s = Hang ∧
   ¬ prompt fuel (ap_address p)).
Proof.
  intros Hr Hsl Hc Hs Hbs Hlen. set (port := ap_address p) in *.
  destruct (build_command_spec command port sector count clb off slot bs s (proj2 Hr slot Hsl) Hc Hs Hbs Hlen)
    as (c' & E & Hb & Hne).
  unfold run_command. rewrite E. cbn [mbind outcome_bind]. rewrite ushl_ret by lia. cbn [mbind outcome_bind].
  set (s1 := pwr port f_ci _ _). assert (as_mem s1 = as_mem s ∧ as_cmd s1 = c') as [Hm1 Hc1].
  { by destruct (prd_frame port f_clb s). }
  assert (∀ s', same_memory s1 s' → port_ready p clb off s' ∧ as_mem s' = as_mem s ∧
      command_built (as_cmd s') clb off slot (off + ch_ctb (cm_header (as_cmd s) (header_addr clb off slot)))
        command sector count bs ∧
      kept_outside (as_cmd s) (as_cmd s') (header_addr clb off slot)
        (off + ch_ctb (cm_header (as_cmd s) (header_addr clb off slot)))) as Hready.
  { intros s' [Hm Hcm]. split; [|split; [congruence|by rewrite Hcm, Hc1]].
    apply (port_ready_frame p p clb off s); [done..|congruence|].
    intros slot' Hs'. cbn zeta. rewrite Hcm, Hc1.
    destruct (decide (slot' = slot)) as [->|].
    - destruct Hb as (Ht & _ & _ & _ & Hfl & _). split; [lia|done].
    - rewrite (proj1 Hne) by (unfold header_addr; lia). split; [done|]. apply (proj2 Hr slot' Hs'). }
  pose proof (busy_wait_frame 100 port s1) as Hbw. destruct (busy_wait 100 port s1) as [[|spin] s2];
    cbn [snd] in Hbw; [left; eauto|].
  destruct (wait_done_cases fuel port (wrap 32 (Z.shiftl 1 slot)) s2) as [(s' & -> & Hw)|Hh].
  - left. exists s'. split; [done|]. apply Hready. destruct Hbw, Hw. split; congruence.
  - right. split; [done|]. intros Hp. by apply Hp in Hh.
Qed.

(** A request as [DmaRequest::new] makes it. *)
Definition request_ok (r : DmaRequest) : Prop :=
  0 <= dr_sector r ∧ 0 <= dr_count r ∧ dr_sector r + dr_count r <= 2 ^ 48 ∧
  Forall buffer_ok (dr_buffer r) ∧ Z.of_nat (length (dr_buffer r)) = (dr_count r + 15) / 16.

Definition slots_wf (p : AhciPortProtected) : Prop :=
  length (ap_cmds p) = 32%nat ∧ ap_free_cmds p = free_of (ap_cmds p).

Lemma slots_wf_free p : slots_wf p → 0 <= ap_free_cmds p.
Proof. intros [_ ->]. unfold free_of. lia. Qed.

(** The buffers of the chunk at [o]. *)
Lemma at_offset_chunk r o :
  request_ok r → 0 <= o < dr_count r → o mod 128 = 0 →
  ∃ bs, at_offset r o = Ret bs ∧ Forall buffer_ok bs ∧
        (Z.min (dr_count r - o) 128 + 15) / 16 <= Z.of_nat (length bs).
Proof.
  intros (_ & _ & _ & Hbs & Hlen) Ho Hmod. unfold at_offset.
  destruct (Z.leb_spec (o / 16) (Z.of_nat (length (dr_buffer r)))); [|rewrite Hlen in *; zdm].
  eexists. split_and!; [done|by apply Forall_drop|]. rewrite length_drop.
  assert (0 <= o / 16) by (apply Z.div_pos; lia). rewrite Nat2Z.inj_sub, Hlen, Z2Nat.id by lia. zdm.
Qed.

Lemma slots_wf_use p i r :
  slots_wf p → ap_cmds p !! i = Some None →
  slots_wf (MkPort (ap_address p) (<[i := Some r]> (ap_cmds p)) (ap_free_cmds p - 1)).
Proof.
  intros [Hl Hf] Hi. split; cbn [ap_cmds ap_free_cmds]; [by rewrite length_insert|].
  rewrite free_of_use by done. lia.
Qed.

(** One call of [AhciPortProtected::run_request] serves as many chunks as there
    are free slots. *)
Lemma protected_loop_spec n fuel r remaining offset p s clb off :
  request_ok r → port_ready p clb off s → slots_wf p →
  0 <= offset → 0 <= remaining → offset + remaining = dr_count r →
  (0 < remaining → offset mod 128 = 0) → (chunks remaining < n)%nat →
  (∃ p' s', protected_loop n fuel r remaining offset p s =
      Ret (offset + Z.min remaining (128 * ap_free_cmds p), p', s') ∧
     port_ready p' clb off s' ∧ slots_wf p' ∧ ap_address p' = ap_address p ∧
     ap_free_cmds p' = Z.max 0 (ap_free_cmds p - Z.of_nat (chunks remaining))) ∨
  (protected_loop n fuel r remaining offset p s = Hang ∧ ¬ prompt fuel (ap_address p)).
Proof.
  intros Hr. revert remaining offset p s.
  induction n as [|n IH]; intros remaining offset p s Hp Hwf Ho Hrem Hsum Hmod Hn; [lia|].
  cbn [protected_loop]. destruct (Z.ltb_spec 0 remaining).
  2:{ pose proof (slots_wf_free p Hwf). assert (remaining = 0) as -> by lia. left. exists p, s.
      rewrite Z.min_l, Z.add_0_r by lia. do 4 (split; [done|]). change (chunks 0) with 0%nat. lia. }
  destruct (free_slot_cases (ap_cmds p)) as [[-> Hf]|(i & -> & Hi & Hf)].
  { left. exists p, s. rewrite (proj2 Hwf), Hf. rewrite Z.mul_0_r, Z.min_r, Z.add_0_r by lia.
    do 4 (split; [done|]). lia. }
  pose proof Hr as (Hs0 & Hc0 & Hs48 & _).
  rewrite (uadd_ret 64 (dr_sector r) offset) by lia. cbn [mbind outcome_bind].
  destruct (at_offset_chunk r offset Hr) as (bs & -> & Hbs & Hlen); [lia|by apply Hmod|].
  cbn [mbind outcome_bind]. set (count := Z.min remaining 128).
  pose proof (lookup_lt_Some _ _ _ Hi) as Hi32. rewrite (proj1 Hwf) in Hi32.
  destruct (run_command_cases fuel (as_command r) p (dr_sector r + offset) count clb off (Z.of_nat i) bs s)
    as [(s1 & -> & Hp1 & _)|[-> Hpr]]; [done|lia|lia|lia|done| | |by right].
  { unfold count. by replace remaining with (dr_count r - offset) by lia. }
  cbn [mbind outcome_bind]. rewrite (usub_ret remaining count) by lia. cbn [mbind outcome_bind].
  rewrite (uadd_ret 64 offset count) by lia. cbn [mbind outcome_bind].
  rewrite index_set_ret by (rewrite (proj1 Hwf); lia). cbn [mbind outcome_bind]. rewrite Nat2Z.id.
  rewrite usub_ret by (rewrite (proj2 Hwf); lia). cbn [mbind outcome_bind].
  set (p1 := MkPort _ _ _).
  assert (Z.of_nat (chunks remaining) = (remaining + 127) / 128 ∧
          Z.of_nat (chunks (remaining - count)) = (remaining + 127) / 128 - 1) as [Hch Hch'].
  { unfold chunks. rewrite !Z2Nat.id; unfold count; split || idtac; zdm. }
  destruct (IH (remaining - count) (offset + count) p1 s1)
    as [(p' & s' & -> & ? & ? & ? & Hf')|[-> ?]]; try lia; try done.
  - by apply slots_wf_use.
  - unfold count in *. intros. specialize (Hmod ltac:(lia)). zdm.
  - left. exists p', s'. cbn [p1 ap_free_cmds] in *. pose proof (slots_wf_free p Hwf).
    rewrite <- (proj2 Hwf) in Hf. split; [|do 3 (split; [done|]); lia].
    do 3 f_equal. unfold count. lia.
  - by right.
Qed.

(** With no slot left, the request is retried forever. *)
Lemma request_loop_stuck n fuel r offset p s :
  slots_wf p → ap_free_cmds p = 0 → offset < dr_count r → request_loop n fuel r offset p s = Hang.
Proof.
  intros Hwf Hf Ho. induction n as [|n IH]; [done|]. cbn [request_loop].
  destruct (Z.ltb_spec offset (dr_count r)); [|lia]. unfold protected_run_request.
  rewrite usub_ret by lia. cbn [mbind outcome_bind protected_loop].
  destruct (Z.ltb_spec 0 (dr_count r - offset)); [|lia].
  destruct (free_slot_cases (ap_cmds p)) as [[-> _]|(i & _ & _ & ?)]; [done|].
  destruct Hwf as [_ Hw]. lia.
Qed.

(** C17: a slot is taken for every chunk of 128 sectors and never given back: a
    request with at most as many chunks as there are free slots completes, on a
    controller whose commands end, and leaves that many slots fewer; a request with
    more never returns, whatever the controller does. *)
Theorem requests_exhaust_slots r p s clb off :
  request_ok r → port_ready p clb off s → slots_wf p →
  let n := Z.of_nat (chunks (dr_count r)) in
  (n <= ap_free_cmds p → ∀ iters fuel, prompt fuel (ap_address p) →
   ∃ p' s', port_run_request (S (S iters)) fuel r p s = Ret (Some (512 * dr_count r), p', s') ∧
     port_ready p' clb off s' ∧ slots_wf p' ∧ ap_free_cmds p' = ap_free_cmds p - n) ∧
  (ap_free_cmds p < n → ∀ iters fuel, port_run_request iters fuel r p s = Hang).
Proof.
  intros Hr Hp Hwf n. pose proof Hr as (? & Hc & ? & _). pose proof (slots_wf_free p Hwf) as Hf0.
  assert (n = (dr_count r + 127) / 128) as Hn.
  { unfold n, chunks. rewrite Z2Nat.id; zdm. }
  assert (∀ fuel, (∃ p' s', protected_run_request fuel r 0 p s =
        Ret (Z.min (dr_count r) (128 * ap_free_cmds p), p', s') ∧ port_ready p' clb off s' ∧
        slots_wf p' ∧ ap_free_cmds p' = Z.max 0 (ap_free_cmds p - n)) ∨
      (protected_run_request fuel r 0 p s = Hang ∧ ¬ prompt fuel (ap_address p))) as Hone.
  { intros fuel. unfold protected_run_request. rewrite usub_ret, Z.sub_0_r by lia.
    cbn [mbind outcome_bind].
    destruct (protected_loop_spec (S (chunks (dr_count r))) fuel r (dr_count r) 0 p s clb off)
      as [(p' & s' & E & ? & ? & _ & ?)|[E ?]]; try done; try lia; rewrite E; [left|by right].
    by exists p', s'. }
  unfold port_run_request. split.
  - intros Hle iters fuel Hpr. cbn [request_loop]. destruct (Z.ltb_spec 0 (dr_count r)).
    + destruct (Hone fuel) as [(p' & s' & -> & Hp' & Hwf' & Hf)|[_ []]]; [|done].
      cbn [mbind outcome_bind]. rewrite Z.min_l by zdm. rewrite Z.ltb_irrefl. cbn [mbind outcome_bind].
      rewrite umul_ret by lia. cbn [mbind outcome_bind]. exists p', s'.
      split; [by rewrite Z.mul_comm|]. do 2 (split; [done|]). lia.
    + cbn [mbind outcome_bind]. rewrite umul_ret by lia. cbn [mbind outcome_bind]. exists p, s.
      split; [by rewrite Z.mul_comm|]. do 2 (split; [done|]). rewrite Hn in *. zdm.
  - intros Hlt iters fuel. destruct iters as [|iters]; [done|]. cbn [request_loop].
    destruct (Z.ltb_spec 0 (dr_count r)); [|zdm].
    destruct (Hone fuel) as [(p' & s' & -> & Hp' & Hwf' & Hf)|[-> _]]; [|done].
    cbn [mbind outcome_bind]. rewrite request_loop_stuck; [done|done|lia|zdm].
Qed.

(** ** Starting a port *)

(** The arguments of [map_page!] are swapped: the frame mapped is the one at the
    window's virtual address, the page the one at the frame's physical address. *)
Lemma start_map_swapped frame page size s m fa :
  ready (km s) m fa → frames_left fa 3 → 0 <= page → 0 <= frame → 0 <= size →
  page + size < 2 ^ 46 → frame + size < 2 ^ 46 →
  ∃ m' fa', start_map frame page s size = Ret (with_km s (with_mem (km s) m' fa')) ∧ advanced 3 fa fa' ∧
    ∀ q, translate m' q =
      map_view m (page_containing (frame + size)) (frame_containing (page + size), kernel_flags) q.
Proof.
  intros Hk Hfl ? ? ? ? ?. unfold start_map.
  rewrite (uadd_ret 64 page) by lia. cbn [mbind outcome_bind].
  rewrite virt_addr_new_ok by (unfold canonical; lia). cbn [mbind outcome_bind].
  rewrite (uadd_ret 64 frame) by lia. cbn [mbind outcome_bind].
  rewrite phys_addr_new_ok by lia. cbn [mbind outcome_bind].
  destruct (map_page_spec (km s) m fa (page + size) (frame + size) kernel_flags Hk)
    as (m' & fa' & -> & Ha & Hv); [lia|apply canonical_low; lia|done|].
  exists m', fa'. split; [done|]. split; [done|]. intros q. apply Hv.
Qed.

End PortTheory.

(** ** Concrete runs *)

(** A controller with its command list at 0x100000 whose commands are done at
    once and have left [ram] in memory; it remembers what was written to it. *)
Definition loaded_device (ram : Z → Z) : HbaDevice := {|
  dev := list (Z * Z);
  dev_read a d := (if a =? 0xF100 then 0x100000 else 0, d);
  dev_write a v d := d ++ [(a, v)];
  dev_ram _ := ram;
|}.
Definition quiet_device : HbaDevice := loaded_device (λ _, 0).

Definition fis_example : FisRegH2D := MkFis RegH2D 0 Nop 0 0 0 0 0 0 0 0 0 0 0 0 [0; 0; 0; 0].

Definition ahci_loaded (k : KMem) (ram : Z → Z) : @AhciState page_mapper_model (loaded_device ram) :=
  @MkAhci page_mapper_model (loaded_device ram) (MkDmaMem k [])
    (MkCmdMem (λ a, MkCmdHeader 0 8 0 (0x200000 + 256 * ((a - 0x100000) / 32)))
       (λ _, fis_example) (λ _, MkPrdt 0 0)) [].
Definition ahci_example : @AhciState page_mapper_model quiet_device := ahci_loaded kmem_example (λ _, 0).

Definition request_example : DmaRequest :=
  MkDmaRequest 5 200 ((λ i : nat, MkDmaBuffer (0x300000 + 0x2000 * Z.of_nat i)
                         (Z.min (512 * 200 - 0x2000 * Z.of_nat i) 0x2000)) <$> seq 0 13) DmaRead.

Lemma port_ready_loaded k ram cmds free :
  km_offset k = Some 0 → port_ready (MkPort 0xF100 cmds free) 0x100000 0 (ahci_loaded k ram).
Proof.
  intros Hk. split; [done|]. intros slot Hslot. unfold slot_ready, header_addr.
  cbn [ap_address as_cmd ahci_loaded cm_header ch_ctb ch_flags].
  replace (0x100000 + 0 + 32 * slot - 0x100000) with (slot * 32) by lia. rewrite Z.div_mul by lia.
  split; [done|]. split; [done|]. split_and!; lia || done.
Qed.

Lemma port_ready_example cmds free : port_ready (MkPort 0xF100 cmds free) 0x100000 0 ahci_example.
Proof. by apply port_ready_loaded. Qed.

Lemma request_example_ok : request_ok request_example.
Proof.
  split_and!; try (cbn; lia); [|done].
  unfold request_example. cbn. repeat constructor; cbn; unfold buffer_ok; cbn; lia.
Qed.

(** A read of 16 sectors in slot 3: issued, and not waited for. *)
Lemma run_command_witness :
  ∃ c' s', ch_prdtl (cm_header c' (header_addr 0x100000 0 3)) = 1 ∧ fis_lba (cm_fis c' 0x200300) = 5 ∧
    run_command 1 ReadDma 0xF100 5 16 3 [MkDmaBuffer 0x5000 0x2000] ahci_example = Ret s' ∧
    as_cmd s' = c' ∧ as_dev s' = [(0xF13C, 8)].
Proof.
  destruct (run_command_correct ReadDma 0xF100 5 16 0x100000 0 3 [MkDmaBuffer 0x5000 0x2000] ahci_example)
    as (c' & Hb & Hrun).
  - by apply (port_ready_example [] 0).
  - lia.
  - lia.
  - repeat constructor; unfold buffer_ok; cbn; lia.
  - by vm_compute.
  - exists c'. eexists. destruct Hb as (_ & Hp & _ & _ & _ & _ & _ & Hl & _).
    split; [exact Hp|]. split; [exact Hl|]. rewrite (Hrun 0%nat). split; [reflexivity|].
    split; reflexivity.
Defined.

Lemma requests_witness :
  (∃ p' s', port_run_request 2 1 request_example (AhciPort_new 0xF100) ahci_example =
     Ret (Some 102400, p', s') ∧ ap_free_cmds p' = 30) ∧
  ∀ iters fuel, port_run_request iters fuel request_example
    (MkPort 0xF100 (None :: replicate 31 (Some request_example)) 1) ahci_example = Hang.
Proof.
  split.
  - destruct (requests_exhaust_slots request_example (AhciPort_new 0xF100) ahci_example 0x100000 0
                request_example_ok (port_ready_example _ _)) as [Hok _]; [done|].
    destruct (Hok ltac:(by vm_compute) 0%nat 1%nat) as (p' & s' & E & _ & _ & Hf).
    { intros bit s. done. }
    exists p', s'. change (512 * dr_count request_example) with 102400 in E.
    split; [exact E|]. rewrite Hf. reflexivity.
  - destruct (requests_exhaust_slots request_example
                (MkPort 0xF100 (None :: replicate 31 (Some request_example)) 1) ahci_example 0x100000 0
                request_example_ok (port_ready_example _ _)) as [_ Hbad]; [done|].
    by apply Hbad.
Defined.
