(* ===== verification/AhciRead.v ===== *)
(** * Reading from a disk, src/drivers/ahci/mod.rs

    What [AhciPort::read] puts into the caller's buffer, for a controller that carries out
    the commands the driver has laid out: the command list, the register FIS and the PRDT
    entries are read back from command memory the way the controller reads them.  That the
    controller carries commands out is a hypothesis about it; whether it hears of them
    depends on the registers behind [ssts], which AhciPort finds four bytes off.  Command
    memory and the bytes the controller stores are two parts of the state: the hypothesis
    on the transfers is that the controller follows the commands as the driver left them,
    so it also excludes a buffer in the frame that the upper half of the command tables
    runs into (AhciStart). *)

From S2P Require Import Prelude BitFields Paging Frames Memory PciIds AhciDma AhciPort.

Local Open Scope Z_scope.

(** ** The controller's side *)

(** The sector a command addresses: all six bytes for the 48-bit commands; for the 28-bit
    ones the low three, and the low half of the device register above them. *)
Definition addressed (f : FisRegH2D) : Z :=
  if ata_is_lba48 (fis_command f) then fis_lba f
  else fis_lba f mod 2 ^ 24 + 2 ^ 24 * Z.land (fis_device f) 15.

(** A transfer: where to, how many bytes, and where from on the disk. *)
Abbreviation region := (Z * Z * Z)%type.

(** The entries of a PRDT from [i] on, [n] of them, for the disk from byte [src] on. *)
Fixpoint prdt_regions (c : CmdMem) (off tbl : Z) (n : nat) (i src : Z) : list region :=
  match n with
  | O => []
  | S n =>
      let e := cm_prdt c (prdt_entry_mut tbl i) in
      let len := bits_of (prdt_flags e) 0 21 + 1 in
      (prdt_dba e + off, len, src) :: prdt_regions c off tbl n (i + 1) (src + len)
  end.

Definition command_regions (c : CmdMem) (clb off slot : Z) : list region :=
  let h := cm_header c (header_addr clb off slot) in
  let tbl := off + ch_ctb h in
  prdt_regions c off tbl (Z.to_nat (ch_prdtl h)) 0 (512 * addressed (cm_fis c tbl)).

Definition transfer (disk ram : Z → Z) (r : region) : Z → Z :=
  let '(dst, len, src) := r in
  λ x, if (dst <=? x) && (x <? dst + len) then disk (src + (x - dst)) else ram x.

(** Memory after the commands of the slots [0 .. n - 1], one after the other. *)
Definition performed (disk ram : Z → Z) (c : CmdMem) (clb off : Z) (n : nat) : Z → Z :=
  foldl (transfer disk) ram (mjoin ((λ j : nat, command_regions c clb off (Z.of_nat j)) <$> seq 0 n)).

(** ** Transfers *)

Lemma transfers_outside disk rs ram x :
  Forall (λ '(dst, len, _), x < dst ∨ dst + len <= x) rs → foldl (transfer disk) ram rs x = ram x.
Proof.
  revert ram. induction rs as [|[[dst len] src] rs IH]; intros ram Hrs; [done|].
  apply Forall_cons in Hrs as [Hx Hrs]. cbn [foldl]. rewrite IH by done. cbn. z_cases; done || lia.
Qed.

(** A byte is what the last transfer over it left. *)
Lemma transfers_last disk rs ram i dst len src x :
  rs !! i = Some (dst, len, src) → dst <= x < dst + len →
  Forall (λ '(dst, len, _), x < dst ∨ dst + len <= x) (drop (S i) rs) →
  foldl (transfer disk) ram rs x = disk (src + (x - dst)).
Proof.
  intros Hi Hx Hrest. rewrite <- (take_drop_middle rs i (dst, len, src) Hi), foldl_app. cbn [foldl].
  rewrite transfers_outside by done. cbn. z_cases; done || lia.
Qed.

(** ** Slices *)

Lemma mem_slice_app mem a x y :
  0 <= x → 0 <= y → mem_slice mem a (x + y) = mem_slice mem a x ++ mem_slice mem (a + x) y.
Proof.
  intros. unfold mem_slice. rewrite Z2Nat.inj_add, seq_app, fmap_app by done. f_equal. cbn [Nat.add].
  rewrite <- (Nat.add_0_r (Z.to_nat x)) at 1. rewrite <- fmap_add_seq, <- list_fmap_compose.
  apply list_fmap_ext. intros _ k _. cbn. f_equal. lia.
Qed.

Lemma mem_slice_ext mem mem' a a' n :
  (∀ k, 0 <= k < n → mem (a + k) = mem' (a' + k)) → mem_slice mem a n = mem_slice mem' a' n.
Proof.
  intros He. unfold mem_slice. apply list_fmap_ext. intros _ k Hk%list_elem_of_lookup_2%elem_of_seq. apply He. lia.
Qed.

Lemma length_mem_slice mem a n : 0 <= n → Z.of_nat (length (mem_slice mem a n)) = n.
Proof. intros. unfold mem_slice. rewrite length_fmap, length_seq. lia. Qed.

(** The first [n] bytes of the buffers. *)
Fixpoint gather (mem : Z → Z) (off : Z) (bs : list DmaBuffer) (n : Z) : list Z :=
  match bs with
  | [] => []
  | b :: bs => mem_slice mem (db_start b + off) (Z.min n 0x2000) ++ gather mem off bs (n - Z.min n 0x2000)
  end.

(** Every buffer is used and the last one reaches the end. *)
Definition covers_bytes (bs : list DmaBuffer) (n : Z) : Prop :=
  (0 < n ∧ 0x2000 * (Z.of_nat (length bs) - 1) < n <= 0x2000 * Z.of_nat (length bs)) ∨ bs = [] ∧ n = 0.

Lemma covers_bytes_cons b bs n :
  covers_bytes (b :: bs) n → 0 < n ∧ covers_bytes bs (n - Z.min n 0x2000).
Proof.
  intros [Hn|[? _]]; [|done]. cbn [length] in Hn. split; [lia|].
  destruct bs; [right; split; [done|cbn [length] in Hn; lia]|left; cbn [length] in *; lia].
Qed.

Section Read.
Context `{X86PagingLaws} `{PageMapperLaws} `{BitFieldLaws} `{HbaDevice}.

Definition window (off : Z) (b : DmaBuffer) : Prop := 0 <= db_start b ∧ 0 <= off ∧ db_start b + off < 2 ^ 46.

Lemma copy_loop mem off bs into offset n :
  Forall (window off) bs → 0 <= offset → offset + n = Z.of_nat (length into) → offset + n < 2 ^ 63 →
  covers_bytes bs n →
  foldO (copy_into_step mem off) bs (into, offset, n) =
  Ret (take (Z.to_nat offset) into ++ gather mem off bs n, offset + n, 0).
Proof.
  intros Hbs. revert into offset n. induction bs as [|b bs IH]; intros into offset n Ho Hlen Hmax Hcov.
  { destruct Hcov as [?|[_ ->]]; [cbn [length] in *; lia|]. cbn [foldO gather].
    rewrite app_nil_r, Z.add_0_r, take_ge by lia. done. }
  apply Forall_cons in Hbs as [(Hb & Hoff & Hlow) Hbs]. apply covers_bytes_cons in Hcov as [Hn Hcov].
  cbn [foldO gather]. set (c := Z.min n 0x2000) in *. unfold copy_into_step at 2. cbv beta iota zeta. fold c.
  rewrite (uadd_ret 64 (db_start b)) by lia. cbn [mbind outcome_bind].
  rewrite virt_addr_new_ok by (apply canonical_low; lia). cbn [mbind outcome_bind].
  unfold copy_slice. rewrite (uadd_ret 64 offset c) by lia. cbn [mbind outcome_bind].
  destruct (Z.leb_spec (offset + c) (Z.of_nat (length into))); [|lia]. cbn [mbind outcome_bind].
  rewrite usub_ret by lia. cbn [mbind outcome_bind].
  assert (length (mem_slice mem (db_start b + off) c) = Z.to_nat c) as Hsl.
  { apply Nat2Z.inj. rewrite length_mem_slice; lia. }
  rewrite IH; [|done|lia| |lia|done].
  - rewrite app_assoc. replace (Z.to_nat (offset + c)) with
      (length (take (Z.to_nat offset) into ++ mem_slice mem (db_start b + off) c))
      by (rewrite length_app, length_take, Hsl; lia).
    rewrite (take_app_length (take (Z.to_nat offset) into ++ _)). rewrite <- app_assoc. by replace (offset + c + (n - c)) with (offset + n) by lia.
  - rewrite !length_app, length_take, length_drop, Hsl. lia.
Qed.

Lemma copy_into_spec mem r into k off :
  km_offset k = Some off → Forall (window off) (dr_buffer r) → Z.of_nat (length into) < 2 ^ 63 →
  covers_bytes (dr_buffer r) (Z.of_nat (length into)) →
  copy_into mem r into k = Ret (gather mem off (dr_buffer r) (Z.of_nat (length into))).
Proof.
  intros Hk Hb Hl Hc. unfold copy_into. destruct (dr_buffer r) as [|b bs] eqn:E.
  { destruct Hc as [?|[_ Hc]]; [cbn [length] in *; lia|]. by destruct into. }
  rewrite (get_phys_offset_ret _ off Hk). cbn [mbind outcome_bind].
  rewrite copy_loop by (done || lia). done.
Qed.

(** The bytes of the buffers are a slice of the disk when each buffer is. *)
Lemma gather_disk mem disk off bs base n :
  covers_bytes bs n →
  (∀ i b k, bs !! i = Some b → 0 <= k < Z.min (n - 0x2000 * Z.of_nat i) 0x2000 →
     mem (db_start b + off + k) = disk (base + 0x2000 * Z.of_nat i + k)) →
  gather mem off bs n = mem_slice disk base n.
Proof.
  revert base n. induction bs as [|b bs IH]; intros base n Hc Hd; cbn [gather].
  { destruct Hc as [?|[_ ->]]; [cbn [length] in *; lia|done]. }
  apply covers_bytes_cons in Hc as [Hn Hc]. set (c := Z.min n 0x2000) in *.
  rewrite (IH (base + c) (n - c) Hc).
  - replace n with (c + (n - c)) at 2 by lia. rewrite mem_slice_app by lia. f_equal.
    apply mem_slice_ext. intros k Hk. rewrite (Hd 0%nat b k); [f_equal; lia|done|lia].
  - intros i b' k Hi Hk. destruct (decide (n <= 0x2000)); [lia|].
    rewrite (Hd (S i) b' k); [f_equal; lia|done|lia].
Qed.

(** ** The commands of a request *)

Definition ctb (clb off : Z) (c : CmdMem) (slot : Z) : Z := ch_ctb (cm_header c (header_addr clb off slot)).

(** The command tables of the 32 slots do not overlap. *)
Definition tables_apart (clb off : Z) (c : CmdMem) : Prop :=
  ∀ i j, 0 <= i < 32 → 0 <= j < 32 → i ≠ j → 256 <= Z.abs (ctb clb off c i - ctb clb off c j).

(** Slot [j] holds the command for the [j]-th 128 sectors of the request. *)
Definition chunk_built (r : DmaRequest) (clb off : Z) (c : CmdMem) (j : Z) : Prop :=
  ∃ bs, at_offset r (128 * j) = Ret bs ∧
    command_built c clb off j (off + ctb clb off c j) (as_command r) (dr_sector r + 128 * j)
      (Z.min (dr_count r - 128 * j) 128) bs.

Lemma kept_ctb clb off c c' i j :
  kept_outside c c' (header_addr clb off i) (off + ctb clb off c i) → ctb clb off c' i = ctb clb off c i →
  ctb clb off c' j = ctb clb off c j.
Proof.
  intros [Hh _] Hi. destruct (decide (j = i)) as [->|]; [done|]. unfold ctb. rewrite Hh; [done|].
  unfold header_addr. lia.
Qed.

(** A command stays as it is when one is built in another slot. *)
Lemma kept_built r clb off c c' i j :
  tables_apart clb off c → 0 <= i < 32 → 0 <= j < 32 → i ≠ j →
  kept_outside c c' (header_addr clb off i) (off + ctb clb off c i) →
  chunk_built r clb off c j → chunk_built r clb off c' j.
Proof.
  intros Ha Hi Hj Hne (Hh & Hf & Hp) (bs & Hbs & Hb). exists bs. split; [done|].
  assert (cm_header c' (header_addr clb off j) = cm_header c (header_addr clb off j)) as Ehj
    by (apply Hh; unfold header_addr; lia).
  assert (ctb clb off c' j = ctb clb off c j) as Ej by (unfold ctb; by rewrite Ehj).
  specialize (Ha i j Hi Hj Hne). rewrite Ej. unfold command_built in *. rewrite Ehj.
  rewrite Hf by lia.
  destruct Hb as (? & ? & ? & ? & ? & ? & ? & ? & ? & ? & ? & Hpr). split_and!; try done.
  intros k b Hk Hkb. rewrite Hp; [by apply Hpr|]. unfold prdt_entry_mut.
  assert ((Z.min (dr_count r - 128 * j) 128 + 15) / 16 <= 8) by zdm. lia.
Qed.

Definition used (r : DmaRequest) (k : nat) (p : AhciPortProtected) : Prop :=
  ap_cmds p = replicate k (Some r) ++ replicate (32 - k) None ∧ ap_free_cmds p = 32 - Z.of_nat k ∧ (k <= 32)%nat.

Lemma free_slot_used r k p : used r k p → (k < 32)%nat → free_slot (ap_cmds p) = Some k.
Proof.
  intros (-> & _ & _) Hk. unfold free_slot.
  assert (list_find (λ e, e = None) (replicate k (Some r) ++ replicate (32 - k) None) = Some (k, None)) as ->; [|done].
  apply list_find_Some. split_and!; [|done|].
  - rewrite lookup_app_r, length_replicate by (by rewrite length_replicate). apply lookup_replicate. split; [done|lia].
  - intros j y Hj Hlt. rewrite lookup_app_l in Hj by (by rewrite length_replicate).
    apply lookup_replicate in Hj as [-> _]. done.
Qed.

Lemma used_next r k p :
  used r k p → (k < 32)%nat →
  used r (S k) (MkPort (ap_address p) (<[k := Some r]> (ap_cmds p)) (ap_free_cmds p - 1)).
Proof.
  intros (Hc & Hf & _) Hk. split_and!; cbn [ap_cmds ap_free_cmds]; [|lia|lia]. rewrite Hc.
  rewrite insert_app_r_alt by (by rewrite length_replicate). rewrite length_replicate, Nat.sub_diag.
  replace (32 - k)%nat with (S (32 - S k)) by lia. cbn [replicate insert list_insert].
  rewrite cons_middle, app_assoc. f_equal. by rewrite <- replicate_S_end.
Qed.

(** The first command after those of the slots below [k]. *)
Lemma chunk_step fuel r p s clb off k bs :
  request_ok r → port_ready p clb off s → tables_apart clb off (as_cmd s) → (k < 32)%nat →
  128 * Z.of_nat k < dr_count r → prompt fuel (ap_address p) →
  (∀ j, 0 <= j < Z.of_nat k → chunk_built r clb off (as_cmd s) j) →
  at_offset r (128 * Z.of_nat k) = Ret bs →
  ∃ s', run_command fuel (as_command r) (ap_address p) (dr_sector r + 128 * Z.of_nat k)
          (Z.min (dr_count r - 128 * Z.of_nat k) 128) (Z.of_nat k) bs s = Ret s' ∧
    port_ready p clb off s' ∧ as_mem s' = as_mem s ∧ tables_apart clb off (as_cmd s') ∧
    ∀ j, 0 <= j < Z.of_nat (S k) → chunk_built r clb off (as_cmd s') j.
Proof.
  intros Hr Hp Ha Hk Hlt Hpr Hj Hbs. pose proof Hr as (? & ? & ? & _).
  destruct (at_offset_chunk r (128 * Z.of_nat k) Hr) as (bs' & Hbs' & Hok & Hlen); [lia|zdm|].
  rewrite Hbs in Hbs'. injection Hbs' as <-.
  destruct (run_command_cases fuel (as_command r) p (dr_sector r + 128 * Z.of_nat k)
      (Z.min (dr_count r - 128 * Z.of_nat k) 128) clb off (Z.of_nat k) bs s)
    as [(s' & -> & Hp' & Hm & Hb & Hkept)|[_ []]]; [done|lia|lia|lia|done|done| |done].
  exists s'. split; [done|]. cbv zeta in Hb, Hkept.
  change (ch_ctb _) with (ctb clb off (as_cmd s) (Z.of_nat k)) in Hb, Hkept.
  assert (∀ j, ctb clb off (as_cmd s') j = ctb clb off (as_cmd s) j) as Hctb.
  { intros j. eapply kept_ctb; [exact Hkept|]. destruct Hb as [Ht _]. unfold ctb in *. lia. }
  split_and!; [done..| |].
  - intros i j Hi Hj' Hne. rewrite !Hctb. by apply Ha.
  - intros j Hj'. destruct (decide (j = Z.of_nat k)) as [->|].
    + exists bs. split; [done|]. by rewrite Hctb.
    + apply (kept_built r clb off (as_cmd s) (as_cmd s') (Z.of_nat k)); [done|lia..|done|]. apply Hj. lia.
Qed.

Lemma protected_loop_builds n fuel r p s clb off k remaining offset :
  request_ok r → port_ready p clb off s → tables_apart clb off (as_cmd s) → used r k p →
  prompt fuel (ap_address p) → (∀ j, 0 <= j < Z.of_nat k → chunk_built r clb off (as_cmd s) j) →
  0 <= remaining → offset + remaining = dr_count r → (0 < remaining → offset = 128 * Z.of_nat k) →
  (chunks remaining < n)%nat → (k + chunks remaining <= 32)%nat →
  ∃ p' s', protected_loop n fuel r remaining offset p s = Ret (dr_count r, p', s') ∧
    as_mem s' = as_mem s ∧
    ∀ j, 0 <= j < Z.of_nat (k + chunks remaining) → chunk_built r clb off (as_cmd s') j.
Proof.
  intros Hr. pose proof Hr as (? & ? & ? & _). revert p s k remaining offset.
  induction n as [|n IH]; intros p s k remaining offset Hp Ha Hu Hpr Hj Hrem Hsum Ho Hn Hk; [lia|].
  cbn [protected_loop]. destruct (Z.ltb_spec 0 remaining) as [Hpos|].
  2:{ assert (remaining = 0) as -> by lia. exists p, s. change (chunks 0) with 0%nat in *.
      rewrite Nat.add_0_r. replace offset with (dr_count r) by lia. done. }
  specialize (Ho Hpos). subst offset. assert (remaining = dr_count r - 128 * Z.of_nat k) as -> by lia.
  set (remaining := dr_count r - 128 * Z.of_nat k) in *. set (c := Z.min remaining 128) in *.
  assert (Z.of_nat (chunks remaining) = (remaining + 127) / 128 ∧
          Z.of_nat (chunks (remaining - c)) = (remaining + 127) / 128 - 1) as [Hch Hch'].
  { unfold chunks. rewrite !Z2Nat.id; unfold c; split || idtac; zdm. }
  assert (1 <= (remaining + 127) / 128) by zdm.
  rewrite (free_slot_used r k p) by (done || lia).
  rewrite (uadd_ret 64 (dr_sector r) _) by lia. cbn [mbind outcome_bind].
  destruct (at_offset_chunk r (128 * Z.of_nat k) Hr) as (bs & Ebs & _); [lia|zdm|].
  rewrite Ebs. cbn [mbind outcome_bind].
  destruct (chunk_step fuel r p s clb off k bs) as (s1 & E1 & Hp1 & Hm1 & Ha1 & Hj1); try done; try lia.
  fold remaining c in E1. rewrite E1. cbn [mbind outcome_bind]. clear E1.
  rewrite (usub_ret remaining c) by lia. cbn [mbind outcome_bind].
  rewrite (uadd_ret 64 _ c) by lia. cbn [mbind outcome_bind].
  pose proof Hu as (Hcm & Hfree & _).
  rewrite index_set_ret by (rewrite Hcm, length_app, !length_replicate; lia). cbn [mbind outcome_bind]. rewrite Nat2Z.id.
  rewrite usub_ret by lia. cbn [mbind outcome_bind].
  set (p1 := MkPort _ _ _).
  destruct (IH p1 s1 (S k) (remaining - c) (128 * Z.of_nat k + c))
    as (p' & s' & E & Hm & Hb); try done; try lia.
  - by apply used_next; [|lia].
  - exists p', s'. split_and!; [done|congruence|]. intros j Hjj. apply Hb. lia.
Qed.

(** ** What the controller is asked to transfer *)

(** One transfer per buffer, from byte [base] of the disk on. *)
Definition buffer_regions (off base : Z) (bufs : list DmaBuffer) : list region :=
  imap (λ i b, (db_start b + off, db_data_size b, base + 0x2000 * Z.of_nat i)) bufs.

Lemma buffer_regions_lookup off base bufs i b :
  bufs !! i = Some b →
  buffer_regions off base bufs !! i = Some (db_start b + off, db_data_size b, base + 0x2000 * Z.of_nat i).
Proof. intros Hi. unfold buffer_regions. by rewrite list_lookup_imap, Hi. Qed.

Lemma prdt_regions_spec c off tbl bufs size base n m i :
  buffers_for size bufs → (m + n <= length bufs)%nat →
  (∀ k b, (k < n)%nat → bufs !! (m + k)%nat = Some b →
     let e := cm_prdt c (prdt_entry_mut tbl (i + Z.of_nat k)) in
     prdt_dba e = db_start b ∧ bits_of (prdt_flags e) 0 21 = db_data_size b - 1) →
  prdt_regions c off tbl n i (base + 0x2000 * Z.of_nat m) = take n (drop m (buffer_regions off base bufs)).
Proof.
  intros Hbf. revert m i. induction n as [|n IH]; intros m i Hm He; [by rewrite take_0|].
  destruct (lookup_lt_is_Some_2 bufs m) as [b Hb]; [lia|].
  rewrite (drop_S _ _ _ (buffer_regions_lookup off base bufs m b Hb)). cbn [take prdt_regions].
  destruct (He 0%nat b) as [Hd Hf]; [lia|by rewrite Nat.add_0_r|]. rewrite Z.add_0_r in Hd, Hf. rewrite Hd, Hf.
  f_equal; [by rewrite Z.sub_add|].
  destruct n as [|n]; [by rewrite take_0|].
  assert (db_data_size b = 0x2000) as Hsz.
  { destruct Hbf as [Hlen Hb']. rewrite (Hb' m b Hb). zdm. }
  replace (base + 0x2000 * Z.of_nat m + (db_data_size b - 1 + 1)) with (base + 0x2000 * Z.of_nat (S m)) by lia.
  apply IH; [lia|]. intros k b' Hk Hb'. specialize (He (S k) b').
  replace (i + 1 + Z.of_nat k) with (i + Z.of_nat (S k)) by lia. apply He; [lia|].
  by replace (m + S k)%nat with (S m + k)%nat by lia.
Qed.

Lemma command_regions_spec r clb off c j base :
  chunk_built r clb off c (Z.of_nat j) → buffers_for (512 * dr_count r) (dr_buffer r) →
  128 * Z.of_nat j < dr_count r →
  512 * addressed (cm_fis c (off + ctb clb off c (Z.of_nat j))) = base + 0x10000 * Z.of_nat j →
  command_regions c clb off (Z.of_nat j) = take 8 (drop (8 * j) (buffer_regions off base (dr_buffer r))).
Proof.
  intros (bs & Hbs & Hb) Hbf Hj Haddr. pose proof (proj1 Hbf) as Hlen.
  unfold at_offset in Hbs. destruct (Z.leb_spec (128 * Z.of_nat j / 16) (Z.of_nat (length (dr_buffer r)))); [|done].
  injection Hbs as <-. replace (Z.to_nat (128 * Z.of_nat j / 16)) with (8 * j)%nat in Hb by zdm.
  unfold command_regions. fold (ctb clb off c (Z.of_nat j)). cbv zeta. rewrite Haddr.
  destruct Hb as (_ & -> & _ & _ & _ & _ & _ & _ & _ & _ & _ & Hp).
  set (len := (Z.min (dr_count r - 128 * Z.of_nat j) 128 + 15) / 16) in *.
  assert (1 <= len <= 8) as Hl by (unfold len; zdm).
  assert (8 * Z.of_nat j + len <= Z.of_nat (length (dr_buffer r)) ∧
    (len = 8 ∨ 8 * Z.of_nat j + len = Z.of_nat (length (dr_buffer r)))) as [Hle Hlast].
  { rewrite Hlen. unfold len. split; zdm. }
  replace (base + 0x10000 * Z.of_nat j) with (base + 0x2000 * Z.of_nat (8 * j)) by lia.
  rewrite (prdt_regions_spec c off _ (dr_buffer r) (512 * dr_count r)); [|done|lia|].
  - destruct Hlast as [->|Hall]; [done|].
    assert (length (drop (8 * j) (buffer_regions off base (dr_buffer r))) = Z.to_nat len) as Hdl
      by (rewrite length_drop; unfold buffer_regions; rewrite length_imap; lia).
    rewrite !take_ge; [done|lia..].
  - intros k b Hk Hkb. destruct (Hp k b) as (? & ? & _); [lia|by rewrite lookup_drop|done].
Qed.

(** All commands of a request. *)
Lemma regions_spec r clb off c base n :
  (∀ j, 0 <= j < Z.of_nat n → chunk_built r clb off c j) → buffers_for (512 * dr_count r) (dr_buffer r) →
  n = chunks (dr_count r) → 0 <= dr_count r →
  (∀ j, 0 <= j < Z.of_nat n → 512 * addressed (cm_fis c (off + ctb clb off c j)) = base + 0x10000 * j) →
  mjoin ((λ j : nat, command_regions c clb off (Z.of_nat j)) <$> seq 0 n) = buffer_regions off base (dr_buffer r).
Proof.
  intros Hb Hbf -> Hc Ha. assert (Z.of_nat (chunks (dr_count r)) = (dr_count r + 127) / 128) as Hn.
  { unfold chunks. rewrite Z2Nat.id; zdm. }
  assert (∀ m, (m <= chunks (dr_count r))%nat →
    mjoin ((λ j : nat, command_regions c clb off (Z.of_nat j)) <$> seq 0 m) =
    take (8 * m) (buffer_regions off base (dr_buffer r))) as Hm.
  { induction m as [|m IH]; intros Hle; [by rewrite Nat.mul_0_r, take_0|].
    rewrite seq_S, fmap_app, join_app, IH by lia. cbn [fmap list_fmap mjoin list_join Nat.add].
    rewrite app_nil_r, (command_regions_spec r clb off c m base);
      [|apply Hb; lia|done|zdm|apply Ha; lia].
    replace (8 * S m)%nat with (8 * m + 8)%nat by lia. by rewrite take_take_drop. }
  rewrite Hm by done. apply take_ge. unfold buffer_regions. rewrite length_imap.
  pose proof (proj1 Hbf). zdm.
Qed.

(** *** Where the bytes come from *)

(** The first sector that is read. *)
Definition read_from (sector : Z) : Z := if 0x0FFFFFFF <? sector then sector else sector mod 2 ^ 24.

Lemma addressed_chunk r clb off c j :
  chunk_built r clb off c j → 0 <= j → 128 * j < dr_count r → 0 <= dr_sector r →
  (dr_sector r < 2 ^ 28 → dr_sector r mod 2 ^ 24 + dr_count r <= 2 ^ 24) →
  addressed (cm_fis c (off + ctb clb off c j)) = read_from (dr_sector r) + 128 * j.
Proof.
  intros (bs & _ & Hb) Hj Hlt Hs Hwrap.
  destruct Hb as (_ & _ & _ & _ & _ & _ & Hcmd & Hlba & _ & Hdev & _ & _).
  unfold addressed, read_from. rewrite Hcmd, Hlba, Hdev. unfold as_command.
  destruct (dr_command r), (Z.ltb_spec 0x0FFFFFFF (dr_sector r)); cbn [ata_is_lba48]; [done|].
  change (Z.land 0x40 15) with 0. specialize (Hwrap ltac:(lia)). zdm.
Qed.

Definition buffers_apart (bufs : list DmaBuffer) : Prop :=
  ∀ i j b b', i ≠ j → bufs !! i = Some b → bufs !! j = Some b' → 0x2000 <= Z.abs (db_start b - db_start b').

(** Each buffer starts at the frame after the previous one's. *)
Definition buffers_adjacent (bufs : list DmaBuffer) : Prop :=
  ∀ i b b', bufs !! i = Some b → bufs !! S i = Some b' → db_start b' = db_start b + 0x1000.

Lemma buffers_adjacent_from bufs i j b b' :
  buffers_adjacent bufs → bufs !! i = Some b → bufs !! (i + j)%nat = Some b' →
  db_start b' = db_start b + 0x1000 * Z.of_nat j.
Proof.
  intros Ha Hi. revert b'. induction j as [|j IH]; intros b' Hj.
  { rewrite Nat.add_0_r in Hj. simplify_eq. lia. }
  destruct (lookup_lt_is_Some_2 bufs (i + j)%nat) as [b1 Hb1].
  { apply lookup_lt_Some in Hj. lia. }
  rewrite Nat.add_succ_r in Hj. rewrite (Ha _ _ _ Hb1 Hj), (IH b1 Hb1). lia.
Qed.

Lemma buffer_size size bufs i b :
  buffers_for size bufs → bufs !! i = Some b → db_data_size b = Z.min (size - 0x2000 * Z.of_nat i) 0x2000.
Proof. intros [_ Hb]. apply Hb. Qed.

(** The transfers behind position [i] of the list. *)
Lemma regions_behind off base bufs i x :
  (∀ j b, (i < j)%nat → bufs !! j = Some b → x < db_start b + off ∨ db_start b + off + db_data_size b <= x) →
  Forall (λ '(dst, len, _), x < dst ∨ dst + len <= x) (drop (S i) (buffer_regions off base bufs)).
Proof.
  intros Hx. apply Forall_lookup_2. intros k [[dst len] src] Hk. rewrite lookup_drop in Hk.
  unfold buffer_regions in Hk. rewrite list_lookup_imap in Hk. destruct (bufs !! _) as [b|] eqn:Eb; [|done].
  cbn in Hk. injection Hk as <- <- <-. apply (Hx (S i + k)%nat b); [lia|exact Eb].
Qed.

Lemma transferred_apart disk ram off base bufs size i b k :
  buffers_for size bufs → buffers_apart bufs → bufs !! i = Some b → 0 <= k < db_data_size b →
  foldl (transfer disk) ram (buffer_regions off base bufs) (db_start b + off + k) =
  disk (base + 0x2000 * Z.of_nat i + k).
Proof.
  intros Hbf Hap Hi Hk. rewrite (transfers_last disk _ ram i _ _ _ _ (buffer_regions_lookup off base bufs i b Hi)).
  - f_equal. lia.
  - lia.
  - apply regions_behind. intros j b' Hj Hb'. pose proof (Hap i j b b' ltac:(lia) Hi Hb').
    pose proof (buffer_size _ _ _ _ Hbf Hi). pose proof (buffer_size _ _ _ _ Hbf Hb'). lia.
Qed.

Lemma transferred_adjacent disk ram off base bufs size i b b' k :
  buffers_for size bufs → buffers_adjacent bufs → bufs !! i = Some b → bufs !! S i = Some b' →
  0x1000 <= k < 0x2000 → k - 0x1000 < db_data_size b' →
  foldl (transfer disk) ram (buffer_regions off base bufs) (db_start b + off + k) =
  disk (base + 0x2000 * Z.of_nat i + k + 0x1000).
Proof.
  intros Hbf Had Hi Hi' Hk Hk'. pose proof (Had _ _ _ Hi Hi') as Hst.
  rewrite (transfers_last disk _ ram (S i) _ _ _ _ (buffer_regions_lookup off base bufs (S i) b' Hi')).
  - f_equal. lia.
  - lia.
  - apply regions_behind. intros j b2 Hj Hb2. left.
    pose proof (buffers_adjacent_from bufs i (j - i) b b2 Had Hi) as Hb2'.
    replace (i + (j - i))%nat with j in Hb2' by lia. specialize (Hb2' Hb2). lia.
Qed.

Lemma gather_lookup mem off bs n pos b :
  covers_bytes bs n → 0 <= pos < n → bs !! Z.to_nat (pos / 0x2000) = Some b →
  gather mem off bs n !! Z.to_nat pos = Some (mem (db_start b + off + pos mod 0x2000)).
Proof.
  intros Hc Hp Hb.
  rewrite (gather_disk mem (λ x, match bs !! Z.to_nat (x / 0x2000) with
    Some b => mem (db_start b + off + x mod 0x2000) | None => 0 end) off bs 0 n Hc).
  - unfold mem_slice. rewrite list_lookup_fmap, lookup_seq_lt by lia. cbn.
    rewrite Z2Nat.id, Z.add_0_l by lia. by rewrite Hb.
  - intros i b' k Hi Hk. cbn. replace (0 + 0x2000 * Z.of_nat i + k) with (k + Z.of_nat i * 0x2000) by lia.
    rewrite Z.div_add, Z.mod_add, Z.div_small, Z.mod_small, Z.add_0_l by lia. by rewrite Nat2Z.id, Hi.
Qed.

(** ** [AhciPort::read] *)

(** Zeroing the request's buffers spares the command list. *)
Definition spared (clb off : Z) (m m' : DmaMem) : Prop :=
  Forall (λ '(v, n), clb + off + 1024 <= v ∨ v + n <= clb + off) (drop (length (dm_zeroed m)) (dm_zeroed m')).

Lemma zero_ranges_outside rs c a :
  Forall (λ '(v, n), a < v ∨ v + n <= a) rs → cm_header (foldl zero_range c rs) a = cm_header c a.
Proof.
  revert c. induction rs as [|[v n] rs IH]; intros c Hrs; [done|]. apply Forall_cons in Hrs as [Ha Hrs].
  cbn [foldl]. rewrite IH by done. cbn. z_cases; done || lia.
Qed.

Lemma spared_header clb off m m' c slot :
  spared clb off m m' → 0 <= slot < 32 →
  cm_header (foldl zero_range c (drop (length (dm_zeroed m)) (dm_zeroed m'))) (header_addr clb off slot) =
  cm_header c (header_addr clb off slot).
Proof.
  intros Hsp Hs. apply zero_ranges_outside. eapply Forall_impl; [exact Hsp|]. intros [v n] Hvn.
  unfold header_addr. lia.
Qed.

(** A port that has just been started, memory for the request, and a controller whose
    commands end. *)
Context (address clb off sector : Z) (buffer : list Z) (fuel : nat) (s : AhciState).
Context (m : pt) (fa : KernelFrameAlloc).
Abbreviation len := (Z.of_nat (length buffer)).
Abbreviation count := ((len + 511) / 512).
Context (Hport : port_ready (AhciPort_new address) clb off s) (Htables : tables_apart clb off (as_cmd s)).
Context (Hmem : dma_ready (as_mem s) m fa off).
Context (Hleft : frames_left fa (7 * ((512 * count + 0x1fff) / 0x2000))).
Context (Hlen : 1 <= len <= 2 ^ 21) (Hsector : 0 <= sector) (Hend : sector + count <= 2 ^ 48).
Context (Hprompt : prompt fuel address).

Lemma request_made :
  ∃ bufs dm, dma_request_new sector count (as_mem s) = Ret (MkDmaRequest sector count bufs DmaRead, dm) ∧
    buffers_for (512 * count) bufs ∧ Forall (window off) bufs ∧ km_offset (dm_kmem dm) = Some off.
Proof.
  destruct (dma_request_buffers sector count (as_mem s) m fa off) as (bufs & dm & m' & fa' & E & Hd & Hb & Hin);
    [zdm|done|done|].
  exists bufs, dm. split_and!; [done|done| |apply Hd].
  apply Forall_forall. intros b Hbin. specialize (Hin b Hbin).
  destruct Hmem as (_ & _ & Hoff & Hlow). specialize (Hlow _ Hin).
  destruct (elem_of_usable_addrs _ _ _ (proj1 Hleft) Hin) as (_ & _ & ?). unfold window. lia.
Qed.

Lemma made_request_ok bufs :
  buffers_for (512 * count) bufs → request_ok (MkDmaRequest sector count bufs DmaRead).
Proof.
  intros Hb. pose proof (proj1 Hb). split_and!; cbn [dr_sector dr_count dr_buffer]; [lia|zdm|lia| |zdm].
  apply Forall_lookup_2. intros i b Hi. unfold buffer_ok. rewrite (buffer_size _ _ _ _ Hb Hi).
  apply lookup_lt_Some in Hi. zdm.
Qed.

Lemma ready_with_dma dm :
  km_offset (dm_kmem dm) = Some off → spared clb off (as_mem s) dm →
  port_ready (AhciPort_new address) clb off (with_dma s dm) ∧ tables_apart clb off (as_cmd (with_dma s dm)).
Proof.
  intros Hk Hsp. destruct Hport as [Hd Hs]. split; [split; [done|]|].
  - intros slot Hslot. destruct (Hs slot Hslot) as (_ & _ & Hrest). split; [|split; [done|]].
    { unfold prd, rd. cbn [with_dma as_dev]. specialize (Hd (as_dev s)). by destruct (dev_read _ _). }
    cbn [with_dma as_cmd]. rewrite spared_header by done. exact Hrest.
  - intros i j Hi Hj. unfold ctb. cbn [with_dma as_cmd]. rewrite !spared_header by done. by apply Htables.
Qed.

(** The read returns, and what it returns and asked for. *)
Lemma port_read_ret iters r dm :
  dma_request_new sector count (as_mem s) = Ret (r, dm) → spared clb off (as_mem s) dm →
  ∃ p' s', port_read (S (S iters)) fuel sector buffer (AhciPort_new address) s =
      Ret (Some (512 * count), gather (dev_ram (as_dev s')) off (dr_buffer r) len, p', s') ∧
    buffers_for (512 * count) (dr_buffer r) ∧ covers_bytes (dr_buffer r) len ∧
    ((sector < 2 ^ 28 → sector mod 2 ^ 24 + count <= 2 ^ 24) →
     mjoin ((λ j : nat, command_regions (as_cmd s') clb off (Z.of_nat j)) <$> seq 0 (chunks count)) =
     buffer_regions off (512 * read_from sector) (dr_buffer r)).
Proof.
  intros Hreq Hsp. destruct request_made as (bufs & dm' & E & Hb & Hw & Hoff). rewrite E in Hreq.
  injection Hreq as <- <-. destruct (ready_with_dma dm' Hoff Hsp) as [Hready Hapart]. cbn [dr_buffer]. pose proof (made_request_ok bufs Hb) as Hr.
  set (r := MkDmaRequest sector count bufs DmaRead) in *.
  assert (1 <= count <= 4096) as Hc by zdm.
  assert (chunks count <= 32)%nat as Hch by (unfold chunks; zdm).
  unfold port_read. rewrite (uadd_ret 64 len 512) by lia. cbn [mbind outcome_bind].
  rewrite (usub_ret (len + 512) 1) by lia. cbn [mbind outcome_bind].
  replace (len + 512 - 1) with (len + 511) by lia. rewrite E. cbn [mbind outcome_bind].
  unfold port_run_request. cbn [request_loop]. change (dr_count r) with count.
  destruct (Z.ltb_spec 0 count); [|lia]. unfold protected_run_request. change (dr_count r) with count.
  rewrite (usub_ret count 0), Z.sub_0_r by lia. cbn [mbind outcome_bind].
  destruct (protected_loop_builds (S (chunks count)) fuel r (AhciPort_new address) (with_dma s dm') clb off 0 count 0)
    as (p' & s' & -> & Hm & Hj); [done|done|done| |done|lia|lia|done|lia|lia|lia|].
  { split_and!; [done|done|lia]. }
  cbn [mbind outcome_bind]. change (dr_count r) with count. rewrite Z.ltb_irrefl. cbn [mbind outcome_bind].
  rewrite umul_ret by lia. cbn [mbind outcome_bind].
  assert (covers_bytes bufs len) as Hcov by (left; pose proof (proj1 Hb); split; [lia|zdm]).
  rewrite (copy_into_spec _ r buffer (km s') off); [|unfold km; by rewrite Hm|done|lia|done].
  cbn [mbind outcome_bind]. exists p', s'. split; [by rewrite (Z.mul_comm count)|]. split_and!; [done..|].
  intros Hwrap. apply (regions_spec r clb off (as_cmd s') (512 * read_from sector)); [done|done|done|cbn; lia|].
  intros j Hjj. rewrite (addressed_chunk r); [cbn [r dr_sector]; lia|by apply Hj|lia| |done|done].
  cbn [r dr_count]. unfold chunks in Hjj. zdm.
Qed.

(** C2: a read of up to 2 MiB from a freshly started port returns, reports the sectors it
    asked for, and leaves in the caller's buffer the bytes of the disk, when the
    controller has carried out the commands, the request's buffers do not overlap and
    zeroing them has spared the command list, and a request below sector 2^28 does not
    cross a multiple of 2^24 sectors:
    from the sector asked for if it is at least 2^28, and otherwise from that sector
    modulo 2^24, since the 28-bit command carries its upper bits in a register the
    driver leaves 0. *)
Theorem port_read_correct iters r dm :
  dma_request_new sector count (as_mem s) = Ret (r, dm) → spared clb off (as_mem s) dm →
  (sector < 2 ^ 28 → sector mod 2 ^ 24 + count <= 2 ^ 24) →
  ∃ buf p' s', port_read (S (S iters)) fuel sector buffer (AhciPort_new address) s =
      Ret (Some (512 * count), buf, p', s') ∧
    ∀ disk ram, (∀ x, dev_ram (as_dev s') x = performed disk ram (as_cmd s') clb off (chunks count) x) →
      buffers_apart (dr_buffer r) → buf = mem_slice disk (512 * read_from sector) len.
Proof.
  intros Hreq Hsp Hwrap. destruct (port_read_ret iters r dm Hreq Hsp) as (p' & s' & E & Hb & Hcov & Hreg).
  eexists _, p', s'. split; [exact E|]. intros disk ram Hram Hap. specialize (Hreg Hwrap).
  apply gather_disk; [done|]. intros i b k Hi Hk. rewrite Hram. unfold performed. rewrite Hreg.
  eapply transferred_apart; [done..|]. rewrite (buffer_size _ _ _ _ Hb Hi). zdm.
Qed.

(** C15: with one frame per 8 KiB buffer the buffers of a request overlap whenever the
    frames allocated for it are adjacent; the second half of every buffer but the last
    then holds what belongs 4 KiB further on. *)
Theorem port_read_overlap iters r dm :
  dma_request_new sector count (as_mem s) = Ret (r, dm) → spared clb off (as_mem s) dm →
  (sector < 2 ^ 28 → sector mod 2 ^ 24 + count <= 2 ^ 24) →
  ∃ buf p' s', port_read (S (S iters)) fuel sector buffer (AhciPort_new address) s =
      Ret (Some (512 * count), buf, p', s') ∧
    ∀ disk ram, (∀ x, dev_ram (as_dev s') x = performed disk ram (as_cmd s') clb off (chunks count) x) →
      buffers_adjacent (dr_buffer r) → ∀ pos, 0 <= pos < len → 0x1000 <= pos mod 0x2000 →
      pos + 0x1000 < 512 * count → buf !! Z.to_nat pos = Some (disk (512 * read_from sector + pos + 0x1000)).
Proof.
  intros Hreq Hsp Hwrap. destruct (port_read_ret iters r dm Hreq Hsp) as (p' & s' & E & Hb & Hcov & Hreg).
  eexists _, p', s'. split; [exact E|]. intros disk ram Hram Had pos Hpos Hhalf Hnext. specialize (Hreg Hwrap).
  pose proof (proj1 Hb) as Hl. set (i := Z.to_nat (pos / 0x2000)).
  destruct (lookup_lt_is_Some_2 (dr_buffer r) (S i)) as [b' Hb']; [unfold i; zdm|].
  destruct (lookup_lt_is_Some_2 (dr_buffer r) i) as [b Hi]; [apply lookup_lt_Some in Hb'; lia|].
  rewrite (gather_lookup _ off _ _ pos b) by done. f_equal. rewrite Hram. unfold performed. rewrite Hreg.
  rewrite (transferred_adjacent disk ram off _ _ _ i b b' _ Hb Had Hi Hb').
  - f_equal. unfold i. zdm.
  - zdm.
  - rewrite (buffer_size _ _ _ _ Hb Hb'). unfold i. zdm.
Qed.

End Read.

(** ** Concrete runs *)

(** A disk whose bytes repeat every 251, and memory after transfers from it. *)
Definition disk_example (x : Z) : Z := x mod 251.
Definition ram_example (rs : list region) : Z → Z := foldl (transfer disk_example) (λ _, 0) rs.

Lemma tables_apart_loaded k ram : tables_apart 0x100000 0 (as_cmd (ahci_loaded k ram)).
Proof.
  intros i j Hi Hj Hne. unfold ctb, header_addr. cbn [as_cmd ahci_loaded cm_header ch_ctb].
  replace (0x100000 + 0 + 32 * i - 0x100000) with (i * 32) by lia.
  replace (0x100000 + 0 + 32 * j - 0x100000) with (j * 32) by lia. rewrite !Z.div_mul by lia. lia.
Qed.

(** Memory of 64 frames. *)
Definition disk_map : list MemoryRegion := [Region 0x1000000 0x1040000 true].
Definition kmem_disk : KMem := MkKMem (Some ∅) false (Some (falloc_new disk_map)) false None (Some 0).

Lemma disk_map_wf : regions_wf disk_map.
Proof. unfold regions_wf, disk_map, page_size. cbn. repeat split; lia. Qed.
Lemma disk_map_left n : n <= 64 → frames_left (falloc_new disk_map) n.
Proof.
  intros. unfold frames_left. cbn [fa_map fa_next falloc_new].
  assert (length (usable_addrs disk_map) = 64%nat) as -> by vm_refl. split_and!; [apply disk_map_wf|lia..].
Qed.

Lemma dma_ready_loaded : dma_ready (MkDmaMem kmem_disk []) ∅ (falloc_new disk_map) 0.
Proof.
  split_and!; [done|done|lia|lia|]. intros f Hf.
  destruct (elem_of_usable_addrs _ _ _ disk_map_wf Hf) as ((r & Hr & _ & ? & ?) & _).
  apply list_elem_of_singleton in Hr as ->. cbn in *. unfold page_size in *. lia.
Qed.

Lemma request_loaded sector count :
  0 <= count <= 128 → ∃ r dm, dma_request_new sector count (MkDmaMem kmem_disk []) = Ret (r, dm).
Proof.
  intros Hc. destruct (dma_request_buffers sector count (MkDmaMem kmem_disk []) ∅ (falloc_new disk_map) 0)
    as (bufs & s' & _ & _ & E & _); [lia|apply dma_ready_loaded|apply disk_map_left; zdm|eauto].
Qed.

Lemma prompt_loaded ram : @prompt _ (loaded_device ram) 1 0xF100.
Proof. by intros bit s. Qed.

Lemma performed_one disk ram c clb off rs :
  command_regions c clb off 0 = rs → performed disk ram c clb off 1 = foldl (transfer disk) ram rs.
Proof. intros <-. unfold performed. cbn [seq fmap list_fmap mjoin list_join]. by rewrite app_nil_r. Qed.

(** One sector, asked for at 2^24 + 5 and read at 5. *)
Lemma port_read_witness :
  let s := ahci_loaded kmem_disk (ram_example [(0x1000000, 512, 2560)]) in
  ∃ p' s', port_read 2 1 0x1000005 (replicate (Z.to_nat 512) 0) (AhciPort_new 0xF100) s =
    Ret (Some 512, mem_slice disk_example 2560 512, p', s').
Proof.
  intros s. destruct (request_loaded 0x1000005 1) as (r & dm & Hreq); [lia|].
  assert (dr_buffer r = [MkDmaBuffer 0x1000000 512]) as Hbuf.
  { transitivity (match dma_request_new 0x1000005 1 (MkDmaMem kmem_disk []) with Ret (r, _) => dr_buffer r | _ => [] end);
      [by rewrite Hreq|vm_refl]. }
  assert (spared 0x100000 0 (as_mem s) dm) as Hsp.
  { unfold spared. assert (dm_zeroed dm = [(0x1000000, 4096)]) as ->; [|repeat constructor; lia].
    transitivity (match dma_request_new 0x1000005 1 (MkDmaMem kmem_disk []) with Ret (_, d) => dm_zeroed d | _ => [] end);
      [by rewrite Hreq|vm_refl]. }
  assert (Z.of_nat (length (replicate (Z.to_nat 512) 0)) = 512) as Hl by done.
  assert (frames_left (falloc_new disk_map) 7) as Hf by (by apply disk_map_left).
  pose proof (port_read_correct 0xF100 0x100000 0 0x1000005 (replicate (Z.to_nat 512) 0) 1 s ∅ (falloc_new disk_map)
    (port_ready_loaded kmem_disk _ _ _ eq_refl) (tables_apart_loaded _ _) dma_ready_loaded) as Hread.
  rewrite Hl in Hread. change ((512 + 511) / 512) with 1 in Hread.
  destruct (Hread Hf ltac:(lia) ltac:(lia) ltac:(lia) (prompt_loaded _) 0%nat r dm Hreq Hsp ltac:(done)) as (buf & p' & s' & E & Hd).
  exists p', s'. rewrite E. do 4 f_equal. apply (Hd disk_example (λ _, 0)).
  - assert (command_regions (as_cmd s') 0x100000 0 0 = [(0x1000000, 512, 2560)]) as Hr.
    { transitivity (match port_read 2 1 0x1000005 (replicate (Z.to_nat 512) 0) (AhciPort_new 0xF100) s with
        Ret (_, _, _, s') => command_regions (as_cmd s') 0x100000 0 0 | _ => [] end); [by rewrite E|vm_refl]. }
    intros x. change (chunks _) with 1%nat. by rewrite (performed_one disk_example (λ _, 0) _ _ _ _ Hr).
  - rewrite Hbuf. intros i j b b' Hne Hi Hj. apply lookup_lt_Some in Hi, Hj. cbn in *. lia.
Defined.

(** 32 sectors into two buffers at 0x1000000 and 0x1001000: the byte at 4096 is the one at
    8192 on the disk. *)
Lemma port_read_overlap_witness :
  let s := ahci_loaded kmem_disk (ram_example [(0x1000000, 0x2000, 0); (0x1001000, 0x2000, 0x2000)]) in
  ∃ buf p' s', port_read 2 1 0 (replicate (Z.to_nat 0x4000) 0) (AhciPort_new 0xF100) s =
      Ret (Some 0x4000, buf, p', s') ∧
    buf !! Z.to_nat 0x1000 = Some (disk_example 0x2000) ∧ disk_example 0x2000 ≠ disk_example 0x1000.
Proof.
  intros s. destruct (request_loaded 0 32) as (r & dm & Hreq); [lia|].
  assert (dr_buffer r = [MkDmaBuffer 0x1000000 0x2000; MkDmaBuffer 0x1001000 0x2000]) as Hbuf.
  { transitivity (match dma_request_new 0 32 (MkDmaMem kmem_disk []) with Ret (r, _) => dr_buffer r | _ => [] end);
      [by rewrite Hreq|vm_refl]. }
  assert (spared 0x100000 0 (as_mem s) dm) as Hsp.
  { unfold spared. assert (dm_zeroed dm = [(0x1000000, 0x200000); (0x1001000, 0x200000)]) as ->;
      [|repeat constructor; lia].
    transitivity (match dma_request_new 0 32 (MkDmaMem kmem_disk []) with Ret (_, d) => dm_zeroed d | _ => [] end);
      [by rewrite Hreq|vm_refl]. }
  assert (Z.of_nat (length (replicate (Z.to_nat 0x4000) 0)) = 0x4000) as Hl
    by (rewrite length_replicate; apply Z2Nat.id; lia).
  assert (frames_left (falloc_new disk_map) 14) as Hf by (by apply disk_map_left).
  pose proof (port_read_overlap 0xF100 0x100000 0 0 (replicate (Z.to_nat 0x4000) 0) 1 s ∅ (falloc_new disk_map)
    (port_ready_loaded kmem_disk _ _ _ eq_refl) (tables_apart_loaded _ _) dma_ready_loaded) as Hread.
  rewrite Hl in Hread. change ((0x4000 + 511) / 512) with 32 in Hread.
  destruct (Hread Hf ltac:(lia) ltac:(lia) ltac:(lia) (prompt_loaded _) 0%nat r dm Hreq Hsp ltac:(done))
    as (buf & p' & s' & E & Hd).
  exists buf, p', s'. split; [exact E|]. split; [|done].
  change (disk_example 0x2000) with (disk_example (512 * read_from 0 + 0x1000 + 0x1000)).
  apply (Hd disk_example (λ _, 0)); [|rewrite Hbuf|lia|done|lia].
  - assert (command_regions (as_cmd s') 0x100000 0 0 = [(0x1000000, 0x2000, 0); (0x1001000, 0x2000, 0x2000)]) as Hr.
    { transitivity (match port_read 2 1 0 (replicate (Z.to_nat 0x4000) 0) (AhciPort_new 0xF100) s with
        Ret (_, _, _, s') => command_regions (as_cmd s') 0x100000 0 0 | _ => [] end); [by rewrite E|vm_refl]. }
    intros x. change (chunks _) with 1%nat. by rewrite (performed_one disk_example (λ _, 0) _ _ _ _ Hr).
  - intros [|[|i]] b b'; cbn; [|done..]. by intros [= <-] [= <-].
Defined.
