(* ===== verification/AhciStart.v ===== *)
(** * Starting a disk port, src/drivers/ahci/mod.rs

    [HbaPort::start] leaves a port from which AhciRead's reads are right: its 32 command
    headers point to tables of their own, 256 bytes apart.  Two ports share tables all the
    same, because the 8 KiB of tables have one frame. *)

From S2P Require Import Prelude BitFields Paging Frames Memory PciIds AhciDma AhciPort AhciRead.

Local Open Scope Z_scope.

Section Start.
Context `{X86PagingLaws} `{PageMapperLaws} `{BitFieldLaws} `{HbaDevice}.

(** The port's command engine always settles. *)
Definition settles (fuel : nat) (port : Z) : Prop :=
  ∀ busy s, busy = (λ c, contains c CR) ∨ busy = (λ c, intersects c (Z.lor FR CR)) →
    spin_while fuel port busy s ≠ Hang.

Lemma spin_while_cases fuel port busy s :
  (∃ s', spin_while fuel port busy s = Ret s' ∧ same_memory s s') ∨ spin_while fuel port busy s = Hang.
Proof.
  revert s. induction fuel as [|fuel IH]; intros s; cbn [spin_while]; [by right|].
  destruct (prd_frame port f_cmd s) as [Hm Hc]. destruct (prd port f_cmd s) as [cmd s1]. cbn [snd] in *.
  destruct (busy cmd); [|left; exists s1; by split].
  destruct (IH s1) as [(s' & -> & ? & ?)| ->]; [left|by right]. exists s'. split; [done|]. split; congruence.
Qed.

Lemma prd_same port f s : same_memory s (prd port f s).2.
Proof. apply prd_frame. Qed.
Lemma pwr_same port f v s : same_memory s (pwr port f v s).
Proof. done. Qed.
Lemma same_memory_trans s1 s2 s3 : same_memory s1 s2 → same_memory s2 s3 → same_memory s1 s3.
Proof. unfold same_memory. intuition congruence. Qed.

Context (fuel : nat) (port clb off : Z).
Context (Hsettles : settles fuel port).
Context (Hlist : ∀ d, (dev_read (port + port_field f_clb) d).1 = clb).

Lemma prd_clb s : (prd port f_clb s).1 = clb.
Proof. unfold prd, rd. specialize (Hlist (as_dev s)). by destruct (dev_read _ _). Qed.

Lemma stop_cmd_ret s : ∃ s', stop_cmd fuel port s = Ret s' ∧ same_memory s s'.
Proof.
  unfold stop_cmd. pose proof (prd_same port f_cmd s) as Hp. destruct (prd port f_cmd s) as [cmd s1]. cbn [snd] in Hp.
  destruct (spin_while_cases fuel port (λ c, intersects c (Z.lor FR CR))
    (pwr port f_cmd (Z.land cmd (unot 32 (Z.lor FRE ST))) s1)) as [(s' & -> & Hs)|Hh].
  - exists s'. split; [done|]. eapply same_memory_trans; [exact Hp|exact Hs].
  - exfalso. eapply Hsettles; [|exact Hh]. by right.
Qed.

Lemma start_cmd_ret s : ∃ s', start_cmd fuel port s = Ret s' ∧ same_memory s s'.
Proof.
  unfold start_cmd. destruct (spin_while_cases fuel port (λ c, contains c CR) s) as [(s1 & -> & Hs)|Hh].
  - cbn [mbind outcome_bind]. pose proof (prd_same port f_cmd s1) as Hp.
    destruct (prd port f_cmd s1) as [cmd s2]. cbn [snd] in Hp. eexists. split; [done|].
    eapply same_memory_trans; [exact Hs|exact Hp].
  - exfalso. eapply Hsettles; [|exact Hh]. by left.
Qed.

Lemma start_headers frame n s :
  km_offset (km s) = Some off → 0 <= clb → 0 <= off → clb + off < 2 ^ 46 → 0 <= frame < 2 ^ 45 → (n <= 32)%nat →
  ∃ s', foldO (start_header port frame) (Z.of_nat <$> seq 0 n) s = Ret s' ∧ as_mem s' = as_mem s ∧
    ∀ slot, 0 <= slot < 32 →
      let h := cm_header (as_cmd s) (header_addr clb off slot) in
      cm_header (as_cmd s') (header_addr clb off slot) =
      if slot <? Z.of_nat n then MkCmdHeader (ch_flags h) 8 0 (frame + 256 * slot) else h.
Proof.
  intros Ho ? ? ? Hf Hn. induction n as [|n IH].
  { exists s. split_and!; [done..|]. intros slot Hs. by destruct (Z.ltb_spec slot (Z.of_nat 0)); [lia|]. }
  destruct IH as (s1 & E & Hm & Hh); [lia|]. rewrite seq_S, fmap_app, foldO_app, E.
  cbn [mbind outcome_bind fmap list_fmap foldO Nat.add]. unfold start_header.
  rewrite (cmd_header_at_ret port clb off (Z.of_nat n) s1); [|by apply prd_clb|by unfold km; rewrite Hm|lia..].
  cbn [mbind outcome_bind]. destruct (prd_frame port f_clb s1) as [Hm1 Hc1].
  rewrite phys_addr_new_ok by lia. cbn [mbind outcome_bind]. eexists. split; [done|].
  split; [cbn; congruence|]. intros slot Hs. cbn [with_cmd as_cmd set_header cm_header]. rewrite Hc1.
  rewrite (Hh (Z.of_nat n)), Z.ltb_irrefl by lia.
  destruct (Z.eqb_spec (header_addr clb off slot) (header_addr clb off (Z.of_nat n))) as [Heq|Hne].
  - assert (slot = Z.of_nat n) as -> by (unfold header_addr in Heq; lia).
    by destruct (Z.ltb_spec (Z.of_nat n) (Z.of_nat (S n))); [|lia].
  - rewrite Hh by done. assert (slot ≠ Z.of_nat n) by (intros ->; done).
    destruct (Z.ltb_spec slot (Z.of_nat n)), (Z.ltb_spec slot (Z.of_nat (S n))); done || lia.
Qed.

Lemma zero_ranges_flags rs c a :
  is_uN 16 (ch_flags (cm_header c a)) → is_uN 16 (ch_flags (cm_header (foldl zero_range c rs) a)).
Proof.
  revert c. induction rs as [|[v n] rs IH]; intros c Hc; [done|]. cbn [foldl]. apply IH. cbn.
  destruct (_ && _); [|done]. unfold is_uN. cbn. lia.
Qed.

(** The two pages of the tables, mapped the wrong way round. *)
Lemma start_maps_ret frame s m fa :
  dma_ready (as_mem s) m fa off → frames_left fa 6 → 0 <= frame < 2 ^ 45 → frame mod page_size = 0 →
  ∃ m' fa' s', foldO (start_map frame (off + frame)) [0; 0x1000] s = Ret s' ∧
    dma_ready (as_mem s') m' fa' off ∧ advanced 6 fa fa' ∧ as_cmd s' = as_cmd s.
Proof.
  intros (Hk & Ho & Hoff & Hlow) Hf Hfr Hal. unfold page_size in Hal. cbn [foldO].
  destruct (start_map_swapped frame (off + frame) 0 s m fa Hk) as (m1 & fa1 & -> & Ha1 & _);
    [by eapply frames_left_le; [|done]|lia..|]. cbn [mbind outcome_bind].
  assert (ready (with_mem (km s) m1 fa1) m1 fa1) as Hk1 by (by eapply ready_with_mem).
  destruct (start_map_swapped frame (off + frame) 0x1000 (with_km s (with_mem (km s) m1 fa1)) m1 fa1 Hk1)
    as (m2 & fa2 & -> & Ha2 & _); [|zdm..|].
  { eapply frames_left_le; [|by eapply frames_left_advanced]. lia. }
  cbn [mbind outcome_bind]. exists m2, fa2. eexists. split; [done|]. split_and!; [|by eapply advanced_trans|done].
  split_and!; [by eapply ready_with_mem|exact Ho|lia|lia|].
  intros f Hin. apply Hlow. unfold advanced in *. destruct_and?. congruence.
Qed.

(** C9: [HbaPort::start] returns on a controller whose engine settles, and leaves a port that
    is ready for reads: every header points to a table of its own inside the 8 KiB that
    begin at the frame taken for them, whatever zeroing that memory has erased. *)
Theorem port_start_ready s m fa :
  dma_ready (as_mem s) m fa off → frames_left fa 13 → 0 <= clb < 2 ^ 45 → 0 <= off < 2 ^ 44 →
  (∀ slot, 0 <= slot < 32 → is_uN 16 (ch_flags (cm_header (as_cmd s) (header_addr clb off slot)))) →
  ∃ frame s' m' fa', port_start fuel port s = Ret s' ∧
    usable_addrs (fa_map fa) !! Z.to_nat (fa_next fa) = Some frame ∧
    port_ready (AhciPort_new port) clb off s' ∧ tables_apart clb off (as_cmd s') ∧
    dma_ready (as_mem s') m' fa' off ∧ advanced 13 fa fa' ∧
    ∀ slot, 0 <= slot < 32 → ctb clb off (as_cmd s') slot = frame + 256 * slot.
Proof.
  intros Hd Hf Hclb Hoff Hfl. unfold port_start.
  destruct (stop_cmd_ret s) as (s1 & -> & Hm1 & Hc1). cbn [mbind outcome_bind]. rewrite Hm1.
  destruct (pmm_alloc_spec Size8KiB (as_mem s) m fa off Hd) as (frame & dm & m2 & fa2 & Hfr & -> & Hd2 & _ & Ha2 & _);
    [by eapply frames_left_le; [|done]|].
  cbn [mbind outcome_bind]. set (s2 := with_dma s1 dm).
  assert (km_offset (km s2) = Some off) as Ho2 by apply Hd2.
  rewrite (get_phys_offset_ret _ off Ho2). cbn [mbind outcome_bind].
  pose proof (proj2 (proj2 (proj2 Hd)) frame (list_elem_of_lookup_2 _ _ _ Hfr)) as Hlow.
  destruct (usable_in_map fa _ frame (proj1 Hf) Hfr) as (_ & Hal & Hfr0).
  rewrite uadd_ret by lia. cbn [mbind outcome_bind].
  destruct (start_maps_ret frame s2 m2 fa2 Hd2) as (m3 & fa3 & s3 & -> & Hd3 & Ha3 & Hc3); [|lia|done|].
  { eapply frames_left_le; [|by eapply frames_left_advanced]. lia. }
  cbn [mbind outcome_bind].
  destruct (start_headers frame 32 s3) as (s4 & E4 & Hm4 & Hh); [apply Hd3|lia..|].
  unfold port_indices. rewrite E4. cbn [mbind outcome_bind]. clear E4.
  repeat match goal with |- context [prd port ?f ?x] =>
    pose proof (prd_same port f x); destruct (prd port f x) as [? ?]; cbn [snd] in * end.
  match goal with |- context [start_cmd fuel port ?x] => destruct (start_cmd_ret x) as (s' & -> & Hs') end.
  assert (same_memory s4 s') as [Hm Hc].
  { unfold same_memory, pwr, wr in *. cbn [with_dev as_mem as_cmd] in *. intuition congruence. }
  assert (∀ slot, 0 <= slot < 32 → cm_header (as_cmd s') (header_addr clb off slot) =
    MkCmdHeader (ch_flags (cm_header (as_cmd s2) (header_addr clb off slot))) 8 0 (frame + 256 * slot)) as Hhead.
  { intros slot Hs. rewrite Hc, (Hh slot Hs), Hc3. by destruct (Z.ltb_spec slot (Z.of_nat 32)); [|lia]. }
  assert (∀ slot, 0 <= slot < 32 → ctb clb off (as_cmd s') slot = frame + 256 * slot) as Hctb.
  { intros slot Hs. unfold ctb. by rewrite Hhead. }
  exists frame, s', m3, fa3. split_and!; [done|done| | | | |done].
  - split; [exact Hlist|]. intros slot Hs. split; [apply prd_clb|].
    split; [unfold km; rewrite Hm, Hm4; apply Hd3|]. rewrite Hhead by done. cbn [ch_ctb ch_flags]. unfold page_size in *.
    split_and!; [lia..|]. apply zero_ranges_flags. rewrite Hc1. by apply Hfl.
  - intros i j Hi Hj Hne. rewrite !Hctb by done. lia.
  - by rewrite Hm, Hm4.
  - by eapply (advanced_trans 7 6).
Qed.

End Start.

(** ** Concrete runs *)

Lemma port_start_witness :
  ∃ s', port_start 1 0xF100 (ahci_loaded kmem_disk (λ _, 0)) = Ret s' ∧
    ctb 0x100000 0 (as_cmd s') 31 = 0x1001f00 ∧ tables_apart 0x100000 0 (as_cmd s').
Proof.
  destruct (port_start_ready (H5 := loaded_device (λ _, 0)) 1 0xF100 0x100000 0)
    with (s := ahci_loaded kmem_disk (λ _, 0)) (m := (∅ : gmap Z (Z * Z))) (fa := falloc_new disk_map)
    as (frame & s' & m' & fa' & E & Hf & _ & Ha & _ & _ & Hc).
  - intros busy s [-> | ->]; done.
  - done.
  - apply dma_ready_loaded.
  - by apply disk_map_left.
  - lia.
  - lia.
  - intros slot Hs. cbn. unfold is_uN. cbn. lia.
  - exists s'. split; [exact E|]. split; [|exact Ha]. rewrite (Hc 31) by lia.
    assert (frame = 0x1000000) as -> by (cbv in Hf; congruence). reflexivity.
Defined.

(** Two ports started one after the other, in adjacent frames: the table of slot 16 of the
    first is the table of slot 0 of the second. *)
Lemma two_ports_share_table :
  (s ← port_start 1 0xF100 (ahci_loaded kmem_disk (λ _, 0));
   s ← port_start 1 0xF180 s;
   Ret (ctb 0x100000 0 (as_cmd s) 16, ctb 0 0 (as_cmd s) 0)) = Ret (0x1001000, 0x1001000).
Proof. vm_refl. Qed.
