(* ===== verification/AcpiScheme.v ===== *)
(** * The ACPI scheme, src/scheme/acpi.rs

    File handles on the kernel's ACPI tables, a shutdown pipe and a top-level
    directory: open, fstat, close, write, seek, fevent and read over the table of
    open handles.  The flag and error numbers are those of the [syscall] crate
    ([SchemeAbi]); a result is [inr v] or [inl errno].

    The code takes [addr_of!(tables)] of a local reference to the tables and copies
    [size_of::<UserAcpi>()] bytes from there: the eight bytes of the reference and then
    what lies above it on the stack of that call. *)

From Stdlib Require Import Ascii.
From S2P Require Import Prelude.

Local Open Scope Z_scope.

Class SchemeAbi : Type := {
  O_CREAT : Z; O_EXCL : Z; O_SYMLINK : Z; O_ACCMODE : Z; O_RDONLY : Z; O_STAT : Z; O_DIRECTORY : Z;
  SEEK_SET : Z; SEEK_CUR : Z; SEEK_END : Z;
  MODE_FILE : Z; MODE_DIR : Z; MODE_CHR : Z;
  EACCES : Z; EBADF : Z; EBADFD : Z; EINVAL : Z; EISDIR : Z; ENOENT : Z; EROFS : Z;
  UserAcpi_size : Z;   (* size_of::<UserAcpi>() *)
  DATA_address : Z;    (* where the tables are in [DATA] *)
}.

(** The three origins are distinct, and so are the error numbers; two vectors are part of
    [UserAcpi]. *)
Class SchemeAbiLaws `{SchemeAbi} : Prop := {
  whence_distinct : NoDup [SEEK_SET; SEEK_CUR; SEEK_END];
  errno_distinct : NoDup [EACCES; EBADF; EBADFD; EINVAL; EISDIR; ENOENT; EROFS];
  UserAcpi_big : 48 <= UserAcpi_size < 2 ^ 63;
}.

#[export] Instance scheme_abi_model : SchemeAbi | 100 := {
  O_CREAT := 0x2000000; O_EXCL := 0x8000000; O_SYMLINK := 0x40000000; O_ACCMODE := 0x30000;
  O_RDONLY := 0x10000; O_STAT := 0x20000000; O_DIRECTORY := 0x10000000;
  SEEK_SET := 0; SEEK_CUR := 1; SEEK_END := 2;
  MODE_FILE := 0x8000; MODE_DIR := 0x4000; MODE_CHR := 0x2000;
  EACCES := 13; EBADF := 9; EBADFD := 77; EINVAL := 22; EISDIR := 21; ENOENT := 2; EROFS := 30;
  UserAcpi_size := 64; DATA_address := 0x201000;
}.

#[export] Instance scheme_abi_model_laws : @SchemeAbiLaws scheme_abi_model.
Proof. split; cbn; [by apply (bool_decide_unpack _)..|lia]. Qed.

Inductive HandleKind : Type := TopLevel | RootTable | ShutdownPipe.

Record Handle : Type := MkHandle { h_offset : Z; h_kind : HandleKind; h_stat : bool }.

Record Stat : Type := MkStat { st_mode : Z; st_size : Z }.

(** The statics of the module.  [sc_DATA] says whether the tables are there; their contents
    are never looked at. *)
Record SchemeState : Type := MkScheme {
  sc_HANDLES : gmap Z Handle; sc_NEXT : Z; sc_DATA : bool; sc_WAIT_FLAG : bool; sc_SCHID : Z;
}.

Definition SIGNATURE : list Z :=
  [114; 120; 115; 100; 116; 10; 107; 115; 116; 111; 112; 10].  (* rxsdt\nkstop\n *)

Definition with_handles (s : SchemeState) (hs : gmap Z Handle) : SchemeState :=
  MkScheme hs (sc_NEXT s) (sc_DATA s) (sc_WAIT_FLAG s) (sc_SCHID s).
Definition set_handle (s : SchemeState) (fd : Z) (h : Handle) : SchemeState :=
  with_handles s (<[fd := h]> (sc_HANDLES s)).

(** [AcpiScheme::new]: only the first call with tables stores them. *)
Definition scheme_new (user_acpi : bool) (id : Z) (s : SchemeState) : SchemeState :=
  if user_acpi && negb (sc_DATA s) then MkScheme (sc_HANDLES s) (sc_NEXT s) true (sc_WAIT_FLAG s) id else s.

(** [str::trim_start_matches('/')]. *)
Fixpoint trim_start_slash (p : string) : string :=
  match p with
  | String c p' => if Ascii.eqb c "/"%char then trim_start_slash p' else p
  | EmptyString => p
  end.

Abbreviation result A := (Z + A)%type.

Section Scheme.
Context `{SchemeAbi}.

(** The bytes from [addr_of!(tables)] on, on a stack that holds [stack i] in the [i]-th byte
    above the reference. *)
Definition raw_tables (stack : nat → Z) : list Z :=
  to_le_bytes 8 DATA_address ++ (stack <$> seq 0 (Z.to_nat UserAcpi_size - 8)).

Definition acpi_len (s : SchemeState) : outcome Z :=
  if sc_DATA s then Ret UserAcpi_size else Panic (PMsg "ACPI tables not present").

Definition flag (flags f : Z) : bool := Z.land flags f =? f.

Definition open_kind (path : string) (flags : Z) : result HandleKind :=
  let dir k := if negb (flag flags O_DIRECTORY) && negb (flag flags O_STAT) then inl EISDIR else inr k in
  if bool_decide (path = EmptyString) then dir TopLevel
  else if bool_decide (path = "rxsdt"%string) then dir RootTable
  else if bool_decide (path = "kstop"%string) then dir ShutdownPipe
  else inl ENOENT.

Definition open (path : string) (flags uid : Z) (s : SchemeState) : result Z * SchemeState :=
  let path := trim_start_slash path in
  if negb (uid =? 0) then (inl EACCES, s)
  else if flag flags O_CREAT then (inl EROFS, s)
  else if flag flags O_EXCL || flag flags O_SYMLINK then (inl EINVAL, s)
  else if negb (Z.land flags O_ACCMODE =? O_RDONLY) && negb (flag flags O_STAT) then (inl EROFS, s)
  else
    match open_kind path flags with
    | inl e => (inl e, s)
    | inr kind =>
        let fd := sc_NEXT s in
        let s := MkScheme (sc_HANDLES s) (wrap 64 (fd + 1)) (sc_DATA s) (sc_WAIT_FLAG s) (sc_SCHID s) in
        (inr fd, set_handle s fd (MkHandle 0 kind (flag flags O_STAT)))
    end.

Definition fstat (id : Z) (s : SchemeState) : result Stat :=
  match sc_HANDLES s !! id with
  | None => inl EBADF
  | Some h =>
      match h_kind h with
      | RootTable =>
          if sc_DATA s then inr (MkStat MODE_FILE UserAcpi_size) else inl EBADFD
      | TopLevel => inr (MkStat MODE_DIR (Z.of_nat (length SIGNATURE)))
      | ShutdownPipe => inr (MkStat MODE_CHR 1)
      end
  end.

Definition close (id : Z) (s : SchemeState) : result Z * SchemeState :=
  match sc_HANDLES s !! id with
  | None => (inl EBADF, s)
  | Some _ => (inr 0, with_handles s (delete id (sc_HANDLES s)))
  end.

Definition write (id : Z) (buf : list Z) : result Z := inl EBADF.

(** [(-pos) as u64] of a negative [isize]: the most negative one overflows. *)
Definition neg_as_u64 (pos : Z) : outcome Z :=
  if pos =? - 2 ^ 63 then Panic POverflow else Ret (- pos).

Definition seek_offset (h : Handle) (flen pos whence : Z) : outcome (result Z) :=
  if whence =? SEEK_SET then Ret (inr (wrap 64 pos))
  else if whence =? SEEK_CUR then
    if pos <? 0 then
      n ← neg_as_u64 pos;
      Ret (match checked_sub (h_offset h) n with Some o => inr o | None => inl EINVAL end)
    else Ret (inr (saturating_add 64 (h_offset h) pos))
  else if whence =? SEEK_END then
    if pos <? 0 then
      n ← neg_as_u64 pos;
      Ret (match checked_sub flen n with Some o => inr o | None => inl EINVAL end)
    else Ret (inr flen)
  else Ret (inl EINVAL).

Definition seek (id pos whence : Z) (s : SchemeState) : outcome (result Z * SchemeState) :=
  match sc_HANDLES s !! id with
  | None => Ret (inl EBADF, s)
  | Some h =>
      if h_stat h then Ret (inl EBADF, s)
      else
        flen ← match h_kind h with
               | TopLevel => Ret (Z.of_nat (length SIGNATURE))
               | RootTable => acpi_len s
               | ShutdownPipe => Ret 1
               end;
        r ← seek_offset h flen pos whence;
        Ret (match r with
             | inl e => (inl e, s)
             | inr o => (inr (swrap 64 o), set_handle s id (MkHandle o (h_kind h) (h_stat h)))
             end)
  end.

Definition fevent (id : Z) (s : SchemeState) : result Z :=
  match sc_HANDLES s !! id with
  | None => inl EBADF
  | Some h => if h_stat h then inl EBADF else inr 0
  end.

(** Copy from [data] at the handle's offset into the buffer. *)
Definition read_data (data : list Z) (id : Z) (h : Handle) (buf : list Z) (s : SchemeState)
    : outcome (result Z * list Z * SchemeState) :=
  let src_offset := Z.min (h_offset h) (Z.of_nat (length data)) in
  let src := drop (Z.to_nat src_offset) data in
  let to_cp := Z.min (Z.of_nat (length buf)) (Z.of_nat (length src)) in
  let buf := take (Z.to_nat to_cp) src ++ drop (Z.to_nat to_cp) buf in
  offset ← uadd 64 (h_offset h) to_cp;
  Ret (inr to_cp, buf, set_handle s id (MkHandle offset (h_kind h) (h_stat h))).

(** [stack] is the call's own.  The pipe's first byte arrives when [WAIT_FLAG] is set. *)
Definition read (id : Z) (buf : list Z) (stack : nat → Z) (s : SchemeState) : outcome (result Z * list Z * SchemeState) :=
  match sc_HANDLES s !! id with
  | None => Ret (inl EBADF, buf, s)
  | Some h =>
      match h_kind h with
      | TopLevel => read_data SIGNATURE id h buf s
      | RootTable =>
          if sc_DATA s then read_data (raw_tables stack) id h buf s else Ret (inl EBADFD, buf, s)
      | ShutdownPipe =>
          match buf with
          | [] => Ret (inr 0, buf, s)
          | _ :: rest =>
              if 1 <=? h_offset h then Ret (inr 0, buf, s)
              else if sc_WAIT_FLAG s
              then Ret (inr 1, 0x42 :: rest, set_handle s id (MkHandle 1 (h_kind h) (h_stat h)))
              else Hang
          end
      end
  end.

End Scheme.

(** ** Handles *)

Section SchemeTheory.
Context `{SchemeAbiLaws}.

(** The tables are in place and descriptors are below the counter. *)
Definition scheme_wf (s : SchemeState) : Prop :=
  0 <= sc_NEXT s < 2 ^ 64 ∧ (∀ fd, is_Some (sc_HANDLES s !! fd) → 0 <= fd < sc_NEXT s).

Lemma length_raw_tables stack : length (raw_tables stack) = Z.to_nat UserAcpi_size.
Proof.
  pose proof UserAcpi_big. unfold raw_tables. rewrite length_app, length_to_le_bytes, length_fmap, length_seq. lia.
Qed.

(** The bytes behind a handle that a [read] on a given stack copies from, and how many
    there are. *)
Definition contents (s : SchemeState) (h : Handle) (stack : nat → Z) : option (list Z) :=
  match h_kind h with
  | TopLevel => Some SIGNATURE
  | RootTable => if sc_DATA s then Some (raw_tables stack) else None
  | ShutdownPipe => None
  end.
Definition file_len (kind : HandleKind) : nat :=
  match kind with
  | TopLevel => length SIGNATURE
  | RootTable => Z.to_nat UserAcpi_size
  | ShutdownPipe => 1
  end.

Lemma read_contents id buf stack s h data :
  sc_HANDLES s !! id = Some h → contents s h stack = Some data →
  read id buf stack s = read_data data id h buf s ∧ length data = file_len (h_kind h) ∧
  Z.of_nat (length data) < 2 ^ 63.
Proof.
  unfold contents, read, file_len. pose proof UserAcpi_big. intros -> Hd.
  destruct (h_kind h); [by simplify_eq| |done]. destruct (sc_DATA s); [|done]. simplify_eq.
  rewrite length_raw_tables. split_and!; [done..|lia].
Qed.

(** What one read copies: the buffer starts with the next bytes of the file. *)
Lemma read_data_spec data id h buf s :
  0 <= h_offset h < 2 ^ 64 → Z.of_nat (length data) < 2 ^ 64 →
  let o := Z.to_nat (h_offset h) in
  let n := Nat.min (length buf) (length data - o) in
  read_data data id h buf s =
    Ret (inr (Z.of_nat n), take (length buf) (drop o data) ++ drop n buf,
         set_handle s id (MkHandle (h_offset h + Z.of_nat n) (h_kind h) (h_stat h))).
Proof.
  intros Ho Hlt o n. unfold read_data.
  assert (drop (Z.to_nat (Z.min (h_offset h) (Z.of_nat (length data)))) data = drop o data) as ->.
  { destruct (Z.min_spec (h_offset h) (Z.of_nat (length data))) as [[? ->]|[? ->]]; [done|].
    rewrite Nat2Z.id, drop_ge, drop_ge by (unfold o; lia). done. }
  rewrite length_drop.
  assert (Z.min (Z.of_nat (length buf)) (Z.of_nat (length data - o)) = Z.of_nat n) as -> by lia.
  rewrite Nat2Z.id, uadd_ret by lia. cbn [mbind outcome_bind]. do 3 f_equal. f_equal.
  unfold n. destruct (decide (length buf <= length data - o)%nat) as [Hle|].
  - by rewrite Nat.min_l by done.
  - rewrite Nat.min_r, !take_ge by (rewrite ?length_drop; lia). done.
Qed.

(** Reads with a sequence of buffers, each on its own stack, and the bytes they return. *)
Fixpoint reads (id : Z) (calls : list (list Z * (nat → Z))) (s : SchemeState) : outcome (list Z * SchemeState) :=
  match calls with
  | [] => Ret ([], s)
  | (buf, stack) :: calls =>
      '(r, b, s) ← read id buf stack s;
      match r with
      | inl _ => Ret ([], s)
      | inr n => '(bs, s) ← reads id calls s; Ret (take (Z.to_nat n) b ++ bs, s)
      end
  end.

(** Two consecutive pieces of a list are one piece. *)
Lemma take_drop_pieces {A} (d : list A) (o a b : nat) :
  take a (drop o d) ++ take b (drop (o + Nat.min a (length d - o)) d) = take (a + b) (drop o d).
Proof.
  destruct (decide (a <= length d - o)%nat) as [Hle|].
  - rewrite Nat.min_l by done. rewrite <- (drop_drop d a o). apply take_take_drop.
  - rewrite (drop_ge d (o + _)) by lia. rewrite take_nil, app_nil_r, !take_ge
      by (rewrite length_drop; lia). done.
Qed.

Definition total_len (calls : list (list Z * (nat → Z))) : nat :=
  foldr (λ call n, (length call.1 + n)%nat) 0%nat calls.

Lemma reads_cons id buf stack calls s h data :
  sc_HANDLES s !! id = Some h → contents s h stack = Some data → 0 <= h_offset h < 2 ^ 64 →
  let o := Z.to_nat (h_offset h) in
  let n := Nat.min (length buf) (file_len (h_kind h) - o) in
  reads id ((buf, stack) :: calls) s =
    '(bs, s) ← reads id calls (set_handle s id (MkHandle (h_offset h + Z.of_nat n) (h_kind h) (h_stat h)));
    Ret (take (length buf) (drop o data) ++ bs, s).
Proof.
  intros Hh Hd Ho o n. cbn [reads]. destruct (read_contents id buf stack s h data Hh Hd) as (-> & Hlen & Hlt).
  rewrite read_data_spec by (done || lia). cbn [mbind outcome_bind]. fold o. rewrite Hlen. fold n.
  destruct (reads id calls _) as [[bs s']| |]; cbn [mbind outcome_bind]; [|done..].
  rewrite Nat2Z.id. do 3 f_equal. rewrite take_app_length'; [done|].
  rewrite length_take, length_drop, Hlen. done.
Qed.

(** The bytes [bs] that a list of calls returned from offset [o] of a file of [len] bytes:
    as many as fit, and in the place of each call what it saw there. *)
Definition read_pieces (view : (nat → Z) → option (list Z)) (o len : nat)
    (calls : list (list Z * (nat → Z))) (bs : list Z) : Prop :=
  length bs = Nat.min (total_len calls) (len - o) ∧
  ∀ before buf stack after data, calls = before ++ (buf, stack) :: after → view stack = Some data →
    take (length buf) (drop (total_len before) bs) = take (length buf) (drop (o + total_len before) data).

Lemma read_pieces_cons view o len buf stack calls data bs :
  (∀ stack data, view stack = Some data → length data = len) → view stack = Some data →
  read_pieces view (o + Nat.min (length buf) (len - o)) len calls bs →
  read_pieces view o len ((buf, stack) :: calls) (take (length buf) (drop o data) ++ bs).
Proof.
  intros Hlen Hd [Hbs Hp]. pose proof (Hlen _ _ Hd) as Hl.
  assert (length (take (length buf) (drop o data)) = Nat.min (length buf) (len - o)) as Hpl
    by (rewrite length_take, length_drop, Hl; lia).
  split; [rewrite length_app, Hpl, Hbs; cbn [total_len foldr fst]; fold (total_len calls); lia|].
  clear Hl. intros [|[buf' stack'] before] buf1 stack1 after data1 Hc Hd1; cbn [app] in Hc; simplify_eq.
  - cbn [total_len foldr]. rewrite drop_0, Nat.add_0_r.
    destruct (decide (length buf1 <= len - o)%nat) as [Hle|].
    + rewrite take_app_length'; [done|lia].
    + rewrite (nil_length_inv bs) by lia. rewrite app_nil_r, take_idemp. done.
  - change (total_len ((buf', stack') :: before)) with (length buf' + total_len before)%nat.
    destruct (decide (length buf' <= len - o)%nat) as [Hle|].
    + rewrite drop_app_ge, Hpl by lia. rewrite Nat.min_l in * by done.
      replace (length buf' + total_len before - length buf')%nat with (total_len before) by lia.
      rewrite (Hp before buf1 stack1 after data1 eq_refl Hd1). by rewrite Nat.add_assoc.
    + rewrite (nil_length_inv bs) by lia. rewrite app_nil_r, (drop_ge (take _ _)), (drop_ge data1); [done| |lia].
      rewrite (Hlen _ _ Hd1). lia.
Qed.

(** C10: reading through one handle, with buffers of any sizes, returns a byte for every
    position from the handle's offset on, without gap or repetition, up to the end of the
    file; the offset advances by what was read, and every other handle keeps its own.  For
    the top-level directory these are the bytes of the listing in order.  For the tables
    each call copies its own eight-byte reference to them and the bytes above it on its
    own stack, at the position it has reached: the kernel's address and stack, never the
    tables, and two calls need not agree on a byte. *)
Theorem reads_concat id calls s h :
  sc_HANDLES s !! id = Some h → 0 <= h_offset h < 2 ^ 64 →
  h_kind h = TopLevel ∨ h_kind h = RootTable ∧ sc_DATA s = true →
  let o := Z.to_nat (h_offset h) in
  let len := file_len (h_kind h) in
  ∃ bs s', reads id calls s = Ret (bs, s') ∧
    read_pieces (contents s h) o len calls bs ∧
    (h_kind h = TopLevel → bs = take (total_len calls) (drop o SIGNATURE)) ∧
    sc_HANDLES s' !! id = Some (MkHandle (h_offset h + Z.of_nat (length bs)) (h_kind h) (h_stat h)) ∧
    ∀ fd, fd ≠ id → sc_HANDLES s' !! fd = sc_HANDLES s !! fd.
Proof.
  intros Hh Ho Hk o len. assert (∀ stack, ∃ data, contents s h stack = Some data) as Hview.
  { intros stack. unfold contents. destruct Hk as [->|[-> ->]]; eauto. }
  clear Hk. revert s h Hh Ho o len Hview. induction calls as [|[buf stack] calls IH]; intros s h Hh Ho o len Hview.
  - exists [], s. split_and!; [done| |done| |done].
    + split; [done|]. intros [|??]; done.
    + rewrite Z.add_0_r. by destruct h.
  - destruct (Hview stack) as [data Hd]. rewrite (reads_cons id buf stack calls s h data Hh Hd Ho).
    pose proof (read_contents id buf stack s h data Hh Hd) as (_ & Hlen & Hlt).
    fold o len. set (n := Nat.min (length buf) (len - o)). set (h1 := MkHandle _ _ _).
    destruct (IH (set_handle s id h1) h1) as (bs & s' & -> & Hp & Ht & Hs' & Hne).
    { apply lookup_insert_eq. }
    { cbn [h1 h_offset]. unfold n, len, o. lia. }
    { exact Hview. }
    assert (Z.to_nat (h_offset h1) = o + n)%nat as Ho1 by (cbn [h1 h_offset]; lia).
    rewrite Ho1 in *. cbn [mbind outcome_bind]. eexists _, s'. split; [done|].
    assert (read_pieces (contents s h) o len ((buf, stack) :: calls) (take (length buf) (drop o data) ++ bs)) as Hp'.
    { apply read_pieces_cons; [|done..]. intros st d Hst. by destruct (read_contents id [] st s h d Hh Hst) as (_ & ? & _). }
    split_and!; [done|..].
    + intros Hk. rewrite (Ht Hk). assert (data = SIGNATURE) as -> by (unfold contents in Hd; rewrite Hk in Hd; by simplify_eq).
      unfold n, len. rewrite <- Hlen. apply take_drop_pieces.
    + rewrite Hs'. cbn [h1 h_offset h_kind h_stat]. do 2 f_equal. rewrite length_app, length_take, length_drop, Hlen.
      unfold n, len. lia.
    + intros fd Hfd. rewrite Hne by done. by apply lookup_insert_ne.
Qed.

(** Who may open what. *)
Definition access_ok (path : string) (flags uid : Z) (kind : HandleKind) : Prop :=
  uid = 0 ∧ flag flags O_CREAT = false ∧ flag flags O_EXCL = false ∧ flag flags O_SYMLINK = false ∧
  (Z.land flags O_ACCMODE = O_RDONLY ∨ flag flags O_STAT = true) ∧
  (flag flags O_DIRECTORY = true ∨ flag flags O_STAT = true) ∧
  trim_start_slash path =
    match kind with TopLevel => EmptyString | RootTable => "rxsdt" | ShutdownPipe => "kstop" end%string.

Lemma open_kind_ok path flags kind :
  open_kind path flags = inr kind ↔
  (flag flags O_DIRECTORY = true ∨ flag flags O_STAT = true) ∧
  path = match kind with TopLevel => EmptyString | RootTable => "rxsdt" | ShutdownPipe => "kstop" end%string.
Proof.
  unfold open_kind. repeat case_bool_decide; subst;
    destruct (flag flags O_DIRECTORY), (flag flags O_STAT), kind; cbn; intuition congruence.
Qed.

Definition opened (s : SchemeState) (kind : HandleKind) (stat : bool) : SchemeState :=
  MkScheme (<[sc_NEXT s := MkHandle 0 kind stat]> (sc_HANDLES s)) (wrap 64 (sc_NEXT s + 1))
    (sc_DATA s) (sc_WAIT_FLAG s) (sc_SCHID s).

Lemma open_ok path flags uid s kind :
  access_ok path flags uid kind →
  open path flags uid s = (inr (sc_NEXT s), opened s kind (flag flags O_STAT)).
Proof.
  intros (-> & Hc & He & Hy & Hr & Hd & Hp). unfold open. rewrite Hc, He, Hy. cbn [negb orb Z.eqb].
  assert (negb (Z.land flags O_ACCMODE =? O_RDONLY) && negb (flag flags O_STAT) = false) as ->.
  { destruct Hr as [->| ->]; [by rewrite Z.eqb_refl|by rewrite andb_false_r]. }
  by rewrite (proj2 (open_kind_ok _ _ kind) (conj Hd Hp)).
Qed.

Lemma open_err path flags uid s :
  (∀ kind, ¬ access_ok path flags uid kind) → ∃ e, open path flags uid s = (inl e, s).
Proof.
  intros Hno. unfold open. destruct (Z.eqb_spec uid 0) as [->|]; cbn [negb]; [|by eexists].
  destruct (flag flags O_CREAT) eqn:Hc; [by eexists|]. destruct (flag flags O_EXCL) eqn:He; [by eexists|].
  destruct (flag flags O_SYMLINK) eqn:Hy; [by eexists|]. cbn [orb].
  destruct (negb (Z.land flags O_ACCMODE =? O_RDONLY) && negb (flag flags O_STAT)) eqn:Hr; [by eexists|].
  destruct (open_kind _ flags) as [e|kind] eqn:Hk; [by eexists|].
  apply open_kind_ok in Hk as [Hd Hp]. destruct (Hno kind). split_and!; try done.
  apply andb_false_iff in Hr as [Hr|Hr]; apply negb_false_iff in Hr; [|by right].
  left. by apply Z.eqb_eq.
Qed.

(** C29: [open] succeeds exactly for root, read-only or [O_STAT], on the three names
    opened as directories or with [O_STAT]; any refusal leaves the state alone.  A
    success allocates a descriptor that was not open, at offset 0, touching no other;
    closing it restores the table, after which every call on it is [EBADF] and a
    later open gets another number. *)
Theorem open_close_lifecycle path flags uid s :
  scheme_wf s → sc_NEXT s + 1 < 2 ^ 64 →
  ((∀ kind, ¬ access_ok path flags uid kind) → ∃ e, open path flags uid s = (inl e, s)) ∧
  ∀ kind, access_ok path flags uid kind →
    ∃ s' s'', open path flags uid s = (inr (sc_NEXT s), s') ∧ scheme_wf s' ∧
      sc_HANDLES s !! sc_NEXT s = None ∧
      sc_HANDLES s' = <[sc_NEXT s := MkHandle 0 kind (flag flags O_STAT)]> (sc_HANDLES s) ∧
      close (sc_NEXT s) s' = (inr 0, s'') ∧ sc_HANDLES s'' = sc_HANDLES s ∧ scheme_wf s'' ∧
      sc_NEXT s < sc_NEXT s'' ∧ fstat (sc_NEXT s) s'' = inl EBADF ∧
      close (sc_NEXT s) s'' = (inl EBADF, s'') ∧ fevent (sc_NEXT s) s'' = inl EBADF ∧
      (∀ pos whence, seek (sc_NEXT s) pos whence s'' = Ret (inl EBADF, s'')) ∧
      ∀ buf stack, read (sc_NEXT s) buf stack s'' = Ret (inl EBADF, buf, s'').
Proof.
  intros [Hn Hwf] Hlt. split; [apply open_err|]. intros kind Ha. rewrite (open_ok path flags uid s kind Ha).
  assert (sc_HANDLES s !! sc_NEXT s = None) as Hnone.
  { apply eq_None_not_Some. intros ?%Hwf. lia. }
  unfold opened, close, fstat, fevent, seek, read. rewrite wrap_small by (unfold is_uN; lia).
  do 2 eexists. split; [done|]. cbn [sc_HANDLES]. rewrite lookup_insert_eq.
  unfold with_handles. cbn [sc_HANDLES sc_NEXT]. rewrite delete_insert_id by done.
  split. { split; cbn [sc_NEXT sc_HANDLES]; [lia|]. intros fd [x Hx].
           apply lookup_insert_Some in Hx as [[<- _]|[_ Hx]]; [lia|]. specialize (Hwf fd (mk_is_Some _ _ Hx)). lia. }
  split_and!; try done; cbn [sc_NEXT sc_HANDLES]; try lia; rewrite ?Hnone; try done.
  split; cbn [sc_NEXT sc_HANDLES]; [lia|]. intros fd Hfd. specialize (Hwf fd Hfd). lia.
Qed.

(** *** Corner cases of [seek] and [read] *)

(** From the end, a forward displacement is ignored. *)
Lemma seek_end_forward h flen pos : 0 <= pos → seek_offset h flen pos SEEK_END = Ret (inr flen).
Proof.
  intros Hp. unfold seek_offset. pose proof whence_distinct as Hw.
  rewrite !NoDup_cons, !not_elem_of_cons in Hw. destruct Hw as ((? & ? & _) & (? & _) & _).
  destruct (Z.eqb_spec SEEK_END SEEK_SET); [congruence|].
  destruct (Z.eqb_spec SEEK_END SEEK_CUR); [congruence|]. rewrite Z.eqb_refl.
  destruct (Z.ltb_spec pos 0); [lia|done].
Qed.

(** The most negative displacement panics. *)
Lemma seek_cur_min h flen : seek_offset h flen (- 2 ^ 63) SEEK_CUR = Panic POverflow.
Proof.
  unfold seek_offset. pose proof whence_distinct as Hw.
  rewrite !NoDup_cons, !not_elem_of_cons in Hw. destruct Hw as ((? & ? & _) & _).
  destruct (Z.eqb_spec SEEK_CUR SEEK_SET); [congruence|]. by rewrite Z.eqb_refl.
Qed.

(** No operation of the scheme sets the flag the shutdown pipe waits for. *)
Lemma kstop_read_hangs id h b buf stack s :
  sc_HANDLES s !! id = Some h → h_kind h = ShutdownPipe → h_offset h = 0 → sc_WAIT_FLAG s = false →
  read id (b :: buf) stack s = Hang.
Proof. intros Hh Hk Ho Hw. unfold read. by rewrite Hh, Hk, Ho, Hw. Qed.

End SchemeTheory.

(** ** Concrete runs *)

Definition scheme_example : SchemeState := MkScheme ∅ 0 true false 0.

Lemma open_close_witness :
  ∃ s' s'', open "/rxsdt" 0x10010000 0 scheme_example = (inr 0, s') ∧ close 0 s' = (inr 0, s'') ∧
    close 0 s'' = (inl 9, s'') ∧ open "/dsdt" 0x10010000 0 scheme_example = (inl 2, scheme_example).
Proof.
  destruct (open_close_lifecycle "/rxsdt" 0x10010000 0 scheme_example) as [_ Hok];
    [split; [cbn; lia|intros fd [? Hx]; cbn in Hx; by rewrite lookup_empty in Hx]|cbn; lia|].
  destruct (Hok RootTable) as (s' & s'' & E & _ & _ & _ & Hc & _ & _ & _ & _ & Hc' & _).
  - split_and!; try done; by left.
  - by exists s', s''.
Defined.

(** Two reads of six bytes each, the second one on another stack: the first eight bytes are
    the address of the tables, and the next ones what the second stack holds. *)
Lemma reads_witness :
  ∃ s s' bs, open "rxsdt" 0x10010000 0 scheme_example = (inr 0, s) ∧
    reads 0 [(replicate 6 0, λ _, 0xaa); (replicate 6 0, λ _, 0xbb)] s = Ret (bs, s') ∧
    bs = [0; 0x10; 0x20; 0; 0; 0; 0; 0; 0xbb; 0xbb; 0xbb; 0xbb] ∧
    sc_HANDLES s' !! 0 = Some (MkHandle 12 RootTable false).
Proof.
  set (calls := [(replicate 6 0, λ _, 0xaa); (replicate 6 0, λ _, 0xbb)] : list (list Z * (nat → Z))).
  destruct (reads_concat 0 calls (opened scheme_example RootTable false) (MkHandle 0 RootTable false))
    as (bs & s' & E & [Hlen Hp] & _ & Hs' & _); [done|cbn; lia|by right|].
  pose proof (Hp [] _ _ _ _ eq_refl eq_refl) as H1. pose proof (Hp [(replicate 6 0, λ _, 0xaa)] _ _ _ _ eq_refl eq_refl) as H2.
  change (take 6 (drop 0 bs) = [0; 0x10; 0x20; 0; 0; 0]) in H1.
  change (take 6 (drop 6 bs) = [0; 0; 0xbb; 0xbb; 0xbb; 0xbb]) in H2.
  change (length bs = 12%nat) in Hlen. rewrite drop_0 in H1.
  rewrite (take_ge (drop 6 bs)) in H2 by (rewrite length_drop; lia).
  eexists _, s', bs. split_and!; [reflexivity|exact E| |rewrite Hs', Hlen; reflexivity].
  rewrite <- (take_drop 6 bs), H1, H2. reflexivity.
Defined.
