(* ===== verification/LargeFloat.v ===== *)
(** * Floating-point conversions of the large numbers, common/large_numbers.rs

    [f32] and [f64] are the IEEE formats of [SpecFloat].  An integer is converted by
    rounding to the nearest float, ties to even; a float is converted towards zero and
    saturates.  Both directions of the code go through the lowest 128-bit limb. *)

From Stdlib Require Import SpecFloat.
From S2P Require Import Prelude LargeNumbers LargeNumbers512.

Local Open Scope Z_scope.

(** ** Conversions *)

(** The format: bits of precision, and the exponent of the infinities. *)
Inductive format : Type := F32 | F64.
Definition prec (f : format) : Z := match f with F32 => 24 | F64 => 53 end.
Definition emax (f : format) : Z := match f with F32 => 128 | F64 => 1024 end.

(** [v as f32], [v as f64] for an unsigned integer. *)
Definition as_float (f : format) (v : Z) : spec_float := binary_normalize (prec f) (emax f) v 0 false.

(** [x as u128]. *)
Definition float_as_u128 (x : spec_float) : Z :=
  match x with
  | S754_zero _ | S754_nan | S754_infinity true | S754_finite true _ _ => 0
  | S754_infinity false => uN_max 128
  | S754_finite false m e =>
      Z.min (uN_max 128) (if 0 <=? e then Z.shiftl (Z.pos m) e else Z.shiftr (Z.pos m) (- e))
  end.

Definition u256_into_float (f : format) (value : u256) : spec_float := as_float f (a0 value).
Definition u256_from_float (value : spec_float) : u256 := Arr2 (float_as_u128 value) 0.
Definition u512_into_float (f : format) (value : u512) : spec_float := u256_into_float f (a0 value).
Definition u512_from_float (value : spec_float) : u512 := Arr2 (u256_from_float value) u256_zero.

(** [From<char>]: a character is its scalar value. *)
Definition u256_from_char (value : Z) : u256 := Arr2 value 0.
Definition u512_from_char (value : Z) : u512 := Arr2 (u256_from_char value) u256_zero.

(** ** Rounding *)

Lemma iter_pos_iter {A} (f : A → A) p x : SpecFloat.iter_pos f p x = Pos.iter f x p.
Proof.
  revert x. induction p as [p IH|p IH|]; intros x; cbn; [|by rewrite !IH|done].
  by rewrite !IH, <- !Pos.iter_swap.
Qed.

Lemma digits2_pos_bounds p : 2 ^ (Z.pos (digits2_pos p) - 1) <= Z.pos p < 2 ^ Z.pos (digits2_pos p).
Proof.
  induction p as [p IH|p IH|]; cbn [digits2_pos]; [..|done].
  all: pose proof (Z.pow_succ_r 2 (Z.pos (digits2_pos p) - 1) ltac:(lia)) as E; unfold Z.succ in E.
  all: rewrite Z.sub_add in E.
  all: rewrite Pos2Z.inj_succ, Z.pow_succ_r by lia; unfold Z.succ; rewrite Z.add_simpl_r; lia.
Qed.

Lemma digits2_unique m n : 0 < n → 2 ^ (n - 1) <= m < 2 ^ n → Zdigits2 m = n.
Proof.
  intros Hn Hm. pose proof (Z.pow_pos_nonneg 2 (n - 1) ltac:(lia) ltac:(lia)).
  destruct m as [|p|p]; [lia| |lia]. cbn. pose proof (digits2_pos_bounds p) as Hp.
  set (d := Z.pos (digits2_pos p)) in *.
  destruct (Z.lt_trichotomy d n) as [Hlt|[->|Hgt]]; [|done|].
  - pose proof (Z.pow_le_mono_r 2 d (n - 1) ltac:(lia) ltac:(lia)). lia.
  - pose proof (Z.pow_le_mono_r 2 n (d - 1) ltac:(lia) ltac:(lia)). lia.
Qed.

(** What the two extra bits of a shifted mantissa say of the bits shifted out. *)
Definition shr_rep (m0 k : Z) (x : shr_record) : Prop :=
  let '(Build_shr_record m r s) := x in
  ∃ rest, 0 <= m ∧ m0 = 2 ^ k * m + rest ∧
    match r, s with
    | false, false => rest = 0
    | false, true => 0 < 2 * rest < 2 ^ k
    | true, false => 2 * rest = 2 ^ k
    | true, true => 2 ^ k < 2 * rest < 2 * 2 ^ k
    end.

Lemma shr_1_rep m0 k x : 0 <= k → shr_rep m0 k x → shr_rep m0 (k + 1) (shr_1 x).
Proof.
  intros Hk. destruct x as [m r s]. intros (rest & Hm & -> & Hr).
  pose proof (Z.pow_pos_nonneg 2 k ltac:(lia) Hk) as Hpos.
  assert (2 ^ (k + 1) = 2 * 2 ^ k) as E by (rewrite Z.add_1_r, Z.pow_succ_r; lia).
  destruct m as [|[p|p|]|p]; [..|lia]; cbn; rewrite E.
  - exists rest. split_and!; [lia|lia|]. destruct r, s; cbn; lia.
  - exists (2 ^ k + rest). rewrite (Pos2Z.inj_xI p). split_and!; [lia|lia|]. destruct r, s; cbn; lia.
  - exists rest. rewrite (Pos2Z.inj_xO p). split_and!; [lia|lia|]. destruct r, s; cbn; lia.
  - exists (2 ^ k + rest). split_and!; [lia|lia|]. destruct r, s; cbn; lia.
Qed.

Lemma shr_rep_iter m0 p : 0 <= m0 → shr_rep m0 (Z.pos p) (Pos.iter shr_1 (Build_shr_record m0 false false) p).
Proof.
  intros Hm. induction p as [|p IH] using Pos.peano_ind; cbn [Pos.iter].
  - apply (shr_1_rep m0 0); [done|]. exists 0. lia.
  - rewrite Pos.iter_succ, Pos2Z.inj_succ. by apply shr_1_rep.
Qed.

(** Rounding the shifted mantissa: at most half a unit away. *)
Lemma shr_rep_round m0 k x :
  0 <= k → shr_rep m0 k x →
  let m := round_nearest_even (shr_m x) (loc_of_shr_record x) in
  m0 / 2 ^ k <= m <= m0 / 2 ^ k + 1 ∧ 2 * Z.abs (m * 2 ^ k - m0) <= 2 ^ k.
Proof.
  intros Hk. destruct x as [m r s]. intros (rest & Hm & -> & Hr).
  pose proof (Z.pow_pos_nonneg 2 k ltac:(lia) Hk) as Hpos.
  assert (0 <= rest < 2 ^ k) as Hrest by (destruct r, s; lia).
  assert ((2 ^ k * m + rest) / 2 ^ k = m) as ->.
  { rewrite (Z.mul_comm _ m), Z.div_add_l, (Z.div_small rest); lia. }
  destruct r, s; cbn [shr_m loc_of_shr_record round_nearest_even]; [..|lia]; [lia| |lia].
  destruct (Z.even m); lia.
Qed.

Lemma Pos2Z_inj_iter_xO p q : Z.pos (Pos.iter xO p q) = Z.pos p * 2 ^ Z.pos q.
Proof.
  induction q as [|q IH] using Pos.peano_ind; [cbn; lia|].
  rewrite Pos.iter_succ, Pos2Z.inj_succ, Z.pow_succ_r, Pos2Z.inj_xO, IH by lia. lia.
Qed.

Section Round.
Variable f : format.

Lemma fexp_normal n : 1 <= n → fexp (prec f) (emax f) n = n - prec f.
Proof. intros Hn. unfold fexp, emin. destruct f; cbn [prec emax]; lia. Qed.

(** A mantissa of full width is left as it is. *)
Lemma shr_fexp_full m e :
  1 <= prec f + e → 2 ^ (prec f - 1) <= m < 2 ^ prec f →
  shr_fexp (prec f) (emax f) m e loc_Exact = (Build_shr_record m false false, e).
Proof.
  intros He Hm. unfold shr_fexp. rewrite (digits2_unique m (prec f)), fexp_normal;
    [|done|destruct f; cbn; lia|done].
  replace (prec f + e - prec f - e) with 0 by lia. done.
Qed.

(** A mantissa that rounding carried to the next power of two is halved. *)
Lemma shr_fexp_carry e :
  0 <= e →
  shr_fexp (prec f) (emax f) (2 ^ prec f) e loc_Exact = (Build_shr_record (2 ^ (prec f - 1)) false false, e + 1).
Proof.
  intros He. unfold shr_fexp. rewrite (digits2_unique (2 ^ prec f) (prec f + 1)), fexp_normal by (destruct f; cbn; lia).
  replace (prec f + 1 + e - prec f - e) with 1 by lia. destruct f; done.
Qed.

Definition finite_or_inf (m : positive) (e : Z) : spec_float :=
  if e <=? emax f - prec f then S754_finite false m e else S754_infinity false.

Lemma round_aux_exact m e :
  1 <= prec f + e → 2 ^ (prec f - 1) <= Z.pos m < 2 ^ prec f →
  binary_round_aux (prec f) (emax f) false (Z.pos m) e loc_Exact = finite_or_inf m e.
Proof.
  intros He Hm. unfold binary_round_aux. rewrite shr_fexp_full by done.
  cbn [shr_m loc_of_shr_record round_nearest_even]. by rewrite shr_fexp_full.
Qed.

(** An integer of at most [prec] bits is represented exactly. *)
Lemma binary_round_small p :
  Z.pos p < 2 ^ prec f →
  ∃ m e, binary_round (prec f) (emax f) false p 0 = S754_finite false m e ∧
    2 ^ (prec f - 1) <= Z.pos m < 2 ^ prec f ∧ 1 - prec f <= e <= 0 ∧ Z.pos m = Z.pos p * 2 ^ (- e).
Proof.
  intros Hp. pose proof (digits2_pos_bounds p) as Hd. unfold binary_round. rewrite Z.add_0_r, fexp_normal by lia.
  set (d := Z.pos (digits2_pos p)) in *.
  assert (1 <= d <= prec f) as Hdp.
  { split; [lia|]. destruct (Z.le_gt_cases d (prec f)) as [|Hgt]; [done|].
    pose proof (Z.pow_le_mono_r 2 (prec f) (d - 1) ltac:(lia) ltac:(lia)). lia. }
  unfold shl_align. rewrite Z.sub_0_r. destruct (d - prec f) as [|q|q] eqn:E; [|lia|].
  - exists p, 0. assert (d = prec f) as Ed by lia. rewrite Ed in Hd.
    rewrite round_aux_exact by lia. unfold finite_or_inf. split_and!; [destruct f; done|lia..].
  - assert (Z.pos (Pos.iter xO p q) = Z.pos p * 2 ^ Z.pos q) as Hm by (rewrite Pos2Z_inj_iter_xO; lia).
    assert (2 ^ (prec f - 1) = 2 ^ (d - 1) * 2 ^ Z.pos q ∧ 2 ^ prec f = 2 ^ d * 2 ^ Z.pos q) as [E1 E2].
    { rewrite <- !Z.pow_add_r by lia. split; f_equal; lia. }
    pose proof (Z.pow_pos_nonneg 2 (Z.pos q) ltac:(lia) ltac:(lia)).
    exists (Pos.iter xO p q), (Z.neg q). rewrite round_aux_exact; [|lia|rewrite E1, E2, Hm; nia].
    unfold finite_or_inf. split_and!; [destruct f; done|rewrite E1, Hm; nia|rewrite E2, Hm; nia|lia|lia|].
    by rewrite Hm.
Qed.

(** A larger one is rounded to within half a unit in the last place. *)
Lemma binary_round_large p :
  2 ^ prec f <= Z.pos p →
  ∃ m e, binary_round (prec f) (emax f) false p 0 = finite_or_inf m e ∧
    2 ^ (prec f - 1) <= Z.pos m < 2 ^ prec f ∧ 1 <= e ∧ 2 * Z.abs (Z.pos m * 2 ^ e - Z.pos p) <= 2 ^ e.
Proof.
  intros Hp. pose proof (digits2_pos_bounds p) as Hd. unfold binary_round. rewrite Z.add_0_r, fexp_normal by lia.
  set (d := Z.pos (digits2_pos p)) in *.
  assert (prec f < d) as Hdp.
  { destruct (Z.le_gt_cases d (prec f)) as [Hle|]; [|lia].
    pose proof (Z.pow_le_mono_r 2 d (prec f) ltac:(lia) ltac:(lia)). lia. }
  unfold shl_align. rewrite Z.sub_0_r. destruct (d - prec f) as [|q|q] eqn:E; [lia| |lia].
  assert (shr_fexp (prec f) (emax f) (Z.pos p) 0 loc_Exact
          = (Pos.iter shr_1 (Build_shr_record (Z.pos p) false false) q, Z.pos q)) as Eq.
  { unfold shr_fexp. change (Zdigits2 (Z.pos p)) with d. rewrite Z.add_0_r, fexp_normal, Z.sub_0_r, E by lia.
    cbn [shr]. by rewrite iter_pos_iter. }
  unfold binary_round_aux. rewrite Eq.
  pose proof (shr_rep_round (Z.pos p) (Z.pos q) _ ltac:(lia) (shr_rep_iter (Z.pos p) q ltac:(lia))) as Hr.
  cbv zeta in Hr.
  set (m := round_nearest_even _ _) in *.
  assert (2 ^ (prec f - 1) <= Z.pos p / 2 ^ Z.pos q < 2 ^ prec f) as Hq.
  { assert (2 ^ (d - 1) = 2 ^ (prec f - 1) * 2 ^ Z.pos q ∧ 2 ^ d = 2 ^ prec f * 2 ^ Z.pos q) as [E1 E2].
    { rewrite <- !Z.pow_add_r by (destruct f; cbn; lia). split; f_equal; lia. }
    pose proof (Z.pow_pos_nonneg 2 (Z.pos q) ltac:(lia) ltac:(lia)).
    split; [apply Z.div_le_lower_bound|apply Z.div_lt_upper_bound]; lia. }
  pose proof (Z.pow_pos_nonneg 2 (Z.pos q) ltac:(lia) ltac:(lia)) as Hpos.
  destruct (Z.eq_dec m (2 ^ prec f)) as [Em|Em].
  - rewrite Em, shr_fexp_carry by lia. cbn [shr_m].
    assert (2 ^ (prec f - 1) = Z.pos (2 ^ Z.to_pos (prec f - 1))) as Epow by (destruct f; done).
    exists (2 ^ Z.to_pos (prec f - 1))%positive, (Z.pos q + 1).
    split; [by rewrite Epow|]. rewrite <- Epow. split_and!; [lia|destruct f; done|lia|].
    assert (2 ^ (prec f - 1) * 2 ^ (Z.pos q + 1) = m * 2 ^ Z.pos q) as ->.
    { rewrite Em, <- !Z.pow_add_r by (destruct f; cbn; lia). f_equal. lia. }
    rewrite Z.pow_add_r; lia.
  - rewrite shr_fexp_full by lia. cbn [shr_m].
    pose proof (Z.pow_pos_nonneg 2 (prec f - 1) ltac:(lia) ltac:(destruct f; cbn; lia)).
    clearbody m. destruct m as [|m'|m']; [lia| |lia]. exists m', (Z.pos q). split_and!; [done|lia..].
Qed.

End Round.

(** ** Conversions of the numbers *)

(** The number a non-negative finite float denotes is [m * 2^e]; [near m e v] says it is
    [v] when the float can hold it and else at most half a unit in the last place away. *)
Definition near (f : format) (m e v : Z) : Prop :=
  2 ^ (prec f - 1) <= m < 2 ^ prec f ∧
  if v <? 2 ^ prec f then 1 - prec f <= e <= 0 ∧ m = v * 2 ^ (- e)
  else 1 <= e ∧ 2 * Z.abs (m * 2 ^ e - v) <= 2 ^ e.

Lemma as_float_near f v :
  0 < v → ∃ m e, as_float f v = finite_or_inf f m e ∧ near f (Z.pos m) e v.
Proof.
  intros Hv. destruct v as [|p|p]; [lia| |lia]. unfold as_float, near. cbn [binary_normalize].
  destruct (Z.ltb_spec (Z.pos p) (2 ^ prec f)) as [Hlt|Hge].
  - destruct (binary_round_small f p Hlt) as (m & e & -> & Hm & He & Em). exists m, e.
    unfold finite_or_inf. split_and!; [|lia..]. destruct f; cbn [prec emax] in *; z_cases; done || lia.
  - destruct (binary_round_large f p Hge) as (m & e & -> & Hm & He & Em). exists m, e. split_and!; [done|lia..].
Qed.

Lemma near_f64_finite m e v : v < 2 ^ 128 → near F64 m e v → e <= emax F64 - prec F64.
Proof.
  intros Hv [Hm He]. cbn [prec emax] in *. destruct (v <? 2 ^ 53); [lia|]. destruct He as [He Hd].
  destruct (Z.le_gt_cases e 971) as [|Hgt]; [done|].
  assert (2 ^ 972 <= 2 ^ e) by (apply Z.pow_le_mono_r; lia).
  assert (2 ^ 128 < 2 ^ 972) by (apply Z.pow_lt_mono_r; lia). nia.
Qed.

Lemma float_back f m e v :
  is_uN 128 v → v < 2 ^ prec f → near f (Z.pos m) e v → float_as_u128 (S754_finite false m e) = v.
Proof.
  intros Hv Hlt [_ Hn]. rewrite (proj2 (Z.ltb_lt _ _) Hlt) in Hn. destruct Hn as [He Em].
  unfold float_as_u128. unfold is_uN, uN_max in *. z_cases.
  - assert (e = 0) as -> by lia. rewrite Z.shiftl_mul_pow2 by lia. cbn in Em. lia.
  - rewrite Em, Z.shiftr_div_pow2, Z.div_mul by (try apply Z.pow_nonzero; lia). lia.
Qed.

(** An infinite result: only in single precision, and only above [f32::MAX]. *)
Lemma near_inf f m e v :
  is_uN 128 v → near f m e v → emax f - prec f < e → f = F32 ∧ 2 ^ 128 - 2 ^ 104 <= v.
Proof.
  intros Hv Hn He. destruct f; [|pose proof (near_f64_finite m e v ltac:(unfold is_uN in Hv; lia) Hn); lia].
  split; [done|]. destruct Hn as [Hm Hn]. cbn [prec emax] in *. destruct (v <? 2 ^ 24); [lia|]. destruct Hn as [_ Hd].
  assert (2 ^ 105 <= 2 ^ e) by (apply Z.pow_le_mono_r; lia). unfold is_uN in Hv. nia.
Qed.

Lemma as_float_back f l : is_uN 128 l → l < 2 ^ prec f → float_as_u128 (as_float f l) = l.
Proof.
  intros Hl Hlt. destruct (Z.eq_dec l 0) as [->|Hnz]; [done|].
  destruct (as_float_near f l ltac:(unfold is_uN in Hl; lia)) as (m & e & -> & Hn). unfold finite_or_inf.
  destruct (Z.leb_spec e (emax f - prec f)); [by eapply float_back|].
  destruct (near_inf f (Z.pos m) e l) as [-> Hge]; [done..|]. unfold is_uN in Hl. cbn [prec] in Hlt. lia.
Qed.

Lemma u256_float_back f x :
  u256_wf x → u256_val x < 2 ^ prec f → u256_from_float (u256_into_float f x) = x.
Proof.
  destruct x as [l h]. intros [Hl Hh] Hlt. unfold u256_val, is_uN in *. cbn [a0 a1] in *.
  assert (h = 0 ∧ l < 2 ^ prec f) as [-> Hlt'] by (destruct f; cbn [prec] in *; lia).
  unfold u256_from_float, u256_into_float. cbn [a0]. f_equal. by apply as_float_back.
Qed.

(** C37: [From<u256> for f32] and [for f64] convert the low 128 bits: zero to zero, and any
    other number to the nearest float, which is the number itself when it has at most 24
    (53) bits and otherwise within half a unit in the last place; only [f32] can reach
    infinity, from numbers not below [f32::MAX].  Converting a number of at most 24 (53)
    bits back with [From<f32>] ([From<f64>]) gives the same [u256]. *)
Theorem u256_float_conversions (f : format) (x : u256) :
  u256_wf x →
  let v := u256_val x mod 2 ^ 128 in
  match u256_into_float f x with
  | S754_zero false => v = 0
  | S754_finite false m e => v ≠ 0 ∧ near f (Z.pos m) e v
  | S754_infinity false => f = F32 ∧ 2 ^ 128 - 2 ^ 104 <= v
  | _ => False
  end ∧
  (u256_val x < 2 ^ prec f → u256_from_float (u256_into_float f x) = x).
Proof.
  intros Hwf. split; [|by apply u256_float_back]. destruct x as [lo hi], Hwf as [Hlo Hhi].
  unfold u256_val, u256_into_float in *. cbn [a0 a1] in *.
  cbv zeta. replace ((lo + 2 ^ 128 * hi) mod 2 ^ 128) with lo
    by (rewrite Z.mul_comm, Z.mod_add, Z.mod_small by (unfold is_uN in *; lia); done).
  destruct (Z.eq_dec lo 0) as [->|Hnz]; [done|].
  destruct (as_float_near f lo) as (m & e & -> & Hn); [unfold is_uN in Hlo; lia|]. unfold finite_or_inf.
  destruct (Z.leb_spec e (emax f - prec f)); by eauto using near_inf.
Qed.

Lemma u256_float_witness :
  u256_from_float (u256_into_float F32 (Arr2 16777215 0)) = Arr2 16777215 0 ∧
  near F32 8388608 1 16777217 ∧ u256_into_float F32 (Arr2 (2 ^ 128 - 1) 0) = S754_infinity false.
Proof.
  split_and!; [| |vm_compute; reflexivity].
  - apply (u256_float_conversions F32 (Arr2 16777215 0)); [by split|done].
  - destruct (u256_float_conversions F32 (Arr2 16777217 0)) as [H _]; [by split|]. apply H.
Defined.

(** [u512] converts through its low [u256], so the same holds of its low 128 bits. *)
Lemma u512_float_roundtrip f lo :
  u256_wf lo → u256_val lo < 2 ^ prec f →
  u512_from_float (u512_into_float f (Arr2 lo u256_zero)) = Arr2 lo u256_zero.
Proof.
  intros Hwf Hlt. unfold u512_from_float, u512_into_float. cbn [a0]. by rewrite u256_float_back.
Qed.

(** A character comes back from a [u256] only if it is below 256: the way back goes
    through [u8]. *)
Lemma u256_char_roundtrip c :
  0 <= c <= 0x10ffff → u256_into_char (u256_from_char c) = c ↔ c < 256.
Proof.
  intros Hc. unfold u256_into_char, u256_from_char, as_prim, wrap. cbn [a0 prim_signed prim_bits].
  pose proof (Z.mod_pos_bound c 256 ltac:(lia)). split; [|intros; apply Z.mod_small; lia].
  intros <-. apply Z.mod_pos_bound. lia.
Qed.
