(* ===== verification/Support.v ===== *)
(** * Wrappers: [int_like!] of common/macros.rs, port access of drivers/pci_impl.rs and
      drivers/acpi_impl.rs, [PhysBox] of cralloc/mod.rs

    Thin layers over the machine and the standard library, which the rest of the kernel
    goes through: process identifiers and their atomics, the six port instructions in
    both copies of them, the public names of the ACPI handler's methods, and a box for
    physical memory. *)

From S2P Require Import Prelude Paging Frames Memory AcpiHandler.

Local Open Scope Z_scope.

(** ** [int_like!] *)

Module IntLike.

(** The type [$new] wraps a value of its backing type, [usize] for [Pid]. *)
Record Pid : Type := pid_new { pid_get : Z }.
#[export] Instance Pid_eq_dec : EqDecision Pid.
Proof. solve_decision. Defined.
Definition pid_from (val : Z) : Pid := pid_new val.
Definition pid_into (val : Pid) : Z := pid_get val.

(** [AtomicUsize]: a cell; [compare_exchange_weak] may also fail for no reason, which the
    flag [spurious] says. *)
Definition backing_compare_exchange (spurious : bool) (current new cell : Z) : (Z + Z) * Z :=
  if (cell =? current) && negb spurious then (inl cell, new) else (inr cell, cell).

(** [$new_atomic]: the cell of the backing atomic. *)
Definition atomic_new (x : Pid) : Z := pid_get x.
Definition atomic_load (cell : Z) : Pid := pid_new cell.
Definition atomic_store (val : Pid) (cell : Z) : Z := pid_get val.
Definition atomic_swap (val : Pid) (cell : Z) : Pid * Z := (pid_from cell, pid_get val).
Definition atomic_compare_exchange (current new : Pid) (cell : Z) : (Pid + Pid) * Z :=
  match backing_compare_exchange false (pid_get current) (pid_get new) cell with
  | (inl x, c) => (inl (pid_from x), c)
  | (inr x, c) => (inr (pid_from x), c)
  end.
Definition atomic_compare_exchange_weak (spurious : bool) (current new : Pid) (cell : Z)
    : (Pid + Pid) * Z :=
  match backing_compare_exchange spurious (pid_get current) (pid_get new) cell with
  | (inl x, c) => (inl (pid_from x), c)
  | (inr x, c) => (inr (pid_from x), c)
  end.
Definition atomic_default : Z := atomic_new (pid_new 0).

(** *** As a register of identifiers *)

Inductive atomic_op : Type :=
  | Load | Store (v : Pid) | Swap (v : Pid) | Cas (current new : Pid) | CasWeak (spurious : bool) (current new : Pid).
Inductive answer : Type := Done | Value (p : Pid) | Outcome (r : Pid + Pid).

Definition atomic_step (o : atomic_op) (cell : Z) : answer * Z :=
  match o with
  | Load => (Value (atomic_load cell), cell)
  | Store v => (Done, atomic_store v cell)
  | Swap v => let '(p, c) := atomic_swap v cell in (Value p, c)
  | Cas a b => let '(r, c) := atomic_compare_exchange a b cell in (Outcome r, c)
  | CasWeak s a b => let '(r, c) := atomic_compare_exchange_weak s a b cell in (Outcome r, c)
  end.

(** The specification: a register that holds a [Pid]. *)
Definition register_step (o : atomic_op) (r : Pid) : answer * Pid :=
  match o with
  | Load => (Value r, r)
  | Store v => (Done, v)
  | Swap v => (Value r, v)
  | Cas a b => if decide (r = a) then (Outcome (inl r), b) else (Outcome (inr r), r)
  | CasWeak s a b => if decide (r = a ∧ s = false) then (Outcome (inl r), b) else (Outcome (inr r), r)
  end.

Definition run_ops {R} (f : atomic_op → R → answer * R) : list atomic_op → R → list answer * R :=
  fix go os r :=
    match os with
    | [] => ([], r)
    | o :: os => let '(a, r) := f o r in let '(l, r) := go os r in (a :: l, r)
    end.

Lemma atomic_step_refines o r : atomic_step o (atomic_new r) = (prod_map id atomic_new) (register_step o r).
Proof.
  destruct r as [r], o as [|[v]|[v]|[a] [b]|s [a] [b]]; try done; cbn [atomic_step register_step];
    unfold atomic_compare_exchange, atomic_compare_exchange_weak, backing_compare_exchange, atomic_new;
    cbn [pid_get negb]; rewrite ?andb_true_r.
  - by destruct (Z.eqb_spec r a) as [->|Hne];
      [rewrite decide_True by done|rewrite decide_False by congruence].
  - destruct (Z.eqb_spec r a) as [->|Hne]; cbn [andb]; [|by rewrite decide_False by (intros [??]; congruence)].
    destruct s; cbn [negb]; [by rewrite decide_False by (intros [??]; congruence)|by rewrite decide_True by done].
Qed.

(** Any sequence of operations on [AtomicPid] answers as on a register of identifiers. *)
Lemma atomic_refines_register os r :
  run_ops atomic_step os (atomic_new r) = prod_map id atomic_new (run_ops register_step os r).
Proof.
  revert r. induction os as [|o os IH]; intros r; [done|]. cbn. rewrite atomic_step_refines.
  destruct (register_step o r) as [a r']. cbn. rewrite IH. by destruct (run_ops register_step os r').
Qed.

(** Of two processors that exchange the same identifier for another, exactly one wins. *)
Lemma compare_exchange_race current n1 n2 :
  n1 ≠ current →
  fst (run_ops atomic_step [Cas current n1; Cas current n2] (atomic_new current))
  = [Outcome (inl current); Outcome (inr n1)].
Proof.
  intros Hne. rewrite atomic_refines_register. cbn. rewrite decide_True by done. cbn.
  by rewrite decide_False.
Qed.

End IntLike.

(** ** Ports *)

(** The I/O address space: reading or writing a port of a width in bits. *)
Class PortSpace : Type := {
  io_space : Type;
  port_in : Z → Z → io_space → Z * io_space;
  port_out : Z → Z → Z → io_space → io_space;
}.

Section Ports.
Context `{PortSpace}.

Definition outb (port value : Z) (s : io_space) : io_space := port_out 8 port value s.
Definition inb (port : Z) (s : io_space) : Z * io_space := port_in 8 port s.
Definition outw (port value : Z) (s : io_space) : io_space := port_out 16 port value s.
Definition outl (port value : Z) (s : io_space) : io_space := port_out 32 port value s.
Definition inl_ (port : Z) (s : io_space) : Z * io_space := port_in 32 port s.
Definition inw (port : Z) (s : io_space) : Z * io_space := port_in 16 port s.

(** The methods of the AML handler. *)
Definition read_io_u8 (port : Z) (s : io_space) : Z * io_space := port_in 8 port s.
Definition read_io_u16 (port : Z) (s : io_space) : Z * io_space := port_in 16 port s.
Definition read_io_u32 (port : Z) (s : io_space) : Z * io_space := port_in 32 port s.
Definition write_io_u8 (port value : Z) (s : io_space) : io_space := port_out 8 port value s.
Definition write_io_u16 (port value : Z) (s : io_space) : io_space := port_out 16 port value s.
Definition write_io_u32 (port value : Z) (s : io_space) : io_space := port_out 32 port value s.

(** The public wrappers around the handler's methods. *)
Definition read_io_u8_outer := read_io_u8.
Definition read_io_u16_outer := read_io_u16.
Definition read_io_u32_outer := read_io_u32.
Definition write_io_u8_outer := write_io_u8.
Definition write_io_u16_outer := write_io_u16.
Definition write_io_u32_outer := write_io_u32.

End Ports.

Section Outer.
Context `{X86Paging} `{PageMapper}.

(** [read_u8_outer] .. [write_u64_outer], [read_pci_u8_outer] .. [write_pci_u32_outer]: the
    width in bytes picks the method. *)
Definition read_outer (n : nat) := acpi_read n.
Definition write_outer (n : nat) := acpi_write n.
Definition read_pci_outer (n : nat) := acpi_read_pci n.
Definition write_pci_outer (n : nat) := acpi_write_pci n.
Definition stall_outer : outcome unit := acpi_stall.
Definition sleep_outer : outcome unit := acpi_sleep.

End Outer.

(** The two copies of the port instructions agree. *)
Lemma io_methods_are_ports `{PortSpace} :
  read_io_u8 = inb ∧ read_io_u16 = inw ∧ read_io_u32 = inl_ ∧
  write_io_u8 = outb ∧ write_io_u16 = outw ∧ write_io_u32 = outl.
Proof. done. Qed.

(** ** [PhysBox] *)

Module PhysBox.

Definition isize_max : Z := 2 ^ 63 - 1.

(** [usize::is_power_of_two]. *)
Definition is_power_of_two (n : Z) : bool := (0 <? n) && (Z.land n (n - 1) =? 0).

(** [Layout::from_size_align(..)] with the error turned into a panic. *)
Definition layout_from_size_align (size align : Z) : outcome (Z * Z) :=
  if is_power_of_two align && (size <=? isize_max - (align - 1)) then Ret (size, align)
  else Panic (PMsg "Failed to create memory layout").

(** The global allocator: [allocate_zeroed] answers an address and memory, and the block
    is zeroed; the frame of a given size that contains an address. *)
Class Global : Type := {
  allocate_zeroed : Z → Z → (Z → Z) → option (Z * (Z → Z));
  frame_start : Z → Z → Z;
}.
Class GlobalLaws `{Global} : Prop := {
  allocate_zeroed_zero size align mem p mem' x :
    allocate_zeroed size align mem = Some (p, mem') → p <= x < p + size → mem' x = 0;
}.

#[export] Instance global_model : Global | 100 := {
  allocate_zeroed size align mem :=
    if align <=? 2 ^ 40 then Some (align, λ x, if (align <=? x) && (x <? align + size) then 0 else mem x) else None;
  frame_start S a := a - a mod S;
}.
#[export] Instance global_model_laws : @GlobalLaws global_model.
Proof. split. intros size align mem p mem' x. cbn. z_cases; [|done]. intros [= <- <-] ?. z_cases; lia || done. Qed.

Section PhysBox.
Context `{X86Paging} `{Global}.

(** [new_inner::<S>(inner)]: the argument is at [inner_addr]; the box's pointer is read
    from the block just allocated. *)
Definition phys_box_new_inner (S inner_addr : Z) (mem : Z → Z) : outcome (Z * (Z → Z)) :=
  a ← phys_addr_new inner_addr;
  let test := frame_start S a in
  '(size, align) ← layout_from_size_align S test;
  match allocate_zeroed size align mem with
  | None => Panic (PMsg "Error allocating memory")
  | Some (p, mem) =>
      let q := mem_read mem p 8 in
      if q =? 0 then Panic PUnwrap else Ret (q, mem)
  end.
Definition phys_box_new (inner_addr : Z) (mem : Z → Z) : outcome (Z * (Z → Z)) := phys_box_new_inner page_size inner_addr mem.

(** A read of zeroed memory is 0. *)
Lemma mem_read_zero mem a n :
  (∀ x, a <= x < a + Z.of_nat n → mem x = 0) → mem_read mem a n = 0.
Proof.
  intros Hz. unfold mem_read.
  assert (∀ l : list nat, (∀ k, k ∈ l → (k < n)%nat) →
    from_le_bytes ((λ k : nat, mem (a + Z.of_nat k)) <$> l) = 0) as Hl.
  { induction l as [|k l IH]; intros Hk; [done|]. rewrite fmap_cons. cbn [from_le_bytes].
    rewrite IH by (intros; apply Hk; by right). rewrite Hz by (specialize (Hk k ltac:(by left)); lia). lia. }
  apply Hl. intros k [_ Hk]%elem_of_seq. lia.
Qed.

(** A [PhysBox] is never made: either the frame's address is not an alignment, or there is
    no memory, or the pointer, which is read out of the zeroed block, is null. *)
Theorem phys_box_never_made `{!X86PagingLaws} `{!GlobalLaws} S inner_addr mem :
  8 <= S → is_uN 64 inner_addr → ∃ p, phys_box_new_inner S inner_addr mem = Panic p.
Proof.
  intros HS Ha. unfold phys_box_new_inner, is_uN in *. destruct (Z.lt_ge_cases inner_addr (2 ^ 52)).
  2: { destruct (phys_addr_new_bad inner_addr) as [p ->]; [lia|]. by eexists. }
  rewrite phys_addr_new_ok by lia. cbn [mbind outcome_bind]. unfold layout_from_size_align.
  destruct (is_power_of_two _ && _); cbn [mbind outcome_bind]; [|by eexists].
  destruct (allocate_zeroed _ _ _) as [[p mem']|] eqn:E; [|by eexists].
  rewrite mem_read_zero; [by eexists|]. intros x Hx. eapply allocate_zeroed_zero; [done|lia].
Qed.

End PhysBox.

Lemma phys_box_witness : phys_box_new 0x40000010 (λ _, 7) = Panic PUnwrap ∧ ∃ p, phys_box_new_inner page_size 0x40000010 (λ _, 7) = Panic p.
Proof. split; [vm_compute; reflexivity|]. by apply phys_box_never_made. Defined.

End PhysBox.
