(* ===== verification/Locks.v ===== *)
(** * Locks: src/drivers/ahci/util/sync.rs, [SeqLock] of src/common/mod.rs and
      src/common/atomic_cell.rs

    The interrupt-aware mutex and the sequence lock as sequential operations, and as
    step relations on several processors whose interleavings are explicit; the
    pointer cell over a heap whose allocator answers fresh addresses.  The [spin]
    crate's locks are the flag they are documented to be: taking one waits until it
    is free. *)

From S2P Require Import Prelude Paging Frames Memory.

Local Open Scope Z_scope.

(** ** Interrupt guards and the mutex *)

Module Sync.

(** One processor: its interrupt flag and the mutex. *)
Record Cpu : Type := MkCpu { c_irq : bool; c_held : bool }.

Definition disable_interrupts (c : Cpu) : Cpu := MkCpu false (c_held c).
Definition enable_interrupts (c : Cpu) : Cpu := MkCpu true (c_held c).

(** [IrqGuard]: whether interrupts were enabled. *)
Definition IrqGuard_new (c : Cpu) : bool * Cpu := (c_irq c, disable_interrupts c).
Definition IrqGuard_drop (locked : bool) (c : Cpu) : Cpu := if locked then enable_interrupts c else c.

(** [IrqStrategy::relax]. *)
Definition relax (c : Cpu) : Cpu := disable_interrupts c.

(** [spin::Mutex::lock] on one processor: a held lock is waited for forever. *)
Definition spin_lock (c : Cpu) : outcome Cpu :=
  if c_held c then Hang else Ret (MkCpu (c_irq c) true).

(** A guard is its [irq_lock] flag. *)
Definition lock (c : Cpu) : outcome (bool * Cpu) := c ← spin_lock c; Ret (false, c).
Definition lock_irq (c : Cpu) : outcome (bool * Cpu) :=
  let irq_lock := c_irq c in
  c ← spin_lock (disable_interrupts c);
  Ret (irq_lock, c).
Definition mutex_force_unlock (c : Cpu) : Cpu := MkCpu (c_irq c) false.
Definition guard_drop (irq_lock : bool) (c : Cpu) : Cpu :=
  let c := MkCpu (c_irq c) false in
  if irq_lock then enable_interrupts c else c.

(** *** Several processors

    A processor runs [lock] or [lock_irq] and then drops the guard; dropping
    releases the lock first and then restores the interrupt flag.  An interrupt
    taken inside a critical section runs a handler that wants the same mutex. *)
Inductive mutex_pc : Type :=
  | Idle
  | Spinning (irq_lock : bool) (saved : option bool)
  | Critical (irq_lock : bool) (saved : option bool)
  | Restoring (irq_lock : bool) (saved : option bool)
  | Interrupted.   (* spinning in a handler, on top of a critical section *)

Record System : Type := MkSystem { sy_held : bool; sy_cpus : nat → mutex_pc; sy_irq : nat → bool }.

Definition upd {A} (f : nat → A) (i : nat) (x : A) : nat → A := λ j, if decide (j = i) then x else f j.

(** [saved] is what the interrupt flag was before [lock_irq]. *)
Inductive mutex_step : System → System → Prop :=
  | step_lock i h p q : p i = Idle →
      mutex_step (MkSystem h p q) (MkSystem h (upd p i (Spinning false None)) q)
  | step_lock_irq i h p q : p i = Idle →
      mutex_step (MkSystem h p q) (MkSystem h (upd p i (Spinning (q i) (Some (q i)))) (upd q i false))
  | step_acquire i b sv p q : p i = Spinning b sv →
      mutex_step (MkSystem false p q) (MkSystem true (upd p i (Critical b sv)) q)
  | step_release i b sv h p q : p i = Critical b sv →
      mutex_step (MkSystem h p q) (MkSystem false (upd p i (Restoring b sv)) q)
  | step_restore i b sv h p q : p i = Restoring b sv →
      mutex_step (MkSystem h p q) (MkSystem h (upd p i Idle) (if b then upd q i true else q))
  | step_interrupt i b sv h p q : p i = Critical b sv → q i = true →
      mutex_step (MkSystem h p q) (MkSystem h (upd p i Interrupted) q).

Inductive mutex_reachable (s0 : System) : System → Prop :=
  | reach_refl : mutex_reachable s0 s0
  | reach_step s s' : mutex_reachable s0 s → mutex_step s s' → mutex_reachable s0 s'.

(** A processor that holds the mutex, also underneath a handler. *)
Definition holds (p : mutex_pc) : bool :=
  match p with Critical _ _ | Interrupted => true | _ => false end.

(** The interrupt flag of a processor between [lock_irq] and the end of the drop
    is off, and its guard remembers what it was. *)
Definition irq_ok (p : mutex_pc) (q : bool) : Prop :=
  match p with
  | Spinning b (Some sv) | Critical b (Some sv) | Restoring b (Some sv) => q = false ∧ b = sv
  | Spinning b None | Critical b None | Restoring b None => b = false
  | Idle | Interrupted => True
  end.

Definition sync_inv (s : System) : Prop :=
  (∀ i j, holds (sy_cpus s i) = true → holds (sy_cpus s j) = true → i = j) ∧
  (∀ i, holds (sy_cpus s i) = true → sy_held s = true) ∧
  ∀ i, irq_ok (sy_cpus s i) (sy_irq s i).

Definition sync_init (q : nat → bool) : System := MkSystem false (λ _, Idle) q.

Lemma upd_eq {A} (f : nat → A) i x : upd f i x i = x.
Proof. unfold upd. by rewrite decide_True. Qed.
Lemma upd_ne {A} (f : nat → A) i j x : j ≠ i → upd f i x j = f j.
Proof. intros. unfold upd. by rewrite decide_False. Qed.

Ltac upd_cases :=
  repeat match goal with
  | |- context [upd _ ?i _ ?i] => rewrite upd_eq
  | |- context [upd _ ?i _ ?j] =>
      destruct (decide (j = i)) as [->|]; [rewrite upd_eq|rewrite upd_ne by done]
  end.

Lemma step_inv s s' : sync_inv s → mutex_step s s' → sync_inv s'.
Proof.
  intros (Hme & Hheld & Hirq) Hs.
  destruct Hs as [i h p q Hp|i h p q Hp|i b sv p q Hp|i b sv h p q Hp|i b sv h p q Hp|i b sv h p q Hp Hq];
    unfold sync_inv; cbn [sy_held sy_cpus sy_irq] in *; pose proof (Hirq i) as Hi; rewrite Hp in Hi; cbn [irq_ok] in Hi.
  - split_and!; intros *; upd_cases; cbn; try done; eauto.
  - split_and!; intros *; upd_cases; cbn; try done; eauto.
  - assert (∀ j, holds (p j) = true → False) as Hno by (intros j Hj; by apply Hheld in Hj).
    split_and!; intros *; upd_cases; cbn; try done; intros; exfalso; eauto.
  - assert (∀ j, holds (p j) = true → j = i) as Hno by (intros j Hj; apply Hme; [done|by rewrite Hp]).
    split_and!; intros *; upd_cases; cbn; intros; try done; eauto; by exfalso; eauto.
  - split_and!; intros *; destruct b; upd_cases; cbn; try done; eauto.
  - assert (∀ j, holds (p j) = true → j = i) as Hno by (intros j Hj; apply Hme; [done|by rewrite Hp]).
    assert (h = true) by (apply (Hheld i); by rewrite Hp).
    split_and!; intros *; upd_cases; cbn; intros; try done; eauto; by exfalso; eauto.
Qed.

Lemma sync_reachable_inv q s : mutex_reachable (sync_init q) s → sync_inv s.
Proof.
  induction 1 as [|s s' _ IH Hs]; [|by eapply step_inv].
  split_and!; cbn; intros *; done.
Qed.

(** A processor that waits in a handler for the lock it holds itself stays there. *)
Lemma interrupted_stays s s' i :
  sync_inv s → sy_cpus s i = Interrupted → mutex_step s s' → sy_cpus s' i = Interrupted.
Proof.
  intros (Hme & Hheld & _) Hi Hs. pose proof (Hheld i ltac:(by rewrite Hi)) as Hh.
  destruct Hs as [j h p q Hp|j h p q Hp|j b sv p q Hp|j b sv h p q Hp|j b sv h p q Hp|j b sv h p q Hp Hq];
    cbn [sy_held sy_cpus] in *; try (rewrite upd_ne; [done|intros ->; congruence]).
Qed.

(** What a processor sees of the system. *)
Definition cpu_of (s : System) (i : nat) : Cpu := MkCpu (sy_irq s i) (sy_held s).

(** The operations are runs of the step relation: taking the mutex, and dropping the
    guard, on a processor that is not disturbed. *)
Lemma lock_irq_steps s i g c :
  sy_cpus s i = Idle → lock_irq (cpu_of s i) = Ret (g, c) →
  ∃ s1 s2, mutex_reachable s s1 ∧ sy_cpus s1 i = Critical g (Some (sy_irq s i)) ∧ cpu_of s1 i = c ∧
    mutex_reachable s1 s2 ∧ sy_cpus s2 i = Idle ∧ cpu_of s2 i = guard_drop g c.
Proof.
  destruct s as [h p q]. unfold cpu_of, lock_irq, spin_lock, guard_drop. cbn [sy_held sy_cpus sy_irq c_irq c_held disable_interrupts].
  intros Hp. destruct h; [done|]. intros [= <- <-].
  do 2 eexists. split_and!.
  - eapply reach_step; [eapply reach_step; [apply reach_refl|by apply (step_lock_irq i)]|].
    apply (step_acquire i (q i) (Some (q i))). apply upd_eq.
  - cbn. by rewrite upd_eq.
  - cbn. by rewrite upd_eq.
  - eapply reach_step; [eapply reach_step; [apply reach_refl|]|].
    + apply (step_release i (q i) (Some (q i))). apply upd_eq.
    + apply (step_restore i (q i) (Some (q i))). apply upd_eq.
  - cbn. by rewrite upd_eq.
  - cbn. by destruct (q i); rewrite upd_eq.
Qed.

Lemma lock_steps s i g c :
  sy_cpus s i = Idle → lock (cpu_of s i) = Ret (g, c) →
  ∃ s1 s2, mutex_reachable s s1 ∧ sy_cpus s1 i = Critical g None ∧ cpu_of s1 i = c ∧
    mutex_reachable s1 s2 ∧ sy_cpus s2 i = Idle ∧ cpu_of s2 i = guard_drop g c.
Proof.
  destruct s as [h p q]. unfold cpu_of, lock, spin_lock, guard_drop. cbn [sy_held sy_cpus sy_irq c_irq c_held].
  intros Hp. destruct h; [done|]. intros [= <- <-].
  do 2 eexists. split_and!.
  - eapply reach_step; [eapply reach_step; [apply reach_refl|by apply (step_lock i)]|].
    apply (step_acquire i false None). apply upd_eq.
  - cbn. by rewrite upd_eq.
  - done.
  - eapply reach_step; [eapply reach_step; [apply reach_refl|]|].
    + apply (step_release i false None). apply upd_eq.
    + apply (step_restore i false None). apply upd_eq.
  - cbn. by rewrite upd_eq.
  - done.
Qed.

(** C23: in every interleaving of any number of processors that use the mutex, at most
    one holds it; a section entered with [lock_irq] runs with interrupts off and
    restores the flag to what it was before; a section entered with [lock] can be
    interrupted, and then a handler that locks the same mutex never gets it, nor does
    any processor ever after.  The sequential operations [lock_irq] and [lock], with the
    drop of their guards, are runs of these steps. *)
Theorem mutex_interleavings q s :
  mutex_reachable (sync_init q) s →
  (∀ i j, holds (sy_cpus s i) = true → holds (sy_cpus s j) = true → i = j) ∧
  (∀ i b sv, sy_cpus s i = Critical b (Some sv) → sy_irq s i = false) ∧
  (∀ i b sv s', sy_cpus s i = Restoring b (Some sv) → mutex_step s s' → sy_cpus s' i = Idle → sy_irq s' i = sv) ∧
  (∀ i s', sy_cpus s i = Interrupted → mutex_reachable s s' →
     sy_cpus s' i = Interrupted ∧ sy_held s' = true ∧ ∀ j b sv, sy_cpus s' j ≠ Critical b sv) ∧
  (∀ i g c, sy_cpus s i = Idle →
     (lock_irq (cpu_of s i) = Ret (g, c) → ∃ s1 s2, mutex_reachable s s1 ∧
        sy_cpus s1 i = Critical g (Some (sy_irq s i)) ∧ cpu_of s1 i = c ∧
        mutex_reachable s1 s2 ∧ sy_cpus s2 i = Idle ∧ cpu_of s2 i = guard_drop g c) ∧
     (lock (cpu_of s i) = Ret (g, c) → ∃ s1 s2, mutex_reachable s s1 ∧
        sy_cpus s1 i = Critical g None ∧ cpu_of s1 i = c ∧
        mutex_reachable s1 s2 ∧ sy_cpus s2 i = Idle ∧ cpu_of s2 i = guard_drop g c)).
Proof.
  intros Hr. pose proof (sync_reachable_inv q s Hr) as Hinv. pose proof Hinv as (Hme & _ & Hirq). split_and!.
  - done.
  - intros i b sv Hi. specialize (Hirq i). rewrite Hi in Hirq. apply Hirq.
  - intros i b sv s' Hi Hs Hi'. specialize (Hirq i). rewrite Hi in Hirq. destruct Hirq as [Hq ->].
    destruct Hs as [j h p f Hp|j h p f Hp|j b' v p f Hp|j b' v h p f Hp|j b' v h p f Hp|j b' v h p f Hp Hq'];
      cbn [sy_cpus sy_irq] in *; destruct (decide (i = j)) as [->|];
      rewrite ?upd_eq in Hi'; try rewrite upd_ne in Hi' by done; try congruence.
    rewrite Hp in Hi. injection Hi as -> _. destruct sv; [by rewrite upd_eq|done].
  - intros i s' Hi Hr'.
    assert (sync_inv s' ∧ sy_cpus s' i = Interrupted) as [(Hme' & Hheld' & _) Hi'].
    { induction Hr' as [|s1 s2 _ [IH1 IH2] Hs]; [done|].
      split; [by eapply step_inv|by eapply interrupted_stays]. }
    split_and!; [done|apply (Hheld' i); by rewrite Hi'|]. intros j b sv Hj.
    assert (i = j) as -> by (apply Hme'; [by rewrite Hi'|by rewrite Hj]). congruence.
  - intros i g c Hi. split; intros Hl; [by apply lock_irq_steps|by apply lock_steps].
Qed.

(** Interrupts on, [lock], an interrupt. *)
Lemma mutex_witness :
  ∃ s, mutex_reachable (sync_init (λ _, true)) s ∧ sy_cpus s 0%nat = Interrupted ∧
    ∀ s', mutex_reachable s s' → sy_held s' = true.
Proof.
  assert (mutex_reachable (sync_init (λ _, true)) (MkSystem true
    (upd (upd (upd (λ _, Idle) 0 (Spinning false None)) 0 (Critical false None)) 0 Interrupted)
    (λ _, true))) as Hr.
  { eapply reach_step; [|by eapply step_interrupt].
    eapply reach_step; [|by eapply step_acquire].
    eapply reach_step; [apply reach_refl|by apply step_lock]. }
  eexists. split; [exact Hr|]. split; [reflexivity|]. intros s' Hs'.
  by apply (mutex_interleavings _ _ Hr) with (i := 0%nat).
Defined.

(** On one processor the guard restores the flag, and locking twice hangs. *)
Lemma lock_irq_roundtrip c :
  c_held c = false → ∃ g c', lock_irq c = Ret (g, c') ∧ c_irq c' = false ∧ guard_drop g c' = c ∧
    lock_irq c' = Hang ∧ lock c' = Hang.
Proof.
  destruct c as [irq held]. cbn. intros ->. unfold lock_irq, lock, spin_lock. cbn.
  do 2 eexists. split; [done|]. by destruct irq.
Qed.

Lemma irq_guard_roundtrip c : let '(g, c') := IrqGuard_new c in c_irq c' = false ∧ IrqGuard_drop g c' = c.
Proof. by destruct c as [[] held]. Qed.

End Sync.

(** ** The sequence lock *)

Module SeqLock.

Record SeqLock (T : Type) : Type := MkSeqLock { sl_lock : Z; sl_data : T; sl_sem : bool }.
Arguments MkSeqLock {T}.
Arguments sl_lock {T}.
Arguments sl_data {T}.
Arguments sl_sem {T}.

Section Ops.
Context {T : Type}.
Implicit Types s : SeqLock T.

Definition seqlock_new (inner : T) : SeqLock T := MkSeqLock 0 inner false.
Definition is_locked s : bool := Z.land (sl_lock s) 1 =? 1.
Definition set_lock s (v : Z) : SeqLock T := MkSeqLock v (sl_data s) (sl_sem s).

(** The loop of [read] and [write]: wait for an even counter and store the next. *)
Fixpoint acquire (fuel : nat) s : outcome (SeqLock T) :=
  match fuel with
  | O => Hang
  | S fuel => if is_locked s then acquire fuel s else v ← uadd 64 (sl_lock s) 1; Ret (set_lock s v)
  end.

(** [self.semaphore.write()]. *)
Definition sem_write s : outcome (SeqLock T) :=
  if sl_sem s then Hang else Ret (MkSeqLock (sl_lock s) (sl_data s) true).

Definition seqlock_read (fuel : nat) s : outcome (SeqLock T) := acquire fuel s.
Definition seqlock_write (fuel : nat) s : outcome (SeqLock T) := s ← acquire fuel s; sem_write s.

Definition try_read s : outcome (option (SeqLock T)) :=
  if is_locked s then Ret None else v ← uadd 64 (sl_lock s) 1; Ret (Some (set_lock s v)).
Definition try_write s : outcome (option (SeqLock T)) :=
  if is_locked s then Ret None
  else v ← uadd 64 (sl_lock s) 1; s ← sem_write (set_lock s v); Ret (Some s).

Definition unlock s : SeqLock T := set_lock s (wrap 64 (sl_lock s + 1)).
Definition seqlock_force_unlock s : SeqLock T := set_lock s 0.
Definition into_inner s : T := sl_data s.

(** [Deref] of either guard waits for an even counter. *)
Fixpoint deref (fuel : nat) s : outcome T :=
  match fuel with
  | O => Hang
  | S fuel => if is_locked s then deref fuel s else Ret (sl_data s)
  end.

(** [deref_mut] followed by an assignment. *)
Definition deref_mut (fuel : nat) s (x : T) : outcome (SeqLock T) :=
  _ ← deref fuel s; Ret (MkSeqLock (sl_lock s) x (sl_sem s)).

(** Only the write guard has something to drop: the semaphore. *)
Definition write_guard_drop s : SeqLock T := MkSeqLock (sl_lock s) (sl_data s) false.

Lemma is_locked_odd s : is_locked s = Z.odd (sl_lock s).
Proof.
  unfold is_locked. rewrite (Z.land_ones _ 1) by lia. change (2 ^ 1) with 2.
  rewrite Zmod_odd. by destruct (Z.odd (sl_lock s)).
Qed.

(** While the counter is odd nothing gets past it. *)
Lemma locked_hangs fuel s x :
  Z.odd (sl_lock s) = true →
  acquire fuel s = Hang ∧ deref fuel s = Hang ∧ deref_mut fuel s x = Hang ∧
  seqlock_read fuel s = Hang ∧ seqlock_write fuel s = Hang.
Proof.
  intros Ho. rewrite <- is_locked_odd in Ho.
  assert (acquire fuel s = Hang ∧ deref fuel s = Hang) as [Ha Hd].
  { induction fuel as [|fuel [IH1 IH2]]; [done|]. cbn. by rewrite Ho. }
  unfold deref_mut, seqlock_write, seqlock_read. by rewrite Ha, Hd.
Qed.

(** The lock deadlocks against itself.  Acquiring it for reading or writing leaves
    the counter odd, and both guards wait for an even counter before they give access:
    dereferencing the guard, locking again and writing through it never return, and
    the [try_] variants fail, also after the guard is dropped, until someone calls
    [unlock] or [seqlock_force_unlock]; then the data can be read. *)
Theorem seqlock_self_deadlock s fuel :
  0 <= sl_lock s < 2 ^ 64 → Z.odd (sl_lock s) = false → sl_sem s = false →
  ∃ r w, seqlock_read (S fuel) s = Ret r ∧ seqlock_write (S fuel) s = Ret w ∧
    Forall (λ s',
      (∀ n x, deref n s' = Hang ∧ deref_mut n s' x = Hang ∧ seqlock_read n s' = Hang ∧
              seqlock_write n s' = Hang) ∧
      try_read s' = Ret None ∧ try_write s' = Ret None ∧
      deref (S fuel) (unlock s') = Ret (sl_data s) ∧ deref (S fuel) (seqlock_force_unlock s') = Ret (sl_data s))
    [r; w; write_guard_drop w].
Proof.
  intros Hr He Hs.
  assert (Z.odd (sl_lock s + 1) = true) as Ho by (by rewrite Z.odd_add, He).
  assert (sl_lock s + 1 < 2 ^ 64) as Hlt.
  { destruct (decide (sl_lock s = 2 ^ 64 - 1)) as [E|]; [by rewrite E in He|lia]. }
  assert (acquire (S fuel) s = Ret (set_lock s (sl_lock s + 1))) as Ha.
  { cbn. rewrite is_locked_odd, He, uadd_ret by done. done. }
  unfold seqlock_write, seqlock_read. rewrite Ha. cbn [mbind outcome_bind]. unfold sem_write.
  cbn [set_lock sl_sem sl_lock sl_data]. rewrite Hs. do 2 eexists. split_and!; [done..|].
  assert (∀ b, (∀ n x, deref n (MkSeqLock (sl_lock s + 1) (sl_data s) b) = Hang ∧
            deref_mut n (MkSeqLock (sl_lock s + 1) (sl_data s) b) x = Hang ∧
            seqlock_read n (MkSeqLock (sl_lock s + 1) (sl_data s) b) = Hang ∧
            seqlock_write n (MkSeqLock (sl_lock s + 1) (sl_data s) b) = Hang) ∧
      try_read (MkSeqLock (sl_lock s + 1) (sl_data s) b) = Ret None ∧
      try_write (MkSeqLock (sl_lock s + 1) (sl_data s) b) = Ret None ∧
      deref (S fuel) (unlock (MkSeqLock (sl_lock s + 1) (sl_data s) b)) = Ret (sl_data s) ∧
      deref (S fuel) (seqlock_force_unlock (MkSeqLock (sl_lock s + 1) (sl_data s) b)) = Ret (sl_data s)) as Hall.
  { intros b. split_and!.
    - intros n x. by destruct (locked_hangs n (MkSeqLock (sl_lock s + 1) (sl_data s) b) x Ho) as (_ & ?).
    - unfold try_read. rewrite is_locked_odd. cbn [sl_lock]. by rewrite Ho.
    - unfold try_write. rewrite is_locked_odd. cbn [sl_lock]. by rewrite Ho.
    - cbn [deref]. rewrite is_locked_odd. cbn [unlock set_lock sl_lock sl_data].
      assert (Z.odd (wrap 64 (sl_lock s + 1 + 1)) = false) as ->; [|done].
      unfold wrap. rewrite <- (Z.bit0_odd (_ mod _)), Z.mod_pow2_bits_low, Z.bit0_odd by lia.
      by rewrite Z.odd_add, Ho.
    - done. }
  rewrite !Forall_cons, Forall_nil. split_and!; [apply Hall..|done].
Qed.

End Ops.

(** *** Several threads

    The load and the store of the counter are separate atomic steps.  [u] says whether
    someone may call [unlock] or [seqlock_force_unlock]. *)
Inductive seqlock_pc : Type :=
  | Idle
  | Loop (w : bool)
  | Store (w : bool) (v : Z)
  | WaitSem
  | HasRead
  | HasWrite.

Record Threads : Type := MkThreads { th_lock : Z; th_sem : bool; th_pc : nat → seqlock_pc }.

Import Sync(upd, upd_eq, upd_ne).

Inductive seqlock_step (u : bool) : Threads → Threads → Prop :=
  | step_start i w l m p : p i = Idle →
      seqlock_step u (MkThreads l m p) (MkThreads l m (upd p i (Loop w)))
  | step_load i w l m p : p i = Loop w → Z.odd l = false →
      seqlock_step u (MkThreads l m p) (MkThreads l m (upd p i (Store w l)))
  | step_try i w l m p : p i = Idle → Z.odd l = false →
      seqlock_step u (MkThreads l m p) (MkThreads l m (upd p i (Store w l)))
  | step_store i w v l m p : p i = Store w v →
      seqlock_step u (MkThreads l m p) (MkThreads (v + 1) m (upd p i (if w then WaitSem else HasRead)))
  | step_sem i l p : p i = WaitSem →
      seqlock_step u (MkThreads l false p) (MkThreads l true (upd p i HasWrite))
  | step_drop_read i l m p : p i = HasRead →
      seqlock_step u (MkThreads l m p) (MkThreads l m (upd p i Idle))
  | step_drop_write i l m p : p i = HasWrite →
      seqlock_step u (MkThreads l m p) (MkThreads l false (upd p i Idle))
  | step_unlock l m p : u = true →
      seqlock_step u (MkThreads l m p) (MkThreads (wrap 64 (l + 1)) m p)
  | step_force_unlock l m p : u = true →
      seqlock_step u (MkThreads l m p) (MkThreads 0 m p).

Inductive seqlock_reachable (u : bool) (s0 : Threads) : Threads → Prop :=
  | reach_refl : seqlock_reachable u s0 s0
  | reach_step s s' : seqlock_reachable u s0 s → seqlock_step u s s' → seqlock_reachable u s0 s'.

Definition threads_init : Threads := MkThreads 0 false (λ _, Idle).

(** The semaphore keeps writers apart whatever happens to the counter. *)
Definition writers_inv (s : Threads) : Prop :=
  (∀ i j, th_pc s i = HasWrite → th_pc s j = HasWrite → i = j) ∧
  (∀ i, th_pc s i = HasWrite → th_sem s = true).

(** Without [unlock] the counter is 0 until the first acquisition and 1 ever after. *)
Definition counter_inv (s : Threads) : Prop :=
  (th_lock s = 0 ∨ th_lock s = 1) ∧
  (∀ i w v, th_pc s i = Store w v → v = 0) ∧
  (∀ i, th_pc s i = WaitSem ∨ th_pc s i = HasRead ∨ th_pc s i = HasWrite → th_lock s = 1).

Ltac step_cases Hs :=
  destruct Hs as [i w l m p Hp|i w l m p Hp Ho|i w l m p Hp Ho|i w v l m p Hp|i l p Hp|i l m p Hp
                 |i l m p Hp|l m p Hu|l m p Hu]; cbn [th_lock th_sem th_pc] in *.

Lemma writers_step u s s' : writers_inv s → seqlock_step u s s' → writers_inv s'.
Proof.
  intros [Hone Hm] Hs. unfold writers_inv. step_cases Hs.
  all: split; intros *; Sync.upd_cases; try done; try (by destruct w); intros; eauto.
  all: match goal with E : _ = HasWrite |- _ => by apply Hm in E end.
Qed.

Lemma counter_step s s' : counter_inv s → seqlock_step false s s' → counter_inv s'.
Proof.
  intros (Hl & Hst & Hg) Hs. unfold counter_inv. step_cases Hs; try done.
  - split_and!; [done|intros j w' v|intros j]; Sync.upd_cases; [done|apply Hst|by intros [?|[?|?]]|apply Hg].
  - destruct Hl as [->| ->]; [|done]. split_and!; [by left| |].
    + intros j w' v. Sync.upd_cases; [by intros [= _ <-]|apply Hst].
    + intros j. Sync.upd_cases; [by intros [?|[?|?]]|apply Hg].
  - destruct Hl as [->| ->]; [|done]. split_and!; [by left| |].
    + intros j w' v. Sync.upd_cases; [by intros [= _ <-]|apply Hst].
    + intros j. Sync.upd_cases; [by intros [?|[?|?]]|apply Hg].
  - rewrite (Hst i w v Hp). split_and!; [by right| |done].
    intros j w' v'. Sync.upd_cases; [by destruct w|apply Hst].
  - assert (l = 1) as -> by eauto. split_and!; [by right| |done].
    intros j w' v. Sync.upd_cases; [done|apply Hst].
  - assert (l = 1) as -> by eauto. split_and!; [by right| |done].
    intros j w' v. Sync.upd_cases; [done|apply Hst].
  - assert (l = 1) as -> by eauto. split_and!; [by right| |done].
    intros j w' v. Sync.upd_cases; [done|apply Hst].
Qed.

(** The counter never goes back to even by itself. *)
Lemma locked_step s s' : counter_inv s → th_lock s = 1 → seqlock_step false s s' → th_lock s' = 1.
Proof.
  intros (_ & Hst & _) Hl Hs. step_cases Hs; try done. by rewrite (Hst i w v Hp).
Qed.

Lemma seqlock_reachable_inv u s : seqlock_reachable u threads_init s → writers_inv s ∧ (u = false → counter_inv s).
Proof.
  induction 1 as [|s s' _ [IH1 IH2] Hs].
  - split; [by split|]. intros _. split_and!; cbn; [by left|done|by intros i [?|[?|?]]].
  - split; [by eapply writers_step|]. intros ->. eapply counter_step; eauto.
Qed.

(** C24: whatever the threads do, [unlock] included, two write guards never exist at the
    same time; and as long as nobody calls [unlock], from the moment a guard exists the
    counter stays odd in every continuation, so that no guard can be dereferenced and no
    thread that is not already past its load ever enters. *)
Theorem seqlock_interleavings u s :
  seqlock_reachable u threads_init s →
  (∀ i j, th_pc s i = HasWrite → th_pc s j = HasWrite → i = j) ∧
  (u = false → (∃ i, th_pc s i = HasRead ∨ th_pc s i = HasWrite) →
   ∀ s', seqlock_reachable false s s' → Z.odd (th_lock s') = true ∧
     ∀ i w s'', th_pc s' i = Loop w → seqlock_step false s' s'' → th_pc s'' i = Loop w).
Proof.
  intros Hr. destruct (seqlock_reachable_inv u s Hr) as [[Hone _] Hc]. split; [done|].
  intros -> [k Hk] s' Hr'. specialize (Hc eq_refl). pose proof Hc as (_ & _ & Hg).
  assert (counter_inv s' ∧ th_lock s' = 1) as [_ Hl'].
  { induction Hr' as [|s1 s2 _ [IH1 IH2] Hs]; [split; [done|]; apply (Hg k); tauto|].
    split; [by eapply counter_step|by eapply locked_step]. }
  split; [by rewrite Hl'|]. intros j w' s'' Hj Hs. step_cases Hs; subst; try done.
  all: destruct (decide (j = i)) as [->|]; [congruence|by rewrite upd_ne].
Qed.

(** Two threads load the same even value and both become readers. *)
Lemma seqlock_interleavings_witness :
  ∃ s, seqlock_reachable false threads_init s ∧ th_pc s 0%nat = HasRead ∧ th_pc s 1%nat = HasRead ∧
    ∀ s', seqlock_reachable false s s' → Z.odd (th_lock s') = true.
Proof.
  assert (seqlock_reachable false threads_init (MkThreads 1 false
    (upd (upd (upd (upd (λ _, Idle) 0 (Store false 0)) 1 (Store false 0)) 0 HasRead) 1 HasRead))) as Hr.
  { eapply reach_step; [|by apply (step_store false 1 false 0 1)].
    eapply reach_step; [|by apply (step_store false 0 false 0 0)].
    eapply reach_step; [|by apply (step_try false 1 false 0)].
    eapply reach_step; [apply reach_refl|by apply (step_try false 0 false 0)]. }
  eexists. split; [exact Hr|]. split; [reflexivity|]. split; [reflexivity|]. intros s' Hs'.
  apply (seqlock_interleavings _ _ Hr); [done| |done]. exists 0%nat. by left.
Defined.

Lemma seqlock_self_deadlock_witness :
  ∃ r, seqlock_read 1 (seqlock_new 7) = Ret r ∧ ∀ n, deref n r = Hang.
Proof.
  destruct (seqlock_self_deadlock (seqlock_new 7) 0) as (r & w & Hr & _ & Hall); [cbn; lia|done|done|].
  exists r. split; [exact Hr|]. intros n. apply Forall_cons in Hall as [[Hn _] _]. apply (Hn n 0).
Defined.

End SeqLock.

(** ** The pointer cell *)

Module AtomicCell.

(** The global allocator: the address it answers is not that of a live object. *)
Class Alloc : Type := alloc_addr : gset Z → Z.
Class AllocLaws `{Alloc} : Prop := { alloc_fresh L : alloc_addr L ∉ L }.

#[export] Instance alloc_model : Alloc | 100 := λ L, fresh L.
#[export] Instance alloc_model_laws : @AllocLaws alloc_model.
Proof. split. intros L. apply is_fresh. Qed.

Section Cell.
Context `{X86Paging} `{PageMapper} `{Alloc} {T : Type}.

(** Memory by address, and the addresses of live objects. *)
Record Heap : Type := MkHeap { hp_mem : Z → T; hp_live : gset Z }.

(** A cell is the pointer it holds. *)
Definition box_into_raw (x : T) (h : Heap) : Z * Heap :=
  let a := alloc_addr (hp_live h) in
  (a, MkHeap (λ b, if b =? a then x else hp_mem h b) ({[a]} ∪ hp_live h)).

(** [AtomicCell::new]: the page of the argument is mapped to itself, and the cell
    points to the local variable that holds the page's address. *)
Definition cell_new (addr_of_data addr_of_virt : Z) (k : KMem) : outcome (Z * KMem) :=
  v ← virt_addr_new addr_of_data;
  k ← map_page k addr_of_data (page_containing v) kernel_flags;
  Ret (addr_of_virt, k).

Definition cell_get (c : Z) (h : Heap) : T := hp_mem h c.
Definition cell_set (c : Z) (x : T) (h : Heap) : Heap :=
  MkHeap (λ b, if b =? c then x else hp_mem h b) (hp_live h).
Definition cell_swap (c : Z) (x : T) (h : Heap) : Z * Z * Heap :=
  let '(p, h) := box_into_raw x h in (c, p, h).   (* the old pointer, the cell, the heap *)

(** [compare_exchange] compares addresses; the weak one may also fail by itself. *)
Definition cell_cas_weak (spurious : bool) (c : Z) (current new : T) (h : Heap) : (Z + Z) * Z * Heap :=
  let '(pcur, h) := box_into_raw current h in
  let '(pn, h) := box_into_raw new h in
  if (c =? pcur) && negb spurious then (inr pcur, pn, h) else (inl pn, c, h).
Definition cell_cas (c : Z) (current new : T) (h : Heap) : (Z + Z) * Z * Heap :=
  cell_cas_weak false c current new h.

Definition cell_drop (addr_of_cell : Z) (k : KMem) : outcome KMem :=
  v ← virt_addr_new addr_of_cell;
  unmap_page k (page_containing v).

End Cell.

(** A live cell never equals a box made for the comparison: [compare_exchange] always
    fails, whatever the cell holds, and leaks both boxes. *)
Lemma cell_cas_never_swaps `{AllocLaws} {T} sp c (current new : T) h :
  c ∈ hp_live h →
  ∃ p h', cell_cas_weak sp c current new h = (inl p, c, h') ∧ cell_get c h' = cell_get c h ∧
    size (hp_live h') = (2 + size (hp_live h))%nat.
Proof.
  intros Hc. unfold cell_cas_weak, box_into_raw. cbn [hp_live hp_mem].
  pose proof (alloc_fresh (hp_live h)) as Hf. set (a := alloc_addr (hp_live h)) in *.
  pose proof (alloc_fresh ({[a]} ∪ hp_live h)) as Hf'. set (b := alloc_addr ({[a]} ∪ hp_live h)) in *.
  destruct (Z.eqb_spec c a) as [->|]; [done|]. cbn [andb]. do 2 eexists. split; [done|].
  assert (c ≠ b) by set_solver. unfold cell_get. cbn [hp_mem hp_live].
  rewrite (proj2 (Z.eqb_neq c b)), (proj2 (Z.eqb_neq c a)) by done. split; [done|].
  rewrite !size_union by set_solver. by rewrite !size_singleton.
Qed.

End AtomicCell.
