(* ===== verification/MemConc.v ===== *)
(** * Memory operations on several processors: the [IrqLock]s of src/common/mod.rs around
      [map_page!], [unmap_page!] and the frame allocator

    [MAPPER] and [FRAME_ALLOCATOR] are [spin] read-write locks with the relax strategy of
    common/mod.rs: a processor that does not get the lock at once switches interrupts off
    and halts.  A processor has a stack of frames, the running code and the interrupted
    code below it; inside a guard the protected value is loaded in one step and stored
    back in a later one, so that other processors and interrupt handlers can run in
    between.  A panic ends in the [loop {}] of main.rs on the processor it happened on:
    that frame never moves again and keeps the guards it has not dropped, the other
    processors go on, and so do interrupt handlers on this one if interrupts are on.  (A
    kernel built with [shutdown_on_panic] stops there instead, which is a run that ends.)
    A step is a function of a label; what is labelled with a processor and an event is
    executable. *)

From stdpp Require Import relations.
From S2P Require Import Prelude Paging Frames Memory.

Local Open Scope Z_scope.

(** A frame is named by its processor and its depth. *)
Abbreviation frame_id := (nat * nat)%type.

Section Machine.
Context `{X86Paging} `{PageMapper}.

(** ** Operations and where a frame is in one *)

(** [map_page!(phys, virt, Size4KiB, flags)], [unmap_page!(page)] and
    [FRAME_ALLOCATOR.get().unwrap().write().allocate_frame()]. *)
Inductive mem_op : Type :=
  | OMap (phys virt flags : Z)
  | OUnmap (page : Z)
  | OAlloc.
(** [APanic]: the operation is done with the tables, and panics because of their answer. *)
Inductive mem_answer : Type := AUnit | AFrame (f : option Z) | APanic.

(** A frame of [map_page!] keeps the interrupt flag [without_interrupts] restores; in
    [MapDrop] the guard of the allocator is dropped and that of the mapper is not.
    [Looping] is the end of a frame: the panic handler's loop, or a call that does not
    return, with the guards it still has. *)
Inductive pc : Type :=
  | Idle
  | MapWait (phys virt flags : Z) (saved : bool)
  | MapMapper (phys virt flags : Z) (saved : bool)
  | MapBoth (phys virt flags : Z) (saved : bool)
  | MapWork (phys virt flags : Z) (saved : bool) (m : pt) (fa : KernelFrameAlloc)
  | MapDrop (saved : bool) (res : map_result)
  | UnmapWait (page : Z)
  | UnmapHeld (page : Z)
  | UnmapWork (page : Z) (m : pt)
  | AllocWait
  | AllocHeld
  | AllocWork (fa : KernelFrameAlloc)
  | Looping (mapper falloc : bool).

Record Processor : Type := MkProcessor { c_depth : nat; c_irq : bool; c_halted : bool }.

Record conc : Type := MkConc {
  cs_frames : gmap frame_id pc;
  cs_cpus : gmap nat Processor;
  cs_mapper : pt;
  cs_falloc : KernelFrameAlloc;
  cs_mlock : option frame_id;
  cs_flock : option frame_id;
  cs_hist : list (mem_op * mem_answer);   (* operations completed, in order *)
}.

Inductive event : Type := Call (o : mem_op) | Go | Interrupt | Iret.

(** ** Steps *)

Definition set_pc (s : conc) (id : frame_id) (p : pc) : conc :=
  MkConc (<[id := p]> (cs_frames s)) (cs_cpus s) (cs_mapper s) (cs_falloc s) (cs_mlock s) (cs_flock s)
    (cs_hist s).
Definition set_cpu (s : conc) (i : nat) (c : Processor) : conc :=
  MkConc (cs_frames s) (<[i := c]> (cs_cpus s)) (cs_mapper s) (cs_falloc s) (cs_mlock s) (cs_flock s)
    (cs_hist s).
Definition set_mlock (s : conc) (l : option frame_id) : conc :=
  MkConc (cs_frames s) (cs_cpus s) (cs_mapper s) (cs_falloc s) l (cs_flock s) (cs_hist s).
Definition set_flock (s : conc) (l : option frame_id) : conc :=
  MkConc (cs_frames s) (cs_cpus s) (cs_mapper s) (cs_falloc s) (cs_mlock s) l (cs_hist s).
Definition set_data (s : conc) (m : pt) (fa : KernelFrameAlloc) (e : mem_op * mem_answer) : conc :=
  MkConc (cs_frames s) (cs_cpus s) m fa (cs_mlock s) (cs_flock s) (cs_hist s ++ [e]).

(** [IrqRelaxStrategy::relax]: [hlt] with interrupts off is not left. *)
Definition irq_relax (c : Processor) : Processor := MkProcessor (c_depth c) false true.

(** The frame and page [map_page!] computes before it takes the locks. *)
Definition map_args (phys virt : Z) : outcome (Z * Z) :=
  phys ← phys_addr_new phys;
  virt ← virt_addr_new virt;
  Ret (frame_containing phys, page_containing virt).

Definition irq_set (c : Processor) (b : bool) : Processor := MkProcessor (c_depth c) b (c_halted c).

(** A frame starts an operation. *)
Definition op_call (i : nat) (c : Processor) (o : mem_op) (s : conc) : conc :=
  let id := (i, c_depth c) in
  match o with
  | OMap phys virt flags =>
      match map_args phys virt with
      | Ret _ => set_cpu (set_pc s id (MapWait phys virt flags (c_irq c))) i (irq_set c false)
      | _ => set_pc s id (Looping false false)
      end
  | OUnmap page => set_pc s id (UnmapWait page)
  | OAlloc => set_pc s id AllocWait
  end.

(** What [map_page!] makes of [map_to]'s result once the guards are dropped, and
    [unmap_page!] of [unmap]'s, inside the guard of its [match]. *)
Definition map_answer (res : map_result) : mem_answer :=
  match res with FrameAllocationFailed => APanic | MapOk | PageAlreadyMapped _ | ParentEntryHugePage => AUnit end.
Definition unmap_answer (res : unmap_result) : mem_answer :=
  match res with
  | UnmapInvalidFrameAddress _ => APanic
  | UnmapOk _ | UnmapParentEntryHugePage | UnmapPageNotMapped => AUnit
  end.

(** [lock.write()]: the guard, or [relax]. *)
Definition lock_or_relax (lock : option frame_id) (i : nat) (c : Processor) (taken s : conc) : conc :=
  match lock with
  | None => taken
  | Some _ => set_cpu s i (irq_relax c)
  end.

(** The running frame goes on with its operation. *)
Definition op_go (i : nat) (c : Processor) (p : pc) (s : conc) : option conc :=
  let id := (i, c_depth c) in
  match p with
  | Idle => None
  | MapWait phys virt flags b =>
      Some (lock_or_relax (cs_mlock s) i c (set_mlock (set_pc s id (MapMapper phys virt flags b)) (Some id)) s)
  | MapMapper phys virt flags b =>
      Some (lock_or_relax (cs_flock s) i c (set_flock (set_pc s id (MapBoth phys virt flags b)) (Some id)) s)
  | MapBoth phys virt flags b => Some (set_pc s id (MapWork phys virt flags b (cs_mapper s) (cs_falloc s)))
  | MapWork phys virt flags b m fa =>
      Some match '(f, page) ← map_args phys virt; map_to m page f flags fa with
           | Ret (res, m, fa) =>
               set_pc (set_flock (set_data s m fa (OMap phys virt flags, map_answer res)) None) id (MapDrop b res)
           | Panic _ | Hang => set_pc s id (Looping true true)
           end
  | MapDrop b res =>
      Some match map_answer res with
           | APanic => set_pc (set_mlock s None) id (Looping false false)
           | _ => set_cpu (set_pc (set_mlock s None) id Idle) i (irq_set c b)
           end
  | UnmapWait page =>
      Some (lock_or_relax (cs_mlock s) i c (set_mlock (set_pc s id (UnmapHeld page)) (Some id)) s)
  | UnmapHeld page => Some (set_pc s id (UnmapWork page (cs_mapper s)))
  | UnmapWork page m =>
      Some match unmap m page with
           | Ret (res, m) =>
               let s := set_data s m (cs_falloc s) (OUnmap page, unmap_answer res) in
               match unmap_answer res with
               | APanic => set_pc s id (Looping true false)
               | _ => set_pc (set_mlock s None) id Idle
               end
           | Panic _ | Hang => set_pc s id (Looping true false)
           end
  | AllocWait => Some (lock_or_relax (cs_flock s) i c (set_flock (set_pc s id AllocHeld) (Some id)) s)
  | AllocHeld => Some (set_pc s id (AllocWork (cs_falloc s)))
  | AllocWork fa =>
      Some match allocate_frame fa with
           | Ret (f, fa) => set_pc (set_flock (set_data s (cs_mapper s) fa (OAlloc, AFrame f)) None) id Idle
           | Panic _ | Hang => set_pc s id (Looping false true)
           end
  | Looping _ _ => None
  end.

Definition mem_step (i : nat) (e : event) (s : conc) : option conc :=
  c ← cs_cpus s !! i;
  p ← cs_frames s !! (i, c_depth c);
  if c_halted c then None
  else
    match e with
    | Call o => match p with Idle => Some (op_call i c o s) | _ => None end
    | Go => op_go i c p s
    | Interrupt =>
        if c_irq c then
          Some (set_cpu (set_pc s (i, S (c_depth c)) Idle) i (MkProcessor (S (c_depth c)) false false))
        else None
    | Iret =>
        match p, c_depth c with
        | Idle, S d =>
            Some (set_cpu (MkConc (delete (i, S d) (cs_frames s)) (cs_cpus s) (cs_mapper s) (cs_falloc s)
                             (cs_mlock s) (cs_flock s) (cs_hist s)) i (MkProcessor d true false))
        | _, _ => None
        end
    end.

Definition mem_next (s s' : conc) : Prop := ∃ i e, mem_step i e s = Some s'.

(** A run by its labels. *)
Fixpoint run_labels (ls : list (nat * event)) (s : conc) : option conc :=
  match ls with
  | [] => Some s
  | (i, e) :: ls => s ← mem_step i e s; run_labels ls s
  end.

(** All processors idle, with interrupts on and the locks free. *)
Definition mem_initial (cpus : nat) (m : pt) (fa : KernelFrameAlloc) : conc :=
  MkConc (list_to_map ((λ i, ((i, 0%nat), Idle)) <$> seq 0 cpus))
    (list_to_map ((λ i, (i, MkProcessor 0 true false)) <$> seq 0 cpus)) m fa None None [].

(** ** The operations as the rest of the kernel has them

    Unlike [map_page] and [unmap_page] of Memory, [atomic_op] also says what a panic because
    of the answer leaves behind (see [map_page_atomic] and [unmap_page_atomic]). *)

Definition atomic_op (o : mem_op) (k : KMem) : outcome (mem_answer * KMem) :=
  match o with
  | OMap phys virt flags =>
      '(frame, page) ← map_args phys virt;
      m ← mapper_write k;
      fa ← falloc_write k;
      '(res, m, fa) ← map_to m page frame flags fa;
      Ret (map_answer res, set_falloc (set_mapper k m) fa)
  | OUnmap page =>
      m ← mapper_write k;
      '(res, m) ← unmap m page;
      Ret (unmap_answer res, set_mapper k m)
  | OAlloc =>
      fa ← falloc_write k;
      '(f, fa) ← allocate_frame fa;
      Ret (AFrame f, set_falloc k fa)
  end.

(** The operations one after the other, with the answers they gave. *)
Fixpoint sequential (hist : list (mem_op * mem_answer)) (k k' : KMem) : Prop :=
  match hist with
  | [] => k = k'
  | (o, a) :: hist => ∃ k1, atomic_op o k = Ret (a, k1) ∧ sequential hist k1 k'
  end.

End Machine.

(** ** Locks and what they protect *)

Section Theory.
Context `{X86Paging} `{PageMapper}.

Definition holds_mapper (p : pc) : bool :=
  match p with
  | MapMapper _ _ _ _ | MapBoth _ _ _ _ | MapWork _ _ _ _ _ _ | MapDrop _ _ | UnmapHeld _ | UnmapWork _ _ => true
  | Looping b _ => b
  | _ => false
  end.
Definition holds_falloc (p : pc) : bool :=
  match p with
  | MapBoth _ _ _ _ | MapWork _ _ _ _ _ _ | AllocHeld | AllocWork _ => true
  | Looping _ b => b
  | _ => false
  end.
(** The value a frame has loaded. *)
Definition loaded_mapper (p : pc) : option pt :=
  match p with MapWork _ _ _ _ m _ | UnmapWork _ m => Some m | _ => None end.
Definition loaded_falloc (p : pc) : option KernelFrameAlloc :=
  match p with MapWork _ _ _ _ _ fa | AllocWork fa => Some fa | _ => None end.
Definition in_map (p : pc) : bool :=
  match p with
  | MapWait _ _ _ _ | MapMapper _ _ _ _ | MapBoth _ _ _ _ | MapWork _ _ _ _ _ _ | MapDrop _ _ => true
  | _ => false
  end.

(** The lock names the frame that holds it, and what a frame has loaded is still there. *)
Definition lock_inv {X} (holds : pc → bool) (loaded : pc → option X)
    (fs : gmap frame_id pc) (lock : option frame_id) (x : X) : Prop :=
  (∀ id, lock = Some id ↔ ∃ p, fs !! id = Some p ∧ holds p = true) ∧
  (∀ id p y, fs !! id = Some p → loaded p = Some y → y = x).

Section Lock.
Context {X : Type} (holds : pc → bool) (loaded : pc → option X).
Hypothesis loaded_held : ∀ p y, loaded p = Some y → holds p = true.

(** The frame moves inside or outside its guard. *)
Lemma lock_inv_move fs lock x id p p' :
  lock_inv holds loaded fs lock x → fs !! id = Some p → holds p' = holds p →
  (∀ y, loaded p' = Some y → y = x) → lock_inv holds loaded (<[id := p']> fs) lock x.
Proof.
  intros [Hl Hv] Hp Hh Hx. split.
  - intros id'. rewrite Hl. setoid_rewrite lookup_insert_Some. split.
    + intros (q & Hq & Hqh). destruct (decide (id = id')) as [->|Hne]; [|naive_solver].
      exists p'. simplify_eq. rewrite Hh. naive_solver.
    + intros (q & [[-> ->]|[Hne Hq]] & Hqh); [|naive_solver]. exists p. by rewrite <- Hh.
  - intros id' q y [[_ <-]|[_ Hq]]%lookup_insert_Some Hy; [by apply Hx|by eapply Hv].
Qed.

Lemma lock_inv_take fs x id p' :
  lock_inv holds loaded fs None x → holds p' = true → loaded p' = None →
  lock_inv holds loaded (<[id := p']> fs) (Some id) x.
Proof.
  intros [Hl Hv] Hh Hn.
  assert (∀ id' q, fs !! id' = Some q → holds q = false) as Hfree.
  { intros id' q Hq. destruct (holds q) eqn:E; [|done]. assert (None = Some id') by naive_solver. done. }
  split.
  - intros id'. setoid_rewrite lookup_insert_Some. split.
    + intros [= <-]. naive_solver.
    + intros (q & [[-> ->]|[Hne Hq]] & Hqh); [done|]. apply Hfree in Hq. congruence.
  - intros id' q y [[_ <-]|[_ Hq]]%lookup_insert_Some Hy; [congruence|by eapply Hv].
Qed.

Lemma lock_inv_release fs lock x x' id p p' :
  lock_inv holds loaded fs lock x → fs !! id = Some p → holds p = true → holds p' = false →
  lock_inv holds loaded (<[id := p']> fs) None x'.
Proof.
  intros [Hl Hv] Hp Hh Hh'.
  assert (lock = Some id) as -> by naive_solver.
  assert (∀ id' q, id' ≠ id → fs !! id' = Some q → holds q = false) as Hfree.
  { intros id' q Hne Hq. destruct (holds q) eqn:E; [|done]. assert (Some id = Some id') by naive_solver. congruence. }
  split.
  - intros id'. setoid_rewrite lookup_insert_Some. split; [done|].
    intros (q & [[-> ->]|[Hne Hq]] & Hqh); [congruence|]. apply Hfree in Hq; congruence.
  - intros id' q y [[_ <-]|[Hne Hq]]%lookup_insert_Some Hy; [apply loaded_held in Hy; congruence|].
    apply loaded_held in Hy. apply Hfree in Hq; congruence.
Qed.

(** The holder changes the value and keeps the guard. *)
Lemma lock_inv_store fs lock x x' id p p' :
  lock_inv holds loaded fs lock x → fs !! id = Some p → holds p = true → holds p' = true → loaded p' = None →
  holds Idle = false → lock_inv holds loaded (<[id := p']> fs) lock x'.
Proof.
  intros Hinv Hp Hh Hh' Hn Hi. assert (lock = Some id) as -> by (apply (proj1 Hinv); eauto).
  rewrite <- (insert_insert_eq fs id p' Idle). apply lock_inv_take; [|done..]. by eapply lock_inv_release.
Qed.

Lemma lock_inv_push fs lock x id :
  lock_inv holds loaded fs lock x → fs !! id = None → holds Idle = false →
  lock_inv holds loaded (<[id := Idle]> fs) lock x.
Proof.
  intros [Hl Hv] Hn Hi. split.
  - intros id'. rewrite Hl. setoid_rewrite lookup_insert_Some. split.
    + intros (q & Hq & Hqh). exists q. split; [right; split; [congruence|done]|done].
    + intros (q & [[-> <-]|[Hne Hq]] & Hqh); [congruence|naive_solver].
  - intros id' q y [[_ <-]|[_ Hq]]%lookup_insert_Some Hy; [apply loaded_held in Hy; congruence|by eapply Hv].
Qed.

Lemma lock_inv_pop fs lock x id p :
  lock_inv holds loaded fs lock x → fs !! id = Some p → holds p = false →
  lock_inv holds loaded (delete id fs) lock x.
Proof.
  intros [Hl Hv] Hp Hi. split.
  - intros id'. rewrite Hl. setoid_rewrite lookup_delete_Some. split; [|naive_solver].
    intros (q & Hq & Hqh). exists q. split; [|done]. split; [congruence|done].
  - intros id' q y [_ Hq]%lookup_delete_Some Hy. by eapply Hv.
Qed.

End Lock.

Lemma loaded_mapper_held p y : loaded_mapper p = Some y → holds_mapper p = true.
Proof. by destruct p. Qed.
Lemma loaded_falloc_held p y : loaded_falloc p = Some y → holds_falloc p = true.
Proof. by destruct p. Qed.

(** Frames belong to processors; the frame in [map_page!] is the running one, and
    interrupts are off. *)
Definition frames_ok (fs : gmap frame_id pc) (cpus : gmap nat Processor) : Prop :=
  ∀ i d p, fs !! (i, d) = Some p →
    ∃ c, cpus !! i = Some c ∧ (d <= c_depth c)%nat ∧ (in_map p = true → d = c_depth c ∧ c_irq c = false).

Lemma frames_ok_set fs cpus i c p c' :
  frames_ok fs cpus → cpus !! i = Some c → c_depth c' = c_depth c → (in_map p = true → c_irq c' = false) →
  frames_ok (<[(i, c_depth c) := p]> fs) (<[i := c']> cpus).
Proof.
  intros Hok Hc Hd Hp j d q [[[= <- <-] <-]|[Hne Hq]]%lookup_insert_Some.
  - exists c'. rewrite lookup_insert_eq, Hd. split_and!; [done|lia|intros Hi; auto].
  - destruct (Hok j d q Hq) as (cj & Hcj & Hle & Him). destruct (decide (i = j)) as [->|Hij].
    + simplify_eq. exists c'. rewrite lookup_insert_eq, Hd. split_and!; [done|lia|].
      intros [-> _]%Him. congruence.
    + exists cj. by rewrite lookup_insert_ne.
Qed.

Record conc_inv (k0 : KMem) (s : conc) : Prop := {
  ci_mapper : lock_inv holds_mapper loaded_mapper (cs_frames s) (cs_mlock s) (cs_mapper s);
  ci_falloc : lock_inv holds_falloc loaded_falloc (cs_frames s) (cs_flock s) (cs_falloc s);
  ci_frames : frames_ok (cs_frames s) (cs_cpus s);
  ci_hist : sequential (cs_hist s) k0 (with_mem k0 (cs_mapper s) (cs_falloc s));
}.

Lemma frames_ok_pc fs cpus i c p :
  frames_ok fs cpus → cpus !! i = Some c → (in_map p = true → c_irq c = false) →
  frames_ok (<[(i, c_depth c) := p]> fs) cpus.
Proof. intros Hok Hc Hp. rewrite <- (insert_id cpus i c Hc). by apply frames_ok_set. Qed.

Lemma frames_ok_halt fs cpus i c :
  frames_ok fs cpus → cpus !! i = Some c → frames_ok fs (<[i := irq_relax c]> cpus).
Proof.
  intros Hok Hc j d q Hq. destruct (Hok j d q Hq) as (cj & Hcj & Hle & Him).
  destruct (decide (i = j)) as [->|Hij]; [|exists cj; by rewrite lookup_insert_ne].
  simplify_eq. exists (irq_relax c). rewrite lookup_insert_eq. split_and!; [done|done|]. by intros [-> _]%Him.
Qed.

Lemma sequential_snoc hist k k' o a k'' :
  sequential hist k k' → atomic_op o k' = Ret (a, k'') → sequential (hist ++ [(o, a)]) k k''.
Proof.
  revert k. induction hist as [|[o' a'] hist IH]; intros k; cbn.
  - intros <- Ho. by exists k''.
  - intros (k1 & Ho' & Hs) Ho. exists k1. split; [done|]. by apply IH.
Qed.

Definition unlocked (k : KMem) : Prop := km_mapper_locked k = false ∧ km_falloc_locked k = false.

(** [map_page!] and [unmap_page!] are the atomic operations, up to what is left after a
    panic. *)
Lemma map_page_atomic k phys virt flags :
  map_page k phys virt flags =
  '(a, k) ← atomic_op (OMap phys virt flags) k;
  match a with APanic => Panic (PMsg "Out of memory") | _ => Ret k end.
Proof.
  unfold map_page, atomic_op, map_args.
  destruct (phys_addr_new phys) as [a| |]; cbn [mbind outcome_bind]; [|done..].
  destruct (virt_addr_new virt) as [v| |]; cbn [mbind outcome_bind]; [|done..].
  destruct (mapper_write k) as [m| |]; cbn [mbind outcome_bind]; [|done..].
  destruct (falloc_write k) as [fa| |]; cbn [mbind outcome_bind]; [|done..].
  destruct (map_to _ _ _ _ _) as [[[[] m'] fa']| |]; done.
Qed.
Lemma unmap_page_atomic k page :
  unmap_page k page =
  '(a, k) ← atomic_op (OUnmap page) k;
  match a with
  | APanic => Panic (PMsg "The address you attempted to unmap from doesn't exist")
  | _ => Ret k
  end.
Proof.
  unfold unmap_page, atomic_op. destruct (mapper_write k) as [m| |]; cbn [mbind outcome_bind]; [|done..].
  by destruct (unmap _ _) as [[[] m']| |].
Qed.

(** What a frame computes from the values it has loaded is what the operation does. *)
Lemma atomic_map k m fa phys virt flags r m' fa' :
  unlocked k → ('(f, page) ← map_args phys virt; map_to m page f flags fa) = Ret (r, m', fa') →
  atomic_op (OMap phys virt flags) (with_mem k m fa) = Ret (map_answer r, with_mem k m' fa').
Proof.
  intros [Hm Hf] Hb. cbn [atomic_op].
  destruct (map_args phys virt) as [[f page]| |]; cbn [mbind outcome_bind] in *; [|done..].
  unfold mapper_write, falloc_write. cbn. rewrite Hm, Hf. cbn. by rewrite Hb.
Qed.
Lemma atomic_unmap k m fa page r m' :
  unlocked k → unmap m page = Ret (r, m') →
  atomic_op (OUnmap page) (with_mem k m fa) = Ret (unmap_answer r, with_mem k m' fa).
Proof. intros [Hm Hf] Hb. cbn [atomic_op]. unfold mapper_write. cbn. rewrite Hm. cbn. by rewrite Hb. Qed.
Lemma atomic_alloc k m fa f fa' :
  unlocked k → allocate_frame fa = Ret (f, fa') →
  atomic_op OAlloc (with_mem k m fa) = Ret (AFrame f, with_mem k m fa').
Proof.
  intros [Hm Hf] Hb. cbn [atomic_op]. unfold falloc_write. cbn. rewrite Hf. cbn. by rewrite Hb.
Qed.

(** *** The invariant is kept *)

Section Preservation.
Context (k0 : KMem) (Hk0 : unlocked k0) (s : conc) (Hinv : conc_inv k0 s).
Context (i : nat) (c : Processor) (Hc : cs_cpus s !! i = Some c).

(** One frame moves: it keeps, takes or releases each of the locks. *)
Ltac lock_auto :=
  first
    [ eapply lock_inv_move; [eassumption|eassumption|reflexivity|by intros ? [=]]
    | eapply lock_inv_take; [eassumption|reflexivity|reflexivity]
    | eapply lock_inv_release;
        [first [apply loaded_mapper_held|apply loaded_falloc_held]|eassumption|eassumption|reflexivity|reflexivity]
    | eapply lock_inv_store;
        [first [apply loaded_mapper_held|apply loaded_falloc_held]|eassumption|eassumption|reflexivity..] ].
Ltac inv_auto :=
  split; cbn; [try lock_auto; done|try lock_auto; done|first [by apply frames_ok_set|by apply frames_ok_pc|done]|try done].

Lemma relax_inv : conc_inv k0 (set_cpu s i (irq_relax c)).
Proof. destruct Hinv. split; cbn; [done..| |done]. by apply frames_ok_halt. Qed.

Lemma call_inv o : cs_frames s !! (i, c_depth c) = Some Idle → conc_inv k0 (op_call i c o s).
Proof.
  intros Hp. destruct Hinv as [Hm Hf Hfr Hh]. destruct o as [phys virt flags|page|]; cbn.
  - destruct (map_args phys virt) as [r| |]; inv_auto.
  - inv_auto.
  - inv_auto.
Qed.

(** In [map_page!] interrupts are off. *)
Lemma in_map_irq p : cs_frames s !! (i, c_depth c) = Some p → in_map p = true → c_irq c = false.
Proof.
  intros Hp Hi. destruct (ci_frames _ _ Hinv _ _ _ Hp) as (c' & Hc' & _ & Him). simplify_eq. by apply Him.
Qed.

Lemma go_inv p s' :
  cs_frames s !! (i, c_depth c) = Some p → op_go i c p s = Some s' → conc_inv k0 s'.
Proof.
  intros Hp Hgo. pose proof (in_map_irq p Hp) as Hirq. pose proof relax_inv as Hrelax.
  destruct Hinv as [Hm Hf Hfr Hh].
  destruct p as [|phys virt flags b|phys virt flags b|phys virt flags b|phys virt flags b m fa|b r
                 |page|page|page m| | |fa|bm bf]; cbn in Hgo; simplify_eq.
  - destruct (cs_mlock s) eqn:El; cbn; [done|]. inv_auto.
  - destruct (cs_flock s) eqn:El; cbn; [done|]. inv_auto.
  - inv_auto.
  - pose proof (proj2 Hm _ _ _ Hp eq_refl) as ->. pose proof (proj2 Hf _ _ _ Hp eq_refl) as ->.
    destruct ('(f, page) ← map_args phys virt; map_to _ page f flags _) as [[[r m'] fa']| |] eqn:E; [|inv_auto..].
    pose proof (sequential_snoc _ _ _ _ _ _ Hh (atomic_map k0 _ _ _ _ _ r m' fa' Hk0 E)). inv_auto.
  - destruct (map_answer r); inv_auto.
  - destruct (cs_mlock s) eqn:El; cbn; [done|]. inv_auto.
  - inv_auto.
  - pose proof (proj2 Hm _ _ _ Hp eq_refl) as ->.
    destruct (unmap _ page) as [[r m']| |] eqn:E; [|inv_auto..].
    pose proof (sequential_snoc _ _ _ _ _ _ Hh (atomic_unmap k0 _ (cs_falloc s) page r m' Hk0 E)).
    destruct (unmap_answer r) eqn:Ea; inv_auto.
  - destruct (cs_flock s) eqn:El; cbn; [done|]. inv_auto.
  - inv_auto.
  - pose proof (proj2 Hf _ _ _ Hp eq_refl) as ->.
    destruct (allocate_frame _) as [[f fa']| |] eqn:E; [|inv_auto..].
    pose proof (sequential_snoc _ _ _ _ _ _ Hh (atomic_alloc k0 (cs_mapper s) _ f fa' Hk0 E)). inv_auto.
Qed.

End Preservation.

Lemma push_inv k0 s i c :
  conc_inv k0 s → cs_cpus s !! i = Some c → c_irq c = true →
  conc_inv k0 (set_cpu (set_pc s (i, S (c_depth c)) Idle) i (MkProcessor (S (c_depth c)) false false)).
Proof.
  intros [Hm Hf Hfr Hh] Hc Hi.
  assert (cs_frames s !! (i, S (c_depth c)) = None) as Hn.
  { destruct (cs_frames s !! _) eqn:E; [|done]. destruct (Hfr _ _ _ E) as (c' & Hc' & Hle & _). simplify_eq. lia. }
  split; cbn; [eauto using lock_inv_push, loaded_mapper_held, loaded_falloc_held..| |done].
  intros j d q [[[= <- <-] <-]|[Hne Hq]]%lookup_insert_Some.
  { eexists. rewrite lookup_insert_eq. by split_and!. }
  destruct (Hfr j d q Hq) as (cj & Hcj & Hle & Him). destruct (decide (i = j)) as [->|Hij].
  - simplify_eq. eexists. rewrite lookup_insert_eq. split_and!; [done|cbn; lia|]. intros [_ ?]%Him. congruence.
  - exists cj. by rewrite lookup_insert_ne.
Qed.

Lemma pop_inv k0 s i c d :
  conc_inv k0 s → cs_cpus s !! i = Some c → c_depth c = S d → cs_frames s !! (i, S d) = Some Idle →
  conc_inv k0 (set_cpu (MkConc (delete (i, S d) (cs_frames s)) (cs_cpus s) (cs_mapper s) (cs_falloc s)
    (cs_mlock s) (cs_flock s) (cs_hist s)) i (MkProcessor d true false)).
Proof.
  intros [Hm Hf Hfr Hh] Hc Hd Hp. split; cbn; [eauto using lock_inv_pop..| |done].
  intros j e q [Hne Hq]%lookup_delete_Some.
  destruct (Hfr j e q Hq) as (cj & Hcj & Hle & Him). destruct (decide (i = j)) as [->|Hij].
  - simplify_eq. eexists. rewrite lookup_insert_eq. cbn. rewrite Hd in Hle, Him.
    assert (e ≠ S d) by congruence. split_and!; [done|cbn; lia|]. by intros [? _]%Him.
  - exists cj. by rewrite lookup_insert_ne.
Qed.

Lemma mem_step_inv k0 i e s s' :
  unlocked k0 → conc_inv k0 s → mem_step i e s = Some s' → conc_inv k0 s'.
Proof.
  intros Hk Hinv Hs. unfold mem_step in Hs.
  destruct (cs_cpus s !! i) as [c|] eqn:Hc; [|done]. cbn in Hs.
  destruct (cs_frames s !! _) as [p|] eqn:Hp; [|done]. cbn in Hs.
  destruct (c_halted c); [done|]. destruct e as [o| | |].
  - destruct p; [|done..]. simplify_eq. by apply call_inv.
  - by eapply go_inv.
  - destruct (c_irq c) eqn:Hi; simplify_eq. by apply push_inv.
  - destruct p; [|done..]. destruct (c_depth c) as [|d] eqn:Hd; [done|]. simplify_eq. by eapply pop_inv.
Qed.

Lemma initial_inv k0 n m fa :
  ready k0 m fa → conc_inv k0 (mem_initial n m fa).
Proof.
  intros (Hm & _ & Hf & _).
  assert (∀ id p, cs_frames (mem_initial n m fa) !! id = Some p →
            p = Idle ∧ id.2 = 0%nat ∧ (id.1 < n)%nat) as Hidle.
  { intros id p Hp. apply elem_of_list_to_map_2, list_elem_of_fmap in Hp as (j & [= -> ->] & Hj%elem_of_seq).
    split_and!; [done..|cbn; lia]. }
  split.
  - split; [intros id|intros id p y Hp]; [split; [done|intros (p & Hp & Hh)]|]; apply Hidle in Hp as (-> & _); done.
  - split; [intros id|intros id p y Hp]; [split; [done|intros (p & Hp & Hh)]|]; apply Hidle in Hp as (-> & _); done.
  - intros j d p Hp. apply Hidle in Hp as (-> & Hd & Hj). cbn in Hd, Hj. subst d.
    exists (MkProcessor 0 true false). split_and!; [|done|done]. cbn.
    apply elem_of_list_to_map_1; [rewrite <- list_fmap_compose; apply NoDup_fmap_2; [by intros ?? [=]|apply NoDup_seq]|].
    apply list_elem_of_fmap. exists j. split; [done|]. apply elem_of_seq. lia.
  - cbn. destruct k0. cbn in *. by simplify_eq.
Qed.

Definition reachable (n : nat) (m : pt) (fa : KernelFrameAlloc) : conc → Prop := rtc mem_next (mem_initial n m fa).

Lemma reachable_inv k0 n m fa s : ready k0 m fa → reachable n m fa s → conc_inv k0 s.
Proof.
  intros Hr Hs. assert (unlocked k0) as Hu by (by destruct Hr as (_ & ? & _ & ?)).
  revert s Hs. apply rtc_ind_r; [by apply initial_inv|].
  intros s1 s2 _ (i & e & Hstep) IH. by eapply mem_step_inv.
Qed.

(** C4: on any number of processors, with interrupt handlers that map, unmap and allocate
    too, the operations are atomic: whatever has been completed, in whatever
    interleaving, left the page tables and the frame allocator as [map_page!],
    [unmap_page!] and [allocate_frame] called one after the other in that order would,
    with the same answers.  This holds across panics too: a processor that runs out of
    memory in [map_page!] has dropped its guards, and what it leaves behind is what the
    others go on with. *)
Theorem memory_operations_atomic k0 n m fa s :
  ready k0 m fa → reachable n m fa s →
  sequential (cs_hist s) k0 (with_mem k0 (cs_mapper s) (cs_falloc s)).
Proof. intros Hr Hs. by apply (reachable_inv k0 n m fa s Hr). Qed.

(** At most one frame of one processor holds [MAPPER] and at most one holds
    [FRAME_ALLOCATOR], and a frame inside [map_page!] is never interrupted: it is the one
    its processor runs, with interrupts off. *)
Theorem memory_locks_exclusive k0 n m fa s :
  ready k0 m fa → reachable n m fa s →
  (∀ id id' p p', cs_frames s !! id = Some p → cs_frames s !! id' = Some p' →
     (holds_mapper p = true → holds_mapper p' = true → id = id') ∧
     (holds_falloc p = true → holds_falloc p' = true → id = id')) ∧
  ∀ i d p c, cs_frames s !! (i, d) = Some p → cs_cpus s !! i = Some c → in_map p = true →
    d = c_depth c ∧ c_irq c = false.
Proof.
  intros Hr Hs. destruct (reachable_inv k0 n m fa s Hr Hs) as [[Hm _] [Hf _] Hfr _]. split.
  - intros id id' p p' Hp Hp'. split; intros Hh Hh'.
    + assert (cs_mlock s = Some id) by naive_solver. assert (cs_mlock s = Some id') by naive_solver. congruence.
    + assert (cs_flock s = Some id) by naive_solver. assert (cs_flock s = Some id') by naive_solver. congruence.
  - intros i d p c Hp Hc. destruct (Hfr i d p Hp) as (c' & Hc' & _ & Him). simplify_eq. done.
Qed.

(** *** Contention *)

Definition wants_mapper (p : pc) : bool :=
  match p with MapWait _ _ _ _ | UnmapWait _ => true | _ => false end.
Definition wants_falloc (p : pc) : bool :=
  match p with MapMapper _ _ _ _ | AllocWait => true | _ => false end.

(** A step is taken by a processor that is not halted, and is local to it. *)
Lemma mem_step_local j e s s' :
  mem_step j e s = Some s' →
  (∃ c, cs_cpus s !! j = Some c ∧ c_halted c = false) ∧
  ∀ i, i ≠ j → cs_cpus s' !! i = cs_cpus s !! i ∧ ∀ d, cs_frames s' !! (i, d) = cs_frames s !! (i, d).
Proof.
  unfold mem_step. destruct (cs_cpus s !! j) as [c|] eqn:Hc; [|done]. cbn.
  destruct (cs_frames s !! _) as [p|]; [|done]. cbn.
  destruct (c_halted c) eqn:Hh; [done|]. intros Hs. split; [by exists c|]. intros i Hij.
  destruct e as [o| | |].
  - destruct p; [|done..]. simplify_eq. unfold op_call. repeat case_match; simplify_map_eq; try done; split;
      try done; intros d; rewrite lookup_insert_ne; done || congruence.
  - unfold op_go, lock_or_relax in Hs. repeat case_match; simplify_eq; cbn; (split; [by rewrite ?lookup_insert_ne|]);
      intros d; rewrite ?lookup_insert_ne; done || congruence.
  - destruct (c_irq c); simplify_eq. cbn. split; [by rewrite lookup_insert_ne|].
    intros d. rewrite lookup_insert_ne; congruence.
  - destruct p; [|done..]. destruct (c_depth c) as [|d]; simplify_eq. cbn.
    split; [by rewrite lookup_insert_ne|]. intros d'. rewrite lookup_delete_ne; congruence.
Qed.

(** An operation is completed under the locks it needs. *)
Definition needs_mapper (o : mem_op) : bool := match o with OMap _ _ _ | OUnmap _ => true | OAlloc => false end.
Definition needs_falloc (o : mem_op) : bool := match o with OMap _ _ _ | OAlloc => true | OUnmap _ => false end.

Lemma mem_step_hist j e s s' :
  mem_step j e s = Some s' →
  ∃ l, cs_hist s' = cs_hist s ++ l ∧
    Forall (λ ev, ∃ d p, cs_frames s !! (j, d) = Some p ∧
      (needs_mapper ev.1 = true → holds_mapper p = true) ∧
      (needs_falloc ev.1 = true → holds_falloc p = true)) l.
Proof.
  unfold mem_step. destruct (cs_cpus s !! j) as [c|] eqn:Hc; [|done]. cbn.
  destruct (cs_frames s !! _) as [p|] eqn:Hp; [|done]. cbn. destruct (c_halted c); [done|].
  intros Hs. assert (cs_hist s' = cs_hist s → ∃ l, cs_hist s' = cs_hist s ++ l ∧
    Forall (λ ev, ∃ d p, cs_frames s !! (j, d) = Some p ∧
      (needs_mapper ev.1 = true → holds_mapper p = true) ∧
      (needs_falloc ev.1 = true → holds_falloc p = true)) l) as Hsame.
  { intros ->. exists []. by rewrite app_nil_r. }
  destruct e as [o| | |].
  - apply Hsame. destruct p; [|done..]. simplify_eq. unfold op_call. by repeat case_match.
  - unfold op_go, lock_or_relax in Hs. repeat case_match; simplify_eq; try by apply Hsame.
    all: eexists; (split; [done|]); apply Forall_singleton; by eexists _, _.
  - apply Hsame. by destruct (c_irq c); simplify_eq.
  - apply Hsame. destruct p; [|done..]. by destruct (c_depth c) as [|d]; simplify_eq.
Qed.

(** A halted processor stays as it is, and so do the locks it holds. *)
Lemma halted_forever k0 s s' i c :
  unlocked k0 → conc_inv k0 s → cs_cpus s !! i = Some c → c_halted c = true → rtc mem_next s s' →
  cs_cpus s' !! i = Some c ∧ (∀ d, cs_frames s' !! (i, d) = cs_frames s !! (i, d)) ∧
  ∃ l, cs_hist s' = cs_hist s ++ l ∧
    ∀ d q, cs_frames s !! (i, d) = Some q →
      Forall (λ ev, (holds_mapper q = true → needs_mapper ev.1 = false) ∧
                    (holds_falloc q = true → needs_falloc ev.1 = false)) l.
Proof.
  intros Hk Hinv Hc Hh Hs.
  assert (conc_inv k0 s' ∧ cs_cpus s' !! i = Some c ∧ (∀ d, cs_frames s' !! (i, d) = cs_frames s !! (i, d)) ∧
    ∃ l, cs_hist s' = cs_hist s ++ l ∧ ∀ d q, cs_frames s !! (i, d) = Some q →
      Forall (λ ev, (holds_mapper q = true → needs_mapper ev.1 = false) ∧
                    (holds_falloc q = true → needs_falloc ev.1 = false)) l) as [_ ?]; [|done].
  revert s' Hs. apply rtc_ind_r.
  { split_and!; [done..|]. exists []. by rewrite app_nil_r. }
  intros s1 s2 _ (j & e & Hstep) (Hinv1 & Hc1 & Hf1 & l & Hl & Hq).
  destruct (mem_step_local _ _ _ _ Hstep) as [(cj & Hcj & Hnh) Hloc].
  assert (i ≠ j) as Hij by congruence. destruct (Hloc i Hij) as [Hc2 Hf2].
  destruct (mem_step_hist _ _ _ _ Hstep) as (l1 & Hl1 & Hfa).
  split_and!; [by eapply mem_step_inv|congruence|intros d; rewrite Hf2; apply Hf1|].
  exists (l ++ l1). rewrite Hl1, Hl, app_assoc. split; [done|]. intros d q Hdq.
  apply Forall_app. split; [by eapply Hq|]. eapply Forall_impl; [exact Hfa|].
  intros ev (d' & p & Hp & Hnm & Hnf). rewrite <- Hf1 in Hdq. destruct Hinv1 as [[Hm _] [Hf _] _ _]. split.
  - intros Hhm. destruct (needs_mapper ev.1) eqn:E; [|done].
    assert (cs_mlock s1 = Some (i, d)) by naive_solver. assert (cs_mlock s1 = Some (j, d')) by naive_solver. congruence.
  - intros Hhf. destruct (needs_falloc ev.1) eqn:E; [|done].
    assert (cs_flock s1 = Some (i, d)) by naive_solver. assert (cs_flock s1 = Some (j, d')) by naive_solver. congruence.
Qed.

(** C14: asking for a lock that is taken is the end of the processor, however soon the lock
    is released: it halts with interrupts off and none of its frames ever moves again.
    If one of them holds [MAPPER], no page is mapped or unmapped on any processor from
    then on; if one holds [FRAME_ALLOCATOR], none is mapped and no frame allocated. *)
Theorem lock_contention_fatal k0 n m fa s i c p :
  ready k0 m fa → reachable n m fa s →
  cs_cpus s !! i = Some c → c_halted c = false →
  cs_frames s !! (i, c_depth c) = Some p →
  wants_mapper p = true ∧ is_Some (cs_mlock s) ∨ wants_falloc p = true ∧ is_Some (cs_flock s) →
  ∃ s1, mem_step i Go s = Some s1 ∧ ∀ s', rtc mem_next s1 s' →
    cs_cpus s' !! i = Some (irq_relax c) ∧ (∀ d, cs_frames s' !! (i, d) = cs_frames s !! (i, d)) ∧
    ∃ l, cs_hist s' = cs_hist s ++ l ∧
      ∀ d q, cs_frames s !! (i, d) = Some q →
        Forall (λ ev, (holds_mapper q = true → needs_mapper ev.1 = false) ∧
                      (holds_falloc q = true → needs_falloc ev.1 = false)) l.
Proof.
  intros Hr Hs Hc Hnh Hp Hw. pose proof (reachable_inv k0 n m fa s Hr Hs) as Hinv.
  assert (unlocked k0) as Hu by (by destruct Hr as (_ & ? & _ & ?)).
  exists (set_cpu s i (irq_relax c)). split.
  { unfold mem_step. rewrite Hc. cbn. rewrite Hp. cbn. rewrite Hnh.
    destruct Hw as [[Hw [id Hl]]|[Hw [id Hl]]]; destruct p; try done; cbn; by rewrite Hl. }
  intros s' Hs'. assert (conc_inv k0 (set_cpu s i (irq_relax c))) as Hinv1 by (by apply relax_inv).
  eapply (halted_forever k0 (set_cpu s i (irq_relax c)) s' i (irq_relax c)); [done..| |done|done].
  cbn. apply lookup_insert_eq.
Qed.

End Theory.

(** ** Concrete runs *)

Definition small_map : list MemoryRegion := [Region 0x1000 0x4000 true].
Definition kmem_small : KMem := MkKMem (Some ∅) false (Some (falloc_new small_map)) false None (Some 0).
Lemma kmem_small_ready : ready kmem_small ∅ (falloc_new small_map).
Proof. done. Qed.

(** A frame is allocated while a page is being mapped. *)
Definition run_overlap : list (nat * event) :=
  [(0%nat, Call OAlloc); (1%nat, Call (OMap 0x5000 0x9000 3)); (1%nat, Go); (0%nat, Go); (0%nat, Go); (0%nat, Go);
   (1%nat, Go); (1%nat, Go); (1%nat, Go); (1%nat, Go)].
Definition run_map : list (nat * event) := [(0%nat, Call (OMap 0x5000 0x9000 3)); (0%nat, Go)].
(** One processor unmaps a page while another starts to map one: the second is lost,
    though the first finishes. *)
Definition run_two_cpus : list (nat * event) :=
  [(0%nat, Call (OUnmap 0x8000)); (0%nat, Go); (1%nat, Call (OMap 0x5000 0x9000 3)); (1%nat, Go);
   (0%nat, Go); (0%nat, Go)].
(** One processor alone: an interrupt inside [unmap_page!], whose handler maps a page. *)
Definition run_interrupted : list (nat * event) :=
  [(0%nat, Call (OUnmap 0x8000)); (0%nat, Go); (0%nat, Interrupt); (0%nat, Call (OMap 0x5000 0x9000 3))].

Lemma run_labels_rtc `{X86Paging} `{PageMapper} ls s s' : run_labels ls s = Some s' → rtc mem_next s s'.
Proof.
  revert s. induction ls as [|[i e] ls IH]; intros s; cbn; [intros [= ->]; constructor|].
  destruct (mem_step i e s) as [s1|] eqn:E; [|done]. intros Hs. eapply rtc_l; [by exists i, e|]. by apply IH.
Qed.

(** The state of two processors after a run. *)
Definition after_on (M : PageMapper) (m : pt) (ls : list (nat * event)) : conc :=
  let s := mem_initial 2 m (falloc_new small_map) in default s (run_labels ls s).
Definition after : list (nat * event) → conc := after_on page_mapper_model ∅.
Lemma after_reachable (M : PageMapper) (m : pt) ls :
  (if run_labels ls (mem_initial 2 m (falloc_new small_map)) then true else false) = true →
  reachable 2 m (falloc_new small_map) (after_on M m ls).
Proof.
  unfold after_on. cbv zeta. destruct (run_labels ls _) as [s|] eqn:E; [|done]. intros _. cbn [default].
  by eapply run_labels_rtc.
Qed.

(** Page tables that need a frame of their own for every mapping. *)
Definition hungry_mapper : PageMapper := {|
  pt := gmap Z (Z * Z);
  translate m p := m !! p;
  huge _ _ := false;
  map_to m p f fl fa :=
    match m !! p with
    | Some (f0, _) => Ret (PageAlreadyMapped f0, m, fa)
    | None =>
        '(table, fa) ← allocate_frame fa;
        Ret (match table with Some _ => (MapOk, <[p := (f, fl)]> m, fa) | None => (FrameAllocationFailed, m, fa) end)
    end;
  unmap m p :=
    match m !! p with
    | Some (f, _) => Ret (UnmapOk f, delete p m)
    | None => Ret (UnmapPageNotMapped, m)
    end;
  PRESENT := 1; WRITABLE := 2; USER_ACCESSIBLE := 4; WRITE_THROUGH := 8;
  NO_CACHE := 16; GLOBAL := 256; NO_EXECUTE := 0x8000000000000000;
|}.
Definition hungry_empty : @pt hungry_mapper := (∅ : gmap Z (Z * Z)).
Definition kmem_hungry : @KMem hungry_mapper :=
  @MkKMem hungry_mapper (Some hungry_empty) false (Some (falloc_new small_map)) false None (Some 0).

(** The first processor takes the three frames there are and panics in [map_page!], the
    second one goes on. *)
Definition run_out_of_memory : list (nat * event) :=
  mjoin (replicate 3 ((0%nat, Call OAlloc) :: replicate 3 (0%nat, Go))) ++
  (0%nat, Call (OMap 0x5000 0x9000 3)) :: replicate 5 (0%nat, Go) ++
  (1%nat, Call OAlloc) :: replicate 3 (1%nat, Go) ++ (1%nat, Call (OUnmap 0x9000)) :: replicate 3 (1%nat, Go).

Lemma memory_operations_atomic_witness :
  (cs_hist (after run_overlap) = [(OAlloc, AFrame (Some 0x1000)); (OMap 0x5000 0x9000 3, AUnit)] ∧
   sequential (cs_hist (after run_overlap)) kmem_small
     (with_mem kmem_small (cs_mapper (after run_overlap)) (cs_falloc (after run_overlap)))) ∧
  let s := after_on hungry_mapper hungry_empty run_out_of_memory in
  cs_hist s = [(OAlloc, AFrame (Some 0x1000)); (OAlloc, AFrame (Some 0x2000)); (OAlloc, AFrame (Some 0x3000));
               (OMap 0x5000 0x9000 3, APanic); (OAlloc, AFrame None); (OUnmap 0x9000, AUnit)] ∧
  cs_frames s !! (0%nat, 0%nat) = Some (Looping false false) ∧
  sequential (cs_hist s) kmem_hungry (with_mem kmem_hungry (cs_mapper s) (cs_falloc s)).
Proof.
  split; [split; [vm_refl|]|split_and!; [vm_refl|vm_refl|]].
  - apply (memory_operations_atomic kmem_small 2 ∅ (falloc_new small_map)); [exact kmem_small_ready|].
    apply after_reachable. vm_refl.
  - apply (memory_operations_atomic kmem_hungry 2 hungry_empty (falloc_new small_map)); [done|].
    apply after_reachable. vm_refl.
Defined.

Lemma memory_locks_exclusive_witness :
  ∃ c, cs_cpus (after run_map) !! 0%nat = Some c ∧ c_irq c = false.
Proof.
  exists (MkProcessor 0 false false). split; [vm_refl|].
  apply (λ Hr, proj2 (memory_locks_exclusive kmem_small 2 ∅ (falloc_new small_map) (after run_map) kmem_small_ready Hr)
    0%nat 0%nat (MapMapper 0x5000 0x9000 3 true)); [apply after_reachable; vm_refl|vm_refl..].
Defined.

(** After the interrupted [unmap_page!], nothing is ever completed that needs [MAPPER]. *)
Lemma lock_contention_fatal_witness :
  ∃ s1, mem_step 0 Go (after run_interrupted) = Some s1 ∧
    ∀ s', rtc mem_next s1 s' → Forall (λ ev, needs_mapper ev.1 = false) (cs_hist s').
Proof.
  destruct (lock_contention_fatal kmem_small 2 ∅ (falloc_new small_map) (after run_interrupted) 0%nat
    (MkProcessor 1 false false) (MapWait 0x5000 0x9000 3 false)) as (s1 & Hs1 & Hend);
    [exact kmem_small_ready|apply after_reachable; vm_refl|vm_refl|reflexivity|vm_refl
    |left; split; [reflexivity|exists (0%nat, 0%nat); vm_refl]|].
  exists s1. split; [exact Hs1|]. intros s' Hs'. destruct (Hend s' Hs') as (_ & _ & l & Hl & Hq).
  assert (cs_hist (after run_interrupted) = []) as E by vm_refl.
  rewrite E in Hl. cbn [app] in Hl. rewrite Hl.
  assert (cs_frames (after run_interrupted) !! (0%nat, 0%nat) = Some (UnmapHeld 0x8000)) as Ef by vm_refl.
  eapply Forall_impl; [exact (Hq 0%nat _ Ef)|]. intros ev [Hm _]. by apply Hm.
Defined.

(** Two processors: the first finishes and releases the lock, the second stays halted. *)
Lemma two_cpus_lost :
  cs_mlock (after run_two_cpus) = None ∧ cs_hist (after run_two_cpus) = [(OUnmap 0x8000, AUnit)] ∧
  cs_cpus (after run_two_cpus) !! 1%nat = Some (MkProcessor 0 false true).
Proof. split_and!; vm_refl. Qed.
