(* ===== verification/SchemeConc.v ===== *)
(** * The ACPI scheme called from several threads, src/scheme/acpi.rs

    The calls of AcpiScheme under the read-write lock [HANDLES]: [open] takes a number from
    the counter [NEXT] before it has the lock, [fstat] and [fevent] share the lock, [close],
    [seek] and [read] have it alone, and [write] and a refused [open] do not take it.  Inside
    a guard the table is loaded in one step and stored back in a later one.  A step is a
    function of the thread that takes it; a thread that waits for the lock, or for the flag
    of the shutdown pipe, has no step, and neither has one that panicked: it keeps its
    guard while the others go on.  A [read] carries what its thread's stack holds. *)

From stdpp Require Import relations.
From S2P Require Import Prelude AcpiScheme.

Local Open Scope Z_scope.

Inductive scheme_call : Type :=
  | COpen (path : string) (flags uid : Z)
  | CFstat (id : Z)
  | CClose (id : Z)
  | CWrite (id : Z) (buf : list Z)
  | CSeek (id pos whence : Z)
  | CFevent (id : Z)
  | CRead (id : Z) (buf : list Z) (stack : nat → Z).

Inductive reply : Type :=
  | RInt (r : result Z)
  | RStat (r : result Stat)
  | RRead (r : result Z) (buf : list Z).

(** Where a thread is in its call.  In an [open] under way, the number it has got. *)
Inductive thread : Type :=
  | TIdle
  | TCall (c : scheme_call)
  | TOpen (c : scheme_call) (fd : Z) (h : Handle)
  | TRead (c : scheme_call)
  | TReadLoaded (c : scheme_call) (hs : gmap Z Handle)
  | TWrite (c : scheme_call) (new : option (Z * Handle))
  | TWriteLoaded (c : scheme_call) (new : option (Z * Handle)) (hs : gmap Z Handle).

Record sconc : Type := MkSconc {
  sn_threads : gmap nat thread;
  sn_scheme : SchemeState;
  sn_writer : option nat;
  sn_readers : gset nat;
  sn_hist : list (scheme_call * reply);   (* calls completed, in order *)
  sn_opens : nat;                         (* numbers taken from [NEXT] *)
}.

Section Machine.
Context `{SchemeAbi}.

(** [open] up to the counter: the refusals, or the handle to insert. *)
Definition open_check (path : string) (flags uid : Z) : result Handle :=
  let path := trim_start_slash path in
  if negb (uid =? 0) then inl EACCES
  else if flag flags O_CREAT then inl EROFS
  else if flag flags O_EXCL || flag flags O_SYMLINK then inl EINVAL
  else if negb (Z.land flags O_ACCMODE =? O_RDONLY) && negb (flag flags O_STAT) then inl EROFS
  else match open_kind path flags with
       | inl e => inl e
       | inr kind => inr (MkHandle 0 kind (flag flags O_STAT))
       end.

(** The calls that need no lock, the shared and the exclusive ones. *)
Definition lock_free (c : scheme_call) : bool :=
  match c with
  | CWrite _ _ => true
  | COpen path flags uid => match open_check path flags uid with inl _ => true | inr _ => false end
  | _ => false
  end.
Definition shared (c : scheme_call) : bool := match c with CFstat _ | CFevent _ => true | _ => false end.

(** The body of a call on the scheme's state, under its lock. *)
Definition call_body (c : scheme_call) (new : option (Z * Handle)) (s : SchemeState)
    : outcome (reply * SchemeState) :=
  match c, new with
  | COpen _ _ _, Some (fd, h) => Ret (RInt (inr fd), set_handle s fd h)
  | COpen path flags uid, None => let '(r, s) := open path flags uid s in Ret (RInt r, s)
  | CFstat id, _ => Ret (RStat (fstat id s), s)
  | CClose id, _ => let '(r, s) := close id s in Ret (RInt r, s)
  | CWrite id buf, _ => Ret (RInt (write id buf), s)
  | CSeek id pos whence, _ => '(r, s) ← seek id pos whence s; Ret (RInt r, s)
  | CFevent id, _ => Ret (RInt (fevent id s), s)
  | CRead id buf stack, _ => '(r, buf, s) ← read id buf stack s; Ret (RRead r buf, s)
  end.

Definition set_thread (s : sconc) (t : nat) (x : thread) : sconc :=
  MkSconc (<[t := x]> (sn_threads s)) (sn_scheme s) (sn_writer s) (sn_readers s) (sn_hist s) (sn_opens s).
Definition set_locks (s : sconc) (w : option nat) (r : gset nat) : sconc :=
  MkSconc (sn_threads s) (sn_scheme s) w r (sn_hist s) (sn_opens s).
Definition commit (s : sconc) (sch : SchemeState) (e : scheme_call * reply) : sconc :=
  MkSconc (sn_threads s) sch (sn_writer s) (sn_readers s) (sn_hist s ++ [e]) (sn_opens s).
Definition fetch_next (s : sconc) : sconc :=
  let sch := sn_scheme s in
  MkSconc (sn_threads s)
    (MkScheme (sc_HANDLES sch) (wrap 64 (sc_NEXT sch + 1)) (sc_DATA sch) (sc_WAIT_FLAG sch) (sc_SCHID sch))
    (sn_writer s) (sn_readers s) (sn_hist s) (S (sn_opens s)).

(** [HANDLES.write()] and [HANDLES.read()]. *)
Definition handles_write (t : nat) (x : thread) (s : sconc) : option sconc :=
  match sn_writer s with
  | None => if decide (sn_readers s = ∅) then Some (set_locks (set_thread s t x) (Some t) (sn_readers s)) else None
  | Some _ => None
  end.
Definition handles_read (t : nat) (x : thread) (s : sconc) : option sconc :=
  match sn_writer s with
  | None => Some (set_locks (set_thread s t x) None ({[t]} ∪ sn_readers s))
  | Some _ => None
  end.

(** The thread's next step; [TIdle] calls what it is given. *)
Definition scheme_step (t : nat) (next : scheme_call) (s : sconc) : option sconc :=
  x ← sn_threads s !! t;
  match x with
  | TIdle => Some (set_thread s t (TCall next))
  | TCall (COpen path flags uid as c) =>
      match open_check path flags uid with
      | inl e => Some (set_thread (commit s (sn_scheme s) (c, RInt (inl e))) t TIdle)
      | inr h => Some (set_thread (fetch_next s) t (TOpen c (sc_NEXT (sn_scheme s)) h))
      end
  | TCall (CWrite id buf as c) =>
      Some (set_thread (commit s (sn_scheme s) (c, RInt (write id buf))) t TIdle)
  | TCall c => if shared c then handles_read t (TRead c) s else handles_write t (TWrite c None) s
  | TOpen c fd h => handles_write t (TWrite c (Some (fd, h))) s
  | TRead c => Some (set_thread s t (TReadLoaded c (sc_HANDLES (sn_scheme s))))
  | TReadLoaded c hs =>
      match call_body c None (with_handles (sn_scheme s) hs) with
      | Ret (r, _) =>
          Some (set_thread (set_locks (commit s (sn_scheme s) (c, r)) (sn_writer s) (sn_readers s ∖ {[t]})) t TIdle)
      | Panic _ | Hang => None
      end
  | TWrite c new => Some (set_thread s t (TWriteLoaded c new (sc_HANDLES (sn_scheme s))))
  | TWriteLoaded c new hs =>
      match call_body c new (with_handles (sn_scheme s) hs) with
      | Ret (r, sch) => Some (set_thread (set_locks (commit s sch (c, r)) None (sn_readers s)) t TIdle)
      | Panic _ | Hang => None
      end
  end.

Definition scheme_next (s s' : sconc) : Prop := ∃ t c, scheme_step t c s = Some s'.

(** [n] threads, no handle open. *)
Definition scheme_initial (n : nat) (data wait : bool) : sconc :=
  MkSconc (list_to_map ((λ t, (t, TIdle)) <$> seq 0 n)) (MkScheme ∅ 0 data wait 0) None ∅ [] 0.

(** ** The specification: a table of handles whose calls happen at once

    [open] returns some number that was never returned before. *)
Definition spec_call (e : scheme_call * reply) (s : SchemeState) (issued : gset Z)
    (s' : SchemeState) (issued' : gset Z) : Prop :=
  match e.1 with
  | COpen path flags uid =>
      match open_check path flags uid with
      | inl err => e.2 = RInt (inl err) ∧ s' = s ∧ issued' = issued
      | inr h => ∃ fd, e.2 = RInt (inr fd) ∧ 0 <= fd < 2 ^ 64 ∧ fd ∉ issued ∧
          s' = set_handle s fd h ∧ issued' = {[fd]} ∪ issued
      end
  | c => call_body c None s = Ret (e.2, s') ∧ issued' = issued
  end.

Fixpoint spec_run (hist : list (scheme_call * reply)) (s : SchemeState) (issued : gset Z)
    (s' : SchemeState) (issued' : gset Z) : Prop :=
  match hist with
  | [] => s' = s ∧ issued' = issued
  | e :: hist => ∃ s1 i1, spec_call e s issued s1 i1 ∧ spec_run hist s1 i1 s' issued'
  end.

End Machine.

Section Theory.
Context `{SchemeAbi}.

(** [open] is the check, the counter and the insertion. *)
Lemma open_split path flags uid s :
  open path flags uid s =
  match open_check path flags uid with
  | inl e => (inl e, s)
  | inr h => (inr (sc_NEXT s), opened s (h_kind h) (h_stat h))
  end.
Proof. unfold open, open_check, opened, set_handle, with_handles. by repeat case_match. Qed.

(** The calls under the lock do not look at the counter. *)
Definition forget (s : SchemeState) : SchemeState :=
  MkScheme (sc_HANDLES s) 0 (sc_DATA s) (sc_WAIT_FLAG s) (sc_SCHID s).
Definition exclusive (c : scheme_call) : bool :=
  match c with CClose _ | CSeek _ _ _ | CRead _ _ _ => true | _ => false end.

Lemma body_forget c s r s' :
  exclusive c = true ∨ shared c = true → call_body c None s = Ret (r, s') → call_body c None (forget s) = Ret (r, forget s').
Proof.
  intros Hc. destruct c as [| | | |id pos whence| |id buf stack]; cbn; try by (destruct Hc; done).
  - by intros [= <- <-].
  - unfold close. cbn. by destruct (sc_HANDLES s !! id); intros [= <- <-].
  - unfold seek, acpi_len. cbn. destruct (sc_HANDLES s !! id) as [h|]; cbn; [|by intros [= <- <-]].
    destruct (h_stat h); cbn; [by intros [= <- <-]|].
    destruct (h_kind h), (sc_DATA s); cbn; try done; destruct (seek_offset _ _ _ _) as [[e|o]| |]; cbn; try done;
      by intros [= <- <-].
  - by intros [= <- <-].
  - unfold read, read_data. cbn. destruct (sc_HANDLES s !! id) as [h|]; cbn; [|by intros [= <- <-]].
    destruct (h_kind h), (sc_DATA s), buf, (sc_WAIT_FLAG s); cbn; try case_match; cbn; try done;
      try destruct (uadd _ _ _); cbn; try done; by intros [= <- <-].
Qed.

(** A call only changes the table. *)
Lemma body_frame c new s r s' :
  (new = None → exclusive c = true ∨ shared c = true) → call_body c new s = Ret (r, s') →
  sc_NEXT s' = sc_NEXT s ∧ (shared c = true → s' = s).
Proof.
  intros Hn. destruct c as [p f u| | | |id pos whence| |id buf stack]; cbn.
  - destruct new as [[fd h]|]; [by intros [= <- <-]|]. destruct Hn; done.
  - by intros [= <- <-].
  - unfold close. cbn. by destruct (sc_HANDLES s !! id); intros [= <- <-].
  - by intros [= <- <-].
  - unfold seek. cbn. destruct (sc_HANDLES s !! id) as [h|]; cbn; [|by intros [= <- <-]].
    destruct (h_stat h); cbn; [by intros [= <- <-]|].
    destruct (match h_kind h with TopLevel => _ | RootTable => _ | ShutdownPipe => _ end); cbn; try done.
    destruct (seek_offset _ _ _ _) as [[e|o]| |]; cbn; try done; by intros [= <- <-].
  - by intros [= <- <-].
  - unfold read, read_data. cbn. destruct (sc_HANDLES s !! id) as [h|]; cbn; [|by intros [= <- <-]].
    destruct (h_kind h), (sc_DATA s), buf; cbn; repeat case_match; cbn; try done;
      try destruct (uadd _ _ _); cbn; try done; by intros; simplify_eq.
Qed.

(** *** Threads, locks and numbers *)

Definition is_writer (x : thread) : bool := match x with TWrite _ _ | TWriteLoaded _ _ _ => true | _ => false end.
Definition is_reader (x : thread) : bool := match x with TRead _ | TReadLoaded _ _ => true | _ => false end.
Definition loaded (x : thread) : option (gmap Z Handle) :=
  match x with TReadLoaded _ hs | TWriteLoaded _ _ hs => Some hs | _ => None end.
(** The number of an [open] under way. *)
Definition pending (x : thread) : option Z :=
  match x with
  | TOpen _ fd _ | TWrite _ (Some (fd, _)) | TWriteLoaded _ (Some (fd, _)) _ => Some fd
  | _ => None
  end.

(** A thread in the middle of a call is in one that goes that way. *)
Definition call_ok (x : thread) : Prop :=
  match x with
  | TOpen c _ h | TWrite c (Some (_, h)) | TWriteLoaded c (Some (_, h)) _ =>
      ∃ p f u, c = COpen p f u ∧ open_check p f u = inr h
  | TWrite c None | TWriteLoaded c None _ => exclusive c = true
  | TRead c | TReadLoaded c _ => shared c = true
  | TIdle | TCall _ => True
  end.

(** The lock names its holders; what a thread has loaded is still there; the numbers handed
    out and those of the opens under way are all different. *)
Definition locks_inv (th : gmap nat thread) (w : option nat) (r : gset nat) : Prop :=
  (∀ t, w = Some t ↔ ∃ x, th !! t = Some x ∧ is_writer x = true) ∧
  (∀ t, t ∈ r ↔ ∃ x, th !! t = Some x ∧ is_reader x = true) ∧
  (is_Some w → r = ∅).
Definition loaded_inv (th : gmap nat thread) (hs : gmap Z Handle) : Prop :=
  ∀ t x hs', th !! t = Some x → loaded x = Some hs' → hs' = hs.
Definition numbers_inv (th : gmap nat thread) (opens : nat) (issued : gset Z) : Prop :=
  (∀ fd, fd ∈ issued → 0 <= fd < Z.of_nat opens) ∧
  (∀ t x fd, th !! t = Some x → pending x = Some fd → 0 <= fd < Z.of_nat opens ∧ fd ∉ issued) ∧
  (∀ t t' x x' fd, th !! t = Some x → th !! t' = Some x' → pending x = Some fd → pending x' = Some fd → t = t').

Record sconc_inv (s0 : SchemeState) (s : sconc) : Prop := {
  si_locks : locks_inv (sn_threads s) (sn_writer s) (sn_readers s);
  si_loaded : loaded_inv (sn_threads s) (sc_HANDLES (sn_scheme s));
  si_calls : map_Forall (λ _, call_ok) (sn_threads s);
  si_next : sc_NEXT (sn_scheme s) = Z.of_nat (sn_opens s);
  si_spec : ∃ issued, spec_run (sn_hist s) s0 ∅ (forget (sn_scheme s)) issued ∧
    numbers_inv (sn_threads s) (sn_opens s) issued;
}.

Lemma locks_keep th w r t x x' :
  locks_inv th w r → th !! t = Some x → is_writer x' = is_writer x → is_reader x' = is_reader x →
  locks_inv (<[t := x']> th) w r.
Proof.
  intros (Hw & Hr & He) Hx Ew Er. split_and!; [intros t'; rewrite Hw|intros t'; rewrite Hr|done];
    setoid_rewrite lookup_insert_Some; split.
  - intros (y & Hy & ?). destruct (decide (t = t')) as [->|]; [|naive_solver]. simplify_eq. exists x'. naive_solver.
  - intros (y & [[-> ->]|[? Hy]] & ?); [exists x; naive_solver|naive_solver].
  - intros (y & Hy & ?). destruct (decide (t = t')) as [->|]; [|naive_solver]. simplify_eq. exists x'. naive_solver.
  - intros (y & [[-> ->]|[? Hy]] & ?); [exists x; naive_solver|naive_solver].
Qed.

Lemma locks_write th r t x' :
  locks_inv th None r → r = ∅ → is_writer x' = true → is_reader x' = false → locks_inv (<[t := x']> th) (Some t) r.
Proof.
  intros (Hw & Hr & _) -> Ew Er.
  assert (∀ t' y, th !! t' = Some y → is_writer y = false ∧ is_reader y = false) as Hno.
  { intros t' y Hy. split.
    - destruct (is_writer y) eqn:E; [|done]. assert (None = Some t') by naive_solver. done.
    - destruct (is_reader y) eqn:E; [|done]. assert (t' ∈ (∅ : gset nat)) by (apply Hr; eauto). set_solver. }
  split_and!; [intros t'|intros t'|done]; setoid_rewrite lookup_insert_Some; split.
  - intros [= <-]. naive_solver.
  - intros (y & [[-> ->]|[? Hy]] & ?); [done|]. apply Hno in Hy as [? _]. congruence.
  - set_solver.
  - intros (y & [[-> ->]|[? Hy]] & ?); [congruence|]. apply Hno in Hy as [_ ?]. congruence.
Qed.

Lemma locks_read th r t x x' :
  locks_inv th None r → th !! t = Some x → is_writer x = false → is_writer x' = false → is_reader x' = true →
  locks_inv (<[t := x']> th) None ({[t]} ∪ r).
Proof.
  intros (Hw & Hr & _) Hx Ex Ew Er. split_and!; [intros t'; rewrite Hw|intros t'|by intros [??]];
    setoid_rewrite lookup_insert_Some; split.
  - intros (y & Hy & ?). exists y. split; [|done]. right. split; [congruence|done].
  - intros (y & [[-> ->]|[? Hy]] & ?); [congruence|naive_solver].
  - intros [->%elem_of_singleton|(y & Hy & ?)%Hr]%elem_of_union; [naive_solver|].
    destruct (decide (t = t')) as [->|]; naive_solver.
  - intros (y & [[-> ->]|[? Hy]] & ?); [set_solver|]. apply elem_of_union_r, Hr. eauto.
Qed.

Lemma locks_unwrite th w r t x x' :
  locks_inv th w r → th !! t = Some x → is_writer x = true → is_writer x' = false → is_reader x' = false →
  locks_inv (<[t := x']> th) None r.
Proof.
  intros (Hw & Hr & He) Hx Ex Ew Er. assert (w = Some t) as -> by (apply Hw; eauto).
  assert (r = ∅) as -> by (by apply He).
  split_and!; [intros t'|intros t'|by intros [??]]; setoid_rewrite lookup_insert_Some; split.
  - done.
  - intros (y & [[-> ->]|[? Hy]] & ?); [congruence|]. assert (Some t = Some t') by (apply Hw; eauto). congruence.
  - set_solver.
  - intros (y & [[-> ->]|[? Hy]] & ?); [congruence|]. apply Hr. eauto.
Qed.

Lemma locks_unread th w r t x x' :
  locks_inv th w r → th !! t = Some x → is_reader x = true → is_writer x = false →
  is_writer x' = false → is_reader x' = false →
  locks_inv (<[t := x']> th) w (r ∖ {[t]}).
Proof.
  intros (Hw & Hr & He) Hx Ex Exw Ew Er.
  split_and!; [intros t'; rewrite Hw|intros t'; rewrite elem_of_difference, Hr, elem_of_singleton|];
    [setoid_rewrite lookup_insert_Some; split..|intros ->%He; set_solver].
  - intros (y & Hy & ?). exists y. split; [|done]. right. split; [congruence|done].
  - intros (y & [[-> ->]|[? Hy]] & ?); [congruence|naive_solver].
  - naive_solver.
  - intros (y & [[-> ->]|[? Hy]] & ?); [congruence|]. naive_solver.
Qed.

Lemma spec_run_snoc hist s i s1 i1 e s2 i2 :
  spec_run hist s i s1 i1 → spec_call e s1 i1 s2 i2 → spec_run (hist ++ [e]) s i s2 i2.
Proof.
  revert s i. induction hist as [|e' hist IH]; intros s i; cbn.
  - intros [-> ->] He. by exists s2, i2.
  - intros (s' & i' & Hc & Hr) He. exists s', i'. split; [done|]. by apply IH.
Qed.

Lemma handles_eta s : with_handles s (sc_HANDLES s) = s.
Proof. by destruct s. Qed.

Lemma loaded_keep th hs t x' :
  loaded_inv th hs → (∀ hs', loaded x' = Some hs' → hs' = hs) → loaded_inv (<[t := x']> th) hs.
Proof. intros Hl Hx t' y hs' [[_ <-]|[_ Hy]]%lookup_insert_Some Hhs; [by apply Hx|by eapply Hl]. Qed.

(** The writer may store another table: nobody else has loaded one. *)
Lemma loaded_store th w r hs t x x' :
  locks_inv th w r → th !! t = Some x → is_writer x = true → loaded x' = None → loaded_inv (<[t := x']> th) hs.
Proof.
  intros (Hw & Hr & He) Hx Ex Hn t' y hs' [[_ <-]|[Hne Hy]]%lookup_insert_Some Hhs; [congruence|].
  assert (w = Some t) as -> by (apply Hw; eauto). assert (r = ∅) as -> by (by apply He).
  assert (is_reader y = true ∨ is_writer y = true) as [Hr'|Hw'] by (destruct y; naive_solver).
  - assert (t' ∈ (∅ : gset nat)) by (apply Hr; eauto). set_solver.
  - assert (Some t = Some t') by (apply Hw; eauto). congruence.
Qed.

Lemma numbers_keep th n issued t x x' :
  numbers_inv th n issued → th !! t = Some x → pending x' = None ∨ pending x' = pending x →
  numbers_inv (<[t := x']> th) n issued.
Proof.
  intros (Hi & Hp & Hd) Hx Hx'. split_and!; [done| |].
  - intros t' y fd [[_ <-]|[_ Hy]]%lookup_insert_Some Hfd; [|by eapply Hp].
    apply (Hp t x fd Hx). destruct Hx' as [E|E]; congruence.
  - intros t1 t2 y1 y2 fd [[<- <-]|[? Hy1]]%lookup_insert_Some [[<- <-]|[? Hy2]]%lookup_insert_Some Ha Hb.
    + done.
    + apply (Hd t t2 x y2 fd); [done..| |done]. destruct Hx' as [E|E]; congruence.
    + apply (Hd t1 t y1 x fd); [done..|]. destruct Hx' as [E|E]; congruence.
    + by eapply Hd.
Qed.

Lemma numbers_fetch th n issued t x' :
  numbers_inv th n issued → pending x' = Some (Z.of_nat n) → numbers_inv (<[t := x']> th) (S n) issued.
Proof.
  intros (Hi & Hp & Hd) Hx'. split_and!.
  - intros fd Hfd. specialize (Hi fd Hfd). lia.
  - intros t' y fd [[_ <-]|[_ Hy]]%lookup_insert_Some Hfd.
    + simplify_eq. split; [lia|]. intros ?%Hi. lia.
    + destruct (Hp t' y fd Hy Hfd). split; [lia|done].
  - intros t1 t2 y1 y2 fd [[<- <-]|[? Hy1]]%lookup_insert_Some [[<- <-]|[? Hy2]]%lookup_insert_Some Ha Hb; [done|..].
    + destruct (Hp t2 y2 fd Hy2 Hb). simplify_eq. lia.
    + destruct (Hp t1 y1 fd Hy1 Ha). simplify_eq. lia.
    + by eapply Hd.
Qed.

Lemma numbers_issue th n issued t x x' fd :
  numbers_inv th n issued → th !! t = Some x → pending x = Some fd → pending x' = None →
  numbers_inv (<[t := x']> th) n ({[fd]} ∪ issued).
Proof.
  intros (Hi & Hp & Hd) Hx Hfd Hx'. split_and!.
  - intros fd' [->%elem_of_singleton|?]%elem_of_union; [by eapply Hp|by apply Hi].
  - intros t' y fd' [[_ <-]|[Hne Hy]]%lookup_insert_Some Hfd'; [congruence|].
    destruct (Hp t' y fd' Hy Hfd'). split; [done|]. rewrite not_elem_of_union, not_elem_of_singleton.
    split; [|done]. intros ->. by apply Hne, (Hd t t' x y fd).
  - intros t1 t2 y1 y2 fd' [[<- <-]|[? Hy1]]%lookup_insert_Some [[<- <-]|[? Hy2]]%lookup_insert_Some Ha Hb;
      [congruence..|by eapply Hd].
Qed.

(** *** The invariant is kept *)

Section Preservation.
Context (s0 : SchemeState) (s : sconc) (Hinv : sconc_inv s0 s) (t : nat) (x : thread).
Context (Hx : sn_threads s !! t = Some x).

(** A thread moves on without completing its call. *)
Lemma move_inv x' w r :
  locks_inv (<[t := x']> (sn_threads s)) w r → call_ok x' →
  (∀ hs, loaded x' = Some hs → hs = sc_HANDLES (sn_scheme s)) → pending x' = pending x →
  sconc_inv s0 (set_locks (set_thread s t x') w r).
Proof.
  destruct Hinv as [Hl Hd Hc Hn (issued & Hs & Hnum)]. intros Hl' Hc' Hd' Hp.
  split; cbn; [done|by apply loaded_keep|by apply map_Forall_insert_2|done|].
  exists issued. split; [done|]. eapply numbers_keep; eauto.
Qed.

(** A call completes. *)
Lemma commit_inv w r sch e :
  locks_inv (<[t := TIdle]> (sn_threads s)) w r →
  loaded_inv (<[t := TIdle]> (sn_threads s)) (sc_HANDLES sch) → sc_NEXT sch = sc_NEXT (sn_scheme s) →
  (∀ issued, numbers_inv (sn_threads s) (sn_opens s) issued →
     ∃ issued', spec_call e (forget (sn_scheme s)) issued (forget sch) issued' ∧
       numbers_inv (<[t := TIdle]> (sn_threads s)) (sn_opens s) issued') →
  sconc_inv s0 (set_thread (set_locks (commit s sch e) w r) t TIdle).
Proof.
  destruct Hinv as [Hl Hd Hc Hn (issued & Hs & Hnum)]. intros Hl' Hd' Hn' Hspec.
  split; cbn; [done|done|by apply map_Forall_insert_2|congruence|].
  destruct (Hspec issued Hnum) as (issued' & Hcall & Hnum'). exists issued'. split; [|done].
  by eapply spec_run_snoc.
Qed.

Lemma idle_locks : is_writer x = false → is_reader x = false →
  locks_inv (<[t := TIdle]> (sn_threads s)) (sn_writer s) (sn_readers s).
Proof. intros. eapply locks_keep; [apply Hinv|done|by symmetry..]. Qed.

(** A call that takes no lock leaves the table alone. *)
Lemma lock_free_inv e :
  is_writer x = false → is_reader x = false → 
  (∀ issued, spec_call e (forget (sn_scheme s)) issued (forget (sn_scheme s)) issued) →
  sconc_inv s0 (set_thread (commit s (sn_scheme s) e) t TIdle).
Proof.
  intros Hw Hr Hspec. apply (commit_inv (sn_writer s) (sn_readers s)); [by apply idle_locks| |done|].
  - apply loaded_keep; [apply Hinv|done].
  - intros issued Hnum. exists issued. split; [done|]. eapply numbers_keep; eauto.
Qed.

Lemma try_write_inv x' s' :
  handles_write t x' s = Some s' →
  is_writer x' = true → is_reader x' = false → loaded x' = None → call_ok x' → pending x' = pending x →
  sconc_inv s0 s'.
Proof.
  intros Hs Hw Hr Hl Hc Hp. unfold handles_write in Hs. destruct (sn_writer s) eqn:Ew; [done|].
  destruct (decide _) as [Er|]; simplify_eq. apply move_inv; [|done|congruence|done].
  apply locks_write; [|done..]. rewrite <- Ew. apply Hinv.
Qed.

Lemma try_read_inv x' s' :
  handles_read t x' s = Some s' →
  is_writer x = false → is_writer x' = false → is_reader x' = true → loaded x' = None → call_ok x' →
  pending x' = pending x → sconc_inv s0 s'.
Proof.
  intros Hs Hxw Hw Hr Hl Hc Hp. unfold handles_read in Hs. destruct (sn_writer s) eqn:Ew; [done|]. simplify_eq.
  apply move_inv; [|done|congruence|done]. eapply locks_read; [rewrite <- Ew; apply Hinv|done..].
Qed.

Lemma load_inv x' :
  is_writer x' = is_writer x → is_reader x' = is_reader x → call_ok x' → pending x' = pending x →
  (∀ hs, loaded x' = Some hs → hs = sc_HANDLES (sn_scheme s)) → sconc_inv s0 (set_thread s t x').
Proof.
  intros Hw Hr Hc Hp Hl. apply (move_inv x' (sn_writer s) (sn_readers s)); [|done..].
  eapply locks_keep; [apply Hinv|done..].
Qed.

Lemma fetch_inv c fd h :
  is_writer x = false → is_reader x = false → (∃ p f u, c = COpen p f u ∧ open_check p f u = inr h) →
  fd = sc_NEXT (sn_scheme s) → Z.of_nat (S (sn_opens s)) < 2 ^ 64 →
  sconc_inv s0 (set_thread (fetch_next s) t (TOpen c fd h)).
Proof.
  intros Hw Hr Hc -> Hlt. destruct Hinv as [Hl Hd Hcs Hn (issued & Hs & Hnum)]. split; cbn.
  - eapply locks_keep; [done|done|by symmetry..].
  - by apply loaded_keep.
  - by apply map_Forall_insert_2.
  - rewrite Hn, wrap_small by (unfold is_uN; lia). lia.
  - exists issued. split; [done|]. apply numbers_fetch; [done|]. cbn. by rewrite Hn.
Qed.

End Preservation.

(** A body that completes under the lock is the specification's call. *)
Lemma shared_spec c s r s' issued :
  exclusive c = true ∨ shared c = true → call_body c None s = Ret (r, s') →
  spec_call (c, r) (forget s) issued (forget s') issued.
Proof.
  intros Hc Hb. pose proof (body_forget c s r s' Hc Hb) as Hf. unfold spec_call.
  destruct c; try done. by destruct Hc.
Qed.

Lemma read_done_inv s0 s t c hs r s' :
  sconc_inv s0 s → sn_threads s !! t = Some (TReadLoaded c hs) →
  call_body c None (with_handles (sn_scheme s) hs) = Ret (r, s') →
  sconc_inv s0 (set_thread (set_locks (commit s (sn_scheme s) (c, r)) (sn_writer s) (sn_readers s ∖ {[t]})) t TIdle).
Proof.
  intros Hinv Hx Hb. pose proof (si_loaded _ _ Hinv _ _ _ Hx eq_refl) as ->. rewrite handles_eta in Hb.
  pose proof (si_calls _ _ Hinv _ _ Hx) as Hc. cbn in Hc.
  destruct (body_frame c None _ r s' ltac:(auto) Hb) as [_ Hsame]. rewrite (Hsame Hc) in Hb.
  eapply commit_inv; [done..| | |done|].
  - eapply locks_unread; [apply Hinv|done..].
  - apply loaded_keep; [apply Hinv|done].
  - intros issued Hnum. exists issued. split; [|eapply numbers_keep; eauto]. apply shared_spec; auto.
Qed.

Lemma write_done_inv s0 s t c new hs r sch :
  Z.of_nat (sn_opens s) < 2 ^ 64 →
  sconc_inv s0 s → sn_threads s !! t = Some (TWriteLoaded c new hs) →
  call_body c new (with_handles (sn_scheme s) hs) = Ret (r, sch) →
  sconc_inv s0 (set_thread (set_locks (commit s sch (c, r)) None (sn_readers s)) t TIdle).
Proof.
  intros Hlt Hinv Hx Hb. pose proof (si_loaded _ _ Hinv _ _ _ Hx eq_refl) as ->. rewrite handles_eta in Hb.
  pose proof (si_calls _ _ Hinv _ _ Hx) as Hc. cbn in Hc.
  assert (new = None → exclusive c = true ∨ shared c = true) as Hnew by (intros ->; by left).
  destruct (body_frame c new _ r sch Hnew Hb) as [Hn _].
  eapply commit_inv; [done..| | |done|].
  - eapply locks_unwrite; [apply Hinv|done..].
  - eapply loaded_store; [apply Hinv|done..].
  - intros issued Hnum. destruct new as [[fd h]|].
    + destruct Hc as (p & f & u & -> & Hck). cbn in Hb. simplify_eq. exists ({[fd]} ∪ issued).
      split; [|eapply numbers_issue; eauto]. unfold spec_call. cbn. rewrite Hck. exists fd.
      destruct Hnum as (_ & Hp & _). destruct (Hp t _ fd Hx eq_refl). split_and!; [done|lia|lia|done..].
    + exists issued. split; [|eapply numbers_keep; eauto]. apply shared_spec; auto.
Qed.

Lemma scheme_step_inv s0 t c s s' :
  scheme_step t c s = Some s' → Z.of_nat (sn_opens s') < 2 ^ 64 → Z.of_nat (sn_opens s) < 2 ^ 64 →
  sconc_inv s0 s → sconc_inv s0 s'.
Proof.
  intros Hs Hlt' Hlt Hinv. unfold scheme_step in Hs. destruct (sn_threads s !! t) as [x|] eqn:Hx; [|done].
  cbn in Hs.
  destruct x as [|d|d fd h|d|d hs|d new|d new hs]; cbn in Hs; simplify_eq.
  - by eapply load_inv.
  - destruct d as [p f u|id|id|id buf|id pos wh|id|id buf stack]; cbn in Hs.
    + destruct (open_check p f u) as [e|h] eqn:Ek; simplify_eq.
      * eapply lock_free_inv; [done..|]. intros issued. unfold spec_call. cbn. by rewrite Ek.
      * eapply fetch_inv; [done..| |done|done]. eauto.
    + by eapply (try_read_inv _ _ Hinv _ _ Hx _ _ Hs).
    + by eapply (try_write_inv _ _ Hinv _ _ Hx _ _ Hs).
    + simplify_eq. by eapply lock_free_inv.
    + by eapply (try_write_inv _ _ Hinv _ _ Hx _ _ Hs).
    + by eapply (try_read_inv _ _ Hinv _ _ Hx _ _ Hs).
    + by eapply (try_write_inv _ _ Hinv _ _ Hx _ _ Hs).
  - pose proof (si_calls _ _ Hinv _ _ Hx). by eapply (try_write_inv _ _ Hinv _ _ Hx _ _ Hs).
  - pose proof (si_calls _ _ Hinv _ _ Hx). eapply load_inv; [done..|]. by intros ? [=].
  - destruct (call_body d None _) as [[r sch]| |] eqn:Eb; simplify_eq. by eapply read_done_inv.
  - pose proof (si_calls _ _ Hinv _ _ Hx). eapply load_inv; [done..|]. by intros ? [=].
  - destruct (call_body d new _) as [[r sch]| |] eqn:Eb; simplify_eq. by eapply write_done_inv.
Qed.

Lemma scheme_step_opens t c s s' : scheme_step t c s = Some s' → (sn_opens s <= sn_opens s')%nat.
Proof.
  unfold scheme_step, handles_read, handles_write. destruct (sn_threads s !! t) as [x|]; [|done]. cbn. intros.
  repeat case_match; simplify_eq; cbn; lia.
Qed.

Lemma scheme_initial_inv n data wait :
  sconc_inv (MkScheme ∅ 0 data wait 0) (scheme_initial n data wait).
Proof.
  assert (∀ t x, sn_threads (scheme_initial n data wait) !! t = Some x → x = TIdle) as Hidle.
  { intros t x Hx. by apply elem_of_list_to_map_2, list_elem_of_fmap in Hx as (j & [= -> ->] & _). }
  split.
  - split_and!; [intros t; split; [done|]|intros t; split; [set_solver|]|done]; intros (x & ->%Hidle & ?); done.
  - by intros t x hs ->%Hidle.
  - by intros t x ->%Hidle.
  - done.
  - exists ∅. split; [done|]. split_and!; [set_solver|by intros t x fd ->%Hidle|by intros ?? x x' fd ->%Hidle].
Qed.

Lemma scheme_reachable_inv n data wait s :
  rtc scheme_next (scheme_initial n data wait) s → Z.of_nat (sn_opens s) < 2 ^ 64 →
  sconc_inv (MkScheme ∅ 0 data wait 0) s.
Proof.
  revert s. apply (rtc_ind_r (λ s, Z.of_nat (sn_opens s) < 2 ^ 64 → sconc_inv (MkScheme ∅ 0 data wait 0) s)).
  - intros _. apply scheme_initial_inv.
  - intros s1 s2 _ (t & c & Hstep) IH Hlt. pose proof (scheme_step_opens _ _ _ _ Hstep).
    eapply scheme_step_inv; [done|done|lia|]. apply IH. lia.
Qed.

(** C5: the scheme called from any number of threads, with any interleaving of their steps,
    answers as if each call happened at once, in the order in which the calls complete:
    the answers are those of the sequential calls on the table, and the table is the
    sequential one.  The one thing the interleaving decides is which number an [open]
    gets, and it is one that no other [open] ever got (up to 2^64 of them). *)
Theorem scheme_linearizable n data wait s :
  rtc scheme_next (scheme_initial n data wait) s → Z.of_nat (sn_opens s) < 2 ^ 64 →
  ∃ issued, spec_run (sn_hist s) (MkScheme ∅ 0 data wait 0) ∅ (forget (sn_scheme s)) issued.
Proof. intros Hs Hlt. destruct (scheme_reachable_inv n data wait s Hs Hlt) as [_ _ _ _ (issued & Hr & _)]. eauto. Qed.

(** *** The shutdown pipe *)

(** A thread has the table and nobody else is inside a guard. *)
Record pipe_waits (t : nat) (x : thread) (s : sconc) : Prop := {
  pw_thread : sn_threads s !! t = Some x;
  pw_writer : sn_writer s = Some t;
  pw_others : ∀ t' y, t' ≠ t → sn_threads s !! t' = Some y → is_writer y = false ∧ is_reader y = false;
  pw_flag : sc_WAIT_FLAG (sn_scheme s) = false;
}.

Lemma pipe_body_hangs id b buf stack hs h s :
  hs !! id = Some h → h_kind h = ShutdownPipe → h_offset h < 1 → sc_WAIT_FLAG s = false →
  call_body (CRead id (b :: buf) stack) None (with_handles s hs) = Hang.
Proof.
  intros Hh Hk Ho Hw. cbn. unfold read. cbn. rewrite Hh, Hk, Hw.
  destruct (Z.leb_spec 1 (h_offset h)); [lia|done].
Qed.

Lemma pipe_waits_step t id b buf stack hs h t' c s s' :
  hs !! id = Some h → h_kind h = ShutdownPipe → h_offset h < 1 →
  let x := TWriteLoaded (CRead id (b :: buf) stack) None hs in
  pipe_waits t x s → scheme_step t' c s = Some s' →
  pipe_waits t x s' ∧ ∃ l, sn_hist s' = sn_hist s ++ l ∧ Forall (λ e, lock_free e.1 = true) l.
Proof.
  intros Hh Hk Ho x [Hx Hw Hoth Hf] Hs. unfold scheme_step in Hs.
  destruct (decide (t' = t)) as [->|Hne].
  { rewrite Hx in Hs. cbn in Hs.
    change (match call_body (CRead id (b :: buf) stack) None (with_handles (sn_scheme s) hs) with
            | Ret (r, sch) => Some (set_thread (set_locks (commit s sch (CRead id (b :: buf) stack, r)) None (sn_readers s)) t TIdle)
            | Panic _ | Hang => None end = Some s') in Hs.
    by rewrite (pipe_body_hangs id b buf stack hs h) in Hs. }
  destruct (sn_threads s !! t') as [y|] eqn:Hy; [|done]. cbn in Hs.
  destruct (Hoth t' y Hne Hy) as [Hyw Hyr].
  assert (∀ y' sch n hist, is_writer y' = false → is_reader y' = false → sc_WAIT_FLAG sch = false →
    pipe_waits t x (MkSconc (<[t' := y']> (sn_threads s)) sch (sn_writer s) (sn_readers s) hist n)) as Hmove.
  { intros y' sch n hist Hw' Hr' Hf'. split; cbn; [by rewrite lookup_insert_ne|done| |done].
    intros t2 z Hne2 [[<- <-]|[_ Hz]]%lookup_insert_Some; [done|by eapply Hoth]. }
  unfold handles_read, handles_write in Hs. rewrite Hw in Hs.
  destruct y as [|d|d fd hd|d|d hs'|d new|d new hs']; try done; simplify_eq.
  { split; [by apply Hmove|]. exists []. by rewrite app_nil_r. }
  destruct d as [p f u|id'|id'|id' buf'|id' pos wh|id'|id' buf' stack']; try done; cbn in Hs.
  - destruct (open_check p f u) as [e|h'] eqn:Ek; simplify_eq; (split; [by apply Hmove|]); cbn.
    + eexists. split; [done|]. apply Forall_singleton. cbn. by rewrite Ek.
    + exists []. by rewrite app_nil_r.
  - simplify_eq. split; [by apply Hmove|]. eexists. split; [done|]. by apply Forall_singleton.
Qed.

(** C16: a thread that reads the shutdown pipe before the flag is set keeps the table
    locked while it waits, and no call of the scheme sets the flag: the read never returns,
    and from then on no other thread completes a call either, except those that never ask
    for the table, [write] and refused opens. *)
Theorem pipe_read_blocks_scheme n data wait s t id b buf stack hs h :
  rtc scheme_next (scheme_initial n data wait) s → Z.of_nat (sn_opens s) < 2 ^ 64 →
  sn_threads s !! t = Some (TWriteLoaded (CRead id (b :: buf) stack) None hs) →
  hs !! id = Some h → h_kind h = ShutdownPipe → h_offset h < 1 → sc_WAIT_FLAG (sn_scheme s) = false →
  ∀ s', rtc scheme_next s s' →
    sn_threads s' !! t = sn_threads s !! t ∧
    ∃ l, sn_hist s' = sn_hist s ++ l ∧ Forall (λ e, lock_free e.1 = true) l.
Proof.
  intros Hs Hlt Hx Hh Hk Ho Hf s' Hs'.
  destruct (scheme_reachable_inv n data wait s Hs Hlt) as [(Hw & Hr & He) _ _ _ _].
  assert (sn_writer s = Some t) as Ht by (apply Hw; eauto).
  set (x := TWriteLoaded (CRead id (b :: buf) stack) None hs) in *.
  assert (pipe_waits t x s' ∧ ∃ l, sn_hist s' = sn_hist s ++ l ∧ Forall (λ e, lock_free e.1 = true) l) as [[Hx' _ _ _] ?];
    [|by rewrite Hx].
  revert s' Hs'. apply rtc_ind_r.
  - split; [|exists []; by rewrite app_nil_r]. split; [done..| |done]. intros t' y Hne Hy. split.
    + destruct (is_writer y) eqn:E; [|done]. assert (sn_writer s = Some t') by (apply Hw; eauto). congruence.
    + destruct (is_reader y) eqn:E; [|done]. assert (t' ∈ sn_readers s) as Hin by (apply Hr; eauto).
      rewrite He in Hin by (by rewrite Ht). set_solver.
  - intros s1 s2 _ (t' & c & Hstep) (Hp & l & Hl & Hfa).
    destruct (pipe_waits_step t id b buf stack hs h t' c s1 s2 Hh Hk Ho Hp Hstep) as (Hp' & l' & Hl' & Hfa').
    split; [done|]. exists (l ++ l'). rewrite Hl', Hl, app_assoc. split; [done|]. by apply Forall_app.
Qed.

End Theory.

(** ** Concrete runs *)

Fixpoint run_threads `{SchemeAbi} (ls : list (nat * scheme_call)) (s : sconc) : option sconc :=
  match ls with
  | [] => Some s
  | (t, c) :: ls => s ← scheme_step t c s; run_threads ls s
  end.

Lemma run_threads_rtc `{SchemeAbi} ls s s' : run_threads ls s = Some s' → rtc scheme_next s s'.
Proof.
  revert s. induction ls as [|[t c] ls IH]; intros s; cbn; [intros [= ->]; constructor|].
  destruct (scheme_step t c s) as [s1|] eqn:E; [|done]. intros Hs. eapply rtc_l; [by exists t, c|]. by apply IH.
Qed.

(** Two threads open a file each; the one that got the smaller number is the later one in
    the table. *)
Definition run_two_opens : list (nat * scheme_call) :=
  let c := COpen "rxsdt" 0x10010000 0 in
  [(0%nat, c); (1%nat, c); (0%nat, c); (1%nat, c); (1%nat, c); (1%nat, c); (1%nat, c); (0%nat, c); (0%nat, c); (0%nat, c)].
(** A thread opens the shutdown pipe and reads from it. *)
Definition run_pipe : list (nat * scheme_call) :=
  let o := COpen "kstop" 0x10010000 0 in let r := CRead 0 [0] (λ _, 0) in
  [(0%nat, o); (0%nat, o); (0%nat, o); (0%nat, o); (0%nat, o); (0%nat, r); (0%nat, r); (0%nat, r)].

Definition scheme_after (ls : list (nat * scheme_call)) : sconc :=
  let s := scheme_initial 2 true false in default s (run_threads ls s).
Lemma scheme_after_rtc ls :
  match run_threads ls (scheme_initial 2 true false) with Some _ => true | None => false end = true →
  rtc scheme_next (scheme_initial 2 true false) (scheme_after ls).
Proof.
  unfold scheme_after. cbv zeta. destruct (run_threads ls _) as [s|] eqn:E; [|done]. intros _. cbn [default].
  by eapply run_threads_rtc.
Qed.

Lemma scheme_linearizable_witness :
  sn_hist (scheme_after run_two_opens) =
    [(COpen "rxsdt" 0x10010000 0, RInt (inr 1)); (COpen "rxsdt" 0x10010000 0, RInt (inr 0))] ∧
  ∃ issued, spec_run (sn_hist (scheme_after run_two_opens)) (MkScheme ∅ 0 true false 0) ∅
              (forget (sn_scheme (scheme_after run_two_opens))) issued.
Proof.
  split; [vm_refl|]. apply (scheme_linearizable 2); [apply scheme_after_rtc; vm_refl|].
  assert (sn_opens (scheme_after run_two_opens) = 2%nat) as -> by vm_refl. lia.
Defined.

Lemma pipe_read_blocks_witness :
  sn_writer (scheme_after run_pipe) = Some 0%nat ∧ ∀ s', rtc scheme_next (scheme_after run_pipe) s' →
    ∃ l, sn_hist s' = sn_hist (scheme_after run_pipe) ++ l ∧ Forall (λ e, lock_free e.1 = true) l.
Proof.
  split; [vm_refl|]. intros s' Hs'.
  apply (pipe_read_blocks_scheme 2 true false (scheme_after run_pipe) 0%nat 0 0 [] (λ _, 0)
    {[0 := MkHandle 0 ShutdownPipe false]} (MkHandle 0 ShutdownPipe false)).
  - apply scheme_after_rtc. vm_refl.
  - assert (sn_opens (scheme_after run_pipe) = 1%nat) as -> by vm_refl. lia.
  - vm_refl.
  - vm_refl.
  - reflexivity.
  - cbn. lia.
  - vm_refl.
  - exact Hs'.
Defined.
