(* ===== verification/Hmfs.v ===== *)
(** * The HMFS file system, src/fs/hmfs.rs

    Directories, files and the root entry are shared through reference-counted
    pointers; whether [Arc::get_mut] succeeds depends on the counts, so the model keeps
    a store of counted objects and follows every clone and every drop.  Hashing an entry
    walks through the pointers; [fuel] bounds how many it follows.  The hash map
    ([hashbrown]), the hash function ([sha3]) and what the path and mime types feed to a
    hasher are parameters. *)

From S2P Require Import Prelude.

Local Open Scope Z_scope.

(** ** Data *)

(** An [EntryKind]; directories and the root are behind an [Arc]. *)
Inductive EntryKind : Type :=
  | Directory (p : Z)
  | File (data : list Z)
  | Root (p : Z).

Record Entry : Type := MkEntry { e_kind : EntryKind; e_checksum : Z; e_parent : option EntryKind }.

Record Properties : Type := MkProps {
  pr_name : string; pr_full_path : string; pr_entry_kind : EntryKind; pr_mime_type : option string;
  pr_mode : Z; pr_created_by : string; pr_date_created : Z; pr_date_modified : Z; pr_owner : string;
}.

Record RootEntry : Type := MkRoot {
  r_magic : Z; r_system_clock : Z; r_entry_count : Z; r_checksum : Z; r_dir : Entry;
}.

(** The entries of a directory's map, in iteration order; the values are [Arc]s. *)
Abbreviation dir_map := (list (Properties * Z)).

Inductive Object : Type := ODir (m : dir_map) | OEntry (e : Entry) | ORoot (r : RootEntry).

(** The store: what an [Arc] points to, and its strong count. *)
Record Store : Type := MkStore { st_next : Z; st_objs : gmap Z (Z * Object) }.

Definition empty_store : Store := MkStore 0 ∅.

(** What the file system uses of the map and of the hasher. *)
Class HmfsEnv : Type := {
  hm_insert : Store → dir_map → Properties → Z → dir_map;
  hm_get : Store → dir_map → Properties → option Z;
  hm_remove : Store → dir_map → Properties → option (Properties * Z) * dir_map;
  sha3_512 : list Z → list Z;
  path_hash : string → list Z;     (* the bytes a PathBuf and a Mime write *)
  mime_hash : string → list Z;
}.

Class HmfsEnvLaws `{HmfsEnv} : Prop := {
  sha3_length bs : length (sha3_512 bs) = 64%nat;
  sha3_bytes bs : Forall (is_uN 8) (sha3_512 bs);
  hm_insert_empty s p a : hm_insert s [] p a = [(p, a)];
}.

(** ** The store monad *)

Definition M (A : Type) : Type := Store → outcome (A * Store).

#[export] Instance M_ret : MRet M := λ A a s, Ret (a, s).
#[export] Instance M_bind : MBind M := λ A B f m s,
  match m s with Ret (a, s) => f a s | Panic p => Panic p | Hang => Hang end.

Definition fail {A} (p : panic_info) : M A := λ _, Panic p.

(** [Arc::new], [Arc::clone], [*arc] and [Arc::strong_count]. *)
Definition arc_new (o : Object) : M Z := λ s,
  Ret (st_next s, MkStore (st_next s + 1) (<[st_next s := (1, o)]> (st_objs s))).

Definition arc_clone (p : Z) : M unit := λ s,
  match st_objs s !! p with
  | Some (n, o) => Ret (tt, MkStore (st_next s) (<[p := (n + 1, o)]> (st_objs s)))
  | None => Panic PAssert
  end.

Definition arc_get (p : Z) : M Object := λ s,
  match st_objs s !! p with Some (_, o) => Ret (o, s) | None => Panic PAssert end.

Definition strong_count (p : Z) : M Z := λ s,
  match st_objs s !! p with Some (n, _) => Ret (n, s) | None => Panic PAssert end.

(** [Arc::get_mut(&mut p).unwrap()]: the object, if this is the only pointer to it. *)
Definition arc_get_mut (p : Z) : M Object := λ s,
  match st_objs s !! p with
  | Some (n, o) => if n =? 1 then Ret (o, s) else Panic PUnwrap
  | None => Panic PAssert
  end.

Definition arc_set (p : Z) (o : Object) : M unit := λ s,
  match st_objs s !! p with
  | Some (n, _) => Ret (tt, MkStore (st_next s) (<[p := (n, o)]> (st_objs s)))
  | None => Panic PAssert
  end.

(** The pointers an object owns. *)
Definition kind_arcs (k : EntryKind) : list Z :=
  match k with Directory p | Root p => [p] | File _ => [] end.
Definition entry_arcs (e : Entry) : list Z :=
  kind_arcs (e_kind e) ++ from_option kind_arcs [] (e_parent e).
Definition object_arcs (o : Object) : list Z :=
  match o with
  | ODir m => m ≫= λ '(p, a), kind_arcs (pr_entry_kind p) ++ [a]
  | OEntry e => entry_arcs e
  | ORoot r => entry_arcs (r_dir r)
  end.

(** Dropping pointers: an object whose count reaches 0 goes, with what it owns.  Each
    step of [fuel] removes one pointer. *)
Fixpoint drop_arcs (fuel : nat) (ps : list Z) (s : Store) : Store :=
  match ps with
  | [] => s
  | p :: ps =>
      match fuel with
      | O => s
      | S fuel =>
          match st_objs s !! p with
          | Some (n, o) =>
              if n =? 1
              then drop_arcs fuel (object_arcs o ++ ps) (MkStore (st_next s) (delete p (st_objs s)))
              else drop_arcs fuel ps (MkStore (st_next s) (<[p := (n - 1, o)]> (st_objs s)))
          | None => drop_arcs fuel ps s
          end
      end
  end.

(** All pointers of the store, and one more, are enough fuel. *)
Definition store_arcs (s : Store) : nat :=
  foldr (λ '(_, (_, o)) n, (length (object_arcs o) + n)%nat) 0%nat (map_to_list (st_objs s)).

Definition drop_list (ps : list Z) : M unit := λ s,
  Ret (tt, drop_arcs (length ps + store_arcs s) ps s).

(** [Clone] of a kind and of an entry. *)
Definition clone_kind (k : EntryKind) : M EntryKind :=
  match k with Directory p | Root p => arc_clone p;; mret k | File _ => mret k end.
Definition clone_opt_kind (k : option EntryKind) : M (option EntryKind) :=
  match k with Some k => k ← clone_kind k; mret (Some k) | None => mret None end.
Definition clone_entry (e : Entry) : M Entry :=
  k ← clone_kind (e_kind e);
  p ← clone_opt_kind (e_parent e);
  mret (MkEntry k (e_checksum e) p).

Section Hmfs.
Context `{HmfsEnv}.

(** [u64_from_slice] and [HMFSHasher]; the state of the hasher is what was written. *)
Definition u64_from_slice (slice : list Z) : outcome Z :=
  if (8 <=? length slice)%nat then Ret (from_be_bytes (take 8 slice)) else Panic PBounds.
Definition hasher_write (st bytes : list Z) : list Z := st ++ bytes.
Definition hasher_finish (st : list Z) : outcome Z := u64_from_slice (sha3_512 st).

(** [Hash]: the bytes that are written.  Strings end with 0xff, vectors start with their
    length, and [derive(Hash)] writes the discriminant of an option and then the fields;
    [EntryKind] writes no discriminant. *)
Definition str_hash (x : string) : list Z :=
  ((λ c, Z.of_N (Ascii.N_of_ascii c)) <$> String.list_ascii_of_string x) ++ [0xff].
Definition vec_hash (data : list Z) : list Z := to_le_bytes 8 (Z.of_nat (length data)) ++ data.
Definition option_hash {A} (h : A → outcome (list Z)) (o : option A) : outcome (list Z) :=
  match o with
  | None => Ret (to_le_bytes 8 0)
  | Some a => bs ← h a; Ret (to_le_bytes 8 1 ++ bs)
  end.

Definition entry_hash (kh : EntryKind → outcome (list Z)) (e : Entry) : outcome (list Z) :=
  k ← kh (e_kind e);
  p ← option_hash kh (e_parent e);
  Ret (k ++ to_le_bytes 8 (e_checksum e) ++ p).

Definition props_hash (kh : EntryKind → outcome (list Z)) (p : Properties) : outcome (list Z) :=
  k ← kh (pr_entry_kind p);
  m ← option_hash (λ x, Ret (mime_hash x)) (pr_mime_type p);
  Ret (str_hash (pr_name p) ++ path_hash (pr_full_path p) ++ k ++ m ++ to_le_bytes 4 (pr_mode p) ++
       str_hash (pr_created_by p) ++ to_le_bytes 16 (wrap 128 (pr_date_created p)) ++
       to_le_bytes 16 (wrap 128 (pr_date_modified p)) ++ str_hash (pr_owner p)).

Definition root_hash (kh : EntryKind → outcome (list Z)) (r : RootEntry) : outcome (list Z) :=
  d ← entry_hash kh (r_dir r);
  Ret (to_le_bytes 4 (r_magic r) ++ to_le_bytes 16 (wrap 128 (r_system_clock r)) ++
       to_le_bytes 8 (r_entry_count r) ++ to_le_bytes 8 (r_checksum r) ++ d).

Definition pair_hash (kh : EntryKind → outcome (list Z)) (s : Store) (x : Properties * Z) : outcome (list Z) :=
  p ← props_hash kh x.1;
  match st_objs s !! x.2 with
  | Some (_, OEntry e) => b ← entry_hash kh e; Ret (p ++ b)
  | _ => Panic PAssert
  end.

(** [for (properties, entry) in map.iter() { .. }]. *)
Fixpoint pairs_hash (kh : EntryKind → outcome (list Z)) (s : Store) (m : dir_map) : outcome (list Z) :=
  match m with
  | [] => Ret []
  | x :: m => a ← pair_hash kh s x; b ← pairs_hash kh s m; Ret (a ++ b)
  end.

Fixpoint kind_hash (fuel : nat) (s : Store) (k : EntryKind) : outcome (list Z) :=
  match k, fuel with
  | File data, _ => Ret (vec_hash data)
  | _, O => Hang
  | Directory p, S fuel =>
      match st_objs s !! p with Some (_, ODir m) => pairs_hash (kind_hash fuel s) s m | _ => Panic PAssert end
  | Root p, S fuel =>
      match st_objs s !! p with Some (_, ORoot r) => root_hash (kind_hash fuel s) r | _ => Panic PAssert end
  end.

(** [hasher().hash_one(..)], of a kind and of an entry. *)
Definition hash_one (h : Store → outcome (list Z)) : M Z := λ s,
  match (bs ← h s; hasher_finish (hasher_write [] bs)) with
  | Ret c => Ret (c, s) | Panic p => Panic p | Hang => Hang
  end.
Definition hash_kind (fuel : nat) (k : EntryKind) : M Z := hash_one (λ s, kind_hash fuel s k).
Definition hash_entry (fuel : nat) (e : Entry) : M Z := hash_one (λ s, entry_hash (kind_hash fuel s) e).

Definition properties_new (name : string) (kind : EntryKind) (mime : option string) (mode : Z)
    (created_by : string) (date_created date_modified : Z) (owner : string) : Properties :=
  MkProps name name kind mime mode created_by date_created date_modified owner.

Definition get_root_dir (r : RootEntry) : M Entry :=
  if r_magic r =? 0x90a7cafe then clone_entry (r_dir r) else fail PAssert.

Variable (fuel : nat).

(** [Entry::new]: takes over [kind] and [parent]. *)
Definition entry_new (kind : EntryKind) (parent : option EntryKind) : M Entry :=
  parent' ← clone_opt_kind parent;
  match parent with
  | None => mret (MkEntry kind 0 parent')
  | Some (Directory dir) =>
      c ← hash_entry fuel (MkEntry kind 0 parent');
      drop_list [dir];;
      mret (MkEntry kind c parent')
  | Some (File _) => fail (PMsg "Parent must be a directory")
  | Some (Root root) =>
      arc_clone root;;
      o ← arc_get root;
      match o with
      | ORoot r =>
          e ← get_root_dir r;
          match e_kind e with
          | Directory dir =>
              c ← hash_entry fuel (MkEntry kind 0 parent');
              drop_list (dir :: from_option kind_arcs [] (e_parent e) ++ [root; root]);;
              mret (MkEntry kind c parent')
          | _ => fail PAssert
          end
      | _ => fail PAssert
      end
  end.

Definition parent (e : Entry) : M (option EntryKind) := clone_opt_kind (e_parent e).

(** The rest of [mkdir] and [create_file] once [dir], the clone of [self]'s or the
    root's directory, is known: insert an entry with [props] and look it up again. *)
Definition insert_entry (dir : Z) (props : Properties) (e : Entry) : M Entry :=
  o ← arc_get_mut dir;
  match o with
  | ODir m =>
      k ← clone_kind (pr_entry_kind props);
      a ← arc_new (OEntry e);
      m' ← (λ s, Ret (hm_insert s m props a, s));
      arc_set dir (ODir m');;
      r ← (λ s, Ret (hm_get s m' props, s));
      match r with
      | None => fail PUnwrap
      | Some a =>
          o ← arc_get a;
          match o with
          | OEntry e => e ← clone_entry e; drop_list (kind_arcs k);; mret e
          | _ => fail PAssert
          end
      end
  | _ => fail PAssert
  end.

(** The new directory's properties and entry; both hold a clone of [dir]. *)
Definition mkdir_in (dir : Z) (name : string) (timestamp : Z) : M Entry :=
  par ← clone_kind (Directory dir);
  new_map ← arc_new (ODir []);
  pk ← clone_kind (Directory dir);
  let props := properties_new name pk None 511 "root" timestamp timestamp "root" in
  let kind := Directory new_map in
  c ← hash_kind fuel kind;
  insert_entry dir props (MkEntry kind c (Some par)).

(** [Result<Entry>] is [errno + Entry]. *)
Variables (ENOTDIR EACCES : Z).

Definition mkdir (self : Entry) (name : string) (timestamp : Z) : M (Z + Entry) :=
  kind ← clone_kind (e_kind self);
  match kind with
  | Directory dir => e ← mkdir_in dir name timestamp; drop_list [dir];; mret (inr e)
  | Root root =>
      o ← arc_get_mut root;
      match o with
      | ORoot r =>
          match e_kind (r_dir r) with
          | Directory dir => e ← mkdir_in dir name timestamp; drop_list [root];; mret (inr e)
          | _ => fail PAssert
          end
      | _ => fail PAssert
      end
  | File _ => mret (inl ENOTDIR)
  end.

Definition create_file (self : Entry) (mime name : string) (timestamp : Z) (data : list Z) : M (Z + Entry) :=
  kind ← clone_kind (e_kind self);
  match kind with
  | Directory dir =>
      par ← clone_kind (Directory dir);
      dup ← clone_kind par;
      let props := properties_new name par (Some mime) 511 "root" timestamp timestamp "root" in
      let k := File data in
      c ← hash_kind fuel k;
      e ← insert_entry dir props (MkEntry k c (Some dup));
      drop_list [dir];;
      mret (inr e)
  | File _ => mret (inl ENOTDIR)
  | Root root => drop_list [root];; mret (inl EACCES)
  end.

(** [RootEntry::new]. *)
Definition root_new (timestamp : Z) : M RootEntry :=
  root_map ← arc_new (ODir []);
  k ← clone_kind (Directory root_map);
  let root_props := properties_new "/" k None 511 "root" timestamp timestamp "root" in
  _ ← clone_kind k;                                  (* root_props.clone() *)
  ek ← clone_kind (Directory root_map);
  e0 ← entry_new ek None;
  a ← arc_new (OEntry e0);
  inner ← (λ s, Ret (hm_insert s [] root_props a, s));
  drop_list [root_map];;
  new_root_map ← arc_new (ODir inner);
  arc_clone new_root_map;;
  old_entry ← entry_new (Directory new_root_map) None;
  count ← strong_count new_root_map;
  c ← hash_entry fuel old_entry;
  let nep := MkRoot 0x90a7cafe timestamp count c old_entry in
  arc_clone new_root_map;;
  d ← clone_entry (r_dir nep);
  ra ← arc_new (ORoot (MkRoot 0x90a7cafe timestamp count c d));
  new_entry ← entry_new (Directory new_root_map) (Some (Root ra));
  d ← clone_entry new_entry;
  drop_list (entry_arcs (r_dir nep));;               (* new_entry_parent.dir = .. *)
  d' ← clone_entry d;
  ra' ← arc_new (ORoot (MkRoot 0x90a7cafe timestamp count c d'));
  drop_list (from_option kind_arcs [] (e_parent d));;
  arc_clone new_root_map;;
  drop_list (kind_arcs (e_kind d));;
  let d := MkEntry (Directory new_root_map) (e_checksum d) (Some (Root ra')) in
  c ← hash_entry fuel new_entry;
  new_entry' ← clone_entry d;
  o ← arc_get_mut new_root_map;
  match o with
  | ODir m =>
      '(old, m) ← (λ s, Ret (hm_remove s m root_props, s));
      arc_set new_root_map (ODir m);;
      drop_list (from_option (λ x, object_arcs (ODir [x])) [] old);;
      _ ← arc_get_mut new_root_map;
      a ← arc_new (OEntry new_entry');
      m ← (λ s, Ret (hm_insert s m root_props a, s));
      arc_set new_root_map (ODir m);;
      drop_list (entry_arcs new_entry ++ [new_root_map]);;
      mret (MkRoot 0x90a7cafe timestamp count c d)
  | _ => fail PAssert
  end.

End Hmfs.

(** ** What the file system can do *)

Section HmfsTheory.
Context `{HmfsEnvLaws}.

(** The hash is a 64-bit number for any input. *)
Lemma hasher_finish_range st : ∃ h, hasher_finish st = Ret h ∧ is_uN 64 h.
Proof.
  unfold hasher_finish, u64_from_slice. rewrite sha3_length. cbn. eexists. split; [done|].
  unfold from_be_bytes. pose proof (from_le_bytes_range (reverse (take 8 (sha3_512 st)))) as Hr.
  rewrite length_reverse, length_take, sha3_length in Hr. apply Hr.
  rewrite Forall_reverse. apply Forall_take, sha3_bytes.
Qed.

Lemma hash_one_ret h s bs : h s = Ret bs → ∃ c, hash_one h s = Ret (c, s) ∧ is_uN 64 c.
Proof.
  intros E. unfold hash_one. rewrite E. cbn [mbind outcome_bind].
  destruct (hasher_finish_range (hasher_write [] bs)) as (c & -> & Hc). eauto.
Qed.

(** Addresses of live objects are below the next one, and every count is positive. *)
Definition store_wf (s : Store) : Prop :=
  ∀ p n o, st_objs s !! p = Some (n, o) → p < st_next s ∧ 1 <= n.

(** An entry in use holds its own pointer: it is one of the counted ones. *)
Definition held (s : Store) (k : EntryKind) : Prop :=
  match k with
  | Directory p => ∃ n m, st_objs s !! p = Some (n, ODir m)
  | Root p => ∃ n r, st_objs s !! p = Some (n, ORoot r)
  | File _ => True
  end.

Lemma arc_clone_ret p s n o :
  st_objs s !! p = Some (n, o) →
  arc_clone p s = Ret (tt, MkStore (st_next s) (<[p := (n + 1, o)]> (st_objs s))).
Proof. unfold arc_clone. by intros ->. Qed.

(** A pointer that was cloned is no longer unique. *)
Lemma arc_get_mut_shared p s n o :
  st_objs s !! p = Some (n, o) → 1 < n → arc_get_mut p s = Panic PUnwrap.
Proof. unfold arc_get_mut. intros -> Hn. destruct (Z.eqb_spec n 1); [lia|done]. Qed.

Lemma clone_dir_ret p s n o :
  st_objs s !! p = Some (n, o) →
  clone_kind (Directory p) s =
    Ret (Directory p, MkStore (st_next s) (<[p := (n + 1, o)]> (st_objs s))).
Proof. intros Hp. unfold clone_kind, mbind, M_bind. by rewrite (arc_clone_ret p s n o Hp). Qed.

Lemma drop_arcs_nil fuel s : drop_arcs fuel [] s = s.
Proof. by destruct fuel. Qed.

(** Cloning and dropping a pointer gives the store back. *)
Lemma clone_drop p s n o :
  st_objs s !! p = Some (n, o) → 1 <= n →
  drop_list [p] (MkStore (st_next s) (<[p := (n + 1, o)]> (st_objs s))) = Ret (tt, s).
Proof.
  intros Hp Hn. unfold drop_list. cbn [length Nat.add drop_arcs st_objs]. rewrite lookup_insert_eq.
  destruct (Z.eqb_spec (n + 1) 1); [lia|]. rewrite insert_insert_eq. cbn [st_next].
  rewrite drop_arcs_nil. replace (n + 1 - 1) with n by lia. rewrite insert_id by done. by destruct s.
Qed.

(** All empty directories have the hash of nothing. *)
Lemma hash_empty_dir fuel p s n :
  st_objs s !! p = Some (n, ODir []) →
  ∃ c, hasher_finish [] = Ret c ∧ hash_kind (S fuel) (Directory p) s = Ret (c, s).
Proof.
  intros Hp. destruct (hasher_finish_range []) as (c & E & _). exists c. split; [done|].
  unfold hash_kind, hash_one. cbn [kind_hash]. rewrite Hp. cbn [pairs_hash mbind outcome_bind hasher_write app].
  by rewrite E.
Qed.

Lemma mkdir_in_panics fuel dir name ts s n o :
  store_wf s → st_objs s !! dir = Some (n, o) → mkdir_in (S fuel) dir name ts s = Panic PUnwrap.
Proof.
  intros Hwf Hd. destruct (Hwf dir n o Hd) as [Hlt Hn]. unfold mkdir_in, mbind, M_bind.
  rewrite (clone_dir_ret dir s n o Hd). unfold arc_new. cbn [st_next st_objs].
  rewrite (clone_dir_ret dir _ (n + 1) o) by (cbn; rewrite lookup_insert_ne, lookup_insert_eq by lia; done).
  match goal with |- context [hash_kind _ _ ?st] => edestruct (hash_empty_dir fuel (st_next s) st) as (c & _ & ->) end.
  { cbn. rewrite lookup_insert_ne, lookup_insert_eq by lia. done. }
  unfold insert_entry, mbind, M_bind.
  rewrite (arc_get_mut_shared dir _ (n + 1 + 1) o); [done|cbn; by rewrite lookup_insert_eq|lia].
Qed.

(** C27: nothing can be added to the file system.  [mkdir] and [create_file] on a file
    are [ENOTDIR], [create_file] on the root is [EACCES], both without a trace; on a
    directory, and [mkdir] on the root, they panic: they ask for exclusive access to a
    map that they have just shared with the new entry's parent and properties. *)
Theorem hmfs_entries_fixed fuel ENOTDIR EACCES self name mime ts data s :
  store_wf s → held s (e_kind self) →
  match e_kind self with
  | File _ => mkdir (S fuel) ENOTDIR self name ts s = Ret (inl ENOTDIR, s) ∧
              create_file (S fuel) ENOTDIR EACCES self mime name ts data s = Ret (inl ENOTDIR, s)
  | Directory _ => mkdir (S fuel) ENOTDIR self name ts s = Panic PUnwrap ∧
                   create_file (S fuel) ENOTDIR EACCES self mime name ts data s = Panic PUnwrap
  | Root _ => mkdir (S fuel) ENOTDIR self name ts s = Panic PUnwrap ∧
              create_file (S fuel) ENOTDIR EACCES self mime name ts data s = Ret (inl EACCES, s)
  end.
Proof.
  intros Hwf Hh. unfold mkdir, create_file, mbind, M_bind. destruct (e_kind self) as [p|d|p]; [|done|].
  - destruct Hh as (n & m & Hp). destruct (Hwf p _ _ Hp) as [Hlt Hn].
    rewrite (clone_dir_ret p s n _ Hp). split.
    + rewrite (mkdir_in_panics fuel p name ts _ (n + 1) (ODir m)); [done| |cbn; by rewrite lookup_insert_eq].
      intros q n' o' Hq. cbn in *. apply lookup_insert_Some in Hq as [[<- [= <- <-]]|[_ Hq]]; [lia|by eapply Hwf].
    + rewrite (clone_dir_ret p _ (n + 1) (ODir m)) by (cbn; by rewrite lookup_insert_eq).
      rewrite (clone_dir_ret p _ (n + 1 + 1) (ODir m)) by (cbn; by rewrite lookup_insert_eq).
      match goal with |- context [hash_kind _ (File data) ?st] =>
        destruct (hash_one_ret (λ s, kind_hash (S fuel) s (File data)) st (vec_hash data) eq_refl) as (c & Ec & _) end.
      unfold hash_kind. rewrite Ec. unfold insert_entry, mbind, M_bind.
      rewrite (arc_get_mut_shared p _ (n + 1 + 1 + 1) (ODir m)); [done|cbn; by rewrite lookup_insert_eq|lia].
  - destruct Hh as (n & r & Hp). destruct (Hwf p _ _ Hp) as [Hlt Hn].
    cbn [clone_kind]. unfold mbind, M_bind. rewrite (arc_clone_ret p s n _ Hp). cbn [mret M_ret]. split.
    + rewrite (arc_get_mut_shared p _ (n + 1) (ORoot r)); [done|cbn; by rewrite lookup_insert_eq|lia].
    + by rewrite (clone_drop p s n (ORoot r) Hp Hn).
Qed.

(** ** Hashing *)

(** The same objects, whatever their counts. *)
Definition same_objects (s s' : Store) : Prop := ∀ q, snd <$> st_objs s' !! q = snd <$> st_objs s !! q.

Lemma same_objects_insert s s' p n n' o :
  same_objects s s' → st_objs s !! p = Some (n, o) →
  same_objects s (MkStore (st_next s') (<[p := (n', o)]> (st_objs s'))).
Proof.
  intros Hs Hp q. cbn. destruct (decide (q = p)) as [->|]; [by rewrite lookup_insert_eq, Hp|].
  by rewrite lookup_insert_ne.
Qed.

Lemma entry_hash_ext f g e : (∀ k, f k = g k) → entry_hash f e = entry_hash g e.
Proof. intros Hfg. unfold entry_hash, option_hash. rewrite Hfg. destruct (e_parent e); [by rewrite Hfg|done]. Qed.

Lemma pairs_hash_ext f g s s' m :
  (∀ k, f k = g k) → same_objects s s' → pairs_hash f s' m = pairs_hash g s m.
Proof.
  intros Hfg Hs. induction m as [|[p a] m IH]; [done|]. cbn [pairs_hash]. rewrite IH. f_equal.
  unfold pair_hash, props_hash. cbn [fst snd]. rewrite Hfg. f_equal. specialize (Hs a).
  destruct (st_objs s' !! a) as [[n' o']|], (st_objs s !! a) as [[n o]|]; cbn in Hs; try done.
  injection Hs as ->. destruct o as [|e|]; [done| |done]. by rewrite (entry_hash_ext f g).
Qed.

Lemma kind_hash_ext fuel s s' k : same_objects s s' → kind_hash fuel s' k = kind_hash fuel s k.
Proof.
  intros Hs. revert k. induction fuel as [|fuel IH]; intros [p|d|p]; cbn [kind_hash]; try done.
  - pose proof (Hs p) as Hp. destruct (st_objs s' !! p) as [[n' o']|], (st_objs s !! p) as [[n o]|]; cbn in Hp; try done.
    injection Hp as ->. destruct o; [|done..]. by apply pairs_hash_ext.
  - pose proof (Hs p) as Hp. destruct (st_objs s' !! p) as [[n' o']|], (st_objs s !! p) as [[n o]|]; cbn in Hp; try done.
    injection Hp as ->. destruct o as [| |r]; [done..|]. unfold root_hash. by rewrite (entry_hash_ext _ _ _ IH).
Qed.

(** Pointers that lead down: those with a [rank] are of the right kind, and the rank
    decreases from an object to what it owns. *)
Definition kind_ranked (s : Store) (rank : Z → option nat) (bound : nat) (k : EntryKind) : Prop :=
  match k with
  | File _ => True
  | Directory p => ∃ i n m, rank p = Some i ∧ (i < bound)%nat ∧ st_objs s !! p = Some (n, ODir m)
  | Root p => ∃ i n r, rank p = Some i ∧ (i < bound)%nat ∧ st_objs s !! p = Some (n, ORoot r)
  end.
Definition entry_ranked (s : Store) (rank : Z → option nat) (bound : nat) (e : Entry) : Prop :=
  kind_ranked s rank bound (e_kind e) ∧ from_option (kind_ranked s rank bound) True (e_parent e).
Definition ranked (s : Store) (rank : Z → option nat) : Prop :=
  (∀ p i n m, rank p = Some i → st_objs s !! p = Some (n, ODir m) →
     Forall (λ x, kind_ranked s rank i (pr_entry_kind x.1) ∧
                  ∃ n e, st_objs s !! x.2 = Some (n, OEntry e) ∧ entry_ranked s rank i e) m) ∧
  ∀ p i n r, rank p = Some i → st_objs s !! p = Some (n, ORoot r) → entry_ranked s rank i (r_dir r).

Lemma entry_hash_ret kh s rank bound e :
  (∀ k, kind_ranked s rank bound k → ∃ bs, kh k = Ret bs) → entry_ranked s rank bound e →
  ∃ bs, entry_hash kh e = Ret bs.
Proof.
  intros Hk [He Hp]. unfold entry_hash. destruct (Hk _ He) as [bs ->]. cbn [mbind outcome_bind].
  destruct (e_parent e) as [k|]; cbn [option_hash]; [|by eexists].
  destruct (Hk k Hp) as [bs' ->]. by eexists.
Qed.

Lemma kind_ranked_le s rank a b k : (a <= b)%nat → kind_ranked s rank a k → kind_ranked s rank b k.
Proof. destruct k; cbn; [|done|]; intros Hle (i & n & o & ? & ? & ?); exists i, n, o; split_and!; done || lia. Qed.

Lemma entry_ranked_le s rank a b e : (a <= b)%nat → entry_ranked s rank a e → entry_ranked s rank b e.
Proof.
  intros Hle [Hk Hp]. split; [by eapply kind_ranked_le|]. destruct (e_parent e); [|done]. by eapply kind_ranked_le.
Qed.

Lemma kind_hash_ret s rank fuel k :
  ranked s rank → kind_ranked s rank fuel k → ∃ bs, kind_hash fuel s k = Ret bs.
Proof.
  intros [Hd Hr]. revert k. induction fuel as [|fuel IH]; intros [p|d|p] Hk; cbn [kind_hash];
    try (by eexists); destruct Hk as (i & n & o & Hi & Hlt & Hp); [lia|lia| |]; rewrite Hp.
  - pose proof (Hd p i n o Hi Hp) as Hm. clear Hp.
    induction Hm as [|[pr a] m [Hpk (n' & e & Ha & He)] _ IHm]; [by eexists|].
    cbn [pairs_hash]. unfold pair_hash, props_hash. cbn [fst snd] in *.
    destruct (IH (pr_entry_kind pr)) as [b1 ->]; [by eapply kind_ranked_le; [|done]; lia|]. cbn [mbind outcome_bind].
    assert (∃ b2, option_hash (λ x, Ret (mime_hash x)) (pr_mime_type pr) = Ret b2) as [b2 ->]
      by (destruct (pr_mime_type pr); by eexists). cbn [mbind outcome_bind]. rewrite Ha.
    destruct (entry_hash_ret (kind_hash fuel s) s rank fuel e IH) as [b3 ->];
      [by eapply entry_ranked_le; [|done]; lia|].
    cbn [mbind outcome_bind]. destruct IHm as [b4 ->]. by eexists.
  - unfold root_hash. destruct (entry_hash_ret (kind_hash fuel s) s rank fuel (r_dir o) IH) as [b ->]; [|by eexists].
    eapply entry_ranked_le; [|by eapply Hr]. lia.
Qed.

(** A directory that holds an entry whose key or parent leads back to it. *)
Lemma kind_hash_cycle s p n m pr a n' e fuel bs :
  st_objs s !! p = Some (n, ODir m) → (pr, a) ∈ m → st_objs s !! a = Some (n', OEntry e) →
  pr_entry_kind pr = Directory p ∨ e_kind e = Directory p ∨ e_parent e = Some (Directory p) →
  kind_hash fuel s (Directory p) ≠ Ret bs.
Proof.
  intros Hp Hin Ha Hback. revert bs. induction fuel as [|fuel IH]; intros bs; cbn [kind_hash]; [done|]. rewrite Hp.
  clear Hp. revert bs. induction m as [|x m IHm]; intros bs; [by apply not_elem_of_nil in Hin|]. cbn [pairs_hash].
  apply elem_of_cons in Hin as [<-|Hin].
  - intros (b1 & E & _)%bind_ret_inv. unfold pair_hash in E. apply bind_ret_inv in E as (b2 & Ep & E). cbn [fst snd] in *.
    rewrite Ha in E. apply bind_ret_inv in E as (b3 & Ee & _). unfold props_hash in Ep. unfold entry_hash in Ee.
    apply bind_ret_inv in Ep as (k1 & Ek & _). apply bind_ret_inv in Ee as (k2 & Ek2 & Ee).
    apply bind_ret_inv in Ee as (k3 & Ek3 & _).
    destruct Hback as [Hb|[Hb|Hb]]; rewrite Hb in *; [by eapply IH|by eapply IH|].
    cbn [option_hash] in Ek3. apply bind_ret_inv in Ek3 as (k4 & Ek4 & _). by eapply IH.
  - intros (b1 & _ & E)%bind_ret_inv. apply bind_ret_inv in E as (b2 & E & _). by eapply IHm in E.
Qed.

(** C28: hashing a file, directory or root returns a 64-bit number, and changes nothing, when
    the pointers it follows lead down, with as many levels of recursion as the rank says.
    A directory that holds an entry whose key, contents or parent is that directory, as
    every entry made by [mkdir] or [create_file] would be, can not be hashed: the
    recursion has no end. *)
Theorem hash_acyclic_only fuel k s :
  (∀ rank, ranked s rank → kind_ranked s rank fuel k → ∃ c, hash_kind fuel k s = Ret (c, s) ∧ is_uN 64 c) ∧
  ∀ p n m pr a n' e c s', k = Directory p →
    st_objs s !! p = Some (n, ODir m) → (pr, a) ∈ m → st_objs s !! a = Some (n', OEntry e) →
    pr_entry_kind pr = Directory p ∨ e_kind e = Directory p ∨ e_parent e = Some (Directory p) →
    hash_kind fuel k s ≠ Ret (c, s').
Proof.
  split.
  - intros rank Hr Hk. destruct (kind_hash_ret s rank fuel k Hr Hk) as [bs E]. by eapply hash_one_ret.
  - intros p n m pr a n' e c s' -> Hp Hin Ha Hb. unfold hash_kind, hash_one.
    destruct (kind_hash fuel s (Directory p)) as [bs| |] eqn:E; [|done..].
    exfalso. by eapply kind_hash_cycle.
Qed.

Lemma hash_entry_same fuel e s s' bs :
  same_objects s s' → entry_hash (kind_hash fuel s) e = Ret bs → ∃ c, hash_entry fuel e s' = Ret (c, s').
Proof.
  intros Hs E. destruct (hash_one_ret (λ s, entry_hash (kind_hash fuel s) e) s' bs) as (c & Ec & _); [|by exists c].
  rewrite <- E. apply entry_hash_ext. intros k. by apply kind_hash_ext.
Qed.

(** ** No root entry *)

(** One step of a drop that does not free. *)
Lemma drop_arcs_shared fuel p ps s n o :
  st_objs s !! p = Some (n, o) → 1 < n →
  drop_arcs (S fuel) (p :: ps) s = drop_arcs fuel ps (MkStore (st_next s) (<[p := (n - 1, o)]> (st_objs s))).
Proof. intros Hp Hn. cbn. rewrite Hp. destruct (Z.eqb_spec n 1); [lia|done]. Qed.

(** The operations on known pointers, for running a sequence of them. *)
Lemma bind_ret {A B} (m : M A) (f : A → M B) s a s' : m s = Ret (a, s') → (m ≫= f) s = f a s'.
Proof. unfold mbind, M_bind. by intros ->. Qed.
Lemma bind_pure {A B} (g : Store → A) (f : A → M B) s : ((λ s, Ret (g s, s)) ≫= f) s = f (g s) s.
Proof. done. Qed.

Lemma clone_root_ret p s n o :
  st_objs s !! p = Some (n, o) →
  clone_kind (Root p) s = Ret (Root p, MkStore (st_next s) (<[p := (n + 1, o)]> (st_objs s))).
Proof. intros Hp. unfold clone_kind, mbind, M_bind. by rewrite (arc_clone_ret p s n o Hp). Qed.

(** Entries that point to a directory [p], without a parent or with the root [r]. *)
Lemma clone_entry_dir p c s n o :
  st_objs s !! p = Some (n, o) →
  clone_entry (MkEntry (Directory p) c None) s =
    Ret (MkEntry (Directory p) c None, MkStore (st_next s) (<[p := (n + 1, o)]> (st_objs s))).
Proof. intros Hp. unfold clone_entry. cbn. by rewrite (bind_ret _ _ _ _ _ (clone_dir_ret p s n o Hp)). Qed.

Lemma clone_entry_root p r c s n o n' o' :
  st_objs s !! p = Some (n, o) → st_objs s !! r = Some (n', o') → p ≠ r →
  clone_entry (MkEntry (Directory p) c (Some (Root r))) s =
    Ret (MkEntry (Directory p) c (Some (Root r)),
         MkStore (st_next s) (<[r := (n' + 1, o')]> (<[p := (n + 1, o)]> (st_objs s)))).
Proof.
  intros Hp Hr Hne. unfold clone_entry. cbn [e_kind e_parent clone_opt_kind].
  rewrite (bind_ret _ _ _ _ _ (clone_dir_ret p s n o Hp)).
  assert (st_objs (MkStore (st_next s) (<[p := (n + 1, o)]> (st_objs s))) !! r = Some (n', o')) as Hr'
    by (cbn; by rewrite lookup_insert_ne).
  by rewrite (bind_ret _ _ _ _ _ (bind_ret _ _ _ _ _ (clone_root_ret r _ n' o' Hr'))).
Qed.

(** Dropping a pointer that is not the last. *)
Lemma drop_one p s n o :
  st_objs s !! p = Some (n, o) → 1 < n →
  drop_list [p] s = Ret (tt, MkStore (st_next s) (<[p := (n - 1, o)]> (st_objs s))).
Proof.
  intros Hp Hn. unfold drop_list. cbn [length Nat.add].
  by rewrite (drop_arcs_shared _ p [] s n o Hp Hn), drop_arcs_nil.
Qed.

Ltac lookup_known :=
  cbn [st_objs]; repeat first [rewrite lookup_insert_eq | rewrite lookup_insert_ne by lia]; reflexivity.

(** Run the next operation, by the lemma about it. *)
Ltac run t := cbv beta; erewrite bind_ret; [|t ()]; cbv beta; cbn [st_next st_objs].

(** A child of the root: cloning the parent, reading the root and dropping what was
    cloned leave the counts as they were; [parent] moves into the new entry. *)
Lemma entry_new_root fuel p r s n o n' R c bs :
  st_objs s !! p = Some (n, o) → st_objs s !! r = Some (n', ORoot R) → p ≠ r → 1 <= n → 1 <= n' →
  r_magic R = 0x90a7cafe → r_dir R = MkEntry (Directory p) c None →
  entry_hash (kind_hash fuel s) (MkEntry (Directory p) 0 (Some (Root r))) = Ret bs →
  ∃ h, entry_new fuel (Directory p) (Some (Root r)) s = Ret (MkEntry (Directory p) h (Some (Root r)), s).
Proof.
  intros Hp Hr Hne Hn Hn' Hm Hd Hbs. unfold entry_new. cbn [clone_opt_kind].
  rewrite (bind_ret _ _ _ _ _ (bind_ret _ _ _ _ _ (clone_root_ret r s n' (ORoot R) Hr))).
  run ltac:(fun _ => eapply arc_clone_ret; lookup_known).
  run ltac:(fun _ => unfold arc_get; cbn [st_objs]; rewrite lookup_insert_eq; reflexivity).
  run ltac:(fun _ => unfold get_root_dir; rewrite Hm, Hd; apply (clone_entry_dir p c _ n o);
    cbn [st_objs]; by rewrite !lookup_insert_ne).
  cbn [e_kind e_parent from_option app st_next st_objs].
  match goal with |- context [(hash_entry fuel ?e ≫= _) ?st] =>
    destruct (hash_entry_same fuel e s st bs) as [h Eh]; [|done|] end.
  { intros q. cbn [st_objs]. rewrite !lookup_insert. repeat case_decide; subst; rewrite ?Hp, ?Hr; done. }
  rewrite (bind_ret _ _ _ _ _ Eh). exists h. erewrite bind_ret; [reflexivity|].
  unfold drop_list. cbn [length Nat.add].
  rewrite (drop_arcs_shared _ p _ _ (n + 1) o) by (lookup_known || lia).
  rewrite (drop_arcs_shared _ r _ _ (n' + 1 + 1) (ORoot R))
    by (lia || (cbn [st_objs]; rewrite !lookup_insert_ne, lookup_insert_eq by done; done)).
  rewrite (drop_arcs_shared _ r _ _ (n' + 1 + 1 - 1) (ORoot R)) by (lookup_known || lia).
  rewrite drop_arcs_nil. cbn [st_next st_objs]. do 2 f_equal. destruct s as [nx m]. f_equal. cbn in *.
  apply map_eq. intros q. destruct (decide (q = r)) as [->|]; [|destruct (decide (q = p)) as [->|]].
  - rewrite lookup_insert_eq, Hr. do 2 f_equal. lia.
  - rewrite lookup_insert_ne by done. rewrite lookup_insert_ne by done. rewrite lookup_insert_eq, Hp.
    do 2 f_equal. lia.
  - by rewrite !lookup_insert_ne by done.
Qed.

Lemma arc_new_ret o s :
  arc_new o s = Ret (st_next s, MkStore (st_next s + 1) (<[st_next s := (1, o)]> (st_objs s))).
Proof. done. Qed.

(** What [RootEntry::new] hashes: a directory with one empty directory in it, and a root
    over that directory. *)
Lemma hash_one_level fuel s rm a nrm c1 c2 c3 pr ck :
  st_objs s !! nrm = Some (c3, ODir [(pr, a)]) → st_objs s !! a = Some (c2, OEntry (MkEntry (Directory rm) ck None)) →
  st_objs s !! rm = Some (c1, ODir []) → pr_entry_kind pr = Directory rm →
  ∃ bs, kind_hash (S (S fuel)) s (Directory nrm) = Ret bs.
Proof.
  intros Hn Ha Hr Hk. cbn [kind_hash]. rewrite Hn. cbn [pairs_hash]. unfold pair_hash, props_hash. cbn [fst snd].
  rewrite Hk. cbn [kind_hash]. rewrite Hr. cbn [pairs_hash mbind outcome_bind].
  assert (∃ b, option_hash (λ x, Ret (mime_hash x)) (pr_mime_type pr) = Ret b) as [b ->]
    by (destruct (pr_mime_type pr); by eexists).
  cbn [mbind outcome_bind]. rewrite Ha. unfold entry_hash. cbn [e_kind e_parent kind_hash]. rewrite Hr. by eexists.
Qed.

Lemma hash_two_levels fuel s rm a nrm ra c1 c2 c3 c4 pr ck ck' k0 R :
  st_objs s !! nrm = Some (c3, ODir [(pr, a)]) → st_objs s !! ra = Some (c4, ORoot R) →
  st_objs s !! a = Some (c2, OEntry (MkEntry (Directory rm) ck None)) →
  st_objs s !! rm = Some (c1, ODir []) → pr_entry_kind pr = Directory rm → r_dir R = MkEntry (Directory nrm) ck' None →
  ∃ bs, entry_hash (kind_hash (S (S (S fuel))) s) (MkEntry (Directory nrm) k0 (Some (Root ra))) = Ret bs.
Proof.
  intros Hn Hra Ha Hr Hk HR.
  destruct (hash_one_level (S fuel) s rm a nrm c1 c2 c3 pr ck) as [b1 E1]; [done..|].
  destruct (hash_one_level fuel s rm a nrm c1 c2 c3 pr ck) as [b2 E2]; [done..|].
  unfold entry_hash at 1. cbn [e_kind e_parent option_hash]. rewrite E1. cbn [mbind outcome_bind].
  assert (∃ b3, kind_hash (S (S (S fuel))) s (Root ra) = Ret b3) as [b3 ->]; [|by eexists].
  change (kind_hash (S (S (S fuel))) s (Root ra)) with
    (match st_objs s !! ra with Some (_, ORoot r) => root_hash (kind_hash (S (S fuel)) s) r | _ => Panic PAssert end).
  rewrite Hra. unfold root_hash, entry_hash. rewrite HR. cbn [e_kind e_parent option_hash]. rewrite E2. by eexists.
Qed.

Lemma hash_entry_one fuel s rm a nrm c1 c2 c3 pr ck k0 :
  st_objs s !! nrm = Some (c3, ODir [(pr, a)]) → st_objs s !! a = Some (c2, OEntry (MkEntry (Directory rm) ck None)) →
  st_objs s !! rm = Some (c1, ODir []) → pr_entry_kind pr = Directory rm →
  ∃ c, hash_entry (S (S fuel)) (MkEntry (Directory nrm) k0 None) s = Ret (c, s).
Proof.
  intros Hn Ha Hr Hk. destruct (hash_one_level fuel s rm a nrm c1 c2 c3 pr ck Hn Ha Hr Hk) as [b E].
  eapply (hash_entry_same _ _ s s); [done|]. unfold entry_hash. cbn [e_kind e_parent]. rewrite E. reflexivity.
Qed.

(** A file system cannot be created: [RootEntry::new] always panics, because it
    asks for exclusive access to the root's map while it holds other pointers to it. *)
Theorem root_entry_new_panics fuel ts s : root_new (S (S (S fuel))) ts s = Panic PUnwrap.
Proof.
  unfold root_new.
  run ltac:(fun _ => apply arc_new_ret).
  run ltac:(fun _ => eapply clone_dir_ret; lookup_known).
  run ltac:(fun _ => eapply clone_dir_ret; lookup_known).
  run ltac:(fun _ => eapply clone_dir_ret; lookup_known).
  run ltac:(fun _ => reflexivity).
  run ltac:(fun _ => apply arc_new_ret).
  rewrite bind_pure, hm_insert_empty.
  run ltac:(fun _ => eapply drop_one; [lookup_known|lia]).
  run ltac:(fun _ => apply arc_new_ret).
  run ltac:(fun _ => eapply arc_clone_ret; lookup_known).
  run ltac:(fun _ => reflexivity).
  run ltac:(fun _ => unfold strong_count; cbn [st_objs]; rewrite lookup_insert_eq; reflexivity).
  match goal with |- (hash_entry _ (MkEntry (Directory ?p) ?k _) ≫= _) ?st = _ =>
    edestruct (hash_entry_one (S fuel) st) with (nrm := p) (k0 := k) as [h0 Eh0];
      [lookup_known|lookup_known|lookup_known|done|] end.
  rewrite (bind_ret _ _ _ _ _ Eh0). cbv beta. clear Eh0.
  run ltac:(fun _ => eapply arc_clone_ret; lookup_known).
  run ltac:(fun _ => eapply clone_entry_dir; lookup_known).
  run ltac:(fun _ => apply arc_new_ret).
  match goal with |- (entry_new _ (Directory ?p) (Some (Root ?r)) ≫= _) ?st = _ =>
    edestruct (hash_two_levels fuel st) with (nrm := p) (ra := r) (k0 := 0) as [bs Ebs];
      [lookup_known|lookup_known|lookup_known|lookup_known|done|done|];
    edestruct (entry_new_root (S (S (S fuel))) p r st) as [h Hh];
      [lookup_known|lookup_known|lia|lia|lia|done|done|exact Ebs|]; clear Ebs end.
  rewrite (bind_ret _ _ _ _ _ Hh). cbv beta. clear Hh.
  run ltac:(fun _ => eapply clone_entry_root; [lookup_known|lookup_known|lia]).
  run ltac:(fun _ => eapply drop_one; [lookup_known|lia]).
  run ltac:(fun _ => eapply clone_entry_root; [lookup_known|lookup_known|lia]).
  run ltac:(fun _ => apply arc_new_ret).
  run ltac:(fun _ => eapply drop_one; [lookup_known|lia]).
  run ltac:(fun _ => eapply arc_clone_ret; lookup_known).
  run ltac:(fun _ => eapply drop_one; [lookup_known|lia]).
  match goal with |- (hash_entry _ (MkEntry (Directory ?p) ?k (Some (Root ?r))) ≫= _) ?st = _ =>
    edestruct (hash_two_levels fuel st) with (nrm := p) (ra := r) (k0 := k) as [bs1 Ebs];
      [lookup_known|lookup_known|lookup_known|lookup_known|done|done|];
    destruct (hash_entry_same _ _ st st bs1 (λ _, eq_refl) Ebs) as [h1 Eh1] end.
  rewrite (bind_ret _ _ _ _ _ Eh1). cbv beta. clear Eh1 Ebs.
  run ltac:(fun _ => eapply clone_entry_root; [lookup_known|lookup_known|lia]).
  unfold mbind, M_bind. erewrite arc_get_mut_shared; [done|lookup_known|lia].
Qed.

End HmfsTheory.

(** ** Concrete runs *)

(** A map that compares keys by name, and a constant hash. *)
#[export] Instance hmfs_model : HmfsEnv | 100 := {
  hm_insert _ m p a := (p, a) :: filter (λ x, pr_name x.1 ≠ pr_name p) m;
  hm_get _ m p := snd <$> List.find (λ x, bool_decide (pr_name x.1 = pr_name p)) m;
  hm_remove _ m p := (List.find (λ x, bool_decide (pr_name x.1 = pr_name p)) m,
                      filter (λ x, pr_name x.1 ≠ pr_name p) m);
  sha3_512 _ := replicate 64 0;
  path_hash := str_hash;
  mime_hash := str_hash;
}.
#[export] Instance hmfs_model_laws : HmfsEnvLaws.
Proof. split; [done| |done]. intros bs. cbn. repeat constructor; unfold is_uN; lia. Qed.

Lemma hmfs_witness :
  mkdir 1 20 (MkEntry (Directory 0) 0 None) "home" 0 (MkStore 1 {[0 := (1, ODir [])]}) = Panic PUnwrap ∧
  mkdir 1 20 (MkEntry (File []) 0 None) "home" 0 empty_store = Ret (inl 20, empty_store).
Proof.
  split.
  - apply (hmfs_entries_fixed 0 20 13 (MkEntry (Directory 0) 0 None) "home" "text/plain" 0 []
             (MkStore 1 {[0 := (1, ODir [])]})).
    + intros p n o Hp. cbn in Hp. apply lookup_singleton_Some in Hp as [<- [= <- <-]]. cbn. lia.
    + exists 1, []. reflexivity.
  - apply (hmfs_entries_fixed 0 20 13 (MkEntry (File []) 0 None) "home" "text/plain" 0 [] empty_store); [|done].
    intros p n o Hp. cbn in Hp. by rewrite lookup_empty in Hp.
Defined.

(** A directory with an empty one in it, and the same directory after [mkdir] has put the new
    entry into it, under a key that points back. *)
Definition nested_store (key : EntryKind) : Store :=
  MkStore 3 {[ 0 := (1, ODir []); 1 := (1, OEntry (MkEntry (Directory 0) 0 None));
               2 := (1, ODir [(properties_new "home" key None 511 "root" 0 0 "root", 1)]) ]}.

Lemma hash_witness :
  (∃ c, hash_kind 2 (Directory 2) (nested_store (File [])) = Ret (c, nested_store (File [])) ∧ is_uN 64 c) ∧
  hash_kind 2 (Directory 2) (nested_store (Directory 2)) ≠ Ret (0, nested_store (Directory 2)).
Proof.
  split.
  - apply (proj1 (hash_acyclic_only 2 (Directory 2) (nested_store (File []))))
      with (rank := λ p, if p =? 0 then Some 0%nat else if p =? 2 then Some 1%nat else None).
    + split; intros p i n o Hi Hp; destruct (Z.eqb_spec p 0) as [->|]; [|destruct (Z.eqb_spec p 2) as [->|]; [|done]| |
        destruct (Z.eqb_spec p 2) as [->|]; [|done]]; cbn in Hp; simplify_map_eq.
      * constructor.
      * repeat constructor; cbn. exists 1, (MkEntry (Directory 0) 0 None). split; [done|].
        split; [|done]. exists 0%nat, 1, []. split_and!; [done|lia|done].
    + eexists 1%nat, 1, _. split_and!; [done|lia|reflexivity].
  - eapply (proj2 (hash_acyclic_only 2 (Directory 2) (nested_store (Directory 2))));
      [reflexivity|reflexivity|left|reflexivity|by left].
Defined.
