(* ===== verification/Hmfsprogs.v ===== *)
(** * The file-system tool, hmfsprogs/src/main.rs

    The tool carries its own copy of the kernel's fs/hmfs.rs, word for word, and a [main]
    that is not written yet; its definitions are the ones of Hmfs. *)

From S2P Require Import Prelude Hmfs.

Local Open Scope Z_scope.

Definition tool_EntryKind : Type := EntryKind.
Definition tool_Entry : Type := Entry.
Definition tool_Properties : Type := Properties.
Definition tool_RootEntry : Type := RootEntry.

Section Tool.
Context `{HmfsEnvLaws}.

Definition tool_u64_from_slice : list Z → outcome Z := u64_from_slice.
Definition tool_hasher_write : list Z → list Z → list Z := hasher_write.
Definition tool_hasher_finish : list Z → outcome Z := hasher_finish.
Definition tool_entry_new (fuel : nat) : tool_EntryKind → option tool_EntryKind → M tool_Entry := entry_new fuel.
Definition tool_kind_hash : nat → Store → tool_EntryKind → outcome (list Z) := kind_hash.
Definition tool_parent : tool_Entry → M (option tool_EntryKind) := parent.
Definition tool_mkdir (fuel : nat) (ENOTDIR : Z) : tool_Entry → string → Z → M (Z + tool_Entry) := mkdir fuel ENOTDIR.
Definition tool_create_file (fuel : nat) (ENOTDIR EACCES : Z)
    : tool_Entry → string → string → Z → list Z → M (Z + tool_Entry) :=
  create_file fuel ENOTDIR EACCES.
Definition tool_properties_new := properties_new.
Definition tool_root_new (fuel : nat) : Z → M tool_RootEntry := root_new fuel.
Definition tool_get_root_dir : tool_RootEntry → M tool_Entry := get_root_dir.

(** [main] is [todo!()]. *)
Definition tool_main : M unit := fail PAssert.

(** The tool cannot make a file system: its [main] stops at once, and so would the call
    that creates a root, in every state. *)
Lemma tool_makes_no_root fuel ts s :
  (∃ p, tool_main s = Panic p) ∧ ∃ p, tool_root_new (S (S (S fuel))) ts s = Panic p.
Proof. split; eexists; [done|]. apply root_entry_new_panics. Qed.

End Tool.
