(* ===== verification/Drm.v ===== *)
(** * Graphics: src/drm/mod.rs, src/drm/avx_accel.rs and src/drm/cryptk.rs

    Pixels, canvases and their compositing, under [with_avx], which switches the vector
    unit on and off.  [f32] is IEEE binary32 ([SpecFloat] with 24 bits of precision);
    the PNG decoder ([minipng]) is a parameter. *)

From Stdlib Require Import SpecFloat.
From S2P Require Import Prelude.

Local Open Scope Z_scope.

(** ** The vector unit *)

Module Avx.

Definition MONITOR_COPROCESSOR : Z := Z.shiftl 1 1.
Definition EMULATE_COPROCESSOR : Z := Z.shiftl 1 2.
Definition OSFXSR : Z := Z.shiftl 1 9.
Definition OSXMMEXCPT_ENABLE : Z := Z.shiftl 1 10.

(** Control registers, and what CPUID reports. *)
Record Ctl : Type := MkCtl { cr0 : Z; cr4 : Z; xcr0 : Z }.
Record Features : Type := MkFeatures {
  has_sse : bool; has_sse2 : bool; has_sse3 : bool; has_ssse3 : bool; has_sse41 : bool; has_sse42 : bool;
  has_avx : bool;
}.

(** [Flags::set]. *)
Definition set_flag (x f : Z) (b : bool) : Z := if b then Z.lor x f else Z.land x (unot 64 f).

Definition any_sse (i : Features) : bool :=
  has_sse i || has_sse2 i || has_sse3 i || has_ssse3 i || has_sse41 i || has_sse42 i.

Definition enable_sse (cpuid : option Features) (c : Ctl) : outcome Ctl :=
  info ← unwrap cpuid;
  if any_sse info then
    let c0 := set_flag (set_flag (cr0 c) EMULATE_COPROCESSOR false) MONITOR_COPROCESSOR true in
    let c4 := set_flag (set_flag (cr4 c) OSFXSR true) OSXMMEXCPT_ENABLE true in
    Ret (MkCtl c0 c4 (xcr0 c))
  else Panic (PMsg "CPU doesn't support SSE").

(** [xgetbv; or eax, 7; xsetbv]. *)
Definition enable_avx (cpuid : option Features) (c : Ctl) : outcome Ctl :=
  info ← unwrap cpuid;
  if has_avx info then
    c ← enable_sse cpuid c;
    Ret (MkCtl (cr0 c) (cr4 c) (Z.lor (xcr0 c) 7))
  else Panic (PMsg "AVX not supported").

(** [xgetbv; or eax, 0; xsetbv]. *)
Definition disable_avx (cpuid : option Features) (c : Ctl) : outcome Ctl :=
  info ← unwrap cpuid;
  if has_avx info then Ret (MkCtl (cr0 c) (cr4 c) (Z.lor (xcr0 c) 0))
  else Panic (PMsg "AVX not supported").

Definition disable_sse (cpuid : option Features) (c : Ctl) : outcome Ctl :=
  info ← unwrap cpuid;
  if any_sse info then
    c ← (if has_avx info then disable_avx cpuid c else Ret c);
    let c4 := set_flag (set_flag (cr4 c) OSFXSR false) OSXMMEXCPT_ENABLE false in
    let c0 := set_flag (set_flag (cr0 c) MONITOR_COPROCESSOR false) EMULATE_COPROCESSOR true in
    Ret (MkCtl c0 c4 (xcr0 c))
  else Panic (PMsg "CPU doesn't support SSE").

Definition with_avx {A} (cpuid : option Features) (f : outcome A) (c : Ctl) : outcome (A * Ctl) :=
  info ← unwrap cpuid;
  if has_avx info then
    c ← enable_avx cpuid c;
    ret ← f;
    c ← disable_sse cpuid c;
    Ret (ret, c)
  else Panic (PMsg "AVX not supported").

(** Bits of a register after [set_flag] with a single-bit flag. *)
Lemma set_flag_testbit x k b i :
  0 <= k < 64 → 0 <= i < 64 → Z.testbit (set_flag x (Z.shiftl 1 k) b) i = if i =? k then b else Z.testbit x i.
Proof.
  intros Hk Hi. unfold set_flag. rewrite Z.shiftl_1_l.
  assert (is_uN 64 (2 ^ k)) by (split; [apply Z.pow_nonneg; lia|apply Z.pow_lt_mono_r; lia]).
  destruct b; [rewrite Z.lor_spec|rewrite Z.land_spec, unot_testbit by done];
    rewrite Z.pow2_bits_eqb, (Z.eqb_sym k i) by lia; destruct (i =? k);
    by rewrite ?orb_true_r, ?orb_false_r, ?andb_true_r, ?andb_false_r.
Qed.

(** Running a closure always ends with the unit off, whatever was on before, and with
    the x87, SSE and AVX state components of XCR0 left enabled. *)
Lemma with_avx_spec {A} info (a : A) c :
  has_avx info = true → any_sse info = true →
  ∃ c', with_avx (Some info) (Ret a) c = Ret (a, c') ∧
    (∀ i, 0 <= i < 64 → Z.testbit (cr0 c') i =
       if i =? 2 then true else if i =? 1 then false else Z.testbit (cr0 c) i) ∧
    (∀ i, 0 <= i < 64 → Z.testbit (cr4 c') i = if (i =? 9) || (i =? 10) then false else Z.testbit (cr4 c) i) ∧
    xcr0 c' = Z.lor (xcr0 c) 7.
Proof.
  intros Ha Hs. unfold with_avx, enable_avx, enable_sse, disable_sse, disable_avx.
  cbn [mbind outcome_bind unwrap]. rewrite Ha. cbn [mbind outcome_bind unwrap].
  rewrite Hs. cbn [mbind outcome_bind unwrap]. eexists. split; [done|]. cbn [cr0 cr4 xcr0].
  unfold MONITOR_COPROCESSOR, EMULATE_COPROCESSOR, OSFXSR, OSXMMEXCPT_ENABLE. split_and!.
  - intros i Hi. rewrite !set_flag_testbit by lia. destruct (i =? 2), (i =? 1); done.
  - intros i Hi. rewrite !set_flag_testbit by lia. destruct (i =? 9), (i =? 10); done.
  - by rewrite Z.lor_0_r.
Qed.

End Avx.

(** ** Single-precision floats *)

Definition f32 : Type := spec_float.
#[export] Instance f32_eq_dec : EqDecision f32.
Proof. unfold f32. solve_decision. Defined.
Definition fmul : f32 → f32 → f32 := SFmul 24 128.
Definition fadd : f32 → f32 → f32 := SFadd 24 128.
Definition fsub : f32 → f32 → f32 := SFsub 24 128.
(** [as f32] of a small integer. *)
Definition to_f32 (z : Z) : f32 := binary_normalize 24 128 z 0 false.
(** [as u8] and [cast::<u8>()]: towards zero, saturating, NaN to 0. *)
Definition to_u8 (x : f32) : Z :=
  match x with
  | S754_zero _ | S754_nan | S754_infinity true => 0
  | S754_infinity false => 255
  | S754_finite true _ _ => 0
  | S754_finite false m e => Z.min 255 (if 0 <=? e then Z.shiftl (Z.pos m) e else Z.shiftr (Z.pos m) (- e))
  end.
Definition f32_one : f32 := to_f32 1.
Definition f32_zero : f32 := to_f32 0.

(** ** Colours *)

(** [Rgb888::new(r, g, b)], [Bgr888::new(r, g, b)] and [Gray8::new(luma)]. *)
Inductive PixelColorKind : Type :=
  | Rgb (r g b : Z)
  | Bgr (r g b : Z)
  | U8 (luma : Z).

Inductive PixelFormat : Type := FormatRgb | FormatBgr | FormatU8 | FormatUnknown.
Record FrameBufferInfo : Type := MkInfo {
  fb_width : Z; fb_height : Z; fb_format : PixelFormat; fb_bytes_per_pixel : Z; fb_stride : Z;
}.
Record FrameBuffer : Type := MkFb { fb_info : FrameBufferInfo; fb_bytes : list Z }.

(** [((red * green * blue) / 3) as u8]. *)
Definition luma_of (red green blue : Z) : Z := wrap 8 (red * green * blue / 3).

Definition from_framebuffer (info : FrameBufferInfo) (red green blue : Z) : outcome PixelColorKind :=
  match fb_format info with
  | FormatRgb => Ret (Rgb red green blue)
  | FormatBgr => Ret (Bgr red green blue)
  | FormatU8 => Ret (U8 (luma_of red green blue))
  | FormatUnknown => Panic (PMsg "Unknown pixel format")
  end.

(** The four SIMD lanes of a colour; the fourth is 0. *)
Definition lanes (c : PixelColorKind) : Z * Z * Z :=
  match c with Bgr r g b => (b, g, r) | Rgb r g b => (r, g, b) | U8 l => (l, l, l) end.

(** One lane of [alpha * this + (1 - alpha) * other]. *)
Definition blend (alpha : f32) (a b : Z) : Z :=
  to_u8 (fadd (fmul alpha (to_f32 a)) (fmul (fsub f32_one alpha) (to_f32 b))).

Definition alpha_in_range (alpha : f32) : bool := SFleb f32_zero alpha && SFleb alpha f32_one.

Definition alpha_blend (self : PixelColorKind) (alpha : f32) (other : PixelColorKind) : outcome PixelColorKind :=
  if alpha_in_range alpha then
    let '(a0, a1, a2) := lanes self in
    let '(b0, b1, b2) := lanes other in
    let o0 := blend alpha a0 b0 in let o1 := blend alpha a1 b1 in let o2 := blend alpha a2 b2 in
    Ret (match self with
         | Rgb _ _ _ => Rgb o0 o1 o2
         | Bgr _ _ _ => Bgr o0 o1 o2
         | U8 _ => U8 (luma_of o0 o1 o2)
         end)
  else Panic (PMsg "Alpha value must be a value between 0 and 1").

(** ** Framebuffers as pixels *)

Abbreviation Point := (Z * Z)%type.
Abbreviation Pixel := (Point * PixelColorKind)%type.

(** Columns outside, rows inside. *)
Definition buffer_points (info : FrameBufferInfo) : list Point :=
  seq 0 (Z.to_nat (fb_width info)) ≫= λ x,
    (λ y, (swrap 32 (Z.of_nat x), swrap 32 (Z.of_nat y))) <$> seq 0 (Z.to_nat (fb_height info)).

(** [iter().step_by(n)]. *)
Definition step_by {A} (n : nat) (l : list A) : outcome (list A) :=
  match n with
  | O => Panic PAssert
  | _ => Ret (omap (λ i, l !! (i * n)%nat) (seq 0 ((length l + n - 1) / n)))
  end.

(** [mapM] in the outcome monad: the lazy iterator, forced from the left. *)
Fixpoint mapO {A B} (f : A → outcome B) (l : list A) : outcome (list B) :=
  match l with
  | [] => Ret []
  | x :: l => y ← f x; ys ← mapO f l; Ret (y :: ys)
  end.

Definition buffer_color (fb : FrameBuffer) : outcome (list PixelColorKind) :=
  let info := fb_info fb in
  let bpp := Z.to_nat (fb_bytes_per_pixel info) in
  let bytes := fb_bytes fb in
  match fb_format info with
  | FormatRgb =>
      red ← step_by bpp bytes; green ← step_by bpp (drop 1 bytes); blue ← step_by bpp (drop 2 bytes);
      mapO (λ '(r, g, b), from_framebuffer info r g b) (zip (zip red green) blue)
  | FormatBgr =>
      blue ← step_by bpp bytes; green ← step_by bpp (drop 1 bytes); red ← step_by bpp (drop 2 bytes);
      mapO (λ '(r, g, b), from_framebuffer info r g b) (zip (zip red green) blue)
  | FormatU8 =>
      gray ← step_by bpp bytes;
      mapO (λ g, from_framebuffer info g g g) gray
  | FormatUnknown => Panic (PMsg "Unknown pixel format")
  end.

Definition buffer_pixels (fb : FrameBuffer) : outcome (list Pixel) :=
  cs ← buffer_color fb; Ret (zip (buffer_points (fb_info fb)) cs).

(** ** Canvases *)

Record CanvasBuf : Type := MkCanvas { cv_pixels : list Pixel; cv_info : FrameBufferInfo }.

Definition canvas_new (fb : FrameBuffer) : outcome CanvasBuf :=
  ps ← buffer_pixels fb; Ret (MkCanvas ps (fb_info fb)).

(** [Pixelx16]: sixteen adjacent pixels; [as_slice] runs from the first pointer up to,
    and without, the last. *)
Definition x16_as_slice (ps : list Pixel) : list Pixel := take 15 ps.

(** [me[i].1 = me[i].1.alpha_blend(alpha, other[i].1)]. *)
Definition x16_blend_at (alpha : f32) (other : list Pixel) (me : list Pixel) (i : Z) : outcome (list Pixel) :=
  m ← index me i;
  o ← index other i;
  c ← alpha_blend m.2 alpha o.2;
  index_set me i (m.1, c).

Definition x16_alpha_blend (alpha : f32) (me other : list Pixel) : outcome (list Pixel) :=
  foldO (x16_blend_at alpha (x16_as_slice other)) (Z.of_nat <$> seq 0 16) (x16_as_slice me).

(** [array_chunks::<n>()] and [chunks_exact(n)]. *)
Definition chunks_exact {A} (n : nat) (l : list A) : list (list A) :=
  (λ i, take n (drop (i * n) l)) <$> seq 0 (length l / n).

(** The loop over the chunks; [new_pixels[step..step + 15]] is replaced. *)
Fixpoint canvas_blend_loop (alpha : f32) (chunks : list (list Pixel * list Pixel)) (step_idx : nat)
    (new_pixels : list Pixel) : outcome (list Pixel) :=
  match chunks with
  | [] => Ret new_pixels
  | (this, other) :: chunks =>
      this ← x16_alpha_blend alpha this other;
      if bool_decide (length this = 15%nat) && (step_idx + 15 <=? length new_pixels)%nat then
        canvas_blend_loop alpha chunks (step_idx + 16)
          (take step_idx new_pixels ++ this ++ drop (step_idx + 15) new_pixels)
      else Panic PBounds
  end.

Definition canvas_alpha_blend (cpuid : option Avx.Features) (self : CanvasBuf) (alpha : f32)
    (other : CanvasBuf) (c : Avx.Ctl) : outcome (CanvasBuf * Avx.Ctl) :=
  '(ps, c) ← Avx.with_avx cpuid
     (canvas_blend_loop alpha (zip (chunks_exact 16 (cv_pixels self)) (chunks_exact 16 (cv_pixels other)))
        0 (cv_pixels self)) c;
  Ret (MkCanvas ps (cv_info self), c).

(** The bytes of a pixel in the framebuffer. *)
Definition pixel_bytes (c : PixelColorKind) : list Z :=
  match c with Bgr r g b => [b; g; r; 0] | Rgb r g b => [r; g; b; 0] | U8 l => [l; 0; 0; 0] end.

(** [chunk.copy_from_slice(new_chunk.as_mut_array())]: the lengths must agree. *)
Definition merge_chunk (x : list Z * Pixel) : outcome (list Z) :=
  if bool_decide (length x.1 = 4%nat) then Ret (pixel_bytes x.2.2) else Panic PBounds.

Definition merge_bytes (bpp : nat) (ps : list Pixel) (bytes : list Z) : outcome (list Z) :=
  match bpp with
  | O => Panic PAssert
  | _ =>
      let chunks := zip (chunks_exact bpp bytes) ps in
      new ← mapO merge_chunk chunks;
      Ret (mjoin new ++ drop (length chunks * bpp) bytes)
  end.

Definition merge_down (cpuid : option Avx.Features) (self : CanvasBuf) (root : FrameBuffer) (c : Avx.Ctl)
    : outcome (FrameBuffer * Avx.Ctl) :=
  '(bytes, c) ← Avx.with_avx cpuid
     (merge_bytes (Z.to_nat (fb_bytes_per_pixel (fb_info root))) (cv_pixels self) (fb_bytes root)) c;
  Ret (MkFb (fb_info root) bytes, c).

(** The compositing table, and [CanvasBuf::register]. *)
Abbreviation CompositingTable := (list CanvasBuf).
Definition register (self : CanvasBuf) (t : CompositingTable) : CompositingTable := t ++ [self].

Definition canvas_size (self : CanvasBuf) : Z * Z :=
  (wrap 32 (fb_width (cv_info self)), wrap 32 (fb_height (cv_info self))).

(** [draw_iter]: a coordinate is cast from [i32] to [usize] with its sign. *)
Definition draw_pixel (info : FrameBufferInfo) (ps : list Pixel) (p : Pixel) : outcome (list Pixel) :=
  let '((x, y), color) := p in
  o ← umul 64 (wrap 64 y) (fb_stride info);
  pixel_offset ← uadd 64 o (wrap 64 x);
  c ← match color with
      | Rgb r g b | Bgr r g b => from_framebuffer info r g b
      | U8 l => from_framebuffer info l l l
      end;
  index_set ps pixel_offset ((x, y), c).

Definition draw_iter (self : CanvasBuf) (pixels : list Pixel) : outcome CanvasBuf :=
  ps ← foldO (draw_pixel (cv_info self)) pixels (cv_pixels self);
  Ret (MkCanvas ps (cv_info self)).

(** ** PNG images *)

Inductive ColorType : Type := Gray | GrayAlpha | RgbType | Rgba | Indexed.

(** What [minipng::ImageData] answers. *)
Class PngImage : Type := {
  img_width : Z; img_height : Z; img_pixels : list Z; img_color_type : ColorType;
  img_palette : Z → list Z;
}.

Section Png.
Context `{PngImage}.

Definition from_png_metadata (red green blue : Z) (kind : ColorType) (alpha : option Z)
    : outcome PixelColorKind :=
  let luma := luma_of red green blue in
  match kind with
  | Gray => Ret (U8 luma)
  | GrayAlpha => a ← unwrap alpha; alpha_blend (U8 luma) (to_f32 a) (U8 luma)
  | RgbType => Ret (Rgb red green blue)
  | Rgba => a ← unwrap alpha; alpha_blend (Rgb red green blue) (to_f32 a) (Rgb red green blue)
  | Indexed =>
      r ← index (img_palette luma) 0; g ← index (img_palette luma) 1; b ← index (img_palette luma) 2;
      Ret (Rgb r g b)
  end.

Definition png_points : list Point :=
  seq 0 (Z.to_nat img_width) ≫= λ x,
    (λ y, (swrap 32 (Z.of_nat x), swrap 32 (Z.of_nat y))) <$> seq 0 (Z.to_nat img_height).

Definition png_color_at (p : Point) : outcome PixelColorKind :=
  row ← umul 32 (wrap 32 p.2) img_width;
  i ← uadd 32 (wrap 32 p.1) row;
  chunk ← unwrap (chunks_exact 4 img_pixels !! Z.to_nat i);
  red ← index chunk 0; green ← index chunk 1; blue ← index chunk 2;
  alpha ← match img_color_type with
          | GrayAlpha | Rgba => a ← index chunk 3; Ret (Some a)
          | Gray | RgbType | Indexed => Ret None
          end;
  from_png_metadata red green blue img_color_type alpha.

Definition png_pixels : outcome (list Pixel) :=
  cs ← mapO png_color_at png_points; Ret (zip png_points cs).

End Png.

(** [DesktopBackground]; a bitmap is the pixels its decoder ([tinybmp]) yields. *)
Inductive ImageKind : Type := Bmp (pixels : list Pixel) | Png (img : PngImage).
Record DesktopBackground : Type := MkBackground { bg_img : ImageKind; bg_canvas : CanvasBuf }.

Definition background_new (img : ImageKind) (fb : FrameBuffer) : outcome DesktopBackground :=
  c ← canvas_new fb; Ret (MkBackground img c).

Definition background_draw (self : DesktopBackground) : outcome DesktopBackground :=
  ps ← match bg_img self with Bmp ps => Ret ps | Png img => @png_pixels img end;
  c ← draw_iter (bg_canvas self) ps;
  Ret (MkBackground (bg_img self) c).

Definition background_register (self : DesktopBackground) (t : CompositingTable) : CompositingTable :=
  register (bg_canvas self) t.

(** ** Blending *)

Definition color_ok (c : PixelColorKind) : Prop :=
  match c with Rgb r g b | Bgr r g b => is_uN 8 r ∧ is_uN 8 g ∧ is_uN 8 b | U8 l => is_uN 8 l end.

Lemma to_u8_range x : is_uN 8 (to_u8 x).
Proof.
  unfold is_uN. destruct x as [|[]| |[] m e]; cbn [to_u8]; try (cbn; lia).
  split; [|change (2 ^ 8) with 256; lia]. apply Z.min_glb; [lia|].
  destruct (0 <=? e); [apply Z.shiftl_nonneg|apply Z.shiftr_nonneg]; lia.
Qed.

(** Facts about the 256 byte values, by running through them. *)
Definition byte_facts (a : Z) : bool :=
  bool_decide (fmul f32_one (to_f32 a) = to_f32 a) && bool_decide (fmul f32_zero (to_f32 a) = f32_zero) &&
  bool_decide (fadd (to_f32 a) f32_zero = to_f32 a) && bool_decide (fadd f32_zero (to_f32 a) = to_f32 a) &&
  (to_u8 (to_f32 a) =? a).

Lemma byte_facts_all a : is_uN 8 a → byte_facts a = true.
Proof.
  intros Ha. unfold is_uN in Ha. change (2 ^ 8) with 256 in Ha.
  assert (forallb (λ k : nat, byte_facts (Z.of_nat k)) (seq 0 256) = true) as Hall by (by vm_compute).
  rewrite forallb_forall in Hall. rewrite <- (Z2Nat.id a) by lia. apply Hall, in_seq. lia.
Qed.

Lemma blend_one a b : is_uN 8 a → is_uN 8 b → blend f32_one a b = a.
Proof.
  intros Ha%byte_facts_all Hb%byte_facts_all. unfold byte_facts, blend in *.
  rewrite !andb_true_iff, !bool_decide_eq_true, Z.eqb_eq in Ha, Hb.
  destruct Ha as ((((-> & _) & Hz) & _) & Hu), Hb as ((((_ & Hb0) & _) & _) & _).
  change (fsub f32_one f32_one) with f32_zero. by rewrite Hb0, Hz.
Qed.

Lemma blend_zero a b : is_uN 8 a → is_uN 8 b → blend f32_zero a b = b.
Proof.
  intros Ha%byte_facts_all Hb%byte_facts_all. unfold byte_facts, blend in *.
  rewrite !andb_true_iff, !bool_decide_eq_true, Z.eqb_eq in Ha, Hb.
  destruct Ha as ((((_ & ->) & _) & _) & _), Hb as ((((H1 & _) & _) & Hz) & Hu).
  change (fsub f32_one f32_zero) with f32_one. by rewrite H1, Hz.
Qed.

Lemma lanes_ok c :
  color_ok c → ∃ x y z, lanes c = (x, y, z) ∧ is_uN 8 x ∧ is_uN 8 y ∧ is_uN 8 z.
Proof.
  destruct c; cbn [color_ok lanes]; [intros (? & ? & ?)..|intros ?]; do 3 eexists; split_and!; done.
Qed.

(** C26: blending with an alpha between 0 and 1 gives a colour of the same kind with
    byte channels, and any other alpha panics.  At the ends the channels are exactly
    the first colour's (alpha 1) or the second's lanes (alpha 0), except that a [Bgr]
    colour comes back with red and blue exchanged, and a grey one with the cube of its
    luma over 3, cut to a byte. *)
Theorem alpha_blend_correct self alpha other :
  color_ok self → color_ok other →
  (alpha_in_range alpha = false → ∃ m, alpha_blend self alpha other = Panic (PMsg m)) ∧
  (alpha_in_range alpha = true → ∃ c, alpha_blend self alpha other = Ret c ∧ color_ok c ∧
     match self, c with Rgb _ _ _, Rgb _ _ _ | Bgr _ _ _, Bgr _ _ _ | U8 _, U8 _ => True | _, _ => False end) ∧
  alpha_blend self f32_one other =
    Ret (match self with Rgb r g b => Rgb r g b | Bgr r g b => Bgr b g r | U8 l => U8 (luma_of l l l) end) ∧
  alpha_blend self f32_zero other =
    Ret (let '(x, y, z) := lanes other in
         match self with Rgb _ _ _ => Rgb x y z | Bgr _ _ _ => Bgr x y z | U8 _ => U8 (luma_of x y z) end).
Proof.
  intros Hs Ho.
  assert (∃ a0 a1 a2, lanes self = (a0, a1, a2) ∧ is_uN 8 a0 ∧ is_uN 8 a1 ∧ is_uN 8 a2)
    as (a0 & a1 & a2 & Ea & Ha0 & Ha1 & Ha2) by (by apply lanes_ok).
  assert (∃ b0 b1 b2, lanes other = (b0, b1, b2) ∧ is_uN 8 b0 ∧ is_uN 8 b1 ∧ is_uN 8 b2)
    as (b0 & b1 & b2 & Eb & Hb0 & Hb1 & Hb2) by (by apply lanes_ok).
  unfold alpha_blend. rewrite Ea, Eb. split_and!.
  - intros ->. by eexists.
  - intros ->. eexists. split; [done|]. unfold blend.
    destruct self; cbn [color_ok]; split; try done; try (split_and!; apply to_u8_range).
    apply wrap_range. lia.
  - change (alpha_in_range f32_one) with true. cbn [negb]. rewrite !blend_one by done.
    destruct self; cbn in Ea; by injection Ea as <- <- <-.
  - change (alpha_in_range f32_zero) with true. cbn [negb]. by rewrite !blend_zero by done.
Qed.

Lemma alpha_blend_witness :
  alpha_blend (Bgr 1 2 3) f32_one (U8 7) = Ret (Bgr 3 2 1) ∧
  alpha_blend (Rgb 1 2 3) f32_zero (U8 7) = Ret (Rgb 7 7 7).
Proof.
  assert (color_ok (Bgr 1 2 3) ∧ color_ok (Rgb 1 2 3) ∧ color_ok (U8 7)) as (H1 & H2 & H3)
    by (unfold color_ok, is_uN; cbn; lia).
  split.
  - apply (alpha_blend_correct _ f32_one _ H1 H3).
  - apply (alpha_blend_correct _ f32_one _ H2 H3).
Defined.

(** ** Chunks and strides *)

Lemma omap_fmap {A B C} (f : B → option C) (g : A → B) (l : list A) : omap f (g <$> l) = omap (f ∘ g) l.
Proof. induction l as [|x l IH]; cbn; [done|]. by destruct (f (g x)); rewrite IH. Qed.

Lemma step_by_nil {A} n : @step_by A (S n) [] = Ret [].
Proof. unfold step_by. cbn [length]. by rewrite Nat.div_small by lia. Qed.

(** A stride takes the head and goes on [n] elements after it. *)
Lemma step_by_cons {A} n (x : A) l ys :
  step_by (S n) (drop n l) = Ret ys → step_by (S n) (x :: l) = Ret (x :: ys).
Proof.
  destruct (decide (n < length l)%nat) as [Hn|Hn].
  - unfold step_by. intros [= <-]. f_equal.
    replace ((length (x :: l) + S n - 1) / S n)%nat with (S ((length (drop n l) + S n - 1) / S n)).
    2:{ rewrite length_drop. cbn [length]. replace (S (length l) + S n - 1)%nat with
          (length l - n + S n - 1 + 1 * S n)%nat by lia. rewrite Nat.div_add by lia. lia. }
    cbn [seq omap list_omap lookup list_lookup Nat.mul]. f_equal.
    change (list_omap ?f) with (omap (M:=list) f). rewrite <- fmap_S_seq, omap_fmap.
    apply list_omap_ext, Forall2_same_length_lookup_2; [done|].
    intros i a b Ha Hb. rewrite lookup_drop.
    assert (a = b) as -> by (change (seq 0 ((length (drop n l) + S n - 1) / S n) !! i = Some b) in Hb; congruence).
    done.
  - rewrite (drop_ge l), step_by_nil by lia. intros [= <-]. unfold step_by. f_equal.
    replace ((length (x :: l) + S n - 1) / S n)%nat with 1%nat; [done|].
    cbn [length]. replace (S (length l) + S n - 1)%nat with (length l + 1 * S n)%nat by lia.
    rewrite Nat.div_add, Nat.div_small; lia.
Qed.

Lemma chunks_exact_app {A} n (xs l : list A) :
  n ≠ 0%nat → length xs = n → chunks_exact n (xs ++ l) = xs :: chunks_exact n l.
Proof.
  intros Hn Hx. unfold chunks_exact.
  replace (length (xs ++ l) / n)%nat with (S (length l / n)).
  2:{ rewrite length_app, Hx. replace (n + length l)%nat with (length l + 1 * n)%nat by lia.
      rewrite Nat.div_add by lia. lia. }
  cbn [seq]. rewrite fmap_cons, Nat.mul_0_l, drop_0, (take_app_length' xs l n) by done. f_equal.
  rewrite <- fmap_S_seq, <- list_fmap_compose.
  apply list_fmap_ext. intros i a _. cbn. f_equal. rewrite drop_app_ge, Hx by lia. f_equal. lia.
Qed.

Lemma mapO_fmap {A B C} (f : B → outcome C) (g : A → B) (h : A → C) l :
  (∀ x, f (g x) = Ret (h x)) → mapO f (g <$> l) = Ret (h <$> l).
Proof. intros Hf. induction l as [|x l IH]; [done|]. cbn. rewrite Hf. cbn. by rewrite IH. Qed.

Lemma zip_fmap3 {A B C D} (f : A → B) (g : A → C) (h : A → D) l :
  zip (zip (f <$> l) (g <$> l)) (h <$> l) = (λ x, (f x, g x, h x)) <$> l.
Proof. induction l as [|x l IH]; [done|]. cbn. by f_equal. Qed.

(** ** From a framebuffer to a canvas and back *)

(** A framebuffer of four-byte pixels; [blank] clears the padding byte. *)
Abbreviation quad := (Z * Z * Z * Z)%type.
Definition quad_bytes (q : quad) : list Z := let '(a, b, c, d) := q in [a; b; c; d].
Definition quads (qs : list quad) : list Z := mjoin (quad_bytes <$> qs).
Definition blank (q : quad) : quad := let '(a, b, c, _) := q in (a, b, c, 0).

(** The colour a four-byte pixel is read as. *)
Definition quad_color (f : PixelFormat) (q : quad) : PixelColorKind :=
  let '(a, b, c, _) := q in
  match f with FormatRgb => Rgb a b c | FormatBgr => Bgr c b a | _ => U8 (luma_of a a a) end.

Lemma step_by_quads qs :
  step_by 4 (quads qs) = Ret ((λ '(a, _, _, _), a) <$> qs) ∧
  step_by 4 (drop 1 (quads qs)) = Ret ((λ '(_, b, _, _), b) <$> qs) ∧
  step_by 4 (drop 2 (quads qs)) = Ret ((λ '(_, _, c, _), c) <$> qs).
Proof.
  induction qs as [|[[[a b] c] d] qs (IH0 & IH1 & IH2)]; [done|].
  unfold quads in *. cbn [quad_bytes fmap list_fmap mjoin list_join app drop].
  change (list_fmap _ _ quad_bytes qs) with (quad_bytes <$> qs).
  change (list_join (quad_bytes <$> qs)) with (mjoin (quad_bytes <$> qs)).
  split_and!; apply (step_by_cons 3); cbn [drop]; done.
Qed.

Lemma buffer_color_quads info qs :
  fb_bytes_per_pixel info = 4 → fb_format info ≠ FormatUnknown →
  buffer_color (MkFb info (quads qs)) = Ret (quad_color (fb_format info) <$> qs).
Proof.
  intros Hb Hf. destruct (step_by_quads qs) as (H0 & H1 & H2). unfold buffer_color.
  cbn [fb_info fb_bytes]. rewrite Hb. change (Z.to_nat 4) with 4%nat. rewrite H0, H1, H2.
  cbn [mbind outcome_bind].
  rewrite !zip_fmap3.
  destruct (fb_format info) eqn:Ef; [| | |done]; apply mapO_fmap; intros [[[a b] c] d];
    unfold from_framebuffer; by rewrite Ef.
Qed.

Lemma merge_quads f ps qs :
  f = FormatRgb ∨ f = FormatBgr →
  merge_bytes 4 (zip ps (quad_color f <$> qs)) (quads qs) =
    Ret (quads ((blank <$> take (length ps) qs) ++ drop (length ps) qs)).
Proof.
  intros Hf. revert ps. induction qs as [|[[[a b] c] d] qs IH]; intros ps.
  { by destruct ps. }
  destruct ps as [|p ps].
  { unfold merge_bytes. cbn [zip zip_with length take drop]. by destruct (chunks_exact 4 _). }
  specialize (IH ps). unfold merge_bytes in *.
  change (quads ((a, b, c, d) :: qs)) with ([a; b; c; d] ++ quads qs).
  rewrite chunks_exact_app by done. cbn [fmap list_fmap zip zip_with mapO length take drop].
  change (list_fmap _ _ ?f qs) with (f <$> qs).
  assert (merge_chunk ([a; b; c; d], (p, quad_color f (a, b, c, d))) = Ret [a; b; c; 0]) as ->
    by (by destruct Hf as [-> | ->]).
  cbn [mbind outcome_bind] in *.
  destruct (mapO merge_chunk _) as [new|e|]; cbn [mbind outcome_bind] in *; [|done..].
  injection IH as IH. f_equal.
  exact (f_equal (app [a; b; c; 0]) IH).
Qed.

Lemma snd_zip_take {A B} (l : list A) (k : list B) : (zip l k).*2 = take (length l) k.
Proof.
  revert k. induction l as [|x l IH]; intros [|y k]; cbn; [done..|]. f_equal. apply IH.
Qed.

Lemma bind_length {A B} (f : A → list B) k (l : list A) :
  (∀ x, length (f x) = k) → length (l ≫= f) = (length l * k)%nat.
Proof. intros Hf. induction l as [|x l IH]; [done|]. cbn. rewrite length_app, Hf. cbn in IH. lia. Qed.

Lemma buffer_points_length info :
  length (buffer_points info) = (Z.to_nat (fb_width info) * Z.to_nat (fb_height info))%nat.
Proof.
  unfold buffer_points. rewrite (bind_length _ (Z.to_nat (fb_height info))), length_seq; [done|].
  intros x. by rewrite length_fmap, length_seq.
Qed.

(** C21: a canvas taken from a framebuffer of four-byte RGB or BGR pixels and merged back
    into it changes nothing but the padding byte of each pixel, which becomes 0: the
    first width * height pixels go through the canvas, the others stay. *)
Theorem canvas_roundtrip info qs cpu c :
  fb_bytes_per_pixel info = 4 → fb_format info = FormatRgb ∨ fb_format info = FormatBgr →
  Avx.has_avx cpu = true → Avx.any_sse cpu = true →
  let n := (Z.to_nat (fb_width info) * Z.to_nat (fb_height info))%nat in
  ∃ cv c', canvas_new (MkFb info (quads qs)) = Ret cv ∧
    snd <$> cv_pixels cv = quad_color (fb_format info) <$> take n qs ∧
    merge_down (Some cpu) cv (MkFb info (quads qs)) c =
      Ret (MkFb info (quads ((blank <$> take n qs) ++ drop n qs)), c').
Proof.
  intros Hb Hf Ha Hs n.
  unfold canvas_new, buffer_pixels. rewrite buffer_color_quads by (done || by destruct Hf as [-> | ->]).
  cbn [mbind outcome_bind fb_info]. eexists.
  destruct (Avx.with_avx_spec cpu (quads ((blank <$> take n qs) ++ drop n qs)) c Ha Hs) as (c' & Hc & _).
  exists c'. split_and!; [done|..]; cbn [cv_pixels].
  - by rewrite snd_zip_take, buffer_points_length, <- fmap_take.
  - unfold merge_down. cbn [fb_info cv_pixels fb_bytes]. rewrite Hb. change (Z.to_nat 4) with 4%nat.
    rewrite merge_quads, buffer_points_length by done. fold n. by rewrite Hc.
Qed.

Lemma canvas_roundtrip_witness :
  let info := MkInfo 1 1 FormatBgr 4 1 in
  let cpu := Avx.MkFeatures true true true true true true true in
  ∃ cv c', canvas_new (MkFb info (quads [(1, 2, 3, 4); (5, 6, 7, 8)])) = Ret cv ∧
    snd <$> cv_pixels cv = [Bgr 3 2 1] ∧
    merge_down (Some cpu) cv (MkFb info (quads [(1, 2, 3, 4); (5, 6, 7, 8)])) (Avx.MkCtl 0 0 0) =
      Ret (MkFb info [1; 2; 3; 0; 5; 6; 7; 8], c').
Proof.
  exact (canvas_roundtrip (MkInfo 1 1 FormatBgr 4 1) [(1, 2, 3, 4); (5, 6, 7, 8)]
    (Avx.MkFeatures true true true true true true true) (Avx.MkCtl 0 0 0) eq_refl (or_intror eq_refl)
    eq_refl eq_refl).
Defined.

(** A pixel of another size than four bytes cannot be merged down. *)
Lemma merge_down_other_bpp cpu c bpp p ps bytes :
  (bpp ≠ 4)%nat → (0 < bpp <= length bytes)%nat → Avx.has_avx cpu = true → Avx.any_sse cpu = true →
  merge_bytes bpp (p :: ps) bytes = Panic PBounds ∧
  Avx.with_avx (Some cpu) (merge_bytes bpp (p :: ps) bytes) c = Panic PBounds.
Proof.
  intros Hb Hl Ha Hs.
  assert (merge_bytes bpp (p :: ps) bytes = Panic PBounds) as Hm.
  { rewrite <- (take_drop bpp bytes).
    assert (length (take bpp bytes) = bpp) as Ht by (rewrite length_take; lia).
    unfold merge_bytes. destruct bpp as [|k]; [lia|]. rewrite chunks_exact_app by (done || lia).
    cbn [zip zip_with mapO]. 
    assert (merge_chunk (take (S k) bytes, p) = Panic PBounds) as ->; [|done].
    unfold merge_chunk. by rewrite bool_decide_false by (cbn [fst]; congruence). }
  split; [done|]. rewrite Hm. unfold Avx.with_avx, Avx.enable_avx, Avx.enable_sse.
  cbn [mbind outcome_bind unwrap]. rewrite Ha. cbn [mbind outcome_bind]. by rewrite Hs.
Qed.

(** ** Blending canvases *)

Lemma x16_blend_at_length alpha other me i me' :
  x16_blend_at alpha other me i = Ret me' → length me' = length me.
Proof.
  unfold x16_blend_at. intros (m & _ & H)%bind_ret_inv. revert H.
  intros (o & _ & H)%bind_ret_inv. revert H. intros (c & _ & H)%bind_ret_inv.
  apply index_set_inv in H as [_ ->]. apply length_insert.
Qed.

Lemma x16_blend_at_no_hang alpha other me i : x16_blend_at alpha other me i ≠ Hang.
Proof.
  unfold x16_blend_at, index, index_set, alpha_blend.
  repeat case_match; simplify_eq/=; try done; repeat case_match; done.
Qed.

(** The sixteenth element of a fifteen-element slice. *)
Lemma x16_alpha_blend_panics alpha me other : ∃ p, x16_alpha_blend alpha me other = Panic p.
Proof.
  unfold x16_alpha_blend. change (seq 0 16) with (seq 0 15 ++ [15%nat]).
  rewrite fmap_app, foldO_app.
  destruct (foldO _ (Z.of_nat <$> seq 0 15) _) as [me'|p|] eqn:E; cbn [mbind outcome_bind].
  - apply (foldO_inv _ (λ l, (length l <= 15)%nat)) in E.
    + cbn beta in E. cbn [fmap list_fmap foldO]. unfold x16_blend_at. rewrite (index_panic me') by lia. by eexists.
    + intros s x s' Hs Hx%x16_blend_at_length. lia.
    + unfold x16_as_slice. rewrite length_take. lia.
  - by eexists.
  - by apply foldO_no_hang in E; [|apply x16_blend_at_no_hang].
Qed.

Lemma chunks_exact_small {A} n (l : list A) : (length l < n)%nat → chunks_exact n l = [].
Proof. intros Hl. unfold chunks_exact. by rewrite Nat.div_small by lia. Qed.

Lemma chunks_exact_big {A} n (l : list A) :
  (0 < n <= length l)%nat → ∃ c cs, chunks_exact n l = c :: cs.
Proof.
  intros Hl. rewrite <- (take_drop n l), chunks_exact_app; [by do 2 eexists|lia|rewrite length_take; lia].
Qed.

(** Blending one canvas into another works on no input: when both have at least
    sixteen pixels the call panics, whatever alpha is, because a group of sixteen
    pixels is viewed as a slice of fifteen; with fewer pixels it changes no pixel. *)
Theorem canvas_alpha_blend_panics cpu self alpha other c :
  Avx.has_avx cpu = true → Avx.any_sse cpu = true →
  if ((16 <=? length (cv_pixels self)) && (16 <=? length (cv_pixels other)))%nat
  then ∃ p, canvas_alpha_blend (Some cpu) self alpha other c = Panic p
  else ∃ c', canvas_alpha_blend (Some cpu) self alpha other c = Ret (self, c').
Proof.
  intros Ha Hs. unfold canvas_alpha_blend.
  destruct (Nat.leb_spec 16 (length (cv_pixels self))), (Nat.leb_spec 16 (length (cv_pixels other))); cbn [andb].
  2-4: destruct (Avx.with_avx_spec cpu (cv_pixels self) c Ha Hs) as (c' & Hc & _); exists c';
    rewrite ?(chunks_exact_small 16 (cv_pixels self)), ?(chunks_exact_small 16 (cv_pixels other)) by lia;
    rewrite ?zip_with_nil_r; cbn [zip zip_with canvas_blend_loop]; rewrite Hc; by destruct self.
  destruct (chunks_exact_big 16 (cv_pixels self)) as (x & xs & ->); [lia|].
  destruct (chunks_exact_big 16 (cv_pixels other)) as (y & ys & ->); [lia|].
  cbn [zip zip_with canvas_blend_loop].
  destruct (x16_alpha_blend_panics alpha x y) as [p ->]. exists p.
  unfold Avx.with_avx, Avx.enable_avx, Avx.enable_sse.
  cbn [mbind outcome_bind unwrap]. rewrite Ha. cbn [mbind outcome_bind]. by rewrite Hs.
Qed.

Lemma canvas_alpha_blend_witness :
  let px : Pixel := ((0, 0), Rgb 1 2 3) in
  let cv := MkCanvas (replicate 16 px) (MkInfo 4 4 FormatRgb 4 4) in
  ∃ p, canvas_alpha_blend (Some (Avx.MkFeatures true true true true true true true)) cv f32_one cv
    (Avx.MkCtl 0 0 0) = Panic p.
Proof.
  exact (canvas_alpha_blend_panics (Avx.MkFeatures true true true true true true true)
    (MkCanvas (replicate 16 ((0, 0), Rgb 1 2 3)) (MkInfo 4 4 FormatRgb 4 4)) f32_one
    (MkCanvas (replicate 16 ((0, 0), Rgb 1 2 3)) (MkInfo 4 4 FormatRgb 4 4)) (Avx.MkCtl 0 0 0) eq_refl eq_refl).
Defined.

(** ** Drawing *)

(** The colour a drawn pixel has on a canvas of a known format. *)
Definition recolor (f : PixelFormat) (c : PixelColorKind) : PixelColorKind :=
  let '(r, g, b) := match c with Rgb r g b | Bgr r g b => (r, g, b) | U8 l => (l, l, l) end in
  match f with FormatRgb => Rgb r g b | FormatBgr => Bgr r g b | _ => U8 (luma_of r g b) end.

Definition offset_of (info : FrameBufferInfo) (p : Point) : Z := p.2 * fb_stride info + p.1.

(** A point that names an element of a vector of [n] pixels. *)
Definition on_canvas (info : FrameBufferInfo) (n : nat) (p : Pixel) : bool :=
  (0 <=? p.1.1) && (0 <=? p.1.2) && (offset_of info p.1 <? Z.of_nat n).

(** The pixel drawn last at an offset. *)
Definition drawn_at (info : FrameBufferInfo) (pixels : list Pixel) (i : nat) : option Pixel :=
  last (filter (λ p : Pixel, offset_of info p.1 = Z.of_nat i) pixels).

Definition is_i32 (z : Z) : Prop := - 2 ^ 31 <= z < 2 ^ 31.

Section Drawing.
Context (info : FrameBufferInfo) (Hstride : 0 < fb_stride info < 2 ^ 64).
Context (Hformat : fb_format info ≠ FormatUnknown).

Lemma from_framebuffer_recolor c :
  match c with
  | Rgb r g b | Bgr r g b => from_framebuffer info r g b
  | U8 l => from_framebuffer info l l l
  end = Ret (recolor (fb_format info) c).
Proof. unfold from_framebuffer. by destruct c, (fb_format info). Qed.

(** The checked offset, then the store. *)
Lemma checked_store (ps : list Pixel) v X Y :
  0 <= X → 0 <= Y →
  let m := o ← umul 64 Y (fb_stride info); i ← uadd 64 o X; c ← Ret v; index_set ps i c in
  let i := Y * fb_stride info + X in
  (i < Z.of_nat (length ps) < 2 ^ 64 → m = Ret (<[Z.to_nat i := v]> ps)) ∧
  (Z.of_nat (length ps) <= i → ∃ e, m = Panic e).
Proof.
  intros HX HY m i. assert (0 <= Y * fb_stride info) by nia. split; intros Hi; unfold i in *.
  - unfold m. rewrite umul_ret by lia. cbn [mbind outcome_bind]. rewrite uadd_ret by lia.
    cbn [mbind outcome_bind]. by rewrite index_set_ret by lia.
  - unfold m, umul. z_cases; cbn [mbind outcome_bind]; [|by eexists].
    unfold uadd. z_cases; cbn [mbind outcome_bind]; [|by eexists].
    unfold index_set. z_cases; cbn [andb]; try (by eexists); lia.
Qed.

Lemma draw_pixel_spec (ps : list Pixel) (p : Pixel) :
  Z.of_nat (length ps) < 2 ^ 63 → is_i32 p.1.1 → is_i32 p.1.2 →
  if on_canvas info (length ps) p
  then draw_pixel info ps p =
    Ret (<[Z.to_nat (offset_of info p.1) := (p.1, recolor (fb_format info) p.2)]> ps)
  else ∃ e, draw_pixel info ps p = Panic e.
Proof.
  destruct p as [[x y] c]. unfold on_canvas, offset_of, is_i32, is_uN in *. cbn [fst snd].
  intros Hl Hx Hy. unfold draw_pixel. rewrite from_framebuffer_recolor.
  assert (wrap 64 y = if 0 <=? y then y else y + 2 ^ 64) as ->.
  { unfold wrap. z_cases; [apply Z.mod_small; lia|].
    symmetry. apply (Z.mod_unique _ _ (-1)); lia. }
  assert (wrap 64 x = if 0 <=? x then x else x + 2 ^ 64) as ->.
  { unfold wrap. z_cases; [apply Z.mod_small; lia|].
    symmetry. apply (Z.mod_unique _ _ (-1)); lia. }
  set (X := if 0 <=? x then x else _). set (Y := if 0 <=? y then y else _).
  assert (0 <= X ∧ (0 <= x → X = x) ∧ (x < 0 → 2 ^ 63 <= X)) as (HX0 & HX & HX') by (unfold X; z_cases; lia).
  assert (0 <= Y ∧ (0 <= y → Y = y) ∧ (y < 0 → 2 ^ 63 <= Y)) as (HY0 & HY & HY') by (unfold Y; z_cases; lia).
  clearbody X Y. pose proof (checked_store ps ((x, y), recolor (fb_format info) c) X Y HX0 HY0) as Hc.
  destruct (Z.leb_spec 0 x), (Z.leb_spec 0 y); cbn [andb].
  - rewrite HX, HY in * by lia. z_cases; [apply (proj1 Hc)|apply (proj2 Hc)]; lia.
  - apply (proj2 Hc). nia.
  - apply (proj2 Hc). nia.
  - apply (proj2 Hc). nia.
Qed.

Lemma draw_iter_ret (pixels ps : list Pixel) :
  Z.of_nat (length ps) < 2 ^ 63 → Forall (λ p : Pixel, is_i32 p.1.1 ∧ is_i32 p.1.2) pixels →
  forallb (on_canvas info (length ps)) pixels = true →
  ∃ ps', foldO (draw_pixel info) pixels ps = Ret ps' ∧ length ps' = length ps ∧
    ∀ i, (i < length ps)%nat → ps' !! i = match drawn_at info pixels i with
                     | Some p => Some (p.1, recolor (fb_format info) p.2)
                     | None => ps !! i
                     end.
Proof.
  intros Hl Hz. revert ps Hl. induction Hz as [|p pixels [Hx Hy] _ IH]; intros ps Hl Hon.
  { by exists ps. }
  cbn [forallb] in Hon. apply andb_true_iff in Hon as [Hp Hon].
  pose proof (draw_pixel_spec ps p Hl Hx Hy) as Hd. rewrite Hp in Hd. cbn [foldO]. rewrite Hd.
  cbn [mbind outcome_bind]. set (q := (p.1, _)) in *. set (k := Z.to_nat _) in *.
  destruct (IH (<[k := q]> ps)) as (ps' & E & Hlen & Hlk); [by rewrite length_insert..|].
  rewrite length_insert in *. exists ps'. split_and!; [done..|]. intros i Hi. rewrite Hlk by done.
  unfold drawn_at. rewrite filter_cons. unfold on_canvas in Hp. z_bool.
  assert (0 <= offset_of info p.1) by (unfold offset_of; nia).
  case_decide as Hk.
  - assert (k = i) as Hki by lia.
    rewrite last_cons. destruct (last _) eqn:El; [done|]. subst i.
    by apply list_lookup_insert_eq.
  - destruct (last _); [done|]. apply list_lookup_insert_ne. lia.
Qed.

Lemma draw_iter_panics (pixels ps : list Pixel) :
  Z.of_nat (length ps) < 2 ^ 63 → Forall (λ p : Pixel, is_i32 p.1.1 ∧ is_i32 p.1.2) pixels →
  forallb (on_canvas info (length ps)) pixels = false →
  ∃ e, foldO (draw_pixel info) pixels ps = Panic e.
Proof.
  intros Hl Hz. revert ps Hl. induction Hz as [|p pixels [Hx Hy] _ IH]; intros ps Hl Hon; [done|].
  cbn [forallb] in Hon. pose proof (draw_pixel_spec ps p Hl Hx Hy) as Hd. cbn [foldO].
  destruct (on_canvas info (length ps) p).
  - rewrite Hd. apply IH; by rewrite length_insert.
  - destruct Hd as [e ->]. by exists e.
Qed.

End Drawing.

(** C22: drawing a list of pixels on a canvas.  When every point names an element of the
    pixel vector (coordinates not negative, y * stride + x inside), the call returns,
    and each element holds the last pixel drawn at its offset, in the canvas's own
    format, or is unchanged.  Otherwise the call panics, so that pixels outside the
    canvas are not clipped. *)
Theorem draw_iter_correct (self : CanvasBuf) (pixels : list Pixel) :
  0 < fb_stride (cv_info self) < 2 ^ 64 → fb_format (cv_info self) ≠ FormatUnknown →
  Z.of_nat (length (cv_pixels self)) < 2 ^ 63 →
  Forall (λ p : Pixel, is_i32 p.1.1 ∧ is_i32 p.1.2) pixels →
  if forallb (on_canvas (cv_info self) (length (cv_pixels self))) pixels then
    ∃ ps, draw_iter self pixels = Ret (MkCanvas ps (cv_info self)) ∧
      length ps = length (cv_pixels self) ∧
      ∀ i, (i < length ps)%nat →
        ps !! i = match drawn_at (cv_info self) pixels i with
                  | Some p => Some (p.1, recolor (fb_format (cv_info self)) p.2)
                  | None => cv_pixels self !! i
                  end
  else ∃ e, draw_iter self pixels = Panic e.
Proof.
  intros Hs Hf Hl Hz. unfold draw_iter. destruct (forallb _ _) eqn:E.
  - destruct (draw_iter_ret _ Hs Hf pixels _ Hl Hz E) as (ps & -> & Hlen & Hlk).
    exists ps. split_and!; [done..|]. by rewrite Hlen.
  - destruct (draw_iter_panics _ Hs Hf pixels _ Hl Hz E) as [e ->]. by exists e.
Qed.

Lemma draw_iter_witness :
  let info := MkInfo 2 1 FormatRgb 4 2 in
  let cv := MkCanvas [((0, 0), Rgb 0 0 0); ((1, 0), Rgb 0 0 0)] info in
  (∃ ps, draw_iter cv [((1, 0), Rgb 1 2 3); ((1, 0), U8 9)] = Ret (MkCanvas ps info) ∧
     ps !! 1%nat = Some ((1, 0), Rgb 9 9 9) ∧ ps !! 0%nat = Some ((0, 0), Rgb 0 0 0)) ∧
  ∃ e, draw_iter cv [((-1, 0), U8 9)] = Panic e.
Proof.
  set (info := MkInfo 2 1 FormatRgb 4 2).
  set (cv := MkCanvas [((0, 0), Rgb 0 0 0); ((1, 0), Rgb 0 0 0)] info).
  assert (0 < fb_stride (cv_info cv) < 2 ^ 64) as Hs by (cbn; lia).
  assert (Z.of_nat (length (cv_pixels cv)) < 2 ^ 63) as Hl by (cbn; lia).
  split.
  - destruct (draw_iter_correct cv [((1, 0), Rgb 1 2 3); ((1, 0), U8 9)] Hs ltac:(done) Hl)
      as (ps & E & Hlen & Hlk).
    { repeat constructor; cbn; lia. }
    exists ps. split_and!; [exact E|rewrite Hlk|rewrite Hlk]; (rewrite Hlen; cbn; lia) || done.
  - apply (draw_iter_correct cv [((-1, 0), U8 9)] Hs ltac:(done) Hl).
    repeat constructor; cbn; lia.
Defined.

(** A PNG whose alpha byte is 2 or more (fully opaque is 255) cannot be shown. *)
Lemma png_alpha_panics `{PngImage} r g b a :
  2 <= a < 256 → ∃ m, from_png_metadata r g b Rgba (Some a) = Panic (PMsg m).
Proof.
  intros Ha. unfold from_png_metadata, alpha_blend. cbn [unwrap mbind outcome_bind].
  assert (alpha_in_range (to_f32 a) = false) as ->; [|by eexists].
  assert (forallb (λ k : nat, negb (alpha_in_range (to_f32 (Z.of_nat k)))) (seq 2 254) = true) as Hall
    by (by vm_compute).
  rewrite forallb_forall in Hall. rewrite <- (Z2Nat.id a) by lia.
  apply negb_true_iff, Hall, in_seq. lia.
Qed.
