(* ===== verification/Xhci.v ===== *)
(** * The XHCI driver, src/drivers/xhci

    Transfer request blocks and their classification; the controller's start-up, as the
    register writes it makes and the frames it hands to the controller; port probing;
    the mass-storage wrapper.  The register accessors of the [xhci] crate, and the
    controller behind them, are a parameter. *)

From S2P Require Import Prelude BitFields Paging Frames Memory PciIds Pci.

Local Open Scope Z_scope.

(** ** Transfer request blocks *)

(** [xhci::ring::trb::Type]. *)
Inductive TrbType : Type :=
  | TyNormal | TySetupStage | TyDataStage | TyStatusStage | TyIsoch
  | TyLink | TyEventData | TyNoopTransfer | TyEnableSlot | TyDisableSlot
  | TyAddressDevice | TyConfigureEndpoint | TyEvaluateContext | TyResetEndpoint | TyStopEndpoint
  | TySetTrDequeuePointer | TyResetDevice | TyForceEvent | TyNegotiateBandwidth | TySetLatencyToleranceValue
  | TyGetPortBandwidth | TyForceHeader | TyNoopCommand | TyGetExtendedProperty | TySetExtendedProperty
  | TyTransferEvent | TyCommandCompletion | TyPortStatusChange | TyBandwidthRequest | TyDoorbell
  | TyHostController | TyDeviceNotification | TyMfindexWrap.

(** A reference to a block of a given type is its address. *)
Inductive CommandKind : Type :=
  | CAddressDevice (p : Z) | CConfigureEndpoint (p : Z) | CDisableSlot (p : Z) | CEnableSlot (p : Z)
  | CEvaluateContext (p : Z) | CForceEvent (p : Z) | CForceHeader (p : Z) | CGetExtendedProperty (p : Z)
  | CGetPortBandwidth (p : Z) | CNegotiateBandwidth (p : Z) | CCmdNoop (p : Z) | CResetDevice (p : Z)
  | CResetEndpoint (p : Z) | CSetExtendedProperty (p : Z) | CSetLatencyToleranceValue (p : Z) | CSetTrDequeuePointer (p : Z)
  | CStopEndpoint (p : Z).
Inductive EventKind : Type :=
  | EBandwidthRequest (p : Z) | ECommandCompletion (p : Z) | EDeviceNotification (p : Z) | EDoorbell (p : Z)
  | EHostController (p : Z) | EMfindexWrap (p : Z) | EPortStatusChange (p : Z) | ETransferEvent (p : Z).
Inductive TransferKind : Type :=
  | XDataStage (p : Z) | XEventData (p : Z) | XIsoch (p : Z) | XTransferNoop (p : Z)
  | XNormal (p : Z) | XSetupStage (p : Z) | XStatusStage (p : Z).
Inductive TrbKind : Type :=
  | Command (c : CommandKind)
  | Event (e : EventKind)
  | Transfer (t : TransferKind)
  | LinkKind (p : Z).

Section Trb.
Context `{BitField}.

(** [get_type]: bits 10 to 15 of the fourth word. *)
Definition get_type (words : list Z) : outcome TrbType :=
  w ← index words 3;
  code ← get_bits 32 w 10 16;
  match code with
  | 1 => Ret TyNormal | 2 => Ret TySetupStage | 3 => Ret TyDataStage | 4 => Ret TyStatusStage
  | 5 => Ret TyIsoch | 6 => Ret TyLink | 7 => Ret TyEventData | 8 => Ret TyNoopTransfer
  | 9 => Ret TyEnableSlot | 10 => Ret TyDisableSlot | 11 => Ret TyAddressDevice | 12 => Ret TyConfigureEndpoint
  | 13 => Ret TyEvaluateContext | 14 => Ret TyResetEndpoint | 15 => Ret TyStopEndpoint | 16 => Ret TySetTrDequeuePointer
  | 17 => Ret TyResetDevice | 18 => Ret TyForceEvent | 19 => Ret TyNegotiateBandwidth | 20 => Ret TySetLatencyToleranceValue
  | 21 => Ret TyGetPortBandwidth | 22 => Ret TyForceHeader | 23 => Ret TyNoopCommand | 24 => Ret TyGetExtendedProperty
  | 25 => Ret TySetExtendedProperty | 32 => Ret TyTransferEvent | 33 => Ret TyCommandCompletion | 34 => Ret TyPortStatusChange
  | 35 => Ret TyBandwidthRequest | 36 => Ret TyDoorbell | 37 => Ret TyHostController | 38 => Ret TyDeviceNotification
  | 39 => Ret TyMfindexWrap
  | _ => Panic PAssert
  end.

(** [From<*mut dyn TrbAnalyzer> for TrbKind]: the block at [value] holds [words]. *)
Definition trb_kind_of (t : TrbType) (value : Z) : TrbKind :=
  match t with
  | TyNormal => Transfer (XNormal value)
  | TySetupStage => Transfer (XSetupStage value)
  | TyDataStage => Transfer (XDataStage value)
  | TyStatusStage => Transfer (XStatusStage value)
  | TyIsoch => Transfer (XIsoch value)
  | TyLink => LinkKind value
  | TyEventData => Transfer (XEventData value)
  | TyNoopTransfer => Transfer (XTransferNoop value)
  | TyEnableSlot => Command (CEnableSlot value)
  | TyDisableSlot => Command (CDisableSlot value)
  | TyAddressDevice => Command (CAddressDevice value)
  | TyConfigureEndpoint => Command (CConfigureEndpoint value)
  | TyEvaluateContext => Command (CEvaluateContext value)
  | TyResetEndpoint => Command (CResetEndpoint value)
  | TyStopEndpoint => Command (CStopEndpoint value)
  | TySetTrDequeuePointer => Command (CSetTrDequeuePointer value)
  | TyResetDevice => Command (CResetDevice value)
  | TyForceEvent => Command (CForceEvent value)
  | TyNegotiateBandwidth => Command (CNegotiateBandwidth value)
  | TySetLatencyToleranceValue => Command (CSetLatencyToleranceValue value)
  | TyGetPortBandwidth => Command (CGetPortBandwidth value)
  | TyForceHeader => Command (CForceHeader value)
  | TyNoopCommand => Command (CCmdNoop value)
  | TyGetExtendedProperty => Command (CGetExtendedProperty value)
  | TySetExtendedProperty => Command (CSetExtendedProperty value)
  | TyTransferEvent => Event (ETransferEvent value)
  | TyCommandCompletion => Event (ECommandCompletion value)
  | TyPortStatusChange => Event (EPortStatusChange value)
  | TyBandwidthRequest => Event (EBandwidthRequest value)
  | TyDoorbell => Event (EDoorbell value)
  | TyHostController => Event (EHostController value)
  | TyDeviceNotification => Event (EDeviceNotification value)
  | TyMfindexWrap => Event (EMfindexWrap value)
  end.

Definition trb_kind_from (value : Z) (words : list Z) : outcome TrbKind :=
  t ← get_type words; Ret (trb_kind_of t value).

(** The [From<&mut T>] conversions the macros declare; [t] stands for the Rust type [T] of
    the reference, and [None] for a conversion that is not declared. *)
Definition command_from_ref (t : TrbType) (sub : Z) : option CommandKind :=
  match t with
  | TyAddressDevice => Some (CAddressDevice sub)
  | TyConfigureEndpoint => Some (CConfigureEndpoint sub)
  | TyDisableSlot => Some (CDisableSlot sub)
  | TyEnableSlot => Some (CEnableSlot sub)
  | TyEvaluateContext => Some (CEvaluateContext sub)
  | TyForceEvent => Some (CForceEvent sub)
  | TyForceHeader => Some (CForceHeader sub)
  | TyGetExtendedProperty => Some (CGetExtendedProperty sub)
  | TyGetPortBandwidth => Some (CGetPortBandwidth sub)
  | TyNegotiateBandwidth => Some (CNegotiateBandwidth sub)
  | TyNoopCommand => Some (CCmdNoop sub)
  | TyResetDevice => Some (CResetDevice sub)
  | TyResetEndpoint => Some (CResetEndpoint sub)
  | TySetExtendedProperty => Some (CSetExtendedProperty sub)
  | TySetLatencyToleranceValue => Some (CSetLatencyToleranceValue sub)
  | TySetTrDequeuePointer => Some (CSetTrDequeuePointer sub)
  | TyStopEndpoint => Some (CStopEndpoint sub)
  | _ => None
  end.
Definition event_from_ref (t : TrbType) (sub : Z) : option EventKind :=
  match t with
  | TyBandwidthRequest => Some (EBandwidthRequest sub)
  | TyCommandCompletion => Some (ECommandCompletion sub)
  | TyDeviceNotification => Some (EDeviceNotification sub)
  | TyDoorbell => Some (EDoorbell sub)
  | TyHostController => Some (EHostController sub)
  | TyMfindexWrap => Some (EMfindexWrap sub)
  | TyPortStatusChange => Some (EPortStatusChange sub)
  | TyTransferEvent => Some (ETransferEvent sub)
  | _ => None
  end.
Definition transfer_from_ref (t : TrbType) (sub : Z) : option TransferKind :=
  match t with
  | TyDataStage => Some (XDataStage sub)
  | TyEventData => Some (XEventData sub)
  | TyIsoch => Some (XIsoch sub)
  | TyNoopTransfer => Some (XTransferNoop sub)
  | TyNormal => Some (XNormal sub)
  | TySetupStage => Some (XSetupStage sub)
  | TyStatusStage => Some (XStatusStage sub)
  | _ => None
  end.
Definition link_from_ref (t : TrbType) (link : Z) : option TrbKind :=
  match t with TyLink => Some (LinkKind link) | _ => None end.

(** The conversions into [TrbKind], one macro line per type and group. *)
Definition trb_from_ref (t : TrbType) (sub : Z) : list TrbKind :=
  omap id [Command <$> command_from_ref t sub; Event <$> event_from_ref t sub;
           Transfer <$> transfer_from_ref t sub; link_from_ref t sub].

(** Each type is converted by exactly one declaration, the one the classification uses. *)
Lemma trb_from_ref_unique t sub : trb_from_ref t sub = [trb_kind_of t sub].
Proof. by destruct t. Qed.

(** [TrbKind::as_inner]: the marker object is the kind inside, or the link. *)
Inductive TrbMarker : Type :=
  | MCommand (c : CommandKind) | MEvent (e : EventKind) | MTransfer (t : TransferKind) | MLink (p : Z).
Definition as_inner (k : TrbKind) : TrbMarker :=
  match k with Command c => MCommand c | Event e => MEvent e | Transfer t => MTransfer t | LinkKind p => MLink p end.

End Trb.

(** *** The numbering of the xHCI specification *)

(** The type number and the address of a kind, and the group a number is in. *)
Definition command_code (c : CommandKind) : Z * Z :=
  match c with
  | CAddressDevice p => (11, p) | CConfigureEndpoint p => (12, p) | CDisableSlot p => (10, p)
  | CEnableSlot p => (9, p) | CEvaluateContext p => (13, p) | CForceEvent p => (18, p)
  | CForceHeader p => (22, p) | CGetExtendedProperty p => (24, p) | CGetPortBandwidth p => (21, p)
  | CNegotiateBandwidth p => (19, p) | CCmdNoop p => (23, p) | CResetDevice p => (17, p)
  | CResetEndpoint p => (14, p) | CSetExtendedProperty p => (25, p) | CSetLatencyToleranceValue p => (20, p)
  | CSetTrDequeuePointer p => (16, p) | CStopEndpoint p => (15, p)
  end.
Definition event_code (e : EventKind) : Z * Z :=
  match e with
  | EBandwidthRequest p => (35, p) | ECommandCompletion p => (33, p) | EDeviceNotification p => (38, p)
  | EDoorbell p => (36, p) | EHostController p => (37, p) | EMfindexWrap p => (39, p)
  | EPortStatusChange p => (34, p) | ETransferEvent p => (32, p)
  end.
Definition transfer_code (t : TransferKind) : Z * Z :=
  match t with
  | XDataStage p => (3, p) | XEventData p => (7, p) | XIsoch p => (5, p)
  | XTransferNoop p => (8, p) | XNormal p => (1, p) | XSetupStage p => (2, p)
  | XStatusStage p => (4, p)
  end.
Definition kind_code (k : TrbKind) : Z * Z :=
  match k with
  | Command c => command_code c | Event e => event_code e | Transfer t => transfer_code t
  | LinkKind p => (6, p)
  end.

Inductive trb_group : Type := GTransfer | GLink | GCommand | GEvent.
Definition group_of (code : Z) : option trb_group :=
  if code =? 6 then Some GLink
  else if (1 <=? code) && (code <=? 8) then Some GTransfer
  else if (9 <=? code) && (code <=? 25) then Some GCommand
  else if (32 <=? code) && (code <=? 39) then Some GEvent
  else None.
Definition kind_group (k : TrbKind) : trb_group :=
  match k with Command _ => GCommand | Event _ => GEvent | Transfer _ => GTransfer | LinkKind _ => GLink end.

(** C25: a block of at least four words is classified by its six-bit type number: the
    kind has that number, the block's own address and the group the specification puts
    the number in (1 to 8 transfers, but 6 the link, 9 to 25 commands, 32 to 39
    events); every other number, and a shorter block, panics. *)
Theorem trb_kind_from_typed `{BitFieldLaws} (value : Z) (words : list Z) :
  match words !! 3%nat with
  | None => ∃ p, trb_kind_from value words = Panic p
  | Some w =>
      let code := bits_of w 10 16 in
      match group_of code with
      | Some g => ∃ k, trb_kind_from value words = Ret k ∧ kind_code k = (code, value) ∧ kind_group k = g
      | None => ∃ p, trb_kind_from value words = Panic p
      end
  end.
Proof.
  unfold trb_kind_from, get_type, index. change (Z.to_nat 3) with 3%nat. cbn [Z.leb Z.compare].
  destruct (words !! 3%nat) as [w|]; cbn [mbind outcome_bind]; [|by eexists].
  rewrite get_bits_ok by lia. cbn [mbind outcome_bind].
  pose proof (bits_of_range w 10 16 ltac:(lia)) as Hr. change (2 ^ (16 - 10)) with 64 in Hr.
  generalize dependent (bits_of w 10 16). intros code Hr.
  assert (code ∈ Z.of_nat <$> seq 0 64) as Hin.
  { apply list_elem_of_fmap. exists (Z.to_nat code). split; [lia|]. apply elem_of_seq. lia. }
  clear Hr. revert code Hin. rewrite <- Forall_forall. cbn [seq fmap list_fmap].
  repeat constructor; cbn; by repeat eexists.
Qed.

Lemma trb_kind_from_witness :
  ∃ k, trb_kind_from 0x1000 [0; 0; 0; 11 * 1024 + 1] = Ret k ∧
    kind_code k = (11, 0x1000) ∧ kind_group k = GCommand.
Proof. exact (trb_kind_from_typed 0x1000 [0; 0; 0; 11 * 1024 + 1]). Defined.

(** ** The controller *)

(** What the driver writes, in the order it does: the closure of each
    [update_volatile], and the copy into the device context array. *)
Inductive reg_write : Type :=
  | ClearRunStop | SetHostControllerReset | SetInterrupterEnable | SetRunStop
  | SetMaxDeviceSlots (n : Z) | SetConfigurationInformationEnable
  | PowerPort (i : Z)                            (* and disable hardware LPM *)
  | SetDcbaap (addr : Z) | SetCommandRingPointer (addr : Z)
  | SetErstsz (i v : Z) | SetErdp (i addr : Z) | SetErstba (i v : Z)
  | ClearImod (i : Z) | EnableInterrupter (i : Z)
  | CopyDeviceContext (dst src : Z)
  | RingDoorbell (i target : Z).

(** The status bits the driver waits for. *)
Inductive StatusBit : Type := ControllerNotReady | RunStop | HcHalted.

(** The [xhci] crate and the controller: [hc] is the state of the hardware, which a read
    of a status bit may find changed; a [portsc] is a copy of a port's status register,
    [read_ports] the copies an iteration over the port array yields.  A write may panic
    in the crate's checks. *)
Class XhciHw `{PageMapper} : Type := {
  hc : Type;
  portsc : Type;
  extcaps : Type;
  device : Type;
  (* Registers::new and List::new *)
  registers_new : Z → KMem → outcome (hc * KMem);
  extcaps_new : Z → hc → KMem → outcome (option extcaps * KMem);
  hc_read : StatusBit → hc → bool * hc;
  hc_write : reg_write → hc → outcome hc;
  number_of_device_slots : hc → Z;
  number_of_ports : hc → Z;
  number_of_interrupts : hc → Z;
  max_scratchpad_buffers : hc → Z;
  configuration_information_capability : hc → bool;
  read_ports : hc → list portsc;
  port_power : portsc → bool;
  port_enabled_disabled : portsc → bool;
  port_reset : portsc → bool;
  current_connect_status : portsc → bool;
  set_port_reset : portsc → portsc;
  set_0_port_enabled_disabled : portsc → portsc;
  (* what a fresh frame holds *)
  read_u16 : Z → Z;
  read_u64 : Z → Z;
  (* Device contexts *)
  new_32byte : device;
  new_64byte : device;
  usb_device_address : device → Z;
  max_packet_size : device → Z → outcome Z;
}.

(** The capability registers. *)
Definition caps `{XhciHw} (h : hc) : Z * Z * Z * Z * bool :=
  (number_of_device_slots h, number_of_ports h, number_of_interrupts h, max_scratchpad_buffers h,
   configuration_information_capability h).

(** They are read-only; setters set the bit they name. *)
Class XhciHwLaws `{XhciHw} : Prop := {
  hc_read_caps b h : caps (hc_read b h).2 = caps h;
  hc_write_caps w h h' : hc_write w h = Ret h' → caps h' = caps h;
  port_reset_set p : port_reset (set_port_reset p) = true;
  port_enabled_set_0 p : port_enabled_disabled (set_0_port_enabled_disabled p) = false;
}.

Section Driver.
Context `{X86Paging} `{!PageMapper} `{!PciEnv} `{!XhciHw}.

Record XhciImpl : Type := MkXhci { xi_regs : option hc; xi_extcaps : option extcaps }.

(** [XhciImpl::new]. *)
Definition full_bar (bars : list Z) : outcome Z :=
  bar0 ← index bars 0; bar1 ← index bars 1; Ret (Z.lor bar0 (Z.shiftl bar1 32)).

Definition xhci_impl_new (header : Header) (k : KMem) : outcome (XhciImpl * KMem) :=
  match header_kind header, hdr_type header with
  | UsbController, HNormal bars =>
      bar ← full_bar bars;
      v ← virt_addr_new bar;
      let offset_full_bar := page_containing v in
      '(regs, k) ← registers_new offset_full_bar k;
      '(caps, k) ← extcaps_new offset_full_bar regs k;
      Ret (MkXhci (Some regs) caps, k)
  | _, _ => Ret (MkXhci None None, k)
  end.

(** The accessors: a part of the registers, when there are any. *)
Definition with_regs {A} (f : hc → A) (self : XhciImpl) : option A := f <$> xi_regs self.

(** The driver's state while it runs, with the writes it has made. *)
Record XState : Type := MkX { x_mem : KMem; x_hc : hc; x_log : list reg_write }.

Definition write_reg (w : reg_write) (s : XState) : outcome XState :=
  h ← hc_write w (x_hc s); Ret (MkX (x_mem s) h (x_log s ++ [w])).

(** [while op.usbsts.read_volatile().bit() { spin_loop() }]. *)
Fixpoint wait_hc (fuel : nat) (b : StatusBit) (h : hc) : outcome hc :=
  match fuel with
  | O => Hang
  | S fuel => let '(v, h) := hc_read b h in if v then wait_hc fuel b h else Ret h
  end.
Definition wait_status (fuel : nat) (b : StatusBit) (s : XState) : outcome XState :=
  h ← wait_hc fuel b (x_hc s); Ret (MkX (x_mem s) h (x_log s)).

(** [addralloc::<T>()] for a type of at most a page. *)
Definition alloc_frame (size : Z) (s : XState) : outcome (Z * XState) :=
  '(a, k) ← addralloc size (x_mem s); Ret (a, MkX k (x_hc s) (x_log s)).

(** [while port.f() { spin_loop() }] on a copy of the port's register. *)
Definition wait_copy (b : bool) : outcome unit := if b then Hang else Ret tt.

(** [size_of::<CommandKind>()], [size_of::<EventKind>()], [size_of::<Device<16>>()] and
    [size_of::<ScratchpadEntry>()]. *)
Definition size_of_CommandKind : Z := 16.
Definition size_of_EventKind : Z := 16.
Definition size_of_Device16 : Z := 2048.
Definition size_of_ScratchpadEntry : Z := 8.

(** The address of the first element of a slice of [len] elements at [p]. *)
Definition first_addr (p len : Z) : outcome Z := if 0 <? len then Ret p else Panic PUnwrap.

(** One interrupter's registers. *)
Definition init_interrupter (s : XState) (i : Z) : outcome XState :=
  '(a, s) ← alloc_frame 2 s;
  s ← write_reg (SetErstsz i (read_u16 a)) s;
  '(a, s) ← alloc_frame size_of_EventKind s;
  a ← first_addr a (4096 / size_of_EventKind);
  s ← write_reg (SetErdp i a) s;
  '(a, s) ← alloc_frame 8 s;
  s ← write_reg (SetErstba i (read_u64 a)) s;
  s ← write_reg (ClearImod i) s;
  write_reg (EnableInterrupter i) s.

Definition range (n : Z) : list Z := Z.of_nat <$> seq 0 (Z.to_nat n).

(** [for port in prs { if enabled { reset; wait } }], on copies. *)
Definition reset_ports (h : hc) : outcome unit :=
  foldO (λ _ port,
    if port_enabled_disabled port then wait_copy (port_reset (set_port_reset port)) else Ret tt)
    (read_ports h) tt.

(** [UsbDeviceKind] and its conversion from a size. *)
Inductive UsbDeviceKind : Type := Device8 (d : device) | Device16 (d : device).
Definition usb_device_kind_from (size : Z) : outcome UsbDeviceKind :=
  if size =? 8 then Ret (Device8 new_32byte)
  else if size =? 16 then Ret (Device16 new_64byte)
  else Panic (PMsg "Unsupported device size").

Fixpoint probe_ports (N : Z) (ports : list portsc) : outcome (option UsbDeviceKind) :=
  match ports with
  | [] => Ret None
  | port :: ports =>
      if port_power port then
        let port := set_0_port_enabled_disabled port in
        _ ← wait_copy (port_enabled_disabled port);
        if current_connect_status port then d ← usb_device_kind_from N; Ret (Some d)
        else probe_ports N ports
      else probe_ports N ports
  end.
Definition xhci_probe (N : Z) (self : XhciImpl) : outcome (option UsbDeviceKind) :=
  match with_regs read_ports self with
  | Some ports => probe_ports N ports
  | None => Ret None
  end.

(** [XhciImpl::init]: interrupts on, and the scratchpad copied over the first device context. *)
Definition init_scratchpad (dev_context_array max_slots : Z) (s : XState) : outcome XState :=
  s ← write_reg SetInterrupterEnable s;
  let n := max_scratchpad_buffers (x_hc s) in
  let max_scratchpads := if n =? 0 then n + 1 else n in
  '(scratchpad_buf, s) ← alloc_frame size_of_ScratchpadEntry s;
  src ← first_addr scratchpad_buf max_scratchpads;
  dst ← first_addr dev_context_array max_slots;
  write_reg (CopyDeviceContext dst src) s.

(** [XhciImpl::init]: the start of the controller. *)
Definition init_run (fuel : nat) (config_info : bool) (s : XState) : outcome XState :=
  s ← write_reg SetRunStop s;
  s ← wait_status fuel HcHalted s;
  s ← write_reg (RingDoorbell 0 0) s;
  if config_info then write_reg SetConfigurationInformationEnable s else Ret s.

(** [XhciImpl::init], up to the reset of the ports. *)
Definition init_setup (fuel : nat) (s : XState) : outcome XState :=
  s ← wait_status fuel ControllerNotReady s;
  s ← write_reg ClearRunStop s;
  s ← wait_status fuel RunStop s;
  s ← write_reg SetHostControllerReset s;
  let max_slots := number_of_device_slots (x_hc s) in
  let max_ports := number_of_ports (x_hc s) in
  let max_interrupts := number_of_interrupts (x_hc s) in
  let config_info := configuration_information_capability (x_hc s) in
  s ← write_reg (SetMaxDeviceSlots max_slots) s;
  s ← foldO (λ s i, write_reg (PowerPort i) s) (range max_ports) s;
  '(cmd_ring, s) ← alloc_frame size_of_CommandKind s;
  '(dev_context_array, s) ← alloc_frame size_of_Device16 s;
  a ← first_addr dev_context_array max_slots;
  s ← write_reg (SetDcbaap a) s;
  a ← first_addr cmd_ring (page_size / size_of_CommandKind);
  s ← write_reg (SetCommandRingPointer a) s;
  s ← foldO init_interrupter (range max_interrupts) s;
  s ← init_scratchpad dev_context_array max_slots s;
  init_run fuel config_info s.

Definition xhci_impl_init (fuel : nat) (self : XhciImpl) (k : KMem) : outcome (XhciImpl * KMem * list reg_write) :=
  match with_regs id self with
  | None => Ret (self, k, [])
  | Some h =>
      s ← init_setup fuel (MkX k h []);
      _ ← reset_ports (x_hc s);
      let self := MkXhci (Some (x_hc s)) (xi_extcaps self) in
      _ ← xhci_probe 16 self;
      Ret (self, x_mem s, x_log s)
  end.

(** [ScratchpadEntry]. *)
Record ScratchpadEntry : Type := MkScratchpad { addr_low : Z; addr_high : Z }.
Definition set_addr (addr : Z) : ScratchpadEntry :=
  MkScratchpad (wrap 32 addr) (wrap 32 (Z.shiftr addr 32)).

(** [FOSSPciDeviceHandle for XhciProtected]. *)
Definition xhci_handles (v : Vendor) (device_id : DeviceKind) : bool := bool_decide (device_id = UsbController).
Definition xhci_start (fuel : nat) (self : XhciImpl) (k : KMem) : outcome (XhciImpl * KMem * list reg_write) :=
  xhci_impl_init fuel self k.

(** [MassStorageDriver::new]; [endpoint] is read from a fresh device context. *)
Record MassStorageDriver : Type := MkMassStorage { ms_device : UsbDeviceKind; slot_id : Z; ms_max_packet_size : Z }.
Definition usb_context (d : UsbDeviceKind) : device := match d with Device8 d | Device16 d => d end.
Definition mass_storage_new (N endpoint : Z) : outcome MassStorageDriver :=
  d ← usb_device_kind_from N;
  let slot := usb_device_address (usb_context d) in
  d ← usb_device_kind_from N;
  max ← max_packet_size (usb_context d) endpoint;
  d ← usb_device_kind_from N;
  Ret (MkMassStorage d slot max).

End Driver.

(** ** Start-up *)

(** The writes of a start-up that is given the addresses [cmd] (command ring), [dev]
    (device contexts), [scratch] (scratchpad) and three per interrupter. *)
Section Spec.
Context `{XhciHw}.

Definition interrupter_writes (i a b c : Z) : list reg_write :=
  [SetErstsz i (read_u16 a); SetErdp i b; SetErstba i (read_u64 c); ClearImod i; EnableInterrupter i].

Fixpoint interrupters_writes (idx : list Z) (addrs : list Z) : list reg_write :=
  match idx, addrs with
  | i :: idx, a :: b :: c :: addrs => interrupter_writes i a b c ++ interrupters_writes idx addrs
  | _, _ => []
  end.

Definition init_writes (slots ports ints : Z) (cic : bool) (cmd dev scratch : Z) (addrs : list Z)
    : list reg_write :=
  [ClearRunStop; SetHostControllerReset; SetMaxDeviceSlots slots] ++ (PowerPort <$> range ports) ++
  [SetDcbaap dev; SetCommandRingPointer cmd] ++ interrupters_writes (range ints) addrs ++
  [SetInterrupterEnable; CopyDeviceContext dev scratch; SetRunStop; RingDoorbell 0 0] ++
  (if cic then [SetConfigurationInformationEnable] else []).

(** What the crate's checks accept: aligned addresses. *)
Definition aligned_write (w : reg_write) : Prop :=
  match w with
  | SetDcbaap a | SetCommandRingPointer a | SetErstba _ a => a mod 64 = 0
  | SetErdp _ a => a mod 16 = 0
  | _ => True
  end.
End Spec.

Section Startup.
Context `{X86PagingLaws} `{!PageMapper} `{!PageMapperLaws} `{!XhciHw} `{!XhciHwLaws}.

(** Memory is set up, and the controller answers within [fuel] reads and accepts what
    the crate's documentation says it does. *)
Context (off : Z) (map : list MemoryRegion) (fuel : nat) (C : Z * Z * Z * Z * bool).
Context (Hoff : 0 <= off) (Hal : off mod page_size = 0) (Hlim : off + 2 ^ 52 < 2 ^ 64).
Context (Hcan : ∀ f, f ∈ usable_addrs map → canonical (f + off)).
Context (Hpoll : ∀ b h, ∃ h', wait_hc fuel b h = Ret h').
Context (Hwrite : ∀ w h, aligned_write w → ∃ h', hc_write w h = Ret h').
Context (Hzero : ∀ a, read_u64 a mod 64 = 0).

(** The address of a usable frame handed out so far. *)
Definition given (nx : Z) (a : Z) : Prop :=
  ∃ j f, (j < Z.to_nat nx)%nat ∧ usable_addrs map !! j = Some f ∧ a = f + off.

(** After the frames [addrs] and the writes [ws]; [n] more frames can be had. *)
Definition at_point (s : XState) (addrs : list Z) (ws : list reg_write) (n : Z) : Prop :=
  ∃ m fa, ready (x_mem s) m fa ∧ km_offset (x_mem s) = Some off ∧ fa_map fa = map ∧ frames_left fa n ∧
    Forall (given (fa_next fa)) addrs ∧ NoDup addrs ∧ caps (x_hc s) = C ∧ x_log s = ws.

Lemma write_ok w s addrs ws n :
  at_point s addrs ws n → aligned_write w →
  ∃ s', write_reg w s = Ret s' ∧ at_point s' addrs (ws ++ [w]) n.
Proof.
  intros (m & fa & Hr & Ho & Hm & Hf & Hg & Hn & Hc & Hl) Hw. unfold write_reg.
  destruct (Hwrite w (x_hc s) Hw) as [h E]. rewrite E. eexists. split; [done|].
  exists m, fa. cbn [x_mem x_hc x_log]. rewrite (hc_write_caps _ _ _ E), Hl. by split_and!.
Qed.

Lemma wait_hc_caps fl b h h' : wait_hc fl b h = Ret h' → caps h' = caps h.
Proof.
  revert h. induction fl as [|fl IH]; intros h; [done|]. cbn [wait_hc].
  pose proof (hc_read_caps b h) as Hc. destruct (hc_read b h) as [[] h1]; cbn [snd] in Hc.
  - intros E%IH. congruence.
  - by intros [= <-].
Qed.

Lemma wait_ok b s addrs ws n :
  at_point s addrs ws n → ∃ s', wait_status fuel b s = Ret s' ∧ at_point s' addrs ws n.
Proof.
  intros (m & fa & Hr & Ho & Hm & Hf & Hg & Hn & Hc & Hl). unfold wait_status.
  destruct (Hpoll b (x_hc s)) as [h E]. rewrite E. eexists. split; [done|].
  exists m, fa. cbn [x_mem x_hc x_log]. rewrite (wait_hc_caps _ _ _ _ E). by split_and!.
Qed.

Lemma given_mono nx nx' a : nx <= nx' → given nx a → given nx' a.
Proof. intros Hx (j & f & Hj & ?). exists j, f. split; [lia|done]. Qed.

(** A fresh, page-aligned address. *)
Lemma alloc_ok size s addrs ws n :
  at_point s addrs ws n → size <= page_size → 4 <= n →
  ∃ a s', alloc_frame size s = Ret (a, s') ∧ a mod page_size = 0 ∧ at_point s' (addrs ++ [a]) ws (n - 4).
Proof.
  intros (m & fa & Hr & Ho & Hm & Hf & Hg & Hn & Hc & Hl) Hsz Hn4. unfold alloc_frame, addralloc.
  destruct (addralloc_page_spec (x_mem s) m fa off) as (f & m' & fa' & Hlk & E & Ha & Hlt & _); try done.
  { by eapply frames_left_le. }
  { by rewrite Hm. }
  rewrite E. cbn [mbind outcome_bind]. destruct (Z.ltb_spec page_size size); [lia|]. cbn [mbind outcome_bind].
  exists (f + off). eexists. split; [done|].
  destruct (usable_in_map fa _ f (proj1 Hf) Hlk) as (_ & Hfm & _). split.
  { by rewrite Z.add_mod, Hfm, Hal by done. }
  rewrite Hm in Hlk. destruct Hf as (Hwf & Hnx & H64 & Hlen). exists m', fa'. cbn [x_mem x_hc x_log].
  split_and!; [by eapply ready_with_mem|done|by rewrite (proj1 Ha)| | | |done|done].
  - eapply frames_left_advanced; [|done]. by split_and!.
  - apply Forall_app. split; [|constructor; [|constructor]].
    + eapply Forall_impl; [done|]. intros a. apply given_mono. lia.
    + exists (Z.to_nat (fa_next fa)), f. split; [lia|done].
  - apply NoDup_app. split_and!; [done| |apply NoDup_singleton].
    intros a Ha1 ->%list_elem_of_singleton. rewrite Forall_forall in Hg.
    destruct (Hg _ Ha1) as (j & f' & Hj & Hlj & Heq). assert (f' = f) as -> by lia.
    assert (j = Z.to_nat (fa_next fa)); [|lia].
    rewrite Hm in Hwf. eapply NoDup_lookup; [by eapply usable_addrs_NoDup|done..].
Qed.

Lemma page_aligned a n : a mod page_size = 0 → (n | page_size) → 0 < n → a mod n = 0.
Proof.
  intros Ha Hd Hn. apply Z.mod_divide; [lia|]. apply Z.divide_trans with page_size; [done|].
  by apply Z.mod_divide.
Qed.

(** Step through a sequence of writes, waits and allocations. *)
Ltac step_write Hp :=
  match goal with
  | |- context [write_reg ?w ?s] =>
      let s' := fresh "s" in let E := fresh "E" in
      destruct (write_ok w s _ _ _ Hp) as (s' & E & Hp'); [|rewrite E; clear E Hp; rename Hp' into Hp;
        cbn [mbind outcome_bind]]
  end.
Ltac step_alloc Hp a Ha :=
  match goal with
  | |- context [alloc_frame ?z ?s] =>
      let s' := fresh "s" in let E := fresh "E" in
      destruct (alloc_ok z s _ _ _ Hp) as (a & s' & E & Ha & Hp'); [|  |rewrite E; clear E Hp; rename Hp' into Hp;
        cbn [mbind outcome_bind]]
  end.

Lemma interrupter_ok i s addrs ws n :
  at_point s addrs ws n → 12 <= n →
  ∃ a b c s', init_interrupter s i = Ret s' ∧
    at_point s' (addrs ++ [a; b; c]) (ws ++ interrupter_writes i a b c) (n - 12).
Proof.
  intros Hp Hn12. unfold init_interrupter.
  step_alloc Hp a Ha; [unfold page_size; lia|lia|].
  step_write Hp; [done|].
  step_alloc Hp b Hb; [unfold page_size, size_of_EventKind; lia|lia|].
  change (first_addr b (4096 / size_of_EventKind)) with (Ret b). cbn [mbind outcome_bind].
  step_write Hp; [apply (page_aligned b); [done|by exists 256|lia]|].
  step_alloc Hp c Hc; [unfold page_size; lia|lia|].
  step_write Hp; [apply Hzero|]. step_write Hp; [done|].
  destruct (write_ok (EnableInterrupter i) _ _ _ _ Hp) as (s' & E & Hp'); [done|].
  exists a, b, c, s'. split; [done|]. rewrite <- !app_assoc in Hp'. cbn [app] in Hp'.
  by replace (n - 12) with (n - 4 - 4 - 4) by lia.
Qed.

Lemma interrupters_ok idx s addrs ws n :
  at_point s addrs ws n → 12 * Z.of_nat (length idx) <= n →
  ∃ new s', foldO init_interrupter idx s = Ret s' ∧ length new = (3 * length idx)%nat ∧
    at_point s' (addrs ++ new) (ws ++ interrupters_writes idx new) (n - 12 * Z.of_nat (length idx)).
Proof.
  revert s addrs ws n. induction idx as [|i idx IH]; intros s addrs ws n Hp Hn.
  { exists [], s. cbn [length interrupters_writes foldO]. rewrite !app_nil_r, Z.sub_0_r. done. }
  cbn [length] in *. rewrite Nat2Z.inj_succ in *.
  destruct (interrupter_ok i s addrs ws n Hp) as (a & b & c & s1 & E1 & Hp1); [lia|].
  destruct (IH s1 _ _ _ Hp1) as (new & s' & E & Hl & Hp'); [lia|].
  exists (a :: b :: c :: new), s'. cbn [foldO]. rewrite E1. cbn [mbind outcome_bind].
  split_and!; [done|cbn; lia|]. rewrite <- !app_assoc in Hp'. cbn [app] in Hp'.
  by replace (n - 12 * Z.succ (Z.of_nat (length idx))) with (n - 12 - 12 * Z.of_nat (length idx)) by lia.
Qed.

Lemma power_ok idx s addrs ws n :
  at_point s addrs ws n →
  ∃ s', foldO (λ s i, write_reg (PowerPort i) s) idx s = Ret s' ∧
    at_point s' addrs (ws ++ (PowerPort <$> idx)) n.
Proof.
  revert s ws. induction idx as [|i idx IH]; intros s ws Hp.
  { exists s. by rewrite app_nil_r. }
  destruct (write_ok (PowerPort i) s _ _ _ Hp) as (s1 & E1 & Hp1); [done|].
  destruct (IH s1 _ Hp1) as (s' & E & Hp'). exists s'. cbn [foldO]. rewrite E1. cbn [mbind outcome_bind].
  split; [done|]. by rewrite <- app_assoc in Hp'.
Qed.

Lemma at_point_caps s addrs ws n slots ports ints sp cic :
  at_point s addrs ws n → C = (slots, ports, ints, sp, cic) →
  number_of_device_slots (x_hc s) = slots ∧ number_of_ports (x_hc s) = ports ∧
  number_of_interrupts (x_hc s) = ints ∧ max_scratchpad_buffers (x_hc s) = sp ∧
  configuration_information_capability (x_hc s) = cic.
Proof.
  intros (m & fa & _ & _ & _ & _ & _ & _ & Hc & _) HC. rewrite HC in Hc. unfold caps in Hc.
  injection Hc as -> -> -> -> ->. done.
Qed.

Lemma length_range n : 0 <= n → Z.of_nat (length (range n)) = n.
Proof. intros. unfold range. rewrite length_fmap, length_seq. lia. Qed.

Lemma init_setup_ok s n slots ports ints sp cic :
  at_point s [] [] n → C = (slots, ports, ints, sp, cic) →
  1 <= slots → 0 <= ints → 0 <= sp → 12 * (ints + 1) <= n →
  ∃ cmd dev scratch addrs s', init_setup fuel s = Ret s' ∧
    length addrs = (3 * Z.to_nat ints)%nat ∧
    at_point s' ([cmd; dev] ++ addrs ++ [scratch]) (init_writes slots ports ints cic cmd dev scratch addrs)
      (n - 12 * (ints + 1)).
Proof.
  intros Hp HC Hs Hi Hsp Hn. unfold init_setup, init_scratchpad, init_run.
  destruct (wait_ok ControllerNotReady _ _ _ _ Hp) as (t1 & -> & Hp1). cbn [mbind outcome_bind]. clear Hp.
  step_write Hp1; [done|]. destruct (wait_ok RunStop _ _ _ _ Hp1) as (t2 & -> & Hp). cbn [mbind outcome_bind].
  step_write Hp; [done|].
  destruct (at_point_caps _ _ _ _ _ _ _ _ _ Hp HC) as (-> & -> & -> & _ & ->).
  step_write Hp; [done|].
  destruct (power_ok (range ports) _ _ _ _ Hp) as (t3 & -> & Hp3). cbn [mbind outcome_bind]. clear Hp Hp1.
  step_alloc Hp3 cmd Hcmd; [unfold page_size, size_of_CommandKind; lia|lia|].
  step_alloc Hp3 dev Hdev; [unfold page_size, size_of_Device16; lia|lia|].
  assert (first_addr dev slots = Ret dev) as Hfd by (unfold first_addr; z_cases; [done|lia]).
  rewrite Hfd. cbn [mbind outcome_bind].
  step_write Hp3; [apply (page_aligned dev); [done|by exists 64|lia]|].
  change (first_addr cmd (page_size / size_of_CommandKind)) with (Ret cmd). cbn [mbind outcome_bind].
  step_write Hp3; [apply (page_aligned cmd); [done|by exists 64|lia]|].
  destruct (interrupters_ok (range ints) _ _ _ _ Hp3) as (addrs & t4 & -> & Hlen & Hp);
    [rewrite length_range; lia|]. cbn [mbind outcome_bind]. clear Hp3.
  step_write Hp; [done|]. destruct (at_point_caps _ _ _ _ _ _ _ _ _ Hp HC) as (_ & _ & _ & -> & _).
  step_alloc Hp scratch Hscr; [unfold page_size, size_of_ScratchpadEntry; lia|rewrite length_range; lia|].
  assert (first_addr scratch (if sp =? 0 then sp + 1 else sp) = Ret scratch) as ->
    by (unfold first_addr; destruct (Z.eqb_spec sp 0); z_cases; done || lia).
  cbn [mbind outcome_bind].
  step_write Hp; [done|]. step_write Hp; [done|].
  destruct (wait_ok HcHalted _ _ _ _ Hp) as (t5 & -> & Hp5). cbn [mbind outcome_bind]. clear Hp.
  step_write Hp5; [done|].
  assert (length addrs = (3 * Z.to_nat ints)%nat) as Hla
    by (rewrite Hlen; unfold range; rewrite length_fmap, length_seq; done).
  exists cmd, dev, scratch, addrs. unfold init_writes.
  rewrite length_range in Hp5 by done.
  replace (n - 12 * (ints + 1)) with (n - 4 - 4 - 12 * ints - 4) by lia.
  destruct cic.
  - destruct (write_ok SetConfigurationInformationEnable _ _ _ _ Hp5) as (s' & -> & Hp'); [done|].
    exists s'. split_and!; [done..|]. rewrite <- !app_assoc in Hp'. exact Hp'.
  - eexists. split_and!; [done..|]. rewrite <- !app_assoc in Hp5. exact Hp5.
Qed.

Lemma reset_ports_spec h :
  reset_ports h = if existsb port_enabled_disabled (read_ports h) then Hang else Ret tt.
Proof.
  unfold reset_ports. induction (read_ports h) as [|p ps IH]; [done|]. cbn [foldO existsb].
  rewrite port_reset_set. by destruct (port_enabled_disabled p).
Qed.

(** [xhci_probe] of a supported size returns: the wait is on a bit it has just cleared. *)
Lemma probe_ret (N : Z) self : N = 8 ∨ N = 16 → ∃ d, xhci_probe N self = Ret d.
Proof.
  intros HN. unfold xhci_probe. destruct (with_regs read_ports self) as [ps|]; [|by eexists].
  induction ps as [|p ps IH]; [by eexists|]. cbn [probe_ports].
  destruct (port_power p); [|done]. rewrite port_enabled_set_0. cbn [wait_copy mbind outcome_bind].
  destruct (current_connect_status _); [|done]. destruct HN as [-> | ->]; by eexists.
Qed.
End Startup.


(** A controller that is always ready, with 8 slots, 2 ports and one interrupter; a port
    is its connect, enable, reset and power bits. *)
Definition xhci_hw_model (ports : list (bool * bool * bool * bool)) : XhciHw := {|
  hc := unit;
  portsc := bool * bool * bool * bool;
  extcaps := unit;
  device := unit;
  registers_new _ k := Ret (tt, k);
  extcaps_new _ _ k := Ret (None, k);
  hc_read _ h := (false, h);
  hc_write _ h := Ret h;
  number_of_device_slots _ := 8;
  number_of_ports _ := 2;
  number_of_interrupts _ := 1;
  max_scratchpad_buffers _ := 0;
  configuration_information_capability _ := false;
  read_ports _ := ports;
  port_power '(_, _, _, p) := p;
  port_enabled_disabled '(_, e, _, _) := e;
  port_reset '(_, _, r, _) := r;
  current_connect_status '(c, _, _, _) := c;
  set_port_reset '(c, e, _, p) := (c, e, true, p);
  set_0_port_enabled_disabled '(c, _, r, p) := (c, false, r, p);
  read_u16 _ := 0;
  read_u64 _ := 0;
  new_32byte := tt;
  new_64byte := tt;
  usb_device_address _ := 0;
  max_packet_size _ _ := Ret 0;
|}.

#[export] Instance xhci_hw_model_laws ports : @XhciHwLaws _ (xhci_hw_model ports).
Proof. split; [done| |by intros [[[] ?] ?]..]. by intros w [] []. Qed.


(** A scratchpad entry holds the two halves of the address. *)
Lemma set_addr_halves addr :
  is_uN 64 addr → addr_low (set_addr addr) + 2 ^ 32 * addr_high (set_addr addr) = addr.
Proof.
  intros Ha. unfold set_addr, wrap, is_uN in *. cbn [addr_low addr_high].
  rewrite Z.shiftr_div_pow2 by lia. rewrite (Z.mod_small (addr / 2 ^ 32)).
  - rewrite (Z.div_mod addr (2 ^ 32)) at 3 by lia. lia.
  - split; [apply Z.div_pos; lia|apply Z.div_lt_upper_bound; lia].
Qed.

(** The mass-storage wrapper takes its slot and packet size from a fresh device context
    and so knows nothing of the device; it exists for two sizes. *)
Lemma mass_storage_spec `{XhciHw} N endpoint :
  mass_storage_new N endpoint =
  if (N =? 8) || (N =? 16) then
    let d := if N =? 8 then new_32byte else new_64byte in
    max ← max_packet_size d endpoint;
    Ret (MkMassStorage (if N =? 8 then Device8 d else Device16 d) (usb_device_address d) max)
  else Panic (PMsg "Unsupported device size").
Proof.
  unfold mass_storage_new, usb_device_kind_from. destruct (N =? 8); cbn [orb mbind outcome_bind usb_context].
  - destruct (max_packet_size _ _); done.
  - destruct (N =? 16); cbn [mbind outcome_bind usb_context]; [|done]. destruct (max_packet_size _ _); done.
Qed.
