(* ===== verification/Boot.v ===== *)
(** * The kernel's entry point: src/main.rs, with the logger of src/common/mod.rs, the
      descriptor tables of src/arch/x86_64/exceptions.rs and the tables and shutdown of
      src/drivers/acpi_impl.rs

    [maink] sets up the heap, the descriptor tables, the logger and the ACPI tables, hands
    over to the PCI code, and ends in the rendering loop.  The boot loader's information
    and what the [acpi] and [aml] crates answer are parameters. *)

From S2P Require Import Prelude BitFields Paging Frames Memory Interrupts Apic AcpiHandler PciIds Pci Drm.

Local Open Scope Z_scope.

(** ** Descriptor tables *)

Module Gdt.

Inductive Descriptor : Type := KernelCode | KernelData | TssSegment.
Record Selectors : Type := MkSelectors {
  sel_code : Z; sel_ds : Z; sel_es : Z; sel_fs : Z; sel_gs : Z; sel_tss : Z;
}.

(** [GlobalDescriptorTable]: a new table has the null entry, a segment takes one entry
    and a task state segment two; a full table panics. *)
Class GdtCrate : Type := {
  table : Type;
  gdt_new : table;
  gdt_len : table → Z;
  add_entry : Descriptor → table → outcome (Z * table);
}.
Definition entries (d : Descriptor) : Z := match d with TssSegment => 2 | _ => 1 end.
Class GdtCrateLaws `{GdtCrate} : Prop := {
  gdt_new_len : gdt_len gdt_new = 1;
  add_entry_ok d t : gdt_len t + entries d <= 8 →
    ∃ t', add_entry d t = Ret (8 * gdt_len t, t') ∧ gdt_len t' = gdt_len t + entries d;
  add_entry_full d t : 8 < gdt_len t + entries d → ∃ p, add_entry d t = Panic p;
}.

#[export] Instance gdt_model : GdtCrate | 100 := {
  table := Z;
  gdt_new := 1;
  gdt_len t := t;
  add_entry d t := if t + entries d <=? 8 then Ret (8 * t, t + entries d) else Panic (PMsg "GDT full");
}.
#[export] Instance gdt_model_laws : @GdtCrateLaws gdt_model.
Proof. split; [done|..]; intros d t Ht; cbn in *; z_cases; try lia; by eexists. Qed.

Section Gdt.
Context `{GdtCrate} `{X86Paging}.

(** The seven interrupt stacks are static arrays; [stacks] are their addresses. *)
Definition STACK_LEN : Z := 4096 * 5.
Definition tss_stack (begin : Z) : outcome Z := v ← virt_addr_new begin; virt_add v STACK_LEN.
Definition tss_new (stacks : list Z) : outcome (list Z) := mapO tss_stack stacks.

Definition gdt_build : outcome (table * Selectors) :=
  '(code, t) ← add_entry KernelCode gdt_new;
  '(ds, t) ← add_entry KernelData t;
  '(es, t) ← add_entry KernelData t;
  '(fs, t) ← add_entry KernelData t;
  '(gs, t) ← add_entry KernelData t;
  '(tss, t) ← add_entry TssSegment t;
  Ret (t, MkSelectors code ds es fs gs tss).

(** [init]: what is loaded into the descriptor register, the segment registers (CS, DS,
    ES, FS, GS) and the task register. *)
Definition exceptions_init : outcome (table * list Z * Z) :=
  '(t, s) ← gdt_build;
  Ret (t, [sel_code s; sel_ds s; sel_es s; sel_fs s; sel_gs s], sel_tss s).

End Gdt.

(** Add the next descriptor to the table [t], whose length [H] gives. *)
Ltac gdt_step t H t' H' :=
  match goal with
  | |- context [add_entry ?d t] =>
      destruct (add_entry_ok d t) as (t' & -> & H'); [rewrite H; cbn; lia|];
      rewrite H in H' |- *; cbn [mbind outcome_bind entries Z.add Pos.add Pos.succ Z.mul Pos.mul] in *
  end.

(** The stack pointers are the ends of the arrays. *)
Lemma tss_new_tops `{X86PagingLaws} stacks :
  Forall (λ b, 0 <= b < 2 ^ 46) stacks → tss_new stacks = Ret ((λ b, b + STACK_LEN) <$> stacks).
Proof.
  induction 1 as [|b l Hb _ IH]; [done|]. unfold tss_new in *. cbn [mapO fmap list_fmap].
  assert (tss_stack b = Ret (b + STACK_LEN)) as ->; [|cbn [mbind outcome_bind]; by rewrite IH].
  unfold tss_stack, virt_add, STACK_LEN. rewrite virt_addr_new_ok by (apply canonical_low; lia).
  cbn [mbind outcome_bind]. rewrite uadd_ret by lia. cbn [mbind outcome_bind].
  by rewrite virt_addr_new_ok by (apply canonical_low; lia).
Qed.

Lemma exceptions_init_ret `{GdtCrateLaws} :
  ∃ t, exceptions_init = Ret (t, [8; 16; 24; 32; 40], 48) ∧ gdt_len t = 8.
Proof.
  unfold exceptions_init, gdt_build. pose proof gdt_new_len as L0.
  gdt_step gdt_new L0 t1 L1. gdt_step t1 L1 t2 L2. gdt_step t2 L2 t3 L3.
  gdt_step t3 L3 t4 L4. gdt_step t4 L4 t5 L5. gdt_step t5 L5 t6 L6. by exists t6.
Qed.

(** The descriptor table is exactly full: the six descriptors take entries 1 to 7,
    the segment registers get the selectors 8, 16, 24, 32 and 40 and the task register
    48, and one more descriptor of any kind would panic. *)
Theorem gdt_exactly_full `{GdtCrateLaws} :
  ∃ t, exceptions_init = Ret (t, [8; 16; 24; 32; 40], 48) ∧ gdt_len t = 8 ∧
    ∀ d, ∃ p, add_entry d t = Panic p.
Proof.
  destruct exceptions_init_ret as (t & E & Hl). exists t. split_and!; [done..|].
  intros d. apply add_entry_full. rewrite Hl. destruct d; cbn; lia.
Qed.

Lemma gdt_exactly_full_witness :
  ∃ t, exceptions_init = Ret (t, [8; 16; 24; 32; 40], 48) ∧ gdt_len t = 8.
Proof. destruct gdt_exactly_full as (t & E & Hl & _). exists t. split; [exact E|exact Hl]. Defined.

End Gdt.

(** ** Logging *)

(** [log::Level] as a number: Error is 1, Info 3, Trace 5. *)
Definition LEVEL_ERROR : Z := 1.
Definition LEVEL_INFO : Z := 3.
Definition LEVEL_TRACE : Z := 5.

(** The logger: whether its lock is held, and the lines written to the screen. *)
Record Printk : Type := MkPrintk { pk_info : FrameBufferInfo; pk_locked : bool; pk_lines : list string }.

Definition printk_new (info : FrameBufferInfo) : Printk := MkPrintk info false [].
Definition printk_force_unlock (p : Printk) : Printk := MkPrintk (pk_info p) false (pk_lines p).
Definition printk_is_locked (p : Printk) : bool := if negb (pk_locked p) then false else true.
Definition enabled (max_level level : Z) : bool := level <=? max_level.

(** [self.0.write()] waits for the lock, for ever if it is held. *)
Definition printk_write (s : string) (p : Printk) : outcome Printk :=
  if pk_locked p then Hang else Ret (MkPrintk (pk_info p) false (pk_lines p ++ [s])).
Definition printk_log (max_level level : Z) (msg : string) (p : Printk) : outcome Printk :=
  if enabled max_level level then printk_write msg p else Ret p.

(** The [log] macros: nothing before a logger is set. *)
Record LogState : Type := MkLog { PRINTK : option Printk; lg_set : bool; lg_max_level : Z }.
Definition log (level : Z) (msg : string) (l : LogState) : outcome LogState :=
  match lg_set l, PRINTK l with
  | true, Some p => p ← printk_log (lg_max_level l) level msg p; Ret (MkLog (Some p) true (lg_max_level l))
  | _, _ => Ret l
  end.

Definition printk_init (opt_level_0 : bool) (info : FrameBufferInfo) (l : LogState) : outcome LogState :=
  let p := match PRINTK l with Some p => p | None => printk_new info end in
  if lg_set l then Panic PUnwrap
  else log LEVEL_INFO "CryptOS v." (MkLog (Some p) true (if opt_level_0 then LEVEL_TRACE else LEVEL_INFO)).

Definition detect_deadlock (l : LogState) : outcome unit :=
  p ← unwrap (PRINTK l);
  if printk_is_locked p then Panic (PMsg "Deadlock detected") else Ret tt.

(** ** Shutting down, and panics *)

Inductive AmlValue : Type := AmlInteger (v : Z) | AmlOtherValue.

(** The control blocks of the FADT and the package [\_S5] evaluates to. *)
Class ShutdownEnv : Type := {
  pm1a_control_block : option Z;
  pm1b_control_block : option Z;
  s5_package : option (list AmlValue);
}.

Section Shutdown.
Context `{ShutdownEnv}.

(** [value as u16 | 1 << 13] to the port of [block]. *)
Definition sleep_write (block : Z) (v : AmlValue) : list (Z * Z) :=
  match v with
  | AmlInteger value => [(wrap 16 block, Z.lor (wrap 16 value) (Z.shiftl 1 13))]
  | AmlOtherValue => []
  end.

(** The port writes of [system_shutdown], how it ends and whether it leaves the lock of
    the AML context taken: the guard is never dropped, since nothing is unwound.  It waits
    for ever for a taken lock, and panics, at the latest with [unreachable!()], when the
    machine is still on. *)
Definition shutdown_writes (a : AmlState) : list (Z * Z) * panic_info :=
  if FADT a then
    match s5_package, pm1a_control_block with
    | Some pkg, Some pm1a =>
        match pkg with
        | [] => ([], PBounds)
        | v0 :: pkg' =>
            match pm1b_control_block with
            | None => (sleep_write pm1a v0, PAssert)
            | Some pm1b =>
                match pkg' with
                | [] => (sleep_write pm1a v0, PBounds)
                | v1 :: _ => (sleep_write pm1a v0 ++ sleep_write pm1b v1, PAssert)
                end
            end
        end
    | _, _ => ([], PAssert)
    end
  else ([], PUnwrap).

Definition system_shutdown (a : AmlState) (aml_locked : bool) : list (Z * Z) * outcome False * bool :=
  if AML_CONTEXT a then
    if aml_locked then ([], Hang, true)
    else let '(ws, p) := shutdown_writes a in (ws, Panic p, true)
  else ([], Panic PUnwrap, aml_locked).

(** The panic handler: the message, then the shutdown, whose own panic enters the handler
    again, or an endless loop.  The result is the port writes of the first [n] entries;
    no entry returns. *)
Fixpoint panic_handler (n : nat) (shutdown_on_panic : bool) (a : AmlState) (aml_locked : bool) (l : LogState)
    : list (Z * Z) :=
  match n with
  | O => []
  | S n =>
      match log LEVEL_ERROR "Kernel panic -- not syncing" l with
      | Ret l =>
          if shutdown_on_panic then
            let '(ws, o, aml_locked) := system_shutdown a aml_locked in
            match o with
            | Panic _ => ws ++ panic_handler n shutdown_on_panic a aml_locked l
            | _ => ws
            end
          else []
      | _ => []
      end
  end.

End Shutdown.

(** ** The ACPI tables *)

Inductive TableSig : Type := SigBgrt | SigFadt | SigHpet | SigMadt | SigMcfg.
Record AmlTable : Type := MkAmlTable { aml_address : Z; aml_length : Z }.

(** What the [acpi] crate answers; looking a table up maps its pages through the
    kernel's handler, so the kernel's memory goes through every call. *)
Class AcpiTablesEnv `{PageMapper} `{PciEnv} : Type := {
  tables : Type;
  acpi_table : Type;
  from_rsdp : Z → KMem → outcome (option tables * KMem);
  find_table : TableSig → tables → KMem → outcome (option acpi_table * KMem);
  mcfg_entries : acpi_table → list (list Z);
  tables_dsdt : tables → KMem → outcome (option AmlTable * KMem);
  tables_ssdts : tables → KMem → outcome (list AmlTable * KMem);
  pci_config_regions : tables → KMem → outcome (option mcfg * KMem);
  platform_interrupts : tables → KMem → outcome (option InterruptModel * KMem);
}.

Section Tables.
Context `{X86Paging} `{!PageMapper} `{!PciEnv} `{!AcpiTablesEnv}.

Record UserAcpi : Type := MkUserAcpi {
  ua_bgrt : acpi_table; ua_fadt : acpi_table; ua_hpet : acpi_table; ua_madt : acpi_table;
  ua_mcfg : list (list Z); ua_dsdt : option AmlTable; ua_ssdts : list AmlTable;
}.

(** [find_table::<T>().unwrap_or_else(|e| panic!(..))]. *)
Definition require_table (sig : TableSig) (msg : string) (t : tables) (k : KMem) : outcome (acpi_table * KMem) :=
  '(r, k) ← find_table sig t k;
  match r with Some x => Ret (x, k) | None => Panic (PMsg msg) end.

Definition user_acpi_new (t : tables) (k : KMem) : outcome (UserAcpi * KMem) :=
  '(bgrt, k) ← require_table SigBgrt "Failed to find BGRT table" t k;
  '(fadt, k) ← require_table SigFadt "Failed to find FADT table" t k;
  '(hpet, k) ← require_table SigHpet "Failed to find HPET table" t k;
  '(madt, k) ← require_table SigMadt "Failed to find MADT table" t k;
  '(mcfg, k) ← require_table SigMcfg "Failed to find MCFG table" t k;
  '(dsdt, k) ← tables_dsdt t k;
  '(ssdts, k) ← tables_ssdts t k;
  Ret (MkUserAcpi bgrt fadt hpet madt (mcfg_entries mcfg) dsdt ssdts, k).

Definition user_acpi_clone (u : UserAcpi) : UserAcpi :=
  MkUserAcpi (ua_bgrt u) (ua_fadt u) (ua_hpet u) (ua_madt u) (ua_mcfg u)
    ((λ t, MkAmlTable (aml_address t) (aml_length t)) <$> ua_dsdt u)
    ((λ t, MkAmlTable (aml_address t) (aml_length t)) <$> ua_ssdts u).

End Tables.

(** ** [maink] *)

Definition BOOT_INFO_ADDR : Z := BEGIN_HEAP / 32.
Definition KERNEL_STACK_ADDR : Z := 0xffff00000000.
Definition KERNEL_STACK_SIZE : Z := 1024 * 1024 * 128.
Definition TLS_TEMPLATE_SIZE : Z := 0x6000000.

Record TlsTemplate : Type := MkTls { tls_start : Z; tls_file_size : Z; tls_mem_size : Z }.
Record BootInfo : Type := MkBootInfo {
  bi_framebuffer : option FrameBuffer; bi_rsdp : option Z; bi_regions : list MemoryRegion;
  bi_tls : option TlsTemplate;
}.

(** The boot loader's configuration: the fields of [Mappings] and [BootloaderConfig] that the
    kernel sets. *)
Inductive Mapping : Type := FixedAddress (a : Z) | Dynamic.
Record Mappings : Type := MkMappings {
  mp_kernel_stack : Mapping; mp_boot_info : Mapping; mp_framebuffer : Mapping;
  mp_physical_memory : option Mapping; mp_page_table_recursive : option Mapping; mp_aslr : bool;
  mp_dynamic_range_start : option Z; mp_dynamic_range_end : option Z;
}.
Definition MAPPINGS : Mappings :=
  MkMappings (FixedAddress KERNEL_STACK_ADDR) (FixedAddress BOOT_INFO_ADDR) Dynamic (Some Dynamic) None false
    (Some 0) (Some 0xffffffffffff).
Record BootloaderConfig : Type := MkConfig { cfg_mappings : Mappings; cfg_kernel_stack_size : Z }.
Definition CONFIG : BootloaderConfig := MkConfig MAPPINGS KERNEL_STACK_SIZE.

(** [get_boot_info] is the information the boot loader left at [BOOT_INFO_ADDR];
    [get_framebuffer] panics when it has none. *)
Definition get_framebuffer (bi : BootInfo) : outcome FrameBuffer := unwrap (bi_framebuffer bi).

(** The machine at entry: the page tables in memory and [CR3], CPUID's vendor, and where
    the heap allocator puts a box. *)
Class BootEnv `{PageMapper} : Type := {
  table_at : Z → pt; boot_cr3 : Z;
  cpu_vendor : option string;
  box_address : KMem → Z;
}.

Section Boot.
Context `{X86Paging} `{BitField} `{IdtIndexing} `{!PageMapper} `{!PciEnv} `{!PciDrivers} `{MsiEnv}
  `{ApicEnv} `{AmlEnv} `{!AcpiTablesEnv} `{!BootEnv} `{!Gdt.GdtCrate}.

Record Kernel : Type := MkKernel {
  kn_pci : PciState;
  kn_log : LogState;
  kn_boot : BootInfo;
  kn_segments : option (list Z * Z);              (* segment registers, task register *)
  TLS_TEMPLATE_ADDR : Z;
  USER_ACPI : option UserAcpi;
  INTERRUPT_MODEL : option InterruptModel;
  PCI_CONFIG : option (option mcfg);
}.

(** The kernel with another memory, and with another logger. *)
Definition pci_with_mem (s : PciState) (k : KMem) : PciState :=
  with_mem_int s k (ps_int s) (ps_messages s).
Definition kn_with_mem (s : Kernel) (k : KMem) : Kernel :=
  MkKernel (pci_with_mem (kn_pci s) k) (kn_log s) (kn_boot s) (kn_segments s) (TLS_TEMPLATE_ADDR s)
    (USER_ACPI s) (INTERRUPT_MODEL s) (PCI_CONFIG s).
Definition kn_with_log (s : Kernel) (l : LogState) : Kernel :=
  MkKernel (kn_pci s) l (kn_boot s) (kn_segments s) (TLS_TEMPLATE_ADDR s)
    (USER_ACPI s) (INTERRUPT_MODEL s) (PCI_CONFIG s).

Definition get_mcfg (s : Kernel) : outcome (option mcfg) := unwrap (PCI_CONFIG s).

(** Heap, descriptor tables and the TLS template, lines 196 to 210. *)
Definition boot_early (s : Kernel) : outcome Kernel :=
  k ← heap_init table_at boot_cr3 (bi_regions (kn_boot s)) (ps_mem (kn_pci s));
  '(_, segs, tr) ← Gdt.exceptions_init;
  let a := box_address k in
  let b := kn_boot s in
  let b := MkBootInfo (bi_framebuffer b) (bi_rsdp b) (bi_regions b)
             (Some (MkTls a (TLS_TEMPLATE_SIZE - 1) TLS_TEMPLATE_SIZE)) in
  Ret (MkKernel (pci_with_mem (kn_pci s) k) (kn_log s) b (Some (segs, tr)) a
         (USER_ACPI s) (INTERRUPT_MODEL s) (PCI_CONFIG s)).

(** The boot loader's framebuffer and RSDP, and the logger, lines 212 to 235. *)
Definition boot_log (opt_level_0 : bool) (s : Kernel) : outcome (Z * Kernel) :=
  fb ← unwrap (bi_framebuffer (kn_boot s));
  rsdp ← unwrap (bi_rsdp (kn_boot s));
  l ← printk_init opt_level_0 (fb_info fb) (kn_log s);
  l ← log LEVEL_INFO "Using version" l;
  _ ← unwrap cpu_vendor;
  l ← log LEVEL_INFO "CPU vendor" l;
  l ← log LEVEL_INFO "RSDP address" l;
  _ ← unwrap (head (bi_regions (kn_boot s)));
  l ← log LEVEL_INFO "Memory region start address" l;
  Ret (rsdp, kn_with_log s l).

(** The ACPI tables and the PCI devices, lines 237 to 259. *)
Definition boot_acpi (opt_level_0 : bool) (rsdp : Z) (s : Kernel) : outcome Kernel :=
  '(r, k) ← from_rsdp rsdp (ps_mem (kn_pci s));
  match r with
  | None =>
      l ← log LEVEL_ERROR "Failed to parse the ACPI tables" (kn_log s);
      Ret (kn_with_log (kn_with_mem s k) l)
  | Some t =>
      '(u, k) ← match USER_ACPI s with Some u => Ret (u, k) | None => user_acpi_new t k end;
      '(m, k) ← pci_config_regions t k;
      '(im, k) ← platform_interrupts t k;
      match im with
      | None =>
          Ret (MkKernel (pci_with_mem (kn_pci s) k) (kn_log s) (kn_boot s) (kn_segments s)
                 (TLS_TEMPLATE_ADDR s) (Some u) (INTERRUPT_MODEL s) (PCI_CONFIG s))
      | Some im =>
          let im := get_or_init (INTERRUPT_MODEL s) im in
          let pc := get_or_init (PCI_CONFIG s) m in
          let s := MkKernel (pci_with_mem (kn_pci s) k) (kn_log s) (kn_boot s) (kn_segments s)
                     (TLS_TEMPLATE_ADDR s) (Some u) im pc in
          m ← get_mcfg s;
          p ← pci_init opt_level_0 im m (kn_pci s);
          Ret (MkKernel p (kn_log s) (kn_boot s) (kn_segments s) (TLS_TEMPLATE_ADDR s) (Some u) im pc)
      end
  end.

Definition maink_boot (opt_level_0 : bool) (s : Kernel) : outcome Kernel :=
  s ← boot_early s;
  '(rsdp, s) ← boot_log opt_level_0 s;
  boot_acpi opt_level_0 rsdp s.

End Boot.

(** One turn of the rendering loop, and [n] turns of it. *)
Definition render_pass (cpuid : option Avx.Features) (t : CompositingTable) (s : FrameBuffer * Avx.Ctl)
    : outcome (FrameBuffer * Avx.Ctl) :=
  foldO (λ '(fb, c) canvas, merge_down cpuid canvas fb c) t s.
Fixpoint render (n : nat) (cpuid : option Avx.Features) (t : CompositingTable) (s : FrameBuffer * Avx.Ctl)
    : outcome (FrameBuffer * Avx.Ctl) :=
  match n with
  | O => Ret s
  | S n => s ← render_pass cpuid t s; render n cpuid t s
  end.

(** [alloc_err]. *)
Definition alloc_err {A} : outcome A := Panic (PMsg "Out of memory!").

(** ** The logger in a panic *)

Definition log_ok (l : LogState) : Prop :=
  lg_set l = true ∧ ∃ p, PRINTK l = Some p ∧ pk_locked p = false.

Lemma log_ok_step level msg l : log_ok l → ∃ l', log level msg l = Ret l' ∧ log_ok l'.
Proof.
  intros (Hs & p & Hp & Hl). unfold log, printk_log, printk_write. rewrite Hs, Hp, Hl.
  destruct (enabled _ _); cbn [mbind outcome_bind]; eexists; (split; [done|]);
    (split; [done|]); by eexists.
Qed.

Lemma printk_init_ok opt info l :
  lg_set l = false → PRINTK l = None → ∃ l', printk_init opt info l = Ret l' ∧ log_ok l'.
Proof.
  intros Hs Hp. unfold printk_init. rewrite Hs, Hp. apply log_ok_step. split; [done|]. by eexists.
Qed.

Section Panics.
Context `{ShutdownEnv}.

Lemma sleep_write_spec block v p out :
  (p, out) ∈ sleep_write block v →
  ∃ value, v = AmlInteger value ∧ out = Z.lor (wrap 16 value) (Z.shiftl 1 13).
Proof. destruct v as [value|]; cbn; [|by intros ?%not_elem_of_nil]. intros [= -> ->]%list_elem_of_singleton. eauto. Qed.

Lemma sleep_bits v :
  0 <= v < 2 ^ 10 →
  bits_of (Z.lor (wrap 16 v) (Z.shiftl 1 13)) 10 13 = 0 ∧ Z.testbit (Z.lor (wrap 16 v) (Z.shiftl 1 13)) 13 = true.
Proof.
  intros Hv. rewrite wrap_small by (unfold is_uN; lia). split.
  - apply Z.bits_inj'. intros i Hi. rewrite bits_of_testbit, Z.bits_0 by lia. z_cases; cbn [andb]; [|done].
    rewrite Z.lor_spec, Z.shiftl_spec, (testbit_high 10 v) by lia. cbn [orb].
    apply Z.testbit_neg_r. lia.
  - rewrite Z.lor_spec, Z.shiftl_spec by lia. by rewrite orb_true_r.
Qed.

(** Every value shutdown writes comes from the package. *)
Lemma shutdown_writes_spec a p out :
  (p, out) ∈ (shutdown_writes a).1 →
  ∃ pkg value, s5_package = Some pkg ∧ AmlInteger value ∈ pkg ∧
    out = Z.lor (wrap 16 value) (Z.shiftl 1 13).
Proof.
  unfold shutdown_writes. destruct (FADT a); try by intros ?%not_elem_of_nil.
  destruct s5_package as [pkg|], pm1a_control_block as [pa|]; try by intros ?%not_elem_of_nil.
  destruct pkg as [|v0 pkg]; [by intros ?%not_elem_of_nil|].
  intros Hin. exists (v0 :: pkg).
  assert (∃ v block, v ∈ v0 :: pkg ∧ (p, out) ∈ sleep_write block v) as (v & block & Hv & Hw).
  { destruct pm1b_control_block as [pb|]; [|exists v0, pa; split; [constructor|done]].
    destruct pkg as [|v1 pkg]; [exists v0, pa; split; [constructor|done]|].
    cbn [fst] in Hin. apply elem_of_app in Hin as [?|?]; [exists v0, pa|exists v1, pb]; (split; [|done]);
      repeat constructor. }
  apply sleep_write_spec in Hw as (value & -> & ->). eauto.
Qed.

Lemma panic_handler_no_aml n a lk l :
  AML_CONTEXT a = false → log_ok l → panic_handler n true a lk l = [].
Proof.
  intros Ha. revert l. induction n as [|n IH]; intros l Hl; [done|]. cbn [panic_handler].
  destruct (log_ok_step LEVEL_ERROR "Kernel panic -- not syncing" l Hl) as (l' & -> & Hl').
  unfold system_shutdown. rewrite Ha. by apply IH.
Qed.

Lemma panic_handler_locked n a l : AML_CONTEXT a = true → panic_handler n true a true l = [].
Proof.
  intros Ha. destruct n as [|n]; [done|]. cbn [panic_handler]. unfold system_shutdown. rewrite Ha.
  by destruct (log _ _ _).
Qed.


End Panics.

#[export] Instance shutdown_example : ShutdownEnv | 100 := {
  pm1a_control_block := Some 0x604; pm1b_control_block := None; s5_package := Some [AmlInteger 5; AmlInteger 5];
}.


(** ** Booting *)

Section BootTheory.
Context `{X86Paging} `{BitField} `{IdtIndexing} `{!PageMapper} `{!PciEnv} `{!PciDrivers} `{MsiEnv}
  `{ApicEnv} `{AmlEnv} `{!AcpiTablesEnv} `{!BootEnv} `{!Gdt.GdtCrate} `{!Gdt.GdtCrateLaws}.

(** What the boot has set up when it reaches the ACPI tables. *)
Definition early (s : Kernel) (k : KMem) : Kernel :=
  let b := kn_boot s in
  MkKernel (pci_with_mem (kn_pci s) k) (kn_log s)
    (MkBootInfo (bi_framebuffer b) (bi_rsdp b) (bi_regions b)
       (Some (MkTls (box_address k) (TLS_TEMPLATE_SIZE - 1) TLS_TEMPLATE_SIZE)))
    (Some ([8; 16; 24; 32; 40], 48)) (box_address k) (USER_ACPI s) (INTERRUPT_MODEL s) (PCI_CONFIG s).

Lemma boot_early_ret s k :
  heap_init table_at boot_cr3 (bi_regions (kn_boot s)) (ps_mem (kn_pci s)) = Ret k → boot_early s = Ret (early s k).
Proof.
  intros Hh. unfold boot_early. rewrite Hh. cbn [mbind outcome_bind].
  destruct Gdt.exceptions_init_ret as (t & -> & _). done.
Qed.

(** The information the boot loader must have found. *)
Definition boot_info_ok (s : Kernel) : option Z :=
  match bi_framebuffer (kn_boot s), bi_rsdp (kn_boot s), cpu_vendor, bi_regions (kn_boot s) with
  | Some _, Some rsdp, Some _, _ :: _ => Some rsdp
  | _, _, _, _ => None
  end.

Lemma boot_log_spec opt s :
  lg_set (kn_log s) = false → PRINTK (kn_log s) = None →
  match boot_info_ok s with
  | Some rsdp => ∃ l, boot_log opt s = Ret (rsdp, kn_with_log s l) ∧ log_ok l
  | None => boot_log opt s = Panic PUnwrap
  end.
Proof.
  intros Hs Hp. unfold boot_info_ok, boot_log.
  destruct (bi_framebuffer _) as [fb|]; [|done]. cbn [unwrap mbind outcome_bind].
  destruct (bi_rsdp _) as [rsdp|]; [|done]. cbn [unwrap mbind outcome_bind].
  destruct (printk_init_ok opt (fb_info fb) _ Hs Hp) as (l1 & -> & O1). cbn [mbind outcome_bind].
  destruct (log_ok_step LEVEL_INFO "Using version" _ O1) as (l2 & -> & O2). cbn [mbind outcome_bind].
  destruct cpu_vendor as [v|]; [|done]. cbn [unwrap mbind outcome_bind].
  destruct (log_ok_step LEVEL_INFO "CPU vendor" _ O2) as (l3 & -> & O3). cbn [mbind outcome_bind].
  destruct (log_ok_step LEVEL_INFO "RSDP address" _ O3) as (l4 & -> & O4). cbn [mbind outcome_bind].
  destruct (bi_regions _) as [|r rs]; [done|]. cbn [head unwrap mbind outcome_bind].
  destruct (log_ok_step LEVEL_INFO "Memory region start address" _ O4) as (l5 & -> & O5). by exists l5.
Qed.

(** [find] is what looking a table up finds. *)
Lemma user_acpi_new_missing t (find : TableSig → option acpi_table) sig k :
  (∀ sig k, ∃ k', find_table sig t k = Ret (find sig, k')) → find sig = None →
  ∃ m, user_acpi_new t k = Panic (PMsg m).
Proof.
  intros Hf Hn. unfold user_acpi_new, require_table.
  destruct (Hf SigBgrt k) as [k1 ->]. cbn [mbind outcome_bind].
  destruct (find SigBgrt) eqn:E1; [|by eexists]. cbn [mbind outcome_bind].
  destruct (Hf SigFadt k1) as [k2 ->]. cbn [mbind outcome_bind].
  destruct (find SigFadt) eqn:E2; [|by eexists]. cbn [mbind outcome_bind].
  destruct (Hf SigHpet k2) as [k3 ->]. cbn [mbind outcome_bind].
  destruct (find SigHpet) eqn:E3; [|by eexists]. cbn [mbind outcome_bind].
  destruct (Hf SigMadt k3) as [k4 ->]. cbn [mbind outcome_bind].
  destruct (find SigMadt) eqn:E4; [|by eexists]. cbn [mbind outcome_bind].
  destruct (Hf SigMcfg k4) as [k5 ->]. cbn [mbind outcome_bind].
  destruct (find SigMcfg) eqn:E5; [|by eexists]. destruct sig; congruence.
Qed.

(** C20: how the boot ends once the heap is up.  Without a framebuffer, an RSDP, a CPU
    vendor or a memory region it panics.  If the ACPI tables do not parse, it goes on to
    the rendering loop with no device started.  If they do but one of BGRT, FADT, HPET,
    MADT and MCFG is missing, it panics: a firmware without a boot logo (BGRT) cannot
    run the kernel. *)
Theorem boot_error_paths opt s k :
  heap_init table_at boot_cr3 (bi_regions (kn_boot s)) (ps_mem (kn_pci s)) = Ret k →
  lg_set (kn_log s) = false → PRINTK (kn_log s) = None → USER_ACPI s = None →
  match boot_info_ok s with
  | None => maink_boot opt s = Panic PUnwrap
  | Some rsdp =>
      (∀ k', from_rsdp rsdp k = Ret (None, k') →
         ∃ s', maink_boot opt s = Ret s' ∧ ps_devices (kn_pci s') = ps_devices (kn_pci s) ∧
           ps_mem (kn_pci s') = k' ∧ PCI_CONFIG s' = PCI_CONFIG s ∧ log_ok (kn_log s')) ∧
      (∀ t k' find sig, from_rsdp rsdp k = Ret (Some t, k') →
         (∀ sig k, ∃ k', find_table sig t k = Ret (find sig, k')) → find sig = None →
         ∃ m, maink_boot opt s = Panic (PMsg m))
  end.
Proof.
  intros Hh Hs Hp Hu. unfold maink_boot. rewrite (boot_early_ret s k Hh). cbn [mbind outcome_bind].
  pose proof (boot_log_spec opt (early s k) Hs Hp) as Hb.
  change (boot_info_ok (early s k)) with (boot_info_ok s) in Hb.
  destruct (boot_info_ok s) as [rsdp|]; [|by rewrite Hb].
  destruct Hb as (l & -> & Ol). cbn [mbind outcome_bind]. unfold boot_acpi.
  change (ps_mem (kn_pci (kn_with_log (early s k) l))) with k.
  change (USER_ACPI (kn_with_log (early s k) l)) with (USER_ACPI s).
  change (kn_log (kn_with_log (early s k) l)) with l. split.
  - intros k' ->. cbn [mbind outcome_bind].
    destruct (log_ok_step LEVEL_ERROR "Failed to parse the ACPI tables" _ Ol) as (l' & -> & Ol').
    eexists. split; [done|]. done.
  - intros t k' find sig -> Hf Hn. cbn [mbind outcome_bind]. rewrite Hu.
    by destruct (user_acpi_new_missing t find sig k' Hf Hn) as [m ->]; exists m.
Qed.

End BootTheory.

(** A machine whose RSDP at address 0 is bad, and whose firmware has every table but the
    boot logo's. *)
#[local] Existing Instances Gdt.gdt_model Gdt.gdt_model_laws.
#[local] Instance apic_env_example : ApicEnv := { lapic_build _ := true; lapic_id := 0 }.
#[local] Instance aml_env_example : AmlEnv := {
  fadt_found := true; dsdt_address := None; dsdt_length := None; aml_initialize_objects := false;
  aml_parse_table := false; fadt_smi_cmd_port := 0; fadt_acpi_enable := 0; prt_found := false;
  prt_route _ _ _ := None;
}.
#[local] Instance pci_drivers_example : PciDrivers := {
  driver := unit; drv_state := unit; drv_handles _ _ _ := false;
  drv_start _ _ h k d := Ret (h, k, d); ahci_driver := tt; xhci_driver := tt; xhci_new _ k := Ret k;
}.
#[local] Instance acpi_tables_example : AcpiTablesEnv := {
  tables := unit; acpi_table := unit;
  from_rsdp r k := Ret (if r =? 0 then None else Some tt, k);
  find_table sig _ k := Ret (match sig with SigBgrt => None | _ => Some tt end, k);
  mcfg_entries _ := []; tables_dsdt _ k := Ret (None, k); tables_ssdts _ k := Ret ([], k);
  pci_config_regions _ k := Ret (None, k); platform_interrupts _ k := Ret (None, k);
}.
#[local] Instance boot_env_example : BootEnv := {
  table_at _ := ∅; boot_cr3 := 0; cpu_vendor := Some "GenuineIntel"%string; box_address _ := BEGIN_HEAP;
}.

Definition kernel_example (fb : option FrameBuffer) (rsdp : Z) : Kernel :=
  MkKernel (MkPci (MkKMem None false None false None (Some 0)) int_state_example (MkApic false [] [] false)
              (MkAml false false 0 []) [] [] [] 0 false [] tt)
    (MkLog None false 0) (MkBootInfo fb (Some rsdp) big_map None) None 0 None None None.

Lemma boot_error_paths_witness :
  let fb := Some (MkFb (MkInfo 1 1 FormatRgb 4 1) [0; 0; 0; 0]) in
  maink_boot false (kernel_example None 1) = Panic PUnwrap ∧
  (∃ s', maink_boot false (kernel_example fb 0) = Ret s') ∧
  ∃ m, maink_boot false (kernel_example fb 1) = Panic (PMsg m).
Proof.
  destruct heap_init_example as [k Hk]. intros fb.
  pose proof (boot_error_paths false (kernel_example None 1) k) as H1.
  pose proof (boot_error_paths false (kernel_example fb 0) k) as H2.
  pose proof (boot_error_paths false (kernel_example fb 1) k) as H3.
  cbn [kn_boot bi_regions ps_mem kn_pci kernel_example table_at boot_cr3 boot_env_example] in H1, H2, H3.
  specialize (H1 Hk eq_refl eq_refl eq_refl). specialize (H2 Hk eq_refl eq_refl eq_refl).
  specialize (H3 Hk eq_refl eq_refl eq_refl). split_and!.
  - exact H1.
  - destruct (proj1 H2 k eq_refl) as (s' & E & _). exists s'. exact E.
  - exact (proj2 H3 tt k (λ sig, match sig with SigBgrt => None | _ => Some tt end) SigBgrt eq_refl
      (λ sig k, ex_intro _ k eq_refl) eq_refl).
Defined.

(** ** Rendering *)

(** The bytes of a run of pixels, and a picture with its first bytes replaced. *)
Definition pixels_bytes (ps : list Pixel) : list Z := mjoin (pixel_bytes <$> ps.*2).
Definition overlay (bytes new : list Z) : list Z := new ++ drop (length new) bytes.

Lemma length_pixel_bytes c : length (pixel_bytes c) = 4%nat.
Proof. by destruct c. Qed.

Lemma length_pixels_bytes ps : length (pixels_bytes ps) = (4 * length ps)%nat.
Proof.
  induction ps as [|p ps IH]; [done|].
  change (pixels_bytes (p :: ps)) with (pixel_bytes p.2 ++ pixels_bytes ps).
  rewrite length_app, length_pixel_bytes, IH. cbn [length]. lia.
Qed.

Lemma pixels_bytes_lookup ps i :
  pixels_bytes ps !! i = p ← ps !! (i / 4)%nat; pixel_bytes p.2 !! (i mod 4)%nat.
Proof.
  revert i. induction ps as [|p ps IH]; intros i; [by destruct (i / 4)%nat|].
  change (pixels_bytes (p :: ps)) with (pixel_bytes p.2 ++ pixels_bytes ps).
  destruct (decide (i < 4)%nat) as [Hi|Hi].
  - rewrite lookup_app_l by (rewrite length_pixel_bytes; lia).
    by rewrite Nat.div_small, Nat.mod_small by lia.
  - rewrite lookup_app_r by (rewrite length_pixel_bytes; lia). rewrite length_pixel_bytes, IH.
    assert (i / 4 = S ((i - 4) / 4) ∧ i mod 4 = (i - 4) mod 4)%nat as [-> ->]; [|done].
    replace i with (i - 4 + 1 * 4)%nat by lia. rewrite Nat.div_add, Nat.Div0.mod_add, Nat.add_sub by lia. lia.
Qed.

(** Merging a canvas replaces the bytes of the pixels that fit. *)
Lemma merge_bytes_overlay ps bytes :
  merge_bytes 4 ps bytes = Ret (overlay bytes (pixels_bytes (take (length bytes / 4) ps))).
Proof.
  revert ps. remember (length bytes / 4)%nat as n eqn:Hn. revert bytes Hn.
  induction n as [|n IH]; intros bytes Hn ps.
  - assert (length bytes < 4)%nat by (apply Nat.div_small_iff; lia).
    unfold merge_bytes. rewrite chunks_exact_small by done. done.
  - assert (4 <= length bytes)%nat as Hl by (apply Nat.div_str_pos_iff; lia).
    destruct bytes as [|b0 [|b1 [|b2 [|b3 bytes]]]]; cbn [length] in Hl; try lia.
    change (b0 :: b1 :: b2 :: b3 :: bytes) with ([b0; b1; b2; b3] ++ bytes).
    assert (n = length bytes / 4)%nat as Hn'.
    { cbn [length] in Hn. replace (S (S (S (S (length bytes))))) with (length bytes + 1 * 4)%nat in Hn by lia.
      rewrite Nat.div_add in Hn by lia. lia. }
    unfold merge_bytes in *. rewrite chunks_exact_app by done.
    destruct ps as [|p ps]; [done|]. specialize (IH bytes Hn' ps).
    cbn [zip zip_with mapO]. change (merge_chunk ([b0; b1; b2; b3], p)) with (Ret (pixel_bytes p.2)).
    cbn [mbind outcome_bind] in *.
    destruct (mapO merge_chunk _) as [new|e|]; cbn [mbind outcome_bind] in *; [|done..].
    injection IH as IH. f_equal. unfold overlay in *. cbn [take].
    change (pixels_bytes (p :: ?l)) with (pixel_bytes p.2 ++ pixels_bytes l).
    rewrite length_app, length_pixel_bytes. cbn [Nat.add app drop mjoin list_join length Nat.mul].
    rewrite <- !app_assoc. f_equal. exact IH.
Qed.

(** Painting all canvases over a picture of [n] pixels. *)
Definition paint (n : nat) (t : CompositingTable) (bytes : list Z) : list Z :=
  foldl (λ b cv, overlay b (pixels_bytes (take n (cv_pixels cv)))) bytes t.

(** A canvas covers byte [i] of a picture of [n] pixels. *)
Definition covers (n i : nat) (cv : CanvasBuf) : Prop := (i < 4 * Nat.min n (length (cv_pixels cv)))%nat.
#[local] Instance covers_dec n i cv : Decision (covers n i cv).
Proof. unfold covers. apply _. Defined.

Lemma overlay_lookup bytes new i :
  overlay bytes new !! i = if decide (i < length new)%nat then new !! i else bytes !! i.
Proof.
  unfold overlay. case_decide; [by apply lookup_app_l|].
  rewrite lookup_app_r, lookup_drop by lia. f_equal. lia.
Qed.

Lemma overlay_length bytes cv :
  length (overlay bytes (pixels_bytes (take (length bytes / 4) (cv_pixels cv)))) = length bytes.
Proof.
  unfold overlay. rewrite length_app, length_drop, length_pixels_bytes, length_take.
  pose proof (Nat.Div0.mul_div_le (length bytes) 4). lia.
Qed.

Lemma paint_snoc n t cv bytes :
  paint n (t ++ [cv]) bytes = overlay (paint n t bytes) (pixels_bytes (take n (cv_pixels cv))).
Proof. unfold paint. by rewrite foldl_snoc. Qed.

Lemma paint_lookup n t bytes i :
  paint n t bytes !! i =
  match last (filter (covers n i) t) with
  | Some cv => p ← cv_pixels cv !! (i / 4)%nat; pixel_bytes p.2 !! (i mod 4)%nat
  | None => bytes !! i
  end.
Proof.
  induction t as [|cv t IH] using rev_ind; [done|].
  rewrite paint_snoc, overlay_lookup, length_pixels_bytes, length_take, filter_app, filter_cons, filter_nil.
  destruct (decide (covers n i cv)) as [Hc|Hc].
  2:{ rewrite !decide_False by exact Hc. by rewrite app_nil_r. }
  rewrite !decide_True by exact Hc. rewrite last_snoc, pixels_bytes_lookup, lookup_take_lt; [done|].
  unfold covers in Hc. apply Nat.Div0.div_lt_upper_bound. lia.
Qed.

Lemma paint_idem n t bytes : paint n t (paint n t bytes) = paint n t bytes.
Proof.
  apply list_eq. intros i. rewrite !paint_lookup. by destruct (last _).
Qed.

Lemma merge_down_spec cpu cv info bytes c :
  fb_bytes_per_pixel info = 4 → Avx.has_avx cpu = true → Avx.any_sse cpu = true →
  ∃ c', merge_down (Some cpu) cv (MkFb info bytes) c =
    Ret (MkFb info (overlay bytes (pixels_bytes (take (length bytes / 4) (cv_pixels cv)))), c').
Proof.
  intros Hb Ha Hs. unfold merge_down. cbn [fb_info fb_bytes]. rewrite Hb. change (Z.to_nat 4) with 4%nat.
  rewrite merge_bytes_overlay.
  destruct (Avx.with_avx_spec cpu (overlay bytes (pixels_bytes (take (length bytes / 4) (cv_pixels cv)))) c Ha Hs)
    as (c1 & -> & _). by exists c1.
Qed.

Lemma render_pass_spec cpu t info bytes c :
  fb_bytes_per_pixel info = 4 → Avx.has_avx cpu = true → Avx.any_sse cpu = true →
  ∃ c', render_pass (Some cpu) t (MkFb info bytes, c) = Ret (MkFb info (paint (length bytes / 4) t bytes), c').
Proof.
  intros Hb Ha Hs. unfold render_pass. revert bytes c. induction t as [|cv t IH]; intros bytes c; [by exists c|].
  cbn [foldO]. destruct (merge_down_spec cpu cv info bytes c Hb Ha Hs) as (c1 & ->). cbn [mbind outcome_bind].
  destruct (IH (overlay bytes (pixels_bytes (take (length bytes / 4) (cv_pixels cv)))) c1) as (c2 & E).
  exists c2. rewrite overlay_length in E. exact E.
Qed.

Lemma paint_length t bytes : length (paint (length bytes / 4) t bytes) = length bytes.
Proof.
  unfold paint. remember (length bytes) as L eqn:HL. revert bytes HL.
  induction t as [|cv t IH]; intros bytes HL; [done|]. cbn [foldl]. apply IH.
  subst L. symmetry. apply overlay_length.
Qed.

(** C19: the rendering loop settles after one turn.  On a framebuffer with four bytes per
    pixel, every turn returns, each byte of the picture comes from the canvas registered
    last among those that reach it, or is as it was, and any number of further turns
    leaves the picture as the first one drew it. *)
Theorem render_stable cpu t fb c :
  fb_bytes_per_pixel (fb_info fb) = 4 → Avx.has_avx cpu = true → Avx.any_sse cpu = true →
  let n := (length (fb_bytes fb) / 4)%nat in
  ∃ bytes, length bytes = length (fb_bytes fb) ∧
    (∀ turns, ∃ c', render (S turns) (Some cpu) t (fb, c) = Ret (MkFb (fb_info fb) bytes, c')) ∧
    ∀ i, bytes !! i =
      match last (filter (covers n i) t) with
      | Some cv => p ← cv_pixels cv !! (i / 4)%nat; pixel_bytes p.2 !! (i mod 4)%nat
      | None => fb_bytes fb !! i
      end.
Proof.
  destruct fb as [info bytes]. intros Hb Ha Hs n. cbn [fb_info fb_bytes] in *.
  exists (paint n t bytes). split_and!; [apply paint_length| |apply paint_lookup].
  assert (∀ turns c, ∃ c', render turns (Some cpu) t (MkFb info (paint n t bytes), c) =
    Ret (MkFb info (paint n t bytes), c')) as Hfix.
  { intros turns. induction turns as [|turns IH]; intros c1; [by exists c1|]. cbn [render].
    destruct (render_pass_spec cpu t info (paint n t bytes) c1 Hb Ha Hs) as (c2 & ->). cbn [mbind outcome_bind].
    unfold n. rewrite paint_length, paint_idem. apply IH. }
  intros turns. cbn [render].
  destruct (render_pass_spec cpu t info bytes c Hb Ha Hs) as (c1 & ->). apply Hfix.
Qed.

Lemma render_stable_witness :
  let cpu := Avx.MkFeatures true true true true true true true in
  let info := MkInfo 2 1 FormatRgb 4 2 in
  let cv c n := MkCanvas (replicate n ((0, 0), c)) info in
  ∃ bytes, (∀ turns, ∃ c', render (S turns) (Some cpu) [cv (Rgb 1 2 3) 2%nat; cv (Rgb 7 8 9) 1%nat]
      (MkFb info (replicate 8 0), Avx.MkCtl 0 0 0) = Ret (MkFb info bytes, c')) ∧
    bytes !! 0%nat = Some 7 ∧ bytes !! 4%nat = Some 1.
Proof.
  intros cpu info cv.
  destruct (render_stable cpu [cv (Rgb 1 2 3) 2%nat; cv (Rgb 7 8 9) 1%nat] (MkFb info (replicate 8 0))
    (Avx.MkCtl 0 0 0) eq_refl eq_refl eq_refl) as (bytes & _ & Hr & Hl).
  exists bytes. split_and!; [exact Hr|rewrite Hl; reflexivity|rewrite Hl; reflexivity].
Defined.

(** The boot information, the heap and the kernel stack (whose address is sign-extended
    into the high half) are far apart. *)
Lemma memory_layout `{X86PagingLaws} :
  BOOT_INFO_ADDR + 2 ^ 40 <= BEGIN_HEAP ∧ BEGIN_HEAP + HEAP_LEN < 2 ^ 47 ∧
  ∃ a, virt_addr_new KERNEL_STACK_ADDR = Ret a ∧ 2 ^ 64 - 2 ^ 47 <= a ∧ a + KERNEL_STACK_SIZE <= 2 ^ 64.
Proof.
  split; [done|]. split; [done|]. eexists.
  rewrite virt_addr_new_ext by (unfold KERNEL_STACK_ADDR; lia). done.
Qed.

(** What the configuration asks for: the kernel finds the boot information where it looks
    for it, and both fixed mappings are page-aligned and inside the dynamic range, which
    also covers the heap that the kernel maps itself. *)
Lemma config_layout :
  mp_boot_info (cfg_mappings CONFIG) = FixedAddress BOOT_INFO_ADDR ∧
  BOOT_INFO_ADDR mod page_size = 0 ∧ KERNEL_STACK_ADDR mod page_size = 0 ∧
  ∃ lo hi, mp_dynamic_range_start MAPPINGS = Some lo ∧ mp_dynamic_range_end MAPPINGS = Some hi ∧
    lo <= BOOT_INFO_ADDR ∧ BEGIN_HEAP + HEAP_LEN <= hi ∧ KERNEL_STACK_ADDR + cfg_kernel_stack_size CONFIG <= hi.
Proof. repeat split. by exists 0, 0xffffffffffff. Qed.
