(* ===== verification/Runner.v ===== *)
(** * The runner tool, runner/src/main.rs

    A host program that builds the disk image, and runs it in QEMU or writes it to a
    device, by starting other commands.  The host is a parameter: what a command's exit
    status is, whether a file exists, what the user types.  A program is a function of the
    state, which records the commands it started; it may leave through [exit] or a
    panic. *)

From S2P Require Import Prelude.

Local Open Scope Z_scope.
Local Open Scope string_scope.

Record Command : Type := MkCommand { cmd_program : string; cmd_args : list string }.
#[export] Instance Command_eq_dec : EqDecision Command.
Proof. solve_decision. Defined.

(** [Command::status()]: an error when the program cannot be started, else the exit code,
    which a signal leaves out. *)
Inductive Status : Type := SpawnError | Exited (code : option Z).
Definition success (s : Status) : bool := match s with Exited (Some 0) => true | _ => false end.
Definition is_err (s : Status) : bool := match s with SpawnError => true | Exited _ => false end.

(** [BootConfig]: the least framebuffer size, and whether the log level is [Trace]. *)
Record BootConfig : Type := MkBootConfig { bc_framebuffer : option (Z * Z); bc_trace : bool }.

Class Host : Type := {
  host : Type;
  run_status : Command → host → Status * host;
  run_output : Command → host → option string * host;          (* stdout of [output()] *)
  file_exists : string → host → bool;
  read_line : host → option string * host;                     (* with its newline *)
  create_image : string → BootConfig → host → bool * host;     (* UefiBoot::create_disk_image *)
  manifest_parent : string;
  ovmf_prebuilt : string;
  contains : string → string → bool;                           (* str::contains *)
}.

(** [cfg!(target_os = ..)]. *)
Inductive target_os : Type := Linux | Windows | OtherOs.
#[export] Instance target_os_eq_dec : EqDecision target_os.
Proof. solve_decision. Defined.

Section Runner.
Context `{Host}.

Record St : Type := MkSt { st_host : host; st_log : list Command; st_env : list (string * string) }.
Inductive ending (A : Type) : Type := Done (a : A) | Exit (code : Z) | Panicked (p : panic_info).
#[global] Arguments Done {A} a.
#[global] Arguments Exit {A} code.
#[global] Arguments Panicked {A} p.

Definition Prog (A : Type) : Type := St → ending A * St.
#[global] Instance prog_ret : MRet Prog := λ A a s, (Done a, s).
#[global] Instance prog_bind : MBind Prog := λ A B f m s,
  match m s with
  | (Done a, s) => f a s
  | (Exit c, s) => (Exit c, s)
  | (Panicked p, s) => (Panicked p, s)
  end.

Definition exit {A} (code : Z) : Prog A := λ s, (Exit code, s).
Definition panic {A} (p : panic_info) : Prog A := λ s, (Panicked p, s).
Definition unwrap_opt {A} (o : option A) : Prog A := match o with Some a => mret a | None => panic PUnwrap end.

(** [status()] and [output()]. *)
Definition status (c : Command) : Prog Status := λ s,
  let '(r, h) := run_status c (st_host s) in (Done r, MkSt h (st_log s ++ [c]) (st_env s)).
Definition output (c : Command) : Prog (option string) := λ s,
  let '(r, h) := run_output c (st_host s) in (Done r, MkSt h (st_log s ++ [c]) (st_env s)).
Definition exists_file (p : string) : Prog bool := λ s, (Done (file_exists p (st_host s)), s).
Definition set_var (k v : string) : Prog unit := λ s, (Done tt, MkSt (st_host s) (st_log s) ((k, v) :: st_env s)).

Definition which (program : string) : Command := MkCommand "which" [program].

(** ** The disk image *)

Definition out_path : string := manifest_parent ++ "/cryptos.img".

Definition create_disk_image (opt_level_0 : bool) (framebuf : option (Z * Z)) : Prog unit := λ s,
  let c := MkBootConfig framebuf opt_level_0 in
  let '(ok, h) := create_image out_path c (st_host s) in
  let s := MkSt h (st_log s) (st_env s) in
  if ok then (Done tt, s) else (Exit 1, s).

(** ** Dependencies *)

Inductive HostDistro : Type := Ubuntu | Archlinux.

Definition host_distro_new : Prog HostDistro :=
  ubuntu ← status (which "apt-get");
  match ubuntu with
  | SpawnError => panic PAssert
  | Exited _ =>
      if success ubuntu then mret Ubuntu
      else
        arch ← status (which "pacman");
        match arch with
        | SpawnError => panic PAssert
        | Exited _ => if success arch then mret Archlinux else panic PAssert
        end
  end.

(** [status().unwrap_or_else(.. exit(1))], then [exit(code)] unless it succeeded. *)
Definition run_install (c : Command) : Prog unit :=
  st ← status c;
  match st with
  | SpawnError => exit 1
  | Exited code => if success st then mret tt else code ← unwrap_opt code; exit code
  end.

(** Both functions ask for 7z, gcc and QEMU in turn; [install] is the package manager's
    command with all, two or one of its packages. *)
Definition install_deps (install : list string → Command) (compiler qemu zip : string) : Prog unit :=
  s1 ← status (which "7z");
  if is_err s1 then
    s2 ← status (which "gcc");
    if is_err s2 then
      s3 ← status (which "qemu-system-x86_64");
      if is_err s3 then run_install (install [compiler; qemu; zip])
      else run_install (install [compiler; zip])
    else run_install (install [zip])
  else mret tt.

Definition install_arch_deps : Prog unit :=
  install_deps (λ ps, MkCommand "sudo" (["pacman"; "--noconfirm"; "-S"] ++ ps)%list)
    "base-devel" "qemu-system-x86" "p7zip".
Definition install_ubuntu_deps : Prog unit :=
  install_deps (λ ps, MkCommand "sudo" (["apt-get"; "-y"; "install"] ++ ps)%list)
    "build-essential" "qemu-system-x86" "p7zip-full".

(** ** QEMU *)

Definition download_ovmf : Prog unit :=
  out ← output (MkCommand ovmf_prebuilt []);
  match out with
  | None => panic (PMsg "Error attempting to download and extract latest version of OVMF")
  | Some _ =>
      st ← status (MkCommand "cp"
             ["target/download/extracted/usr/share/edk2.git/ovmf-x64/OVMF-pure-efi.fd"; manifest_parent]);
      match st with
      | SpawnError => panic PUnwrap
      | Exited code => if success st then mret tt else code ← unwrap_opt code; exit code
      end
  end.

(** Whether an editor is installed, and from a snap. *)
Definition editor_is_snap (editor : string) : Prog (option bool) :=
  st ← status (which editor);
  match st with
  | SpawnError => mret None
  | Exited _ =>
      if success st then
        out ← output (which editor);
        path ← unwrap_opt out;
        mret (Some (contains path "/snap"))
      else mret None
  end.

Definition is_snap : Prog (option bool) :=
  st ← status (which "snap");
  match st with
  | SpawnError => mret None
  | Exited _ =>
      if success st then
        vscode ← editor_is_snap "code";
        insiders ← editor_is_snap "code-insiders";
        mret (match insiders with Some b => Some b | None => vscode end)
      else mret None
  end.

Definition qemu_command : Command := MkCommand "qemu-system-x86_64"
  ["-drive"; "id=disk,format=raw,file=" ++ out_path ++ ",if=none"; "-device"; "ahci,id=ahci";
   "-device"; "ide-hd,drive=disk,bus=ahci.0"; "-device"; "qemu-xhci";
   "-drive"; "if=none,id=stick,format=raw,file=usb-storage.img"; "-device"; "nec-usb-xhci,id=xhci";
   "-device"; "usb-storage,bus=xhci.0,drive=stick"; "-bios"; "OVMF-pure-efi.fd"; "-machine"; "q35";
   "-m"; "4G"; "-d"; "int"; "-nic"; "none"].

Definition run_qemu (os : target_os) : Prog unit :=
  (if decide (os = Linux) then
         d ← host_distro_new;
         snap ← is_snap;
         match snap with
         | Some true =>
             set_var "LD_PRELOAD" (match d with
                                   | Ubuntu => "/usr/lib/x86_64-linux-gnu/libpthread.so.0"
                                   | Archlinux => "/usr/lib/libpthread.so.0"
                                   end)
         | _ => mret tt
         end
       else mret tt);;
  st ← status qemu_command;
  match st with
  | SpawnError => panic PUnwrap
  | Exited code => if success st then mret tt else code ← unwrap_opt code; exit code
  end.

(** ** [main] *)

(** The device: the second argument, or the line the user types; only a failed read
    cancels. *)
Definition write_device (args : list string) : Prog string :=
  match args with
  | _ :: dev :: _ => mret dev
  | _ => λ s : St,
      let '(r, h) := read_line (st_host s) in
      let s := MkSt h (st_log s) (st_env s) in
      match r with Some dev => (Done dev, s) | None => (Exit 0, s) end
  end.

Definition dd_command (dev : string) : Command :=
  MkCommand "sudo" ["dd"; "if=" ++ out_path; "of=" ++ dev].

Definition main_write (os : target_os) (opt_level_0 : bool) (args : list string) : Prog unit :=
  if decide (os = Windows) then exit 1
  else
    create_disk_image opt_level_0 (Some (1920, 1080));;
    dev ← write_device args;
    st ← status (dd_command dev);
    match st with SpawnError => exit 1 | Exited _ => mret tt end.

(** [args] are the command line's arguments after the program's name. *)
Definition main (os : target_os) (opt_level_0 : bool) (args : list string) : Prog unit :=
  (if decide (os = Linux) then
         d ← host_distro_new;
         match d with Ubuntu => install_ubuntu_deps | Archlinux => install_arch_deps end
       else mret tt);;
  match args with
  | [] => create_disk_image opt_level_0 None
  | arg :: _ =>
      if decide (arg = "--boot") then
        create_disk_image opt_level_0 None;;
        found ← exists_file "OVMF-pure-efi.fd";
        if (found : bool) then run_qemu os else (download_ovmf;; run_qemu os)
      else if decide (arg = "--write") then main_write os opt_level_0 args
      else exit 1
  end.

End Runner.

(** ** What the runner starts *)

Section RunnerTheory.
Context `{Host}.

(** The commands a program starts, from any state, all satisfy [P]. *)
Definition starts_only (P : Command → Prop) {A} (m : Prog A) : Prop :=
  ∀ s, ∃ l, st_log (m s).2 = (st_log s ++ l)%list ∧ Forall P l.

Lemma starts_pure P {A} (m : Prog A) : (∀ s, st_log (m s).2 = st_log s) → starts_only P m.
Proof. intros Hm s. exists []. by rewrite app_nil_r. Qed.

Lemma starts_bind P {A B} (m : Prog A) (f : A → Prog B) :
  starts_only P m → (∀ a, starts_only P (f a)) → starts_only P (m ≫= f).
Proof.
  intros Hm Hf s. unfold mbind, prog_bind. destruct (Hm s) as (l & E & Hl).
  destruct (m s) as [[a|c|p] s1]; cbn [snd] in *; [|by exists l..].
  destruct (Hf a s1) as (l2 & E2 & Hl2). exists (l ++ l2)%list. rewrite E2, E, <- app_assoc.
  split; [done|]. by apply Forall_app.
Qed.

Lemma starts_status (P : Command → Prop) c : P c → starts_only P (status c).
Proof.
  intros Hc s. exists [c]. unfold status. destruct (run_status c (st_host s)). split; [done|by constructor].
Qed.
Lemma starts_output (P : Command → Prop) c : P c → starts_only P (output c).
Proof.
  intros Hc s. exists [c]. unfold output. destruct (run_output c (st_host s)). split; [done|by constructor].
Qed.

Lemma starts_image P o f : starts_only P (create_disk_image o f).
Proof.
  apply starts_pure. intros s. unfold create_disk_image. by destruct (create_image _ _ _) as [[] ?].
Qed.

Lemma starts_unwrap P {A} (o : option A) : starts_only P (unwrap_opt o).
Proof. apply starts_pure. by destruct o. Qed.

Definition not_sudo (c : Command) : Prop := cmd_program c ≠ "sudo".

(** Go through a program. *)
Ltac starts :=
  repeat first
    [ apply starts_bind; [|intros ?]
    | apply starts_image | apply starts_unwrap
    | apply starts_status; done | apply starts_output; done
    | apply starts_pure; done
    | case_match | case_decide ].

(** [which] can always be started. *)
Context (Hwhich : ∀ p h, is_err (run_status (which p) h).1 = false).

(** Looking a dependency up never fails to start, so the function ends there. *)
Lemma install_deps_done install compiler qemu zip s :
  ∃ h, install_deps install compiler qemu zip s =
    (Done tt, MkSt h (st_log s ++ [which "7z"])%list (st_env s)).
Proof.
  unfold install_deps, status. cbn [mbind prog_bind]. pose proof (Hwhich "7z" (st_host s)) as Hw.
  unfold mbind, prog_bind. destruct (run_status (which "7z") (st_host s)) as [r h]. cbn [fst] in Hw.
  rewrite Hw. by exists h.
Qed.

Lemma starts_install install compiler qemu zip : starts_only not_sudo (install_deps install compiler qemu zip).
Proof.
  intros s. destruct (install_deps_done install compiler qemu zip s) as (h & ->).
  exists [which "7z"]. split; [done|]. by constructor.
Qed.

Lemma starts_distro : starts_only not_sudo host_distro_new.
Proof. unfold host_distro_new. starts. Qed.

Lemma starts_is_snap : starts_only not_sudo is_snap.
Proof. unfold is_snap, editor_is_snap. starts. Qed.

Lemma starts_qemu os : starts_only not_sudo (run_qemu os).
Proof.
  unfold run_qemu. apply starts_bind; [|intros ?; starts].
  case_decide; [|by apply starts_pure].
  apply starts_bind; [apply starts_distro|intros d]. apply starts_bind; [apply starts_is_snap|intros [[]|]]; starts.
Qed.

Context (Hovmf : ovmf_prebuilt ≠ "sudo").

(** C36: the runner never installs its dependencies.  Whether 7z is there or not, asking
    [which] for it can be started, which is all the code tests: both installers return
    having run that one command.  Hence no run of [main] other than [--write] ever
    starts [sudo]. *)
Theorem runner_never_installs os opt args s :
  (∃ h, install_ubuntu_deps s = (Done tt, MkSt h (st_log s ++ [which "7z"])%list (st_env s))) ∧
  (∃ h, install_arch_deps s = (Done tt, MkSt h (st_log s ++ [which "7z"])%list (st_env s))) ∧
  (head args ≠ Some "--write" →
   ∃ l, st_log (main os opt args s).2 = (st_log s ++ l)%list ∧ Forall (λ c, cmd_program c ≠ "sudo") l).
Proof.
  split_and!; [apply install_deps_done..|]. intros Ha. revert s.
  change (starts_only not_sudo (main os opt args)). unfold main.
  apply starts_bind; [|intros _].
  { case_decide; [|by apply starts_pure]. apply starts_bind; [apply starts_distro|intros []]; apply starts_install. }
  destruct args as [|arg args]; [apply starts_image|]. cbn [head] in Ha.
  case_decide as Hb.
  - apply starts_bind; [apply starts_image|intros _]. apply starts_bind; [by apply starts_pure|intros []].
    + apply starts_qemu.
    + apply starts_bind; [|intros _; apply starts_qemu]. unfold download_ovmf. starts.
  - rewrite decide_False by congruence. by apply starts_pure.
Qed.

End RunnerTheory.

(** Writing the image without a device argument.  Whatever line is read, its newline
    included and an empty one too, is the device [dd] is started with, so leaving the
    prompt blank does not cancel; and the runner ends well whatever [dd]'s exit status,
    as long as [sudo] could be started. *)
Theorem runner_write_prompt `{Host} os opt h0 h1 h2 line log env :
  os ≠ Windows → create_image out_path (MkBootConfig (Some (1920, 1080)) opt) h0 = (true, h1) →
  read_line h1 = (Some line, h2) →
  let '(st, h3) := run_status (dd_command line) h2 in
  main_write os opt ["--write"] (MkSt h0 log env) =
    (if is_err st then Exit 1 else Done tt, MkSt h3 (log ++ [dd_command line])%list env).
Proof.
  intros Hos Hc Hr. unfold main_write. rewrite decide_False by done.
  unfold mbind, prog_bind, create_disk_image. cbn [st_host st_log st_env]. rewrite Hc. cbn [write_device].
  cbn [st_host st_log st_env]. rewrite Hr. unfold status. cbn [st_host st_log st_env].
  by destruct (run_status (dd_command line) h2) as [[|code] h3].
Qed.

(** A host where no program is found, every command can be started, and the user just
    presses return. *)
Definition newline : string := String (Ascii.ascii_of_nat 10) EmptyString.
#[local] Instance host_example : Host := {
  host := unit;
  run_status c h := (Exited (Some (if decide (cmd_args c = ["apt-get"]) then 0 else 1)), h);
  run_output _ h := (None, h);
  file_exists _ _ := true;
  read_line h := (Some newline, h);
  create_image _ _ h := (true, h);
  manifest_parent := "/src";
  ovmf_prebuilt := "ovmf-prebuilt";
  contains _ _ := false;
}.

Lemma runner_never_installs_witness :
  st_log (main Linux false [] (MkSt tt [] [])).2 = [which "apt-get"; which "7z"] ∧
  ∃ l, st_log (main Linux false ["--boot"] (MkSt tt [] [])).2 = ([] ++ l)%list ∧
    Forall (λ c, cmd_program c ≠ "sudo") l.
Proof.
  split; [reflexivity|].
  assert (∀ p h, is_err (run_status (which p) h).1 = false) as Hw by done.
  apply (@runner_never_installs host_example Hw ltac:(done) Linux false ["--boot"] (@MkSt host_example tt [] [])). done.
Defined.

Lemma runner_write_prompt_witness :
  main_write Linux false ["--write"] (MkSt tt [] []) = (Done tt, MkSt tt [dd_command newline] []).
Proof.
  exact (@runner_write_prompt host_example Linux false tt tt tt newline [] [] ltac:(done) eq_refl eq_refl).
Defined.
